(* ===== verification/_CoqProject ===== *)
-Q . S2P
Prelude.v
Kernel.v
ChrReg.v
Scull.v
ScullSpec.v
ScullThms.v
ScullIoctl.v
ScullPipe.v
ScullPipeThms.v
ScullPipeConc.v
ScullAccess.v
ScullAccessThms.v
Scullp.v
ScullpThms.v
BlkDev.v
BlkDevThms.v
BlkLegacy.v
ScullInit.v
ScullInitThms.v
ScullNodes.v
ScullpInit.v
ScullProc.v
ScullAsync.v
DList.v
ListMods.v
ListProc.v
CharDev.v
CharDevThms.v
UserMap.v
ScullThreads.v
ScullSystem.v
Md5Dev.v
MmapDev.v
MmapApp.v
CharApps.v
BlkApp.v
XArray.v
SmallMods.v
ProcEntries.v
BasicMods.v
ScullDebug.v
MyCall.v
Sfs.v
SfsTree.v
SfsConc.v
ExProc.v
ShowMem.v
Lru.v
FindTable.v
KTimer.v
UioApp.v
SlabEx.v
IpInput.v
IpInputThms.v
NetFilter.v
NetPath.v
Idr.v
IdrTest.v
IdrTestThms.v
IdrChecks.v
IdaChecks.v
