(* ===== verification/Prelude.v ===== *)
(** * Verification of ex_kernel

    The repository is a collection of Linux kernel modules and kernel changes:
    the scull family of character drivers (src/ldd), block, character, /proc,
    file-system, memory and netfilter modules (src/m_modules), and a changed
    IPv4 input routine and IDR test (src/linux).  Each module is small and
    self-contained; what they share is the kernel.  The development follows
    that shape: the kernel services are interfaces (type classes whose laws are
    documented behaviour), and every module is a file of executable definitions
    over those interfaces, with theorems that hold for every kernel that
    satisfies the laws.  Each interface has a concrete instance, on which the
    definitions run and the theorems are applied.

    ** Conventions

    - A C integer is a [Z]; conversions and stores wrap explicitly ([u32], [s64],
      ... in this file).  A byte of memory is a [cell], [None] before anybody
      wrote it.
    - Stateful code runs in the state-and-fault monad [M]: an error the code
      reports (-ENOMEM, ...) is a return value, a [Fault] is an execution C gives
      no meaning to (null pointer, out of bounds, division by zero, double free,
      self-deadlock) or a failed assertion.  [wp m s Q] says that [m] does not
      fault from [s] and ends in [Q]; a theorem that concludes with [wp] is total.
    - Loops are structural recursions on the count the C code computes (the words
      between two bounds in FindTable).  Loops without such a count have explicit
      sequences instead: the sleeps of scullpipe and scullwuid take the list of
      what others did meanwhile, the interrupt loop of ex_uio.c the answers of the
      kernel; or fuel: walks of lists and sequence files take one unit for each
      element and a result that tells when it was not enough, and resubmission in
      ip_protocol_deliver_rcu takes fuel: [ip_deliver_terminates] says what holds
      after any number of rounds, and that the bytes of the packet bound them when
      every handler that resubmits a packet has taken something off it.
    - Concurrency is interleaving: a section under a lock is one step, and
      sleeping is a program point (ScullThreads, ScullPipeConc, ScullAccess,
      IdaChecks, SfsConc, KTimer).  In the files that do not say so a call is one
      step (the histories of ScullThms, ScullPipeThms and ScullpThms).
    - What a block of memory or a piece of the stack holds before anybody wrote
      it is a parameter where code reads it as a string (CharDev, ListProc), and
      [None] elsewhere.
    - A mutex or spinlock that a handler takes and releases on every path of one
      step is not part of the state; that each path releases what it took is
      part of the definitions where a path could forget it.

    ** Files

    - Prelude: machine integers, the monad and its rules, buffers, counting.
    - Kernel: kmalloc, pages with their reference counts, user memory, ioctl
      words.  ChrReg: device numbers,
      cdevs, classes and device nodes.
    - Scull (ldd/scull/main.c, scull.h): open, release, read, write, llseek,
      follow and trim of the bare device.  ScullSpec: the abstraction to a
      sparse file and the behaviour of every function; ScullThms: refinement,
      round trip, memory accounting, reachable states, and the inputs main.c
      mishandles.  ScullIoctl: the ioctl of scull and scullp.
    - ScullPipe, ScullPipeThms (pipe.c): the circular buffer as a bounded FIFO;
      ScullPipeConc: any number of readers and writers, first-in first-out
      delivery and absence of lost wake-ups.
    - ScullAccess, ScullAccessThms (access.c): the four access policies.
    - ScullInit, ScullInitThms: load and unload of the whole scull module, and
      its /proc sequence operations.  ScullNodes: the tables of file operations,
      and which of them the nodes of the scripts scull_load and scull.init open.
      ScullProc: the /proc printers of scull, scullpipe and scullp.  ScullDebug:
      the builds with SCULL_DEBUG, which make and remove the entries of those
      printers.  ScullAsync (ldd/scull-shared): deferred I/O.
    - Scullp, ScullpThms, ScullpInit (ldd/scullp): the page-based device, its
      fault handler with the page references it takes, load and unload.
    - ScullThreads: many threads on a scull device, with the ioctl commands among
      their calls; the statements outside the mutex interleave.  ScullSystem: what
      a process without privileges breaks on scullpipe and scullp.
    - BlkDev, BlkDevThms, BlkLegacy (m_modules/blk_dev): request service of the
      four block drivers, their equivalence, add and remove, load and unload.
    - DList, ListMods, ListProc (m_modules/ds, proc/list_proc.c): the pointer
      list and its users; the list interface [KList] is implemented by DList.
    - CharDev, CharDevThms (char_dev/chardev.c, ioctl.c), Md5Dev (cdev.c,
      md5_dev.c), MmapDev (mm/mmap_dev.c), Sfs, SfsTree and SfsConc (fs/sfs.c: the
      files, the tree, many readers), ExProc (proc/ex_proc.c), NetFilter
      (m_modules/net).
    - UserMap: user memory as a finite map of bytes, the instance on which
      MmapApp (mm/mmap_app.c) and CharApps (char_dev/chardev_app.c, ioctl_app.c,
      md5_app.c) run: user-space programs composed with the models of their
      drivers.  BlkApp (blk_dev/blkdev_app.c): a program over the file of a block
      device, an interface which the requests of blkdev.c implement.  MyCall
      (linux/kernel/mycall.c, linux/test_syscall.c): two system calls and the
      program that calls them.
    - ShowMem (mm/show_mem.c), Lru (mm/lru.c), XArray (ds/xarray.c), SmallMods
      (mm/cache.c and the debugfs modules), SlabEx (mm/slab_ex.c): modules that
      inspect the kernel.  FindTable (basic/find_table.c): a search of kernel
      memory.  KTimer (time/ktime.c): a periodic timer beside the clock.  UioApp
      (uio/ex_uio.c): an interrupt loop.  ProcEntries (proc/timer.c,
      simple_proc.c, the load of ex_proc.c): entries of /proc by name.  BasicMods
      (basic/hello.c, parm1.c to parm3.c, time/delay.c, rdtsc.c, rdtsc_app.c): the
      first modules, with their parameters.
    - IpInput, IpInputThms (linux/net/ipv4/ip_input.c): the receive path, alone
      and in batches, with the HTTP filter that was added to it.  NetPath: local
      delivery with the module http_netfilter.c loaded.
    - Idr, IdrTest, IdrTestThms, IdrChecks, IdaChecks
      (linux/tools/testing/idr-test.c): the IDR and IDA interfaces with an
      implementation, the tests over them but for idr_find_test, and the proof
      that no assertion of them can fail, in the twenty threads of
      ida_thread_tests either.

    ** What the theorems show

    - Refinement: scull is a sparse file, scullpipe a queue, chardev a table of
      buffers, the block drivers a disk, list.h a sequence.
    - Safety and accounting: which calls cannot fault and which can, unloading
      gives back what loading took and what was allocated since, or exactly which object is
      forgotten; who may open the access-controlled devices.
    - Concurrency: the queue is first-in first-out under any interleaving, and
      no sleeper is left without a pending wake-up; threads on scull with the
      default geometry are safe, and with another one they are not; readers of a counter file lose
      no increment, but may all be given the same value.
    - Round trips: write then read on scull, the block drivers, the ioctl
      structure, the counter files, the mapped page, the list in /proc.
    - Errors: every refusal of the handlers with its code and its effect, and
      the faults of the code, as equations.
    - Tables: the ioctl handlers of scull and scullp are the tables of their
      commands.
    - Equivalence: the three block drivers do the same with every request and two of
      them answer it alike, the two /proc files of scull print the same text, and
      to the module the builds with SCULL_DEBUG are the builds without.
    - Composition: what the test programs print when they run on the drivers, and
      that the nodes a script makes open the drivers their names say; what the
      HTTP module keeps from being delivered.

    ** Bounds

    Positions and sizes are bounded where C arithmetic is: theorems on scull
    positions carry the bounds within which the code's ints do not wrap, and
    companion theorems show what happens past them.

    ** Not modelled

    - Messages (printk) where no theorem is about them, but for the strings that
      those of chardev.c read; the sysfs side of module parameters; licence macros.
    - The tables of functions and other constant structures a file hands to the
      kernel, but for those of scull (ScullNodes) and the fields a model reads.
    - idr_find_test of idr-test.c: its two threads change one idr at the same time
      without a lock, and the interface of the IDR describes whole calls only.
    - hexdump and hexdump_as_str of char_dev/md5_dev.c and xa_user_dump of
      ds/xarray.c, which print for debugging.
    - src/linux/include/linux/syscalls.h (but for struct cpu_info) and the
      headers of src/ldd/include: declarations without code.
    - ida_checks, which idr-test.c calls, is a function of the kernel
      (lib/test_ida.c) that the repository does not hold. *)
From Stdlib Require Import ZArith Lia.
From stdpp Require Import base list gmap.

Declare Scope ker_scope.
Delimit Scope ker_scope with ker.
Open Scope Z_scope.

(** ** Machine integers

    C integers are values of [Z] kept in range by an explicit wrap at the
    places where the C semantics converts or stores them. *)

Definition wrapu (w z : Z) : Z := z mod 2 ^ w.
Definition wraps (w z : Z) : Z := (z + 2 ^ (w - 1)) mod 2 ^ w - 2 ^ (w - 1).

Definition u32 (z : Z) : Z := wrapu 32 z.
Definition u64 (z : Z) : Z := wrapu 64 z.
Definition s32 (z : Z) : Z := wraps 32 z.
Definition s64 (z : Z) : Z := wraps 64 z.

Definition INT_MAX : Z := 2147483647.
Definition LLONG_MAX : Z := 9223372036854775807.

(** ** Faults, outcomes and the state-and-fault monad

    Errors the code reports are ordinary return values ([-ENOMEM], ...).
    A [Fault] is an execution the C code gives no meaning to: the theorems
    that conclude with [wp] show that none is reached. *)

Inductive fault :=
  | NullDeref      (* access through a null pointer *)
  | ErrPtr         (* access through an error value (IS_ERR) or a pointer never set *)
  | OutOfBounds    (* access outside the block a pointer points into *)
  | DivZero        (* integer division or remainder by zero *)
  | BadShift       (* shift by a count outside the width of the operand *)
  | BadFree        (* kfree of a block that is not allocated *)
  | SelfDeadlock   (* acquiring a mutex the caller already holds *)
  | BadUnlock      (* releasing a mutex that is not held *)
  | AssertFail     (* assert or BUG_ON with a wrong condition *).

#[export] Instance fault_eq_dec : EqDecision fault.
Proof. solve_decision. Defined.

Inductive outcome (A : Type) :=
  | Ret (a : A)
  | Fault (f : fault).
Arguments Ret {A} a.
Arguments Fault {A} f.

Definition M (S A : Type) : Type := S → outcome (A * S).

#[export] Instance M_ret {S} : MRet (M S) := λ A a s, Ret (a, s).
#[export] Instance M_bind {S} : MBind (M S) := λ A B k m s,
  match m s with
  | Ret (a, s') => k a s'
  | Fault f => Fault f
  end.

Definition mget {S} : M S S := λ s, Ret (s, s).
Definition mput {S} (s : S) : M S unit := λ _, Ret (tt, s).
Definition mfault {S A} (f : fault) : M S A := λ _, Fault f.
Definition mmodify {S} (g : S → S) : M S unit := λ s, Ret (tt, g s).

(** [for (i = i0; n iterations; i++) body] *)
Fixpoint mfor {S} (i n : nat) (body : nat → M S unit) : M S unit :=
  match n with
  | O => mret tt
  | Datatypes.S n' => body i ≫= λ _, mfor (Datatypes.S i) n' body
  end.

(** A loop over the elements of a list, in order. *)
Fixpoint mforeach {S A} (l : list A) (body : A → M S unit) : M S unit :=
  match l with
  | [] => mret tt
  | x :: r => body x ≫= λ _, mforeach r body
  end.

(** C division and remainder at width [w]: truncated, with the divide error
    for a zero divisor and for the one quotient that does not fit. *)
Definition div_traps (w a b : Z) : bool :=
  (b =? 0) || ((a =? - 2 ^ (w - 1)) && (b =? -1)).
Definition c_div {S} (w a b : Z) : M S Z :=
  if div_traps w a b then mfault DivZero else mret (Z.quot a b).
Definition c_rem {S} (w a b : Z) : M S Z :=
  if div_traps w a b then mfault DivZero else mret (Z.rem a b).

(** [wp m s Q]: run from [s], [m] does not fault and ends in a result and a
    state that satisfy [Q]. *)
Definition wp {S A} (m : M S A) (s : S) (Q : A → S → Prop) : Prop :=
  match m s with
  | Ret (a, s') => Q a s'
  | Fault _ => False
  end.

Section wp_rules.
Context {S : Type}.

Lemma wp_ret {A} (a : A) (s : S) Q : Q a s → wp (mret a) s Q.
Proof. done. Qed.

Lemma wp_bind {A B} (m : M S A) (k : A → M S B) (s : S) Q :
  wp m s (λ a s', wp (k a) s' Q) → wp (m ≫= k) s Q.
Proof. unfold wp, mbind, M_bind. by destruct (m s) as [[a s']|f]. Qed.

Lemma wp_mono {A} (m : M S A) (s : S) (P Q : A → S → Prop) :
  (∀ a s', P a s' → Q a s') → wp m s P → wp m s Q.
Proof. unfold wp. destruct (m s) as [[a s']|f]; eauto. Qed.
Lemma wp_and {A} (m : M S A) s (P Q : A → S → Prop) :
  wp m s P → wp m s Q → wp m s (λ a s', P a s' ∧ Q a s').
Proof. unfold wp. destruct (m s) as [[a s']|]; tauto. Qed.

Lemma wp_get (s : S) (Q : S → S → Prop) : Q s s → wp mget s Q.
Proof. done. Qed.

Lemma wp_put (s s' : S) (Q : unit → S → Prop) : Q tt s' → wp (mput s') s Q.
Proof. done. Qed.

Lemma wp_modify (g : S → S) (s : S) (Q : unit → S → Prop) :
  Q tt (g s) → wp (mmodify g) s Q.
Proof. done. Qed.

Lemma c_div_wp w a b (s : S) (Q : Z → S → Prop) :
  0 <= a → 0 < b → Q (a / b) s → wp (c_div w a b) s Q.
Proof.
  intros Ha Hb HQ. unfold c_div, div_traps.
  rewrite (proj2 (Z.eqb_neq b 0)), (proj2 (Z.eqb_neq b (-1))), andb_false_r by lia.
  simpl. rewrite Z.quot_div_nonneg by lia. done.
Qed.

Lemma c_rem_wp w a b (s : S) (Q : Z → S → Prop) :
  0 <= a → 0 < b → Q (a mod b) s → wp (c_rem w a b) s Q.
Proof.
  intros Ha Hb HQ. unfold c_rem, div_traps.
  rewrite (proj2 (Z.eqb_neq b 0)), (proj2 (Z.eqb_neq b (-1))), andb_false_r by lia.
  simpl. rewrite Z.rem_mod_nonneg by lia. done.
Qed.

Lemma wp_elim {A} (m : M S A) (s : S) Q :
  wp m s Q → ∃ a s', m s = Ret (a, s') ∧ Q a s'.
Proof. unfold wp. destruct (m s) as [[a s']|f]; naive_solver. Qed.

Lemma wp_run {A} (m : M S A) (s s' : S) a Q : wp m s Q → m s = Ret (a, s') → Q a s'.
Proof. unfold wp. intros W E. by rewrite E in W. Qed.

Lemma wp_intro {A} (m : M S A) (s s' : S) a (Q : A → S → Prop) :
  m s = Ret (a, s') → Q a s' → wp m s Q.
Proof. unfold wp. by intros ->. Qed.

Lemma bind_fault {A B} (m : M S A) (k : A → M S B) (s : S) f : m s = Fault f → (m ≫= k) s = Fault f.
Proof. unfold mbind, M_bind. by intros ->. Qed.
Lemma bind_run {A B} (m : M S A) (k : A → M S B) (s s' : S) a :
  m s = Ret (a, s') → (m ≫= k) s = k a s'.
Proof. unfold mbind, M_bind. by intros ->. Qed.

(** A loop with an invariant that counts its rounds. *)
Lemma mfor_wp (I : nat → S → Prop) i n (body : nat → M S unit) (s : S) : I i s →
  (∀ k s, (i ≤ k < i + n)%nat → I k s → wp (body k) s (λ _, I (Datatypes.S k))) →
  wp (mfor i n body) s (λ _, I (i + n)%nat).
Proof.
  revert i s. induction n as [|n IH]; intros i s Hi HB; cbn [mfor].
  - apply wp_ret. by rewrite Nat.add_0_r.
  - apply wp_bind. eapply wp_mono; [|apply HB; [lia|done]]. intros ? s' Hs.
    rewrite <- Nat.add_succ_comm. apply IH; [done|]. intros k t Hk. apply HB. lia.
Qed.

Lemma bind_inv {A B} (m : M S A) (k : A → M S B) (s s' : S) b :
  (m ≫= k) s = Ret (b, s') → ∃ a s1, m s = Ret (a, s1) ∧ k a s1 = Ret (b, s').
Proof. unfold mbind, M_bind. destruct (m s) as [[a s1]|f]; [eauto|done]. Qed.

End wp_rules.

(** One symbolic-execution step of a monadic program under [wp]. *)
Ltac wp_step :=
  match goal with
  | |- wp (_ ≫= _) _ _ => apply wp_bind
  | |- wp (mret _) _ _ => apply wp_ret
  | |- wp mget _ _ => apply wp_get
  | |- wp (mput _) _ _ => apply wp_put
  | |- wp (mmodify _) _ _ => apply wp_modify
  end; cbv beta.
Ltac wp_steps := repeat (wp_step; cbn).

(** ** Wrap lemmas *)

Lemma wrapu_id w z : 0 <= z < 2 ^ w → wrapu w z = z.
Proof. intros. unfold wrapu. by apply Z.mod_small. Qed.

Lemma wrapu_range w z : 0 <= w → 0 <= wrapu w z < 2 ^ w.
Proof. intros. unfold wrapu. apply Z.mod_pos_bound. by apply Z.pow_pos_nonneg. Qed.

Lemma wraps_id w z : 1 <= w → - 2 ^ (w - 1) <= z < 2 ^ (w - 1) → wraps w z = z.
Proof.
  intros Hw Hz. unfold wraps. rewrite Z.mod_small; [lia|].
  assert (2 ^ w = 2 * 2 ^ (w - 1)).
  { rewrite <- Z.pow_succ_r by lia. f_equal. lia. }
  lia.
Qed.

Lemma u32_id z : 0 <= z < 4294967296 → u32 z = z.
Proof. intros. by apply wrapu_id. Qed.
Lemma u64_id z : 0 <= z < 18446744073709551616 → u64 z = z.
Proof. intros. by apply wrapu_id. Qed.
Lemma s32_id z : -2147483648 <= z <= INT_MAX → s32 z = z.
Proof. unfold INT_MAX. intros. apply wraps_id; simpl; lia. Qed.
Lemma s64_id z : -9223372036854775808 <= z <= LLONG_MAX → s64 z = z.
Proof. unfold LLONG_MAX. intros. apply wraps_id; simpl; lia. Qed.

(** A sum past LLONG_MAX wraps to a negative value. *)
Lemma s64_over z :
  9223372036854775808 <= z < 27670116110564327424 → s64 z = z - 18446744073709551616.
Proof.
  intros. unfold s64, wraps.
  change (2 ^ (64 - 1)) with 9223372036854775808. change (2 ^ 64) with 18446744073709551616.
  Z.div_mod_to_equations. lia.
Qed.

Lemma u64_range z : 0 <= u64 z < 18446744073709551616.
Proof. by apply (wrapu_range 64). Qed.
Lemma u32_range z : 0 <= u32 z < 4294967296.
Proof. by apply (wrapu_range 32). Qed.
Lemma s32_range z : -2147483648 <= s32 z <= INT_MAX.
Proof.
  unfold s32, wraps, INT_MAX. pose proof (Z.mod_pos_bound (z + 2 ^ (32 - 1)) (2 ^ 32)).
  simpl in *. lia.
Qed.
Lemma s64_range z : -9223372036854775808 <= s64 z <= LLONG_MAX.
Proof.
  unfold s64, wraps, LLONG_MAX. pose proof (Z.mod_pos_bound (z + 2 ^ (64 - 1)) (2 ^ 64)).
  simpl in *. lia.
Qed.

(** Removes wraps whose argument is in range. *)
Ltac wrap_simpl :=
  unfold INT_MAX, LLONG_MAX in *;
  repeat match goal with
  | |- context [u32 ?z] => rewrite (u32_id z) by (lia || nia)
  | |- context [u64 ?z] => rewrite (u64_id z) by (lia || nia)
  | |- context [s32 ?z] => rewrite (s32_id z) by (unfold INT_MAX; lia || nia)
  | |- context [s64 ?z] => rewrite (s64_id z) by (unfold LLONG_MAX; lia || nia)
  end.
Ltac wrap_simpl_in H :=
  unfold INT_MAX, LLONG_MAX in *;
  repeat match type of H with
  | context [u32 ?z] => rewrite (u32_id z) in H by (lia || nia)
  | context [u64 ?z] => rewrite (u64_id z) in H by (lia || nia)
  | context [s32 ?z] => rewrite (s32_id z) in H by (unfold INT_MAX; lia || nia)
  | context [s64 ?z] => rewrite (s64_id z) in H by (unfold LLONG_MAX; lia || nia)
  end.

(** ** Buffers

    [slice off n l] is the [n] cells of [l] from offset [off]; stdpp's
    [list_inserts off src l] is what a memcpy of [src] to offset [off] makes
    of [l] (in range). *)

Definition slice {A} (off n : nat) (l : list A) : list A := take n (drop off l).

Section slice_lemmas.
Context {A : Type}.
Implicit Types l k : list A.
Local Open Scope nat_scope.

Lemma slice_length off n l : off + n ≤ length l → length (slice off n l) = n.
Proof. intros. unfold slice. rewrite length_take, length_drop. lia. Qed.

Lemma slice_lookup off n l i : i < n → slice off n l !! i = l !! (off + i).
Proof. intros. unfold slice. by rewrite lookup_take_lt, lookup_drop. Qed.

Lemma slice_nil off l : slice off 0 l = [].
Proof. done. Qed.

Lemma slice_split off n m l :
  slice off (n + m) l = slice off n l ++ slice (off + n) m l.
Proof.
  unfold slice. rewrite <- drop_drop, take_take_drop. done.
Qed.

Lemma slice_all l : slice 0 (length l) l = l.
Proof. unfold slice. by rewrite drop_0, firstn_all. Qed.

Lemma slice_ext off1 off2 n l k :
  (∀ i, i < n → l !! (off1 + i) = k !! (off2 + i)) → slice off1 n l = slice off2 n k.
Proof.
  intros H. apply list_eq. intros i. destruct (decide (i < n)).
  - rewrite !slice_lookup by done. auto.
  - rewrite !(proj2 (lookup_ge_None _ _)); [done|..];
      unfold slice; rewrite length_take; lia.
Qed.

(** A copy to the start. *)
Lemma inserts_prefix k l : length k ≤ length l → list_inserts 0 k l = k ++ drop (length k) l.
Proof.
  intros. rewrite <- (take_drop (length k) l) at 1. apply list_inserts_0_r.
  rewrite length_take. lia.
Qed.

(** Reading back what was copied in. *)
Lemma slice_inserts_same off k l :
  off + length k ≤ length l → slice off (length k) (list_inserts off k l) = k.
Proof.
  intros. apply list_eq. intros i. destruct (decide (i < length k)).
  - rewrite slice_lookup by done.
    rewrite list_lookup_inserts by lia. f_equal. lia.
  - rewrite !(proj2 (lookup_ge_None _ _)); [done|..]; [lia|].
    unfold slice. rewrite length_take. lia.
Qed.

(** A copy changes nothing outside its range. *)
Lemma slice_inserts_disjoint off n off' k l :
  off' + n ≤ off ∨ off + length k ≤ off' →
  slice off' n (list_inserts off k l) = slice off' n l.
Proof.
  intros [H|H]; apply slice_ext; intros i Hi.
  - apply list_lookup_inserts_lt. lia.
  - apply list_lookup_inserts_ge. lia.
Qed.

End slice_lemmas.

(** ** Counting

    [cnt f l]: how many elements of [l] satisfy [f], as a [Z]. *)

Definition cnt {A} (f : A → bool) (l : list A) : Z := Z.of_nat (length (filter f l)).

Section cnt_lemmas.
Context {A : Type}.
Implicit Types (f g : A → bool) (l : list A).

Lemma cnt_cons f x l : cnt f (x :: l) = Z.b2z (f x) + cnt f l.
Proof. unfold cnt. rewrite filter_cons. destruct (f x) eqn:E; case_decide; simpl; lia || naive_solver. Qed.

Lemma cnt_app f l k : cnt f (l ++ k) = cnt f l + cnt f k.
Proof. unfold cnt. rewrite filter_app, length_app. lia. Qed.

Lemma cnt_range f l : 0 <= cnt f l <= Z.of_nat (length l).
Proof. unfold cnt. pose proof (length_filter f l). lia. Qed.

Lemma cnt_insert f l i x y : l !! i = Some x →
  cnt f (<[i := y]> l) = cnt f l - Z.b2z (f x) + Z.b2z (f y).
Proof.
  intros E. apply list_elem_of_split_length in E as (l1 & l2 & -> & ->).
  rewrite insert_app_r_alt, Nat.sub_diag by lia. simpl.
  rewrite !cnt_app, !cnt_cons. lia.
Qed.

Lemma cnt_lookup f l i x : l !! i = Some x → f x = true → 1 <= cnt f l.
Proof.
  intros E F. apply list_elem_of_split_length in E as (l1 & l2 & -> & ->).
  rewrite cnt_app, cnt_cons, F. pose proof (cnt_range f l1). pose proof (cnt_range f l2).
  simpl. lia.
Qed.

Lemma cnt_disjoint f g l : (∀ x, f x = true → g x = false) →
  cnt f l + cnt g l <= Z.of_nat (length l).
Proof.
  intros D. induction l as [|x l IH]; [done|]. rewrite !cnt_cons, length_cons.
  destruct (f x) eqn:E; [rewrite (D x E)|destruct (g x)]; simpl; lia.
Qed.

Lemma cnt_zero f l : Forall (λ x, f x = false) l → cnt f l = 0.
Proof. induction 1 as [|x l E _ IH]; [done|]. by rewrite cnt_cons, E, IH. Qed.

Lemma cnt_ext f g l : (∀ x, f x = g x) → cnt f l = cnt g l.
Proof. intros E. induction l as [|x l IH]; [done|]. by rewrite !cnt_cons, IH, E. Qed.

End cnt_lemmas.

Lemma cnt_fmap {A B} (h : B → A) (f : A → bool) (l : list B) :
  cnt f (h <$> l) = cnt (f ∘ h) l.
Proof. induction l as [|x l IH]; [done|]. by rewrite fmap_cons, !cnt_cons, IH. Qed.

Create Rewrite HintDb len.
#[export] Hint Rewrite @length_inserts @length_replicate @length_fmap @length_app
  @length_take @length_drop @length_insert : len.
Ltac len := autorewrite with len in *.

Create HintDb ker.
