(* ===== verification/Kernel.v ===== *)
(** The kernel services the drivers call, as interfaces.

    The bodies of [kmalloc], [copy_from_user], [__get_user] and the [_IOC]
    macros are kernel code outside this repository.  Each group is a type
    class: the operations are parameters, the fields ending in a law state the
    documented behaviour the drivers rely on.  Every class has one executable
    instance, used to run the models on concrete inputs. *)
From Stdlib Require Import ZArith Lia.
From Stdlib Require Export Strings.Byte.
From stdpp Require Import base list gmap.
From S2P Require Import Prelude.

(** ** Constants of the kernel ABI *)

Definition EPERM := 1.
Definition ENOENT := 2.
Definition EIO := 5.
Definition ENXIO := 6.
Definition EAGAIN := 11.
Definition ENOMEM := 12.
Definition EFAULT := 14.
Definition EBUSY := 16.
Definition ENODEV := 19.
Definition EINVAL := 22.
Definition ENOTTY := 25.
Definition ERESTARTSYS := 512.
Definition EIOCBQUEUED := 529.

Definition O_ACCMODE := 3.
Definition O_WRONLY := 1.
Definition O_NONBLOCK := 2048.
Definition FMODE_READ := 1.
Definition FMODE_WRITE := 2.
Definition PAGE_SHIFT := 12.
Definition PAGE_SIZE := 4096.

(** A byte of memory: [None] is a byte nobody wrote since it was allocated. *)
Abbreviation cell := (option byte).
#[export] Instance byte_eq_decision : EqDecision byte := Byte.byte_eq_dec.
Abbreviation loc := positive.

(** ** Kernel heap: kmalloc and kfree *)

Class KernelHeap (H : Type) := {
  live : H → gset loc;                     (* the allocated blocks *)
  kmalloc : Z → H → option loc * H;        (* None: the allocation failed *)
  kfree : loc → H → H;
  kmalloc_some_law : ∀ n h l h', kmalloc n h = (Some l, h') →
    (l ∉ live h) ∧ live h' = {[l]} ∪ live h;
  kmalloc_none_law : ∀ n h h', kmalloc n h = (None, h') → live h' = live h;
  kfree_law : ∀ l h, live (kfree l h) = live h ∖ {[l]}
}.

(** Whole pages, from the page allocator; they share the locations of the
    kernel heap.  A page has a reference count: the allocation holds one, a
    page table entry another.  Both free_pages and put_page drop one, and the
    last one gives the page back. *)
Class PageAlloc (H : Type) `{KernelHeap H} := {
  get_free_pages : Z → H → option loc * H;   (* the order *)
  free_pages : loc → Z → H → H;
  get_page : loc → H → H;
  page_count : loc → H → Z;
  gfp_some_law : ∀ o h l h', get_free_pages o h = (Some l, h') →
    (l ∉ live h) ∧ live h' = {[l]} ∪ live h ∧ page_count l h' = 1 ∧
    ∀ k, k ≠ l → page_count k h' = page_count k h;
  gfp_none_law : ∀ o h h', get_free_pages o h = (None, h') →
    live h' = live h ∧ ∀ k, page_count k h' = page_count k h;
  free_pages_law : ∀ l o h,
    live (free_pages l o h) = (if page_count l h =? 1 then live h ∖ {[l]} else live h) ∧
    ∀ k, page_count k (free_pages l o h) = page_count k h - (if decide (k = l) then 1 else 0);
  get_page_law : ∀ l h, live (get_page l h) = live h ∧
    ∀ k, page_count k (get_page l h) = page_count k h + (if decide (k = l) then 1 else 0);
  kmalloc_count_law : ∀ n h k, page_count k (kmalloc n h).2 = page_count k h;
  kfree_count_law : ∀ l h k, page_count k (kfree l h) = page_count k h
}.

(** ** User memory *)

Class UserMem (U : Type) := {
  user_bytes : U → Z → nat → list cell;
  (* cells stored at the destination, number of bytes that were not copied *)
  copy_from_user : U → Z → nat → list cell * nat;
  copy_to_user : U → Z → list cell → U * nat;
  cfu_length_law : ∀ u a n, length (copy_from_user u a n).1 = n;
  cfu_ok_law : ∀ u a n cs, copy_from_user u a n = (cs, O) → cs = user_bytes u a n;
  ctu_ok_law : ∀ u a cs u', copy_to_user u a cs = (u', O) →
    user_bytes u' a (length cs) = cs
}.

(** [__get_user] and [__put_user] at type [int]; [None] is [-EFAULT]. *)
Class UserInt (U : Type) := {
  get_user : U → Z → option Z;
  put_user : U → Z → Z → option U;
  access_ok : Z → Z → bool;
  get_user_range_law : ∀ u a v, get_user u a = Some v → -2147483648 <= v <= INT_MAX;
  put_get_law : ∀ u a v u', -2147483648 <= v <= INT_MAX →
    put_user u a v = Some u' → get_user u' a = Some v
}.

(** ** ioctl command words *)

Definition _IOC_NONE := 0.
Definition _IOC_WRITE := 1.
Definition _IOC_READ := 2.

Class IocCodec := {
  _IOC : Z → Z → Z → Z → Z;     (* direction, type, number, size *)
  _IOC_DIR : Z → Z;
  _IOC_TYPE : Z → Z;
  _IOC_NR : Z → Z;
  _IOC_SIZE : Z → Z;
  ioc_decode_law : ∀ d t n s,
    0 <= d < 4 → 0 <= t < 256 → 0 <= n < 256 → 0 <= s < 16384 →
    _IOC_DIR (_IOC d t n s) = d ∧ _IOC_TYPE (_IOC d t n s) = t ∧
    _IOC_NR (_IOC d t n s) = n ∧ _IOC_SIZE (_IOC d t n s) = s
}.

Definition _IO `{IocCodec} (t n : Z) := _IOC _IOC_NONE t n 0.
Definition _IOR `{IocCodec} (t n s : Z) := _IOC _IOC_READ t n s.
Definition _IOW `{IocCodec} (t n s : Z) := _IOC _IOC_WRITE t n s.
Definition _IOWR `{IocCodec} (t n s : Z) := _IOC (Z.lor _IOC_READ _IOC_WRITE) t n s.
Definition sizeof_int := 4.

(** ** Executable instances *)

(** A bump allocator; [oom] lists, call by call, which allocations fail
    (the calls after the end of the list succeed). *)
Record bump := Bump { b_live : gset loc; b_next : loc; b_oom : list bool }.

Definition bump_kmalloc (n : Z) (h : bump) : option loc * bump :=
  if bool_decide (b_next h ∈ b_live h) then (None, h) else
  match b_oom h with
  | true :: r => (None, Bump (b_live h) (b_next h) r)
  | false :: r => (Some (b_next h), Bump ({[b_next h]} ∪ b_live h) (Pos.succ (b_next h)) r)
  | [] => (Some (b_next h), Bump ({[b_next h]} ∪ b_live h) (Pos.succ (b_next h)) [])
  end.

Definition bump_kfree (l : loc) (h : bump) : bump :=
  Bump (b_live h ∖ {[l]}) (b_next h) (b_oom h).

#[export] Instance bump_heap : KernelHeap bump.
Proof.
  refine {| live := b_live; kmalloc := bump_kmalloc; kfree := bump_kfree |};
    [intros n [L p o] l h' E|intros n [L p o] h' E|done];
    unfold bump_kmalloc in E; simpl in E; case_bool_decide;
    repeat case_match; naive_solver.
Defined.

(** With the reference counts of its pages. *)
Record paged := Paged { pg_heap : bump; pg_count : gmap loc Z }.
Definition pg_counts (l : loc) (h : paged) : Z := default 0 (pg_count h !! l).
Definition pg_add (l : loc) (n : Z) (h : paged) : paged := Paged (pg_heap h) (<[l := pg_counts l h + n]> (pg_count h)).

#[export] Instance paged_heap : KernelHeap paged.
Proof.
  refine {| live h := b_live (pg_heap h);
            kmalloc n h := let '(r, b) := bump_kmalloc n (pg_heap h) in (r, Paged b (pg_count h));
            kfree l h := Paged (bump_kfree l (pg_heap h)) (pg_count h) |}.
  - intros n [b c] l h' E. simpl in *. destruct (bump_kmalloc n b) as [r b'] eqn:Eb. injection E as -> <-.
    apply (@kmalloc_some_law bump bump_heap n b l b' Eb).
  - intros n [b c] h' E. simpl in *. destruct (bump_kmalloc n b) as [r b'] eqn:Eb. injection E as -> <-.
    apply (@kmalloc_none_law bump bump_heap n b b' Eb).
  - done.
Defined.

Lemma pg_add_counts l n h k : pg_counts k (pg_add l n h) = pg_counts k h + (if decide (k = l) then n else 0).
Proof.
  unfold pg_counts, pg_add. simpl. case_decide as E; [subst; by rewrite lookup_insert_eq|].
  rewrite lookup_insert_ne by done. lia.
Qed.

#[export] Instance paged_pages : PageAlloc paged.
Proof.
  refine {| get_free_pages o h :=
              let '(r, b) := bump_kmalloc (Z.shiftl PAGE_SIZE o) (pg_heap h) in
              (r, Paged b (match r with Some l => <[l := 1]> (pg_count h) | None => pg_count h end));
            free_pages l _ h :=
              pg_add l (-1) (if pg_counts l h =? 1 then Paged (bump_kfree l (pg_heap h)) (pg_count h) else h);
            get_page l := pg_add l 1; page_count := pg_counts |}.
  - intros o [b c] l h' E. simpl in *. destruct (bump_kmalloc _ b) as [r b'] eqn:Eb. injection E as -> <-.
    destruct (@kmalloc_some_law bump bump_heap _ b l b' Eb) as [F L]. split; [exact F|]. split; [exact L|].
    unfold pg_counts. simpl. split; [by rewrite lookup_insert_eq|]. intros k Hk. by rewrite lookup_insert_ne.
  - intros o [b c] h' E. simpl in *. destruct (bump_kmalloc _ b) as [r b'] eqn:Eb. injection E as -> <-.
    by split; [apply (@kmalloc_none_law bump bump_heap _ b b' Eb)|].
  - intros l _ h. split; [by destruct (pg_counts l h =? 1)|]. intros k. rewrite pg_add_counts.
    destruct (pg_counts l h =? 1); case_decide; unfold pg_counts; simpl; lia.
  - intros l h. split; [done|]. intros k. apply pg_add_counts.
  - intros n [b c] k. simpl. by destruct (bump_kmalloc n b).
  - done.
Defined.

Definition bump_init : bump := Bump ∅ 1%positive [].

(** User memory as a finite map: an absent address is not mapped. *)
Abbreviation umap := (gmap Z cell).

Definition umap_bytes (u : umap) (a : Z) (n : nat) : list cell :=
  (λ i : nat, default None (u !! (a + Z.of_nat i))) <$> seq 0 n.

(** Length of the mapped prefix of [a, a + n). *)
Fixpoint umap_prefix (u : umap) (a : Z) (n : nat) : nat :=
  match n with
  | O => O
  | S n' => match u !! a with
            | Some _ => S (umap_prefix u (a + 1) n')
            | None => O
            end
  end.

Fixpoint umap_store (u : umap) (a : Z) (cs : list cell) : umap :=
  match cs with
  | [] => u
  | c :: r => <[a := c]> (umap_store u (a + 1) r)
  end.

Definition umap_copy_from (u : umap) (a : Z) (n : nat) : list cell * nat :=
  let k := umap_prefix u a n in
  (take k (umap_bytes u a n) ++ replicate (n - k) (Some x00), (n - k)%nat).

Definition umap_copy_to (u : umap) (a : Z) (cs : list cell) : umap * nat :=
  let k := umap_prefix u a (length cs) in
  (umap_store u a (take k cs), (length cs - k)%nat).

Lemma umap_prefix_le u a n : (umap_prefix u a n ≤ n)%nat.
Proof. revert a. induction n; intros; simpl; [lia|]. case_match; [|lia]. specialize (IHn (a + 1)). lia. Qed.

Lemma umap_store_lookup_lt cs u a b : b < a → umap_store u a cs !! b = u !! b.
Proof.
  revert a. induction cs as [|c cs IH]; intros a Hb; simpl; [done|].
  rewrite lookup_insert_ne by lia. apply IH. lia.
Qed.

Lemma umap_store_bytes cs u a : umap_bytes (umap_store u a cs) a (length cs) = cs.
Proof.
  revert a. induction cs as [|c cs IH]; intros a; [done|].
  unfold umap_bytes. simpl. rewrite Z.add_0_r, lookup_insert_eq. f_equal.
  rewrite <- (IH (a + 1)) at 2. unfold umap_bytes.
  rewrite <- fmap_S_seq, <- list_fmap_compose. apply list_fmap_ext.
  intros i x Hx. simpl. rewrite lookup_insert_ne by lia.
  by replace (a + 1 + Z.of_nat x) with (a + Z.of_nat (S x)) by lia.
Qed.

#[export] Instance umap_user : UserMem umap.
Proof.
  refine {| user_bytes := umap_bytes; copy_from_user := umap_copy_from;
            copy_to_user := umap_copy_to |}.
  - intros u a n. pose proof (umap_prefix_le u a n). unfold umap_copy_from, umap_bytes.
    simpl. len. rewrite length_seq. lia.
  - intros u a n cs E. pose proof (umap_prefix_le u a n).
    unfold umap_copy_from in E. injection E as <- E.
    replace (umap_prefix u a n) with n by lia.
    rewrite Nat.sub_diag. simpl. rewrite app_nil_r.
    apply take_ge. unfold umap_bytes. len. rewrite length_seq. lia.
  - intros u a cs u' E. pose proof (umap_prefix_le u a (length cs)).
    unfold umap_copy_to in E. injection E as <- E.
    rewrite take_ge by lia. apply umap_store_bytes.
Defined.

(** User [int] variables as a finite map. *)
Definition imap_get (u : gmap Z Z) (a : Z) : option Z := s32 <$> u !! a.
Definition imap_put (u : gmap Z Z) (a v : Z) : option (gmap Z Z) :=
  match u !! a with Some _ => Some (<[a := v]> u) | None => None end.

#[export] Instance imap_user : UserInt (gmap Z Z).
Proof.
  refine {| get_user := imap_get; put_user := imap_put; access_ok := λ a n, 0 <=? a |};
    unfold imap_get, imap_put.
  - intros u a v E. apply fmap_Some in E as (x & _ & ->). apply s32_range.
  - intros u a v u' Hv E. case_match; simplify_eq.
    rewrite lookup_insert_eq. simpl. by rewrite s32_id.
Defined.

(** The asm-generic layout: number in bits 0-7, type in 8-15, size in 16-29,
    direction in 30-31. *)
#[export] Instance asm_generic_ioc : IocCodec.
Proof.
  refine {|
    _IOC := λ d t n s, d * 1073741824 + s * 65536 + t * 256 + n;
    _IOC_NR := λ c, c mod 256;
    _IOC_TYPE := λ c, c / 256 mod 256;
    _IOC_SIZE := λ c, c / 65536 mod 16384;
    _IOC_DIR := λ c, c / 1073741824 mod 4 |}.
  intros d t n s Hd Ht Hn Hs.
  repeat split; Z.div_mod_to_equations; lia.
Defined.

(** ** Consequences of the laws *)

Section heap_facts.
Context `{KernelHeap H}.

Lemma kmalloc_live n (h h' : H) l :
  kmalloc n h = (Some l, h') → live h' = {[l]} ∪ live h.
Proof. intros. by eapply kmalloc_some_law. Qed.

Lemma kmalloc_fresh n (h h' : H) l : kmalloc n h = (Some l, h') → l ∉ live h.
Proof. intros. by eapply kmalloc_some_law. Qed.

Lemma kmalloc_mono n (h h' : H) r : kmalloc n h = (r, h') → live h ⊆ live h'.
Proof.
  destruct r; intros E; [rewrite (kmalloc_live _ _ _ _ E)|rewrite (kmalloc_none_law _ _ _ E)];
    set_solver.
Qed.

End heap_facts.

Section ioc_facts.
Context `{IocCodec}.

Lemma ioc_inj d t n s d' t' n' s' :
  0 <= d < 4 → 0 <= t < 256 → 0 <= n < 256 → 0 <= s < 16384 →
  0 <= d' < 4 → 0 <= t' < 256 → 0 <= n' < 256 → 0 <= s' < 16384 →
  _IOC d t n s = _IOC d' t' n' s' → d = d' ∧ t = t' ∧ n = n' ∧ s = s'.
Proof.
  intros ???????? E.
  destruct (ioc_decode_law d t n s) as (Ed & Et & En & Es); [done..|].
  destruct (ioc_decode_law d' t' n' s') as (Ed' & Et' & En' & Es'); [done..|].
  rewrite E in *. split_and!; congruence.
Qed.

End ioc_facts.

#[export] Hint Resolve kmalloc_live kmalloc_fresh kmalloc_mono : ker.
