(* ===== verification/ChrReg.v ===== *)
(** The registry of character devices and the device model: the kernel code
    behind register_chrdev_region, cdev_add, class_create and device_create,
    as interfaces whose laws state what the drivers rely on. *)
From Stdlib Require Import ZArith Lia.
From stdpp Require Import base list gmap.
From S2P Require Import Prelude Kernel.

(** ** Device numbers and the registry *)

Definition MKDEV (ma mi : Z) : Z := Z.lor (Z.shiftl ma 20) mi.
Definition MAJOR (dev : Z) : Z := Z.shiftr dev 20.

(** The cdev structure embedded in each device. *)
Inductive cdev_id :=
  | CScull (i : nat) | CPipe (i : nat) | CAccess (i : nat) | CScullp (i : nat)
  | CChar (i : nat)                                   (* of a driver with one *).
#[export] Instance cdev_id_eq_dec : EqDecision cdev_id.
Proof. solve_decision. Defined.
#[export] Instance cdev_id_countable : Countable cdev_id.
Proof.
  refine (inj_countable'
    (λ c, match c with CScull i => (0, i) | CPipe i => (1, i) | CAccess i => (2, i)
                     | CScullp i => (3, i) | CChar i => (4, i) end%nat)
    (λ '(k, i), match k with 0 => CScull i | 1 => CPipe i | 2 => CAccess i
                     | 3 => CScullp i | _ => CChar i end%nat) _).
  by intros [].
Defined.

Definition dev_range (dev n : Z) : gset Z := list_to_set (seqZ dev n).

(** [reg_devs] are the reserved device numbers, [reg_cdevs] the cdevs a device
    number leads to. *)
Class ChrDevs (R : Type) := {
  reg_devs : R → gset Z;
  reg_cdevs : R → gset cdev_id;
  register_chrdev_region : Z → Z → R → Z * R;
  alloc_chrdev_region : Z → Z → R → (Z + Z) * R;      (* an error, or the first number *)
  unregister_chrdev_region : Z → Z → R → R;
  cdev_add : cdev_id → Z → Z → R → Z * R;             (* first number and count *)
  cdev_unmap : cdev_id → R → R;                       (* the registry's part of cdev_del *)
  register_region_law : ∀ dev n r z r', register_chrdev_region dev n r = (z, r') →
    z <= 0 ∧ reg_cdevs r' = reg_cdevs r ∧
    (z = 0 → dev_range dev n ## reg_devs r ∧ reg_devs r' = dev_range dev n ∪ reg_devs r) ∧
    (z < 0 → reg_devs r' = reg_devs r);
  alloc_region_ok_law : ∀ minor n r dev r', alloc_chrdev_region minor n r = (inr dev, r') →
    dev = MKDEV (MAJOR dev) minor ∧ 0 < MAJOR dev ∧ reg_cdevs r' = reg_cdevs r ∧
    dev_range dev n ## reg_devs r ∧ reg_devs r' = dev_range dev n ∪ reg_devs r;
  alloc_region_err_law : ∀ minor n r z r', alloc_chrdev_region minor n r = (inl z, r') →
    z < 0 ∧ reg_cdevs r' = reg_cdevs r ∧ reg_devs r' = reg_devs r;
  unregister_region_law : ∀ dev n r,
    reg_devs (unregister_chrdev_region dev n r) = reg_devs r ∖ dev_range dev n ∧
    reg_cdevs (unregister_chrdev_region dev n r) = reg_cdevs r;
  cdev_add_law : ∀ c dev n r z r', cdev_add c dev n r = (z, r') →
    z <= 0 ∧ reg_devs r' = reg_devs r ∧
    (z = 0 → reg_cdevs r' = {[c]} ∪ reg_cdevs r) ∧ (z < 0 → reg_cdevs r' = reg_cdevs r);
  cdev_unmap_law : ∀ c r,
    reg_devs (cdev_unmap c r) = reg_devs r ∧ reg_cdevs (cdev_unmap c r) = reg_cdevs r ∖ {[c]}
}.

(** ** Classes and device nodes *)

(** [dm_nodes] are the nodes of /sys and /dev: a class and a device number. *)
Class DevModel (D : Type) := {
  dm_classes : D → gset loc;
  dm_nodes : D → gset (loc * Z);
  class_create : D → (Z + loc) * D;                   (* an error pointer, or the class *)
  class_destroy : loc → D → D;
  device_create : loc → Z → D → Z * D;                (* 0, or an error *)
  device_destroy : loc → Z → D → D;
  class_create_ok_law : ∀ d c d', class_create d = (inr c, d') →
    (c ∉ dm_classes d) ∧ dm_classes d' = {[c]} ∪ dm_classes d ∧ dm_nodes d' = dm_nodes d;
  class_create_err_law : ∀ d e d', class_create d = (inl e, d') →
    e < 0 ∧ dm_classes d' = dm_classes d ∧ dm_nodes d' = dm_nodes d;
  class_destroy_law : ∀ c d, dm_classes (class_destroy c d) = dm_classes d ∖ {[c]} ∧
    dm_nodes (class_destroy c d) = dm_nodes d;
  device_create_law : ∀ c n d z d', device_create c n d = (z, d') →
    dm_classes d' = dm_classes d ∧
    (z = 0 → dm_nodes d' = {[(c, n)]} ∪ dm_nodes d) ∧ (z ≠ 0 → dm_nodes d' = dm_nodes d);
  device_destroy_law : ∀ c n d, dm_classes (device_destroy c n d) = dm_classes d ∧
    dm_nodes (device_destroy c n d) = dm_nodes d ∖ {[(c, n)]}
}.

(** ** Consequences of the laws *)

Section facts.
Context `{ChrDevs R}.

Lemma cdev_add_between c dev n r z r' : cdev_add c dev n r = (z, r') →
  reg_devs r' = reg_devs r ∧ reg_cdevs r ⊆ reg_cdevs r' ∧ reg_cdevs r' ⊆ {[c]} ∪ reg_cdevs r.
Proof.
  intros E. apply cdev_add_law in E as (Hz & E1 & E2 & E3). split; [done|].
  destruct (Z.eq_dec z 0) as [->|]; [rewrite E2 by done; set_solver|].
  rewrite E3 by lia. set_solver.
Qed.

Lemma union_difference_back (a b : gset Z) : a ## b → (a ∪ b) ∖ a = b.
Proof. intros. apply set_eq. intros x. set_solver. Qed.

(** What the error labels of the init functions give back: the numbers after a
    failed cdev_add, the cdev and the numbers after a later failure. *)
Lemma plug_out c minor n r dev g z g' :
  alloc_chrdev_region minor n r = (inr dev, g) → cdev_add c dev n g = (z, g') → c ∉ reg_cdevs r →
  (z ≠ 0 → reg_devs (unregister_chrdev_region dev n g') = reg_devs r ∧
           reg_cdevs (unregister_chrdev_region dev n g') = reg_cdevs r) ∧
  (z = 0 → reg_devs (unregister_chrdev_region dev n (cdev_unmap c g')) = reg_devs r ∧
           reg_cdevs (unregister_chrdev_region dev n (cdev_unmap c g')) = reg_cdevs r).
Proof.
  intros (_ & _ & Ec & Dj & Ed)%alloc_region_ok_law (Hz & D1 & Ok & Er)%cdev_add_law F.
  destruct (unregister_region_law dev n g') as [U1 U2].
  destruct (unregister_region_law dev n (cdev_unmap c g')) as [U3 U4].
  destruct (cdev_unmap_law c g') as [V1 V2].
  rewrite U1, U2, U3, U4, V1, V2, D1, Ed, union_difference_back by done. split; intros; (split; [done|]).
  - by rewrite Er by lia.
  - rewrite Ok, Ec by done. clear -F. apply set_eq. intros x. set_solver.
Qed.

End facts.

(** ** A registry *)

(** Device numbers and reachable cdevs; dynamic majors come from 250. *)
Record creg := CReg { cr_devs : gset Z; cr_cdevs : gset cdev_id }.

Definition creg_register (dev n : Z) (r : creg) : Z * creg :=
  if decide (dev_range dev n ## cr_devs r) then (0, CReg (dev_range dev n ∪ cr_devs r) (cr_cdevs r))
  else (- EBUSY, r).
Definition creg_alloc (minor n : Z) (r : creg) : (Z + Z) * creg :=
  let dev := MKDEV 250 minor in
  if decide (dev = MKDEV (MAJOR dev) minor ∧ 0 < MAJOR dev ∧ dev_range dev n ## cr_devs r) then
    (inr dev, CReg (dev_range dev n ∪ cr_devs r) (cr_cdevs r))
  else (inl (- EBUSY), r).

#[local] Program Instance creg_chrdevs : ChrDevs creg := {
  reg_devs := cr_devs;
  reg_cdevs := cr_cdevs;
  register_chrdev_region := creg_register;
  alloc_chrdev_region := creg_alloc;
  unregister_chrdev_region dev n r := CReg (cr_devs r ∖ dev_range dev n) (cr_cdevs r);
  cdev_add c dev n r := (0, CReg (cr_devs r) ({[c]} ∪ cr_cdevs r));
  cdev_unmap c r := CReg (cr_devs r) (cr_cdevs r ∖ {[c]})
}.
Next Obligation.
  unfold creg_register. intros dev n r z r' E. destruct (decide _); injection E as <- <-; simpl;
    unfold EBUSY; split_and!; try done; lia.
Qed.
Next Obligation.
  unfold creg_alloc. intros minor n r dev r' E. destruct (decide _) as [[E1 [E2 E3]]|]; [|done].
  by injection E as <- <-.
Qed.
Next Obligation.
  unfold creg_alloc. intros minor n r z r' E. destruct (decide _) as [|]; [done|].
  injection E as <- <-. unfold EBUSY. split; [lia|done].
Qed.
Next Obligation. done. Qed.
Next Obligation.
  intros c dev n r z r' E. injection E as <- <-. split_and!; try done; lia.
Qed.
Next Obligation. done. Qed.


(** ** A device model *)

(** [ds_fail]: class_create fails. *)
Record dsim := DSim { ds_classes : gset loc; ds_nodes : gset (loc * Z); ds_fail : bool }.

#[local] Program Instance dsim_model : DevModel dsim := {
  dm_classes := ds_classes;
  dm_nodes := ds_nodes;
  class_create d := if ds_fail d then (inl (- ENOMEM), d)
    else (inr (fresh (ds_classes d)),
          DSim ({[fresh (ds_classes d)]} ∪ ds_classes d) (ds_nodes d) (ds_fail d));
  class_destroy c d := DSim (ds_classes d ∖ {[c]}) (ds_nodes d) (ds_fail d);
  device_create c n d := (0, DSim (ds_classes d) ({[(c, n)]} ∪ ds_nodes d) (ds_fail d));
  device_destroy c n d := DSim (ds_classes d) (ds_nodes d ∖ {[(c, n)]}) (ds_fail d)
}.
Next Obligation.
  intros d c d' E. simpl in E. destruct (ds_fail d); [done|]. injection E as <- <-.
  split_and!; [apply is_fresh|done..].
Qed.
Next Obligation.
  intros d e d' E. simpl in E. destruct (ds_fail d); [|done]. injection E as <- <-. unfold ENOMEM. split; [lia|done].
Qed.
Next Obligation. done. Qed.
Next Obligation. intros c n d z d' E. by injection E as <- <-. Qed.
Next Obligation. done. Qed.
