(* ===== verification/Scull.v ===== *)
(** The bare scull device (src/ldd/scull/main.c, src/ldd/scull/scull.h).

    The list of quantum sets is the list [d_data] of its nodes, each owning an
    optional array of optional quanta; every block carries the heap location
    [kmalloc] returned for it.  A pointer into the list is the index of a node.
    Handlers run in the state-and-fault monad over [scull_st]. *)
From Stdlib Require Import ZArith Lia.
From stdpp Require Import base list gmap.
From S2P Require Import Prelude Kernel.

(** ** Data *)

Definition SCULL_QUANTUM := 4000.
Definition SCULL_QSET := 1000.
Definition SCULL_P_BUFFER := 4000.
Definition sizeof_ptr := 8.
Definition sizeof_scull_qset := 16.

(** The module parameters an ioctl can change. *)
Record scull_params := ScullParams {
  scull_quantum : Z;
  scull_qset : Z;
  scull_p_buffer : Z
}.

Record quantum_blk := QuantumBlk { q_loc : loc; q_mem : list cell }.
Record data_arr := DataArr { a_loc : loc; a_slots : list (option quantum_blk) }.
Record scull_qset_node := QsetNode { qs_loc : loc; qs_data : option data_arr }.

Record scull_dev := ScullDev {
  d_data : list scull_qset_node;   (* [] is dev->data == NULL *)
  d_quantum : Z;
  d_qset : Z;
  d_size : Z;
  d_access_key : Z;
  d_locked : bool
}.

Record scull_st (H U : Type) := ScullSt {
  params : scull_params;
  dev : scull_dev;
  heap : H;
  user : U;
  f_pos : Z
}.
Arguments ScullSt {H U}.
Arguments params {H U}.
Arguments dev {H U}.
Arguments heap {H U}.
Arguments user {H U}.
Arguments f_pos {H U}.

Definition with_data (d : scull_dev) (l : list scull_qset_node) : scull_dev :=
  ScullDev l (d_quantum d) (d_qset d) (d_size d) (d_access_key d) (d_locked d).
Definition with_size (d : scull_dev) (n : Z) : scull_dev :=
  ScullDev (d_data d) (d_quantum d) (d_qset d) n (d_access_key d) (d_locked d).
Definition with_locked (d : scull_dev) (b : bool) : scull_dev :=
  ScullDev (d_data d) (d_quantum d) (d_qset d) (d_size d) (d_access_key d) b.

Section ops.
Context {H U : Type} `{KernelHeap H} `{UserMem U}.
Abbreviation st := (scull_st H U).

Definition set_dev (d : scull_dev) (s : st) : st :=
  ScullSt (params s) d (heap s) (user s) (f_pos s).
Definition set_heap (h : H) (s : st) : st :=
  ScullSt (params s) (dev s) h (user s) (f_pos s).
Definition set_user (u : U) (s : st) : st :=
  ScullSt (params s) (dev s) (heap s) u (f_pos s).
Definition set_pos (p : Z) (s : st) : st :=
  ScullSt (params s) (dev s) (heap s) (user s) p.

(** ** Kernel calls on the device state *)

Definition do_kmalloc (n : Z) : M st (option loc) := λ s,
  let '(r, h) := kmalloc n (heap s) in Ret (r, set_heap h s).

Definition do_kfree (l : loc) : M st unit := λ s,
  if bool_decide (l ∈ live (heap s)) then Ret (tt, set_heap (kfree l (heap s)) s)
  else Fault BadFree.

(** [intr]: a signal arrived before the mutex was obtained. *)
Definition mutex_lock_interruptible (intr : bool) : M st bool := λ s,
  if intr then Ret (true, s)
  else if d_locked (dev s) then Fault SelfDeadlock
  else Ret (false, set_dev (with_locked (dev s) true) s).

Definition mutex_unlock : M st unit := λ s,
  if d_locked (dev s) then Ret (tt, set_dev (with_locked (dev s) false) s)
  else Fault BadUnlock.

(** copy_to_user from, copy_from_user to, offset [off] of a quantum; the
    result is the number of bytes that were not copied. *)
Definition in_block (off n : Z) (q : quantum_blk) : bool :=
  (0 <=? off) && (off + n <=? Z.of_nat (length (q_mem q))).

Definition quantum_to_user (buf : Z) (q : quantum_blk) (off n : Z) : M st nat := λ s,
  if in_block off n q then
    let '(u, uncopied) := copy_to_user (user s) buf (slice (Z.to_nat off) (Z.to_nat n) (q_mem q)) in
    Ret (uncopied, set_user u s)
  else Fault OutOfBounds.

(** ** scull_trim *)

Definition trim_slot (a : data_arr) (i : nat) : M st unit :=
  match a_slots a !! i with
  | None => mfault OutOfBounds
  | Some None => mret tt                    (* kfree(NULL) *)
  | Some (Some q) => do_kfree (q_loc q)
  end.

Definition trim_node (qset : Z) (dptr : scull_qset_node) : M st unit :=
  (match qs_data dptr with
   | Some a => mfor 0 (Z.to_nat qset) (trim_slot a) ≫= λ _, do_kfree (a_loc a)
   | None => mret tt
   end) ≫= λ _,
  do_kfree (qs_loc dptr).

Definition scull_trim : M st Z :=
  s ← mget;
  let qset := d_qset (dev s) in
  mforeach (d_data (dev s)) (trim_node qset) ≫= λ _,
  mmodify (λ s, set_dev (ScullDev [] (scull_quantum (params s)) (scull_qset (params s)) 0
                           (d_access_key (dev s)) (d_locked (dev s))) s) ≫= λ _,
  mret 0.

(** ** scull_follow *)

(** A zeroed quantum set appended to the list; [false] when kmalloc fails. *)
Definition append_qset : M st bool :=
  p ← do_kmalloc sizeof_scull_qset;
  match p with
  | None => mret false
  | Some l =>
      mmodify (λ s, set_dev (with_data (dev s) (d_data (dev s) ++ [QsetNode l None])) s) ≫= λ _,
      mret true
  end.

(** [while (n--)] with [qs] at index [i]. *)
Fixpoint follow_loop (n : nat) (i : nat) : M st (option nat) :=
  match n with
  | O => mret (Some i)
  | S n' =>
      s ← mget;
      if (S i <? length (d_data (dev s)))%nat then follow_loop n' (S i)
      else
        ok ← append_qset;
        if (ok : bool) then follow_loop n' (S i) else mret None
  end.

(** A negative [n] counts down through the wrap-around of [int]. *)
Definition scull_follow (n : Z) : M st (option nat) :=
  s ← mget;
  match d_data (dev s) with
  | [] =>
      ok ← append_qset;
      if (ok : bool) then follow_loop (Z.to_nat (u32 n)) 0 else mret None
  | _ => follow_loop (Z.to_nat (u32 n)) 0
  end.

(** ** Position arithmetic shared by read and write *)

Definition locate (quantum qset pos : Z) : M st (Z * Z * Z) :=
  let itemsize := s32 (quantum * qset) in
  item ← c_div 64 pos itemsize;
  rest ← c_rem 64 pos itemsize;
  s_pos ← c_div 32 (s32 rest) quantum;
  q_pos ← c_rem 32 (s32 rest) quantum;
  mret (s32 item, s32 s_pos, q_pos).

Definition get_node (i : nat) : M st scull_qset_node :=
  s ← mget;
  match d_data (dev s) !! i with
  | Some n => mret n
  | None => mfault NullDeref
  end.

(** [dptr->data[s_pos]] *)
Definition get_slot (a : data_arr) (s_pos : Z) : M st (option quantum_blk) :=
  if s_pos <? 0 then mfault OutOfBounds else
  match a_slots a !! Z.to_nat s_pos with
  | Some q => mret q
  | None => mfault OutOfBounds
  end.

(** ** scull_read *)

(** The critical section; [quantum] and [qset] were read before the lock. *)
Definition scull_read_locked (quantum qset buf count : Z) : M st Z :=
  s ← mget;
  let pos := f_pos s in
  let size := d_size (dev s) in
  if size <=? u64 pos then mret 0 else
  let count := if size <? u64 (pos + count) then u64 (size - pos) else count in
  '(item, s_pos, q_pos) ← locate quantum qset pos;
  dptr ← scull_follow item;
  match dptr with
  | None => mret 0
  | Some i =>
      node ← get_node i;
      match qs_data node with
      | None => mret 0
      | Some a =>
          slot ← get_slot a s_pos;
          match slot with
          | None => mret 0                  (* don't fill holes *)
          | Some q =>
              let room := u64 (s32 (quantum - q_pos)) in
              let count := if room <? count then room else count in
              uncopied ← quantum_to_user buf q q_pos count;
              if (uncopied =? 0)%nat then
                mmodify (λ s, set_pos (s64 (f_pos s + count)) s) ≫= λ _,
                mret (s64 count)
              else mret (- EFAULT)
          end
      end
  end.

Definition scull_read (intr : bool) (buf count : Z) : M st Z :=
  s ← mget;
  let quantum := d_quantum (dev s) in
  let qset := d_qset (dev s) in
  failed ← mutex_lock_interruptible intr;
  if (failed : bool) then mret (- ERESTARTSYS) else
  retval ← scull_read_locked quantum qset buf count;
  mutex_unlock ≫= λ _,
  mret retval.

(** ** scull_write *)

Definition set_node_data (i : nat) (a : option data_arr) : M st unit :=
  mmodify (λ s, set_dev (with_data (dev s)
    (alter (λ n, QsetNode (qs_loc n) a) i (d_data (dev s)))) s).

Definition put_slot (a : data_arr) (k : nat) (q : quantum_blk) : data_arr :=
  DataArr (a_loc a) (<[k := Some q]> (a_slots a)).

(** dptr->data, allocated and zeroed when it is missing. *)
Definition ensure_array (qset : Z) (i : nat) : M st (option data_arr) :=
  node ← get_node i;
  match qs_data node with
  | Some a => mret (Some a)
  | None =>
      let bytes := u64 (qset * sizeof_ptr) in
      p ← do_kmalloc bytes;
      match p with
      | None => mret None
      | Some l =>
          let a := DataArr l (replicate (Z.to_nat (bytes / sizeof_ptr)) None) in
          set_node_data i (Some a) ≫= λ _,
          mret (Some a)
      end
  end.

(** dptr->data[s_pos], allocated (not cleared) when it is missing. *)
Definition ensure_quantum (quantum : Z) (i : nat) (a : data_arr) (s_pos : Z)
    : M st (option quantum_blk) :=
  slot ← get_slot a s_pos;
  match slot with
  | Some q => mret (Some q)
  | None =>
      p ← do_kmalloc (u64 quantum);
      match p with
      | None => mret None
      | Some l =>
          let q := QuantumBlk l (replicate (Z.to_nat (u64 quantum)) None) in
          set_node_data i (Some (put_slot a (Z.to_nat s_pos) q)) ≫= λ _,
          mret (Some q)
      end
  end.

(** copy_from_user into the quantum in slot [s_pos] of node [i]. *)
Definition user_to_quantum (buf : Z) (i : nat) (a : data_arr) (s_pos : Z)
    (q : quantum_blk) (off n : Z) : M st nat := λ s,
  if in_block off n q then
    let '(cs, uncopied) := copy_from_user (user s) buf (Z.to_nat n) in
    let q' := QuantumBlk (q_loc q) (list_inserts (Z.to_nat off) cs (q_mem q)) in
    (set_node_data i (Some (put_slot a (Z.to_nat s_pos) q')) ≫= λ _, mret uncopied) s
  else Fault OutOfBounds.

Definition scull_write_locked (quantum qset buf count : Z) : M st Z :=
  s ← mget;
  '(item, s_pos, q_pos) ← locate quantum qset (f_pos s);
  dptr ← scull_follow item;
  match dptr with
  | None => mret (- ENOMEM)
  | Some i =>
      arr ← ensure_array qset i;
      match arr with
      | None => mret (- ENOMEM)
      | Some a =>
          slot ← ensure_quantum quantum i a s_pos;
          match slot with
          | None => mret (- ENOMEM)
          | Some q =>
              let room := u64 (s32 (quantum - q_pos)) in
              let count := if room <? count then room else count in
              uncopied ← user_to_quantum buf i a s_pos q q_pos count;
              if (uncopied =? 0)%nat then
                mmodify (λ s, set_pos (s64 (f_pos s + count)) s) ≫= λ _,
                mmodify (λ s, if d_size (dev s) <? u64 (f_pos s)
                              then set_dev (with_size (dev s) (u64 (f_pos s))) s
                              else s) ≫= λ _,
                mret (s64 count)
              else mret (- EFAULT)
          end
      end
  end.

Definition scull_write (intr : bool) (buf count : Z) : M st Z :=
  s ← mget;
  let quantum := d_quantum (dev s) in
  let qset := d_qset (dev s) in
  failed ← mutex_lock_interruptible intr;
  if (failed : bool) then mret (- ERESTARTSYS) else
  retval ← scull_write_locked quantum qset buf count;
  mutex_unlock ≫= λ _,
  mret retval.

(** ** scull_open, scull_release, scull_llseek *)

Definition opened_wronly (f_flags : Z) : bool := Z.land f_flags O_ACCMODE =? O_WRONLY.

Definition scull_open (intr : bool) (f_flags : Z) : M st Z :=
  if opened_wronly f_flags then
    failed ← mutex_lock_interruptible intr;
    if (failed : bool) then mret (- ERESTARTSYS) else
    scull_trim ≫= λ _,
    mutex_unlock ≫= λ _,
    mret 0
  else mret 0.

Definition scull_release : M st Z := mret 0.

Definition scull_llseek (off whence : Z) : M st Z :=
  s ← mget;
  let seek newpos :=
    if newpos <? 0 then mret (- EINVAL)
    else mmodify (set_pos newpos) ≫= λ _, mret newpos in
  if whence =? 0 then seek off
  else if whence =? 1 then seek (s64 (f_pos s + off))
  else if whence =? 2 then seek (s64 (d_size (dev s) + off))
  else mret (- EINVAL).

End ops.
