(* ===== verification/ScullSpec.v ===== *)
(** The bare scull device as a sparse file: the abstraction, the invariant, and
    the behaviour of scull_trim, scull_follow, scull_read, scull_write,
    scull_open and scull_llseek on every path. *)
From Stdlib Require Import ZArith Lia.
From stdpp Require Import base list gmap.
From S2P Require Import Prelude Kernel Scull.

(** ** Ownership *)

Definition slot_locs (o : option quantum_blk) : list loc :=
  match o with Some q => [q_loc q] | None => [] end.
Definition arr_locs (a : data_arr) : list loc := (a_slots a ≫= slot_locs) ++ [a_loc a].
Definition node_locs (n : scull_qset_node) : list loc :=
  (match qs_data n with Some a => arr_locs a | None => [] end) ++ [qs_loc n].
Definition dev_locs (d : scull_dev) : list loc := d_data d ≫= node_locs.

(** ** Invariant *)

Definition geom_ok (quantum qset : Z) : Prop :=
  0 < quantum ∧ 0 < qset ∧ quantum * qset <= INT_MAX.

Definition slot_ok (quantum : Z) (o : option quantum_blk) : Prop :=
  match o with Some q => length (q_mem q) = Z.to_nat quantum | None => True end.
Definition arr_ok (quantum qset : Z) (a : data_arr) : Prop :=
  length (a_slots a) = Z.to_nat qset ∧ Forall (slot_ok quantum) (a_slots a).
Definition node_ok (quantum qset : Z) (n : scull_qset_node) : Prop :=
  match qs_data n with Some a => arr_ok quantum qset a | None => True end.

Record dev_wf (d : scull_dev) : Prop := {
  wf_geom : geom_ok (d_quantum d) (d_qset d);
  wf_size : 0 <= d_size d <= LLONG_MAX;
  wf_nodes : Forall (node_ok (d_quantum d) (d_qset d)) (d_data d);
  wf_nodup : NoDup (dev_locs d)
}.

(** ** Abstraction: the bytes of the file

    [dev_quantum d g] is the [g]-th quantum of the file, [dev_cell d p] the
    byte at position [p]; [None] is a hole. *)

Definition node_slot (n : scull_qset_node) (k : nat) : option quantum_blk :=
  match qs_data n with
  | Some a => match a_slots a !! k with Some o => o | None => None end
  | None => None
  end.

Definition dev_quantum (d : scull_dev) (g : Z) : option quantum_blk :=
  match d_data d !! Z.to_nat (g / d_qset d) with
  | Some n => node_slot n (Z.to_nat (g mod d_qset d))
  | None => None
  end.

Definition dev_cell (d : scull_dev) (p : Z) : option cell :=
  match dev_quantum d (p / d_quantum d) with
  | Some q => q_mem q !! Z.to_nat (p mod d_quantum d)
  | None => None
  end.

(** Every byte below [size] has been written. *)
Definition dense (d : scull_dev) : Prop :=
  ∀ p, 0 <= p < d_size d → ∃ b, dev_cell d p = Some (Some b).

Section wf.
Context {H U : Type} `{KernelHeap H} `{UserMem U}.
Abbreviation st := (scull_st H U).

Definition owns (s : st) : Prop := ∀ l, l ∈ dev_locs (dev s) → l ∈ live (heap s).

(** The invariant between system calls; [b] tells whether the mutex is held. *)
Record st_wf (b : bool) (s : st) : Prop := {
  st_dev : dev_wf (dev s);
  st_owns : owns s;
  st_lock : d_locked (dev s) = b
}.

(** The blocks of the kernel heap the device does not own. *)
Definition foreign (s : st) : gset loc := live (heap s) ∖ list_to_set (dev_locs (dev s)).

(** What a call leaves alone besides the blocks. *)
Definition same_file (s s' : st) : Prop :=
  d_quantum (dev s') = d_quantum (dev s) ∧ d_qset (dev s') = d_qset (dev s) ∧
  d_size (dev s') = d_size (dev s) ∧ params s' = params s ∧
  user s' = user s ∧ f_pos s' = f_pos s.

End wf.

(** ** Facts on positions *)

Lemma locate_item Q S p : 0 < Q → 0 < S → 0 <= p → p / (Q * S) = p / Q / S.
Proof. intros. by rewrite Z.div_div by lia. Qed.

Lemma locate_slot Q S p : 0 < Q → 0 < S → 0 <= p → p mod (Q * S) / Q = p / Q mod S.
Proof.
  intros. rewrite Z.rem_mul_r by lia.
  rewrite Z.mul_comm, Z.div_add by lia.
  rewrite (Z.div_small (p mod Q)) by (apply Z.mod_pos_bound; lia). lia.
Qed.

Lemma locate_off Q S p : 0 < Q → 0 < S → 0 <= p → p mod (Q * S) mod Q = p mod Q.
Proof.
  intros. rewrite Z.rem_mul_r by lia.
  rewrite Z.mul_comm, Z.mod_add by lia. apply Z.mod_mod. lia.
Qed.

Lemma same_quantum Q p j :
  0 < Q → 0 <= p → 0 <= j → j < Q - p mod Q →
  (p + j) / Q = p / Q ∧ (p + j) mod Q = p mod Q + j.
Proof.
  intros HQ Hp Hj Hlt.
  pose proof (Z.div_mod p Q ltac:(lia)). pose proof (Z.mod_pos_bound p Q HQ).
  split.
  - symmetry. apply (Z.div_unique _ _ _ (p mod Q + j)); lia.
  - symmetry. apply (Z.mod_unique _ _ (p / Q) (p mod Q + j)); lia.
Qed.

Lemma slot_index_inj S g g' :
  0 < S → 0 <= g → 0 <= g' →
  Z.to_nat (g / S) = Z.to_nat (g' / S) → Z.to_nat (g mod S) = Z.to_nat (g' mod S) → g = g'.
Proof.
  intros HS Hg Hg' E1 E2.
  pose proof (Z.div_pos g S Hg HS). pose proof (Z.div_pos g' S Hg' HS).
  pose proof (Z.mod_pos_bound g S HS). pose proof (Z.mod_pos_bound g' S HS).
  rewrite (Z.div_mod g S), (Z.div_mod g' S) by lia.
  apply Z2Nat.inj in E1; [|lia..]. apply Z2Nat.inj in E2; [|lia..]. congruence.
Qed.

(** ** Freeing *)

Section free.
Context {H U : Type} `{KernelHeap H} `{UserMem U}.
Abbreviation st := (scull_st H U).

(** [m] frees exactly the blocks [ls], all of them distinct and live. *)
Definition frees (ls : list loc) (m : M st unit) : Prop :=
  ∀ s : st, NoDup ls → (∀ l, l ∈ ls → l ∈ live (heap s)) →
  wp m s (λ _ s', live (heap s') = live (heap s) ∖ list_to_set ls ∧
                  s' = set_heap (heap s') s).

Lemma set_heap_eta (s : st) : set_heap (heap s) s = s.
Proof. by destruct s. Qed.

Lemma frees_nil : frees [] (mret tt).
Proof. intros s _ _. wp_step. split; [set_solver|by rewrite set_heap_eta]. Qed.

Lemma frees_kfree l : frees [l] (do_kfree l).
Proof.
  intros s _ Hl. unfold wp, do_kfree. rewrite bool_decide_eq_true_2 by set_solver.
  split; [|done]. simpl. rewrite kfree_law. set_solver.
Qed.

Lemma frees_bind ls ks m k :
  frees ls m → frees ks k → frees (ls ++ ks) (m ≫= λ _, k).
Proof.
  intros Hm Hk s Hnd Hin. apply NoDup_app in Hnd as (N1 & Hdis & N2).
  wp_step. eapply wp_mono; [|apply Hm; set_solver].
  intros _ s1 [E1 ->]. simpl in *.
  eapply wp_mono; [|apply Hk; [done|]].
  - simpl. intros _ s2 [E2 ->]. simpl in *. split; [|done].
    rewrite E2, E1, list_to_set_app_L. set_solver.
  - simpl. rewrite E1. intros l Hl. apply elem_of_difference. split; [set_solver|].
    rewrite elem_of_list_to_set. set_solver.
Qed.

Lemma frees_foreach {A} (l : list A) (f : A → list loc) body :
  (∀ x, x ∈ l → frees (f x) (body x)) → frees (l ≫= f) (mforeach l body).
Proof.
  induction l as [|x l IH]; intros Hb; simpl; [apply frees_nil|].
  apply frees_bind; [apply Hb; set_solver|]. apply IH. set_solver.
Qed.

Lemma frees_slots a n i :
  (i + n = length (a_slots a))%nat →
  frees (drop i (a_slots a) ≫= slot_locs) (mfor i n (trim_slot a)).
Proof.
  revert i. induction n as [|n IH]; intros i Hi; simpl.
  - rewrite drop_ge by lia. apply frees_nil.
  - destruct (lookup_lt_is_Some_2 (a_slots a) i) as [o Ho]; [lia|].
    rewrite (drop_S _ _ _ Ho). simpl. apply frees_bind; [|apply IH; lia].
    unfold trim_slot. rewrite Ho. destruct o; [apply frees_kfree|apply frees_nil].
Qed.

Lemma frees_node quantum qset n :
  node_ok quantum qset n → frees (node_locs n) (trim_node qset n).
Proof.
  intros Hn. unfold trim_node, node_locs. apply frees_bind; [|apply frees_kfree].
  unfold node_ok in Hn. destruct (qs_data n) as [a|]; [|apply frees_nil].
  destruct Hn as [Hlen _]. apply frees_bind; [|apply frees_kfree].
  apply (frees_slots a _ 0). lia.
Qed.

(** The state scull_trim leaves: every field but the lock and the key reset. *)
Definition trimmed (s : st) : scull_dev :=
  ScullDev [] (scull_quantum (params s)) (scull_qset (params s)) 0
    (d_access_key (dev s)) (d_locked (dev s)).

Lemma trim_wp (s : st) :
  dev_wf (dev s) → owns s →
  wp scull_trim s (λ r s', r = 0 ∧ live (heap s') = foreign s ∧
    s' = set_dev (trimmed s) (set_heap (heap s') s)).
Proof.
  intros Hwf Hown. unfold scull_trim. wp_steps.
  eapply wp_mono; [|apply (frees_foreach _ node_locs)].
  - intros _ s1 [E1 ->]. wp_steps. done.
  - intros n Hn. eapply frees_node.
    pose proof (wf_nodes _ Hwf) as Hf. rewrite Forall_forall in Hf. eauto.
  - apply Hwf.
  - apply Hown.
Qed.

End free.

(** ** Growing the device *)

Lemma alter_node_locs (f : scull_qset_node → scull_qset_node) i data n ls :
  data !! i = Some n → node_locs (f n) ≡ₚ ls ++ node_locs n →
  (alter f i data ≫= node_locs) ≡ₚ ls ++ (data ≫= node_locs).
Proof.
  revert i. induction data as [|x data IH]; intros [|i] Hi Hf; simplify_eq/=.
  - by rewrite Hf, <- (assoc_L (++)).
  - rewrite (IH i Hi Hf). rewrite !(assoc_L (++)).
    by rewrite (Permutation_app_comm (node_locs x) ls).
Qed.

Lemma put_slot_locs a k q :
  a_slots a !! k = Some None → arr_locs (put_slot a k q) ≡ₚ [q_loc q] ++ arr_locs a.
Proof.
  intros Hk. unfold arr_locs, put_slot. simpl.
  rewrite (insert_take_drop (a_slots a) k (Some q)) by (by eapply lookup_lt_Some).
  rewrite <- (take_drop_middle (a_slots a) k None Hk) at 3.
  rewrite !bind_app. simpl. by solve_Permutation.
Qed.

(** Rewriting a quantum in place owns the same blocks. *)
Lemma put_slot_locs_same a k q q' :
  a_slots a !! k = Some (Some q) → q_loc q' = q_loc q →
  arr_locs (put_slot a k q') = arr_locs a.
Proof.
  intros Hk Hl. unfold arr_locs, put_slot. simpl.
  rewrite (insert_take_drop (a_slots a) k (Some q')) by (by eapply lookup_lt_Some).
  rewrite <- (take_drop_middle (a_slots a) k _ Hk) at 3.
  rewrite !bind_app. simpl. by rewrite Hl.
Qed.

Section grow.
Context {H U : Type} `{KernelHeap H} `{UserMem U}.
Abbreviation st := (scull_st H U).
Implicit Types s : st.

(** [s'] differs from [s] only by bookkeeping the file content does not show. *)
Record quiet (b : bool) (s s' : st) : Prop := {
  q_wf : st_wf b s';
  q_foreign : foreign s' = foreign s;
  q_file : same_file s s';
  q_data : ∀ g, dev_quantum (dev s') g = dev_quantum (dev s) g;
  q_len : (length (d_data (dev s)) ≤ length (d_data (dev s')))%nat
}.

Lemma quiet_refl b s : st_wf b s → quiet b s s.
Proof. intros. by split; [|..|done|lia]. Qed.

Lemma quiet_trans b s1 s2 s3 : quiet b s1 s2 → quiet b s2 s3 → quiet b s1 s3.
Proof.
  intros [W1 F1 S1 D1 L1] [W2 F2 S2 D2 L2]. split; [done|congruence| |congruence|lia].
  unfold same_file in *. naive_solver congruence.
Qed.

(** One more block, fresh from kmalloc, joined to the device. *)
Lemma owns_alloc n s l h' d' :
  owns s → kmalloc n (heap s) = (Some l, h') →
  dev_locs d' ≡ₚ l :: dev_locs (dev s) → NoDup (dev_locs (dev s)) →
  NoDup (dev_locs d') ∧ owns (set_dev d' (set_heap h' s)) ∧
  foreign (set_dev d' (set_heap h' s)) = foreign s.
Proof.
  intros Hown Hk Hp Hnd. pose proof (kmalloc_live _ _ _ _ Hk) as El.
  pose proof (kmalloc_fresh _ _ _ _ Hk) as Hf.
  assert (l ∉ dev_locs (dev s)) by (intros ?; by apply Hf, Hown).
  split_and!.
  - rewrite Hp. by apply NoDup_cons.
  - intros k. unfold owns in Hown. simpl. rewrite Hp, El. set_solver.
  - unfold foreign. simpl. rewrite El. apply set_eq. intros k.
    rewrite !elem_of_difference, !elem_of_list_to_set, Hp. set_solver.
Qed.

Lemma kmalloc_none_quiet n b s h' :
  st_wf b s → kmalloc n (heap s) = (None, h') → quiet b s (set_heap h' s).
Proof.
  intros [Hd Ho Hl] E. pose proof (kmalloc_none_law _ _ _ E) as El.
  split; [|by unfold foreign; simpl; rewrite El|done|done|done].
  split; [done| |done]. intros k Hk. simpl. rewrite El. by apply Ho.
Qed.

(** wp rule for kmalloc: both outcomes, the failed one already quiet. *)
Lemma do_kmalloc_wp n b s (Q : option loc → st → Prop) :
  st_wf b s →
  (∀ h', quiet b s (set_heap h' s) → Q None (set_heap h' s)) →
  (∀ l h', kmalloc n (heap s) = (Some l, h') → Q (Some l) (set_heap h' s)) →
  wp (do_kmalloc n) s Q.
Proof.
  intros Hwf Hn Hs. unfold wp, do_kmalloc.
  destruct (kmalloc n (heap s)) as [[l|] h'] eqn:E; eauto using kmalloc_none_quiet.
Qed.

Lemma append_qset_wp b s :
  st_wf b s →
  wp append_qset s (λ ok s', quiet b s s' ∧
    (ok = true → length (d_data (dev s')) = S (length (d_data (dev s))))).
Proof.
  intros Hwf. pose proof Hwf as [Hd Ho Hl]. unfold append_qset. wp_step.
  eapply do_kmalloc_wp; [done|intros; by wp_steps|].
  intros l h' E. wp_steps. len. split; [|intros _; simpl; lia].
  set (d' := with_data _ _).
  assert (dev_locs d' = dev_locs (dev s) ++ [l]) as El.
  { unfold dev_locs, d'. simpl. by rewrite bind_app. }
  destruct (owns_alloc _ s l h' d' Ho E) as (N & O & F); [|apply Hd|].
  { rewrite El. by rewrite (comm (++)). }
  split; [|exact F|done| |unfold d'; simpl; len; lia].
  - split; [|done|done]. destruct Hd as [G Sz Nd _]. split; [done..| |done].
    simpl. apply Forall_app. split; [done|]. by constructor.
  - intros g. unfold dev_quantum, d'. simpl.
    destruct (decide (Z.to_nat (g / d_qset (dev s)) < length (d_data (dev s)))%nat).
    + by rewrite lookup_app_l.
    + rewrite lookup_app_r by lia. rewrite (lookup_ge_None_2 (d_data (dev s))) by lia.
      by destruct (_ - _)%nat as [|[]].
Qed.

Lemma follow_loop_wp n b s i :
  st_wf b s → (i < length (d_data (dev s)))%nat →
  wp (follow_loop n i) s (λ r s', quiet b s s' ∧
    (∀ j, r = Some j → j = (i + n)%nat ∧ (j < length (d_data (dev s')))%nat) ∧
    (i + n < length (d_data (dev s)) → r = Some (i + n))%nat).
Proof.
  revert s i. induction n as [|n IH]; intros s i Hwf Hi; simpl.
  { wp_step. split; [by apply quiet_refl|]. rewrite Nat.add_0_r.
    split; [|done]. by intros j [= <-]. }
  wp_step. wp_step. case_match eqn:E.
  - apply Nat.ltb_lt in E. eapply wp_mono; [|by apply IH].
    intros r s' (Hq & Hr & Hs). by rewrite <- Nat.add_succ_comm.
  - apply Nat.ltb_ge in E. wp_step. eapply wp_mono; [|by apply append_qset_wp].
    intros ok s1 [Hq Hok]. destruct ok; [|wp_steps; split_and!; [done..|lia]].
    specialize (Hok eq_refl).
    eapply wp_mono; [|apply IH; [apply Hq|lia]].
    intros r s' (Hq' & Hr & _). rewrite <- Nat.add_succ_comm.
    split_and!; [by eapply quiet_trans|done|lia].
Qed.

Lemma scull_follow_wp n b s :
  st_wf b s → 0 <= n <= INT_MAX →
  wp (scull_follow n) s (λ r s', quiet b s s' ∧
    (∀ j, r = Some j → j = Z.to_nat n ∧ (j < length (d_data (dev s')))%nat) ∧
    (Z.to_nat n < length (d_data (dev s)) → r = Some (Z.to_nat n))%nat).
Proof.
  intros Hwf Hn. unfold scull_follow. unfold INT_MAX in Hn. rewrite u32_id by lia.
  wp_step. wp_step. destruct (d_data (dev s)) as [|x r] eqn:Ed.
  - wp_step. eapply wp_mono; [|by apply append_qset_wp].
    intros ok s1 [Hq Hok]. destruct ok; [|wp_steps; split_and!; [done..|lia]].
    specialize (Hok eq_refl).
    eapply wp_mono; [|apply follow_loop_wp; [apply Hq|lia]].
    intros r s' (Hq' & Hr & _). split_and!; [by eapply quiet_trans|done|simpl; lia].
  - eapply wp_mono; [|apply follow_loop_wp; [done|rewrite Ed; simpl; lia]].
    rewrite Ed. naive_solver.
Qed.

Lemma locate_wp Q S pos s (P : Z * Z * Z → st → Prop) :
  geom_ok Q S → 0 <= pos <= LLONG_MAX → pos / Q / S <= INT_MAX →
  P (pos / Q / S, pos / Q mod S, pos mod Q) s → wp (locate Q S pos) s P.
Proof.
  intros (HQ & HS & HI) Hp Hit HP. unfold locate, INT_MAX, LLONG_MAX in *.
  assert (0 < Q * S) by nia.
  rewrite (s32_id (Q * S)) by (unfold INT_MAX; lia).
  pose proof (Z.mod_pos_bound pos (Q * S) ltac:(lia)).
  pose proof (Z.div_pos pos (Q * S) ltac:(lia) ltac:(lia)).
  pose proof (Z.mod_pos_bound (pos / Q) S HS).
  pose proof (Z.mod_pos_bound pos Q HQ).
  assert (Q <= Q * S) by nia. assert (S <= Q * S) by nia.
  pose proof (Z.div_pos pos Q ltac:(lia) HQ). pose proof (Z.div_pos (pos / Q) S ltac:(lia) HS).
  wp_step. apply c_div_wp; [lia..|]. wp_step. apply c_rem_wp; [lia..|].
  rewrite (s32_id (pos mod _)) by (unfold INT_MAX; lia).
  wp_step. apply c_div_wp; [lia..|]. wp_step. apply c_rem_wp; [lia..|]. wp_step.
  rewrite locate_item, locate_slot, locate_off by lia.
  rewrite !s32_id by (unfold INT_MAX; lia). done.
Qed.

Lemma get_node_wp i s (P : scull_qset_node → st → Prop) :
  (i < length (d_data (dev s)))%nat →
  (∀ n, d_data (dev s) !! i = Some n → P n s) → wp (get_node i) s P.
Proof.
  intros Hi HP. unfold get_node. wp_steps.
  destruct (lookup_lt_is_Some_2 _ _ Hi) as [n Hn]. rewrite Hn. wp_step. auto.
Qed.

Lemma get_slot_wp Q S a k s (P : option quantum_blk → st → Prop) :
  arr_ok Q S a → 0 <= k < S →
  (∀ o, a_slots a !! Z.to_nat k = Some o → slot_ok Q o → P o s) → wp (get_slot a k) s P.
Proof.
  intros [Hlen Hok] Hk HP. unfold get_slot.
  rewrite (proj2 (Z.ltb_ge _ _)) by lia.
  destruct (lookup_lt_is_Some_2 (a_slots a) (Z.to_nat k)) as [o Ho]; [lia|].
  rewrite Ho. wp_step. rewrite Forall_lookup in Hok. eauto.
Qed.

(** ** Read *)

Definition read_len (d : scull_dev) (pos count : Z) : Z :=
  Z.min (Z.min count (d_size d - pos)) (d_quantum d - pos mod d_quantum d).

(** The quantum a read at [pos] copies from; [None] at end of file and in a hole. *)
Definition read_source (d : scull_dev) (pos : Z) : option quantum_blk :=
  if d_size d <=? pos then None else dev_quantum d (pos / d_quantum d).

Lemma dev_quantum_ok d g q :
  dev_wf d → 0 <= g → dev_quantum d g = Some q → length (q_mem q) = Z.to_nat (d_quantum d).
Proof.
  intros [(HQ & HS & _) _ Hn _] Hg. unfold dev_quantum, node_slot.
  destruct (d_data d !! _) as [n|] eqn:En; [|done].
  rewrite Forall_lookup in Hn. specialize (Hn _ _ En). unfold node_ok in Hn.
  destruct (qs_data n) as [a|]; [|done]. destruct Hn as [_ Hs].
  destruct (a_slots a !! _) as [o|] eqn:Eo; [|done]. intros ->.
  rewrite Forall_lookup in Hs. by apply (Hs _ _ Eo).
Qed.

Lemma in_block_true off n q :
  0 <= off → off + n <= Z.of_nat (length (q_mem q)) → in_block off n q = true.
Proof. intros. unfold in_block. apply andb_true_intro. split; by apply Z.leb_le. Qed.

Lemma clip_count Q p count :
  0 < Q <= INT_MAX →
  (if u64 (s32 (Q - p mod Q)) <? count then u64 (s32 (Q - p mod Q)) else count)
  = Z.min count (Q - p mod Q).
Proof.
  intros HQ. pose proof (Z.mod_pos_bound p Q ltac:(lia)). unfold INT_MAX in *.
  rewrite s32_id by (unfold INT_MAX; lia). rewrite u64_id by lia.
  destruct (Z.ltb_spec (Q - p mod Q) count); lia.
Qed.

Lemma read_locked_wp s buf count :
  let d := dev s in let pos := f_pos s in let Q := d_quantum d in
  st_wf true s → 0 <= pos <= LLONG_MAX → pos / Q / d_qset d <= INT_MAX →
  0 <= count <= LLONG_MAX →
  wp (scull_read_locked Q (d_qset d) buf count) s (λ r s', ∃ s1, quiet true s s1 ∧
    match read_source d pos with
    | None => r = 0 ∧ s' = s1
    | Some q =>
        let n := read_len d pos count in
        let c := copy_to_user (user s) buf (slice (Z.to_nat (pos mod Q)) (Z.to_nat n) (q_mem q)) in
        if (c.2 =? 0)%nat then r = n ∧ s' = set_pos (pos + n) (set_user c.1 s1)
        else r = - EFAULT ∧ s' = set_user c.1 s1
    end).
Proof.
  intros d pos Q Hwf Hpos Hitem Hcount. pose proof (st_dev _ _ Hwf) as Hd.
  pose proof (wf_geom _ Hd) as Hg. pose proof (wf_size _ Hd) as Hsz.
  pose proof Hg as (HQ & HS & HI).
  fold d Q in HQ, HS, HI, Hd, Hg, Hsz. unfold LLONG_MAX in *.
  pose proof (Z.mod_pos_bound pos Q ltac:(lia)) as Hmod.
  assert (Q <= INT_MAX) by (clear -HQ HS HI; nia).
  unfold scull_read_locked. wp_step. wp_step. fold d pos.
  rewrite (u64_id pos), (u64_id (pos + count)) by lia.
  unfold read_source. fold Q.
  destruct (d_size d <=? pos) eqn:Esz.
  { wp_step. exists s. split; [by apply quiet_refl|done]. }
  apply Z.leb_gt in Esz. rewrite (u64_id (d_size d - pos)) by lia.
  set (count1 := if d_size d <? pos + count then d_size d - pos else count).
  assert (count1 = Z.min count (d_size d - pos)) as Ec1.
  { unfold count1. destruct (Z.ltb_spec (d_size d) (pos + count)); lia. }
  pose proof (Z.div_pos pos Q ltac:(lia) HQ) as Hg0.
  pose proof (Z.div_pos (pos / Q) (d_qset d) ltac:(lia) HS) as Hi0.
  pose proof (Z.mod_pos_bound (pos / Q) (d_qset d) HS) as Hk0.
  wp_step. apply locate_wp; [done|unfold LLONG_MAX; lia|done|].
  wp_step. eapply wp_mono; [|apply scull_follow_wp; [done|lia]].
  intros r s1 (Hq & Hr & Hex). pose proof (q_data _ _ _ Hq (pos / Q)) as Hdq. fold d in Hdq.
  destruct r as [i|].
  2:{ wp_step. exists s1. split; [done|].
      assert (dev_quantum d (pos / Q) = None) as ->; [|done].
      unfold dev_quantum. rewrite lookup_ge_None_2; [done|].
      destruct (decide (length (d_data d) <= Z.to_nat (pos / Q / d_qset d))%nat); [done|].
      exfalso. discriminate Hex. fold d. lia. }
  destruct (Hr _ eq_refl) as [-> Hlen]. wp_step. apply get_node_wp; [done|].
  intros n Hn. destruct (q_file _ _ _ Hq) as (EQ & ES & _ & _ & EU & EP).
  fold d in EQ, ES. fold Q in EQ. fold pos in EP.
  unfold dev_quantum in Hdq at 1. rewrite ES, Hn in Hdq. unfold node_slot in Hdq.
  pose proof (wf_nodes _ (st_dev _ _ (q_wf _ _ _ Hq))) as Hnodes.
  rewrite Forall_lookup in Hnodes. specialize (Hnodes _ _ Hn). rewrite EQ, ES in Hnodes.
  unfold node_ok in Hnodes. destruct (qs_data n) as [a|].
  2:{ wp_step. exists s1. rewrite <- Hdq. done. }
  wp_step. eapply get_slot_wp; [done|lia|]. intros o Ho Hso. rewrite Ho in Hdq.
  rewrite <- Hdq. destruct o as [q|]; [|wp_step; by exists s1].
  rewrite clip_count by lia. rewrite Ec1. fold (read_len d pos count).
  set (n' := read_len d pos count).
  assert (0 <= n' ∧ n' <= Q - pos mod Q ∧ n' <= d_size d - pos) as Hn'.
  { unfold n', read_len. fold Q. lia. }
  simpl in Hso. wp_step. unfold wp at 1, quantum_to_user.
  rewrite in_block_true by lia. rewrite EU.
  destruct (copy_to_user _ _ _) as [u k] eqn:Ecp. simpl.
  destruct (k =? 0)%nat; wp_steps; exists s1; [|done].
  rewrite EP. rewrite !s64_id by (unfold LLONG_MAX; lia). done.
Qed.

(** ** Write *)

(** [s'] is [s] with quantum [g] of the file set to [q]. *)
Record stored (b : bool) (g : Z) (q : quantum_blk) (s s' : st) : Prop := {
  sto_wf : st_wf b s';
  sto_foreign : foreign s' = foreign s;
  sto_file : same_file s s';
  sto_eq : dev_quantum (dev s') g = Some q;
  sto_ne : ∀ g', 0 <= g' → g' ≠ g → dev_quantum (dev s') g' = dev_quantum (dev s) g'
}.

Lemma stored_quiet b g q s1 s2 s3 : quiet b s1 s2 → stored b g q s2 s3 → stored b g q s1 s3.
Proof.
  intros [W1 F1 S1 D1 _] [W2 F2 S2 E2 N2]. split; [done|congruence| |done|].
  - unfold same_file in *. naive_solver congruence.
  - intros g' ??. by rewrite N2, D1.
Qed.

Lemma stored_stored b g q q' s1 s2 s3 :
  stored b g q s1 s2 → stored b g q' s2 s3 → stored b g q' s1 s3.
Proof.
  intros [W1 F1 S1 D1 N1] [W2 F2 S2 E2 N2]. split; [done|congruence| |done|].
  - unfold same_file in *. naive_solver congruence.
  - intros g' ??. by rewrite N2, N1.
Qed.

(** The device with array [a] installed at node [i]. *)
Definition with_array (d : scull_dev) (i : nat) (a : data_arr) : scull_dev :=
  with_data d (alter (λ n, QsetNode (qs_loc n) (Some a)) i (d_data d)).

Lemma with_array_nodes d i a :
  Forall (node_ok (d_quantum d) (d_qset d)) (d_data d) → arr_ok (d_quantum d) (d_qset d) a →
  Forall (node_ok (d_quantum d) (d_qset d)) (d_data (with_array d i a)).
Proof.
  intros Hn Ha. simpl. apply Forall_alter; [done|]. intros n _ _. exact Ha.
Qed.

Lemma put_slot_ok Q S a k q :
  arr_ok Q S a → length (q_mem q) = Z.to_nat Q → arr_ok Q S (put_slot a k q).
Proof.
  intros [Hl Hs] Hq. split; simpl; [by len|]. by apply Forall_insert.
Qed.

Lemma with_array_quantum d i a n g g' q :
  0 < d_qset d → 0 <= g → 0 <= g' →
  d_data d !! i = Some n → i = Z.to_nat (g / d_qset d) →
  (Z.to_nat (g mod d_qset d) < length (a_slots a))%nat →
  (∀ k, k ≠ Z.to_nat (g mod d_qset d) → node_slot n k =
     match a_slots a !! k with Some o => o | None => None end) →
  dev_quantum (with_array d i (put_slot a (Z.to_nat (g mod d_qset d)) q)) g' =
  if decide (g' = g) then Some q else dev_quantum d g'.
Proof.
  intros HS Hg Hg' Hn -> Hk Ho. unfold dev_quantum, with_array. simpl.
  destruct (decide (Z.to_nat (g' / d_qset d) = Z.to_nat (g / d_qset d))) as [E|E].
  - rewrite E, list_lookup_alter_eq, Hn. simpl. unfold node_slot at 1. simpl.
    destruct (decide (g' = g)) as [->|Hne].
    + by rewrite list_lookup_insert_eq.
    + assert (Z.to_nat (g mod d_qset d) ≠ Z.to_nat (g' mod d_qset d)).
      { intros E'. apply Hne. by apply (slot_index_inj (d_qset d)). }
      rewrite list_lookup_insert_ne by done. by rewrite Ho.
  - rewrite list_lookup_alter_ne by done. destruct (decide (g' = g)); congruence.
Qed.

(** Installing a quantum [q'] in slot [g]: the block is fresh ([Some l]) or the
    one already there. *)
Lemma store_in_place b s g n a q q' :
  st_wf b s → 0 <= g → d_data (dev s) !! Z.to_nat (g / d_qset (dev s)) = Some n →
  qs_data n = Some a → a_slots a !! Z.to_nat (g mod d_qset (dev s)) = Some (Some q) →
  q_loc q' = q_loc q → length (q_mem q') = Z.to_nat (d_quantum (dev s)) →
  stored b g q' s (set_dev (with_array (dev s) (Z.to_nat (g / d_qset (dev s)))
    (put_slot a (Z.to_nat (g mod d_qset (dev s))) q')) s).
Proof.
  intros Hwf Hg Hn Ha Hk Hl Hq'. pose proof Hwf as [Hd Ho Hlk].
  set (i := Z.to_nat (g / _)) in *. set (k := Z.to_nat (g mod _)) in *.
  set (d' := with_array _ _ _).
  pose proof (wf_nodes _ Hd) as Hf. rewrite Forall_lookup in Hf.
  specialize (Hf _ _ Hn). unfold node_ok in Hf. rewrite Ha in Hf.
  assert (dev_locs d' ≡ₚ dev_locs (dev s)) as Hlocs.
  { unfold dev_locs, d'. simpl. rewrite (alter_node_locs _ _ _ n []); [done..|].
    unfold node_locs. simpl. rewrite Ha. by erewrite put_slot_locs_same. }
  assert (∀ g', 0 <= g' → dev_quantum d' g' = if decide (g' = g) then Some q' else dev_quantum (dev s) g') as Hdq.
  { intros g' Hg'. eapply with_array_quantum; eauto; [apply Hd|by eapply lookup_lt_Some|].
    intros k' _. unfold node_slot. by rewrite Ha. }
  split; [split; [|..]|..].
  - split; [exact (wf_geom _ Hd)|exact (wf_size _ Hd)| |].
    + apply (with_array_nodes (dev s)); [exact (wf_nodes _ Hd)|]. by apply put_slot_ok.
    + simpl. rewrite Hlocs. apply Hd.
  - intros l Hl'. simpl in *. apply Ho. by rewrite <- Hlocs.
  - done.
  - unfold foreign. simpl. apply set_eq. intros l.
    rewrite !elem_of_difference, !elem_of_list_to_set. by rewrite Hlocs.
  - done.
  - simpl. rewrite Hdq by done. by rewrite decide_True.
  - intros g' ??. simpl. rewrite Hdq by done. by rewrite decide_False.
Qed.

Lemma store_fresh b s g n a l h' m c :
  st_wf b s → 0 <= g → d_data (dev s) !! Z.to_nat (g / d_qset (dev s)) = Some n →
  qs_data n = Some a → a_slots a !! Z.to_nat (g mod d_qset (dev s)) = Some None →
  kmalloc m (heap s) = (Some l, h') → length c = Z.to_nat (d_quantum (dev s)) →
  stored b g (QuantumBlk l c) s
    (set_dev (with_array (dev s) (Z.to_nat (g / d_qset (dev s)))
      (put_slot a (Z.to_nat (g mod d_qset (dev s))) (QuantumBlk l c))) (set_heap h' s)).
Proof.
  intros Hwf Hg Hn Ha Hk Hm Hc. pose proof Hwf as [Hd Ho Hlk].
  set (i := Z.to_nat (g / _)) in *. set (k := Z.to_nat (g mod _)) in *.
  set (q' := QuantumBlk l c). set (d' := with_array _ _ _).
  pose proof (wf_nodes _ Hd) as Hf. rewrite Forall_lookup in Hf.
  specialize (Hf _ _ Hn). unfold node_ok in Hf. rewrite Ha in Hf.
  assert (dev_locs d' ≡ₚ l :: dev_locs (dev s)) as Hlocs.
  { unfold dev_locs, d'. simpl. rewrite (alter_node_locs _ _ _ n [l]); [done..|].
    unfold node_locs. simpl. rewrite Ha, (put_slot_locs _ _ q') by done. done. }
  destruct (owns_alloc _ s l h' d' Ho Hm Hlocs (wf_nodup _ Hd)) as (N & O & F).
  assert (∀ g', 0 <= g' → dev_quantum d' g' = if decide (g' = g) then Some q' else dev_quantum (dev s) g') as Hdq.
  { intros g' Hg'. eapply with_array_quantum; eauto; [apply Hd|by eapply lookup_lt_Some|].
    intros k' _. unfold node_slot. by rewrite Ha. }
  split; [split; [|done|done]|done|done|..].
  - split; [exact (wf_geom _ Hd)|exact (wf_size _ Hd)| |done].
    apply (with_array_nodes (dev s)); [exact (wf_nodes _ Hd)|]. by apply put_slot_ok.
  - simpl. rewrite Hdq by done. by rewrite decide_True.
  - intros g' ??. simpl. rewrite Hdq by done. by rewrite decide_False.
Qed.

(** An empty array joined to a node shows no new byte. *)
Lemma add_array_quiet b s i n l h' m :
  st_wf b s → d_data (dev s) !! i = Some n → qs_data n = None →
  kmalloc m (heap s) = (Some l, h') →
  quiet b s (set_dev (with_array (dev s) i
    (DataArr l (replicate (Z.to_nat (d_qset (dev s))) None))) (set_heap h' s)).
Proof.
  intros Hwf Hn Hnone Hm. pose proof Hwf as [Hd Ho Hlk].
  set (a := DataArr _ _). set (d' := with_array _ _ _).
  assert (dev_locs d' ≡ₚ l :: dev_locs (dev s)) as Hlocs.
  { unfold dev_locs, d'. simpl. rewrite (alter_node_locs _ _ _ n [l]); [done..|].
    unfold node_locs, arr_locs. simpl. rewrite Hnone.
    assert (replicate (Z.to_nat (d_qset (dev s))) None ≫= slot_locs = []) as ->; [|done].
    by induction (Z.to_nat (d_qset (dev s))). }
  destruct (owns_alloc _ s l h' d' Ho Hm Hlocs (wf_nodup _ Hd)) as (N & O & F).
  split; [split; [|done|done]|done|done| |by unfold d'; simpl; rewrite length_alter].
  - split; [exact (wf_geom _ Hd)|exact (wf_size _ Hd)| |done].
    apply (with_array_nodes (dev s)); [exact (wf_nodes _ Hd)|].
    split; simpl; [by len|]. by apply Forall_replicate.
  - intros g. unfold dev_quantum, d', with_array. simpl.
    destruct (decide (i = Z.to_nat (g / d_qset (dev s)))) as [<-|].
    + rewrite list_lookup_alter_eq, Hn. simpl. unfold node_slot. simpl. rewrite Hnone.
      case_match eqn:E; [|done]. by apply lookup_replicate in E as [-> _].
    + by rewrite list_lookup_alter_ne.
Qed.

Lemma ensure_array_wp b s i S :
  d_qset (dev s) = S → st_wf b s → (i < length (d_data (dev s)))%nat →
  wp (ensure_array S i) s (λ r s', quiet b s s' ∧
    ∀ a, r = Some a → ∃ n, d_data (dev s') !! i = Some n ∧ qs_data n = Some a).
Proof.
  intros <- Hwf Hi. pose proof (wf_geom _ (st_dev _ _ Hwf)) as (HQ & HS & HI).
  assert (d_qset (dev s) <= INT_MAX) by (clear -HQ HS HI; nia). unfold INT_MAX in *.
  unfold ensure_array, sizeof_ptr. wp_step. apply get_node_wp; [done|].
  intros n Hn. destruct (qs_data n) as [a|] eqn:Ea.
  { wp_step. split; [by apply quiet_refl|]. intros a' [= <-]. eauto. }
  rewrite u64_id by lia. rewrite Z.div_mul by lia.
  wp_step. eapply do_kmalloc_wp; [done|intros; by wp_steps|].
  intros l h' E. wp_steps. split; [by eapply add_array_quiet|].
  intros a [= <-]. rewrite list_lookup_alter_eq, Hn. simpl. eauto.
Qed.

(** What a write finds in the quantum it writes to: its bytes, or, in a hole,
    bytes nobody wrote. *)
Definition old_quantum (d : scull_dev) (g : Z) (q : quantum_blk) : Prop :=
  dev_quantum d g = Some q ∨
  dev_quantum d g = None ∧ q_mem q = replicate (Z.to_nat (d_quantum d)) None.

Lemma ensure_quantum_wp b s g n a Q S :
  let i := Z.to_nat (g / S) in let k := g mod S in
  d_quantum (dev s) = Q → d_qset (dev s) = S → st_wf b s → 0 <= g → d_data (dev s) !! i = Some n → qs_data n = Some a →
  wp (ensure_quantum Q i a k) s (λ r s',
    match r with
    | None => quiet b s s'
    | Some q => stored b g q s s' ∧ old_quantum (dev s) g q ∧
        ∃ n', d_data (dev s') !! i = Some n' ∧ qs_data n' = Some (put_slot a (Z.to_nat k) q)
    end).
Proof.
  intros i k <- <- Hwf Hg Hn Ha. pose proof (wf_geom _ (st_dev _ _ Hwf)) as (HQ & HS & HI).
  assert (d_quantum (dev s) <= INT_MAX) by (clear -HQ HS HI; nia). unfold INT_MAX in *.
  pose proof (Z.mod_pos_bound g _ HS) as Hk.
  pose proof (wf_nodes _ (st_dev _ _ Hwf)) as Hf. rewrite Forall_lookup in Hf.
  specialize (Hf _ _ Hn). unfold node_ok in Hf. rewrite Ha in Hf.
  assert (∀ o, a_slots a !! Z.to_nat k = Some o → dev_quantum (dev s) g = o) as Hdq.
  { intros o Ho. unfold dev_quantum. fold i k. rewrite Hn. unfold node_slot. by rewrite Ha, Ho. }
  unfold ensure_quantum. rewrite u64_id by lia.
  wp_step. eapply get_slot_wp; [done|done|]. intros o Ho Hso.
  specialize (Hdq _ Ho). destruct o as [q|].
  - wp_step. split_and!.
    + split; [done..|]. auto.
    + by left.
    + exists n. split; [done|]. unfold put_slot. rewrite list_insert_id by done.
      by destruct a.
  - wp_step. eapply do_kmalloc_wp; [done|intros; by wp_steps|].
    intros l h' E. wp_steps. split_and!.
    + eapply store_fresh; eauto. by len.
    + right. done.
    + rewrite list_lookup_alter_eq, Hn. simpl. eauto.
Qed.

Lemma user_to_quantum_wp b s g n a q buf off m S :
  let i := Z.to_nat (g / S) in let k := g mod S in
  let c := copy_from_user (user s) buf (Z.to_nat m) in
  d_qset (dev s) = S →
  st_wf b s → 0 <= g → d_data (dev s) !! i = Some n →
  qs_data n = Some (put_slot a (Z.to_nat k) q) →
  0 <= off → 0 <= m → off + m <= d_quantum (dev s) →
  (Z.to_nat k < length (a_slots a))%nat →
  wp (user_to_quantum buf i a k q off m) s (λ r s', r = c.2 ∧
    stored b g (QuantumBlk (q_loc q) (list_inserts (Z.to_nat off) c.1 (q_mem q))) s s').
Proof.
  intros i k c <- Hwf Hg Hn Ha Hoff Hm Hle Hk.
  assert (dev_quantum (dev s) g = Some q) as Hdq.
  { unfold dev_quantum. fold i k. rewrite Hn. unfold node_slot. rewrite Ha. simpl.
    by rewrite list_lookup_insert_eq. }
  pose proof (dev_quantum_ok _ _ _ (st_dev _ _ Hwf) Hg Hdq) as Hlen.
  unfold wp, user_to_quantum. rewrite in_block_true by lia. fold c.
  destruct c as [cs r] eqn:Ec. split; [done|].
  set (q' := QuantumBlk _ _).
  assert (put_slot a (Z.to_nat k) q' = put_slot (put_slot a (Z.to_nat k) q) (Z.to_nat k) q') as ->.
  { unfold put_slot. simpl. by rewrite list_insert_insert_eq. }
  apply (store_in_place b s g n _ q); try done; simpl; [by rewrite list_lookup_insert_eq|by len].
Qed.

Definition write_len (d : scull_dev) (pos count : Z) : Z :=
  Z.min count (d_quantum d - pos mod d_quantum d).

(** The outcomes of a write: out of memory, or quantum [pos / Q] rewritten. *)
Definition write_post (s : st) (buf count : Z) (b : bool) (r : Z) (s' : st) : Prop :=
  let d := dev s in let pos := f_pos s in let Q := d_quantum d in
  r = - ENOMEM ∧ quiet b s s' ∨
  ∃ q0 s1, old_quantum d (pos / Q) q0 ∧
    let n := write_len d pos count in
    let c := copy_from_user (user s) buf (Z.to_nat n) in
    stored b (pos / Q)
      (QuantumBlk (q_loc q0) (list_inserts (Z.to_nat (pos mod Q)) c.1 (q_mem q0))) s s1 ∧
    if (c.2 =? 0)%nat
    then r = n ∧ s' = set_pos (pos + n) (set_dev (with_size (dev s1) (Z.max (d_size d) (pos + n))) s1)
    else r = - EFAULT ∧ s' = s1.

Lemma write_locked_wp s buf count :
  let d := dev s in let pos := f_pos s in let Q := d_quantum d in
  st_wf true s → 0 <= pos <= LLONG_MAX - Q → pos / Q / d_qset d <= INT_MAX →
  0 <= count <= LLONG_MAX →
  wp (scull_write_locked Q (d_qset d) buf count) s (write_post s buf count true).
Proof.
  intros d pos Q Hwf Hpos Hitem Hcount. pose proof (st_dev _ _ Hwf) as Hd.
  pose proof (wf_geom _ Hd) as Hg. pose proof (wf_size _ Hd) as Hsz.
  pose proof Hg as (HQ & HS & HI). fold d in Hd, Hg, Hsz, HQ, HS, HI. fold Q in HQ, HS, HI, Hg.
  unfold LLONG_MAX in *. pose proof (Z.mod_pos_bound pos Q ltac:(lia)) as Hmod.
  assert (Q <= INT_MAX) by (clear -HQ HS HI; nia).
  pose proof (Z.div_pos pos Q ltac:(lia) HQ) as Hg0.
  pose proof (Z.div_pos (pos / Q) (d_qset d) ltac:(lia) HS) as Hi0.
  pose proof (Z.mod_pos_bound (pos / Q) (d_qset d) HS) as Hk0.
  unfold scull_write_locked. wp_step. wp_step. fold pos.
  wp_step. apply locate_wp; [done|unfold LLONG_MAX; lia|done|].
  wp_step. eapply wp_mono; [|apply scull_follow_wp; [done|lia]].
  intros r s1 (Hq1 & Hr & _). destruct r as [i|]; [|wp_step; by left].
  destruct (Hr _ eq_refl) as [-> Hlen].
  destruct (q_file _ _ _ Hq1) as (EQ & ES & _). fold d in EQ, ES. fold Q in EQ.
  wp_step. eapply wp_mono; [|by apply (ensure_array_wp true); [|apply Hq1|]].
  intros r s2 (Hq2 & Ha). destruct r as [a|]; [|wp_step; left; split; [done|by eapply quiet_trans]].
  destruct (Ha _ eq_refl) as (n & Hn & Hna). clear Ha Hr.
  pose proof (quiet_trans _ _ _ _ Hq1 Hq2) as Hq12.
  destruct (q_file _ _ _ Hq12) as (EQ2 & ES2 & Esz2 & _ & EU2 & EP2).
  fold d in EQ2, ES2, Esz2. fold Q in EQ2. fold pos in EP2.
  wp_step. eapply wp_mono; [|by apply (ensure_quantum_wp true s2 (pos / Q) n a); [..|apply Hq2| | |]].
  intros r s3 Hpost. destruct r as [q|].
  2:{ wp_step. left. split; [done|]. by eapply quiet_trans. }
  destruct Hpost as (Hst3 & Hold & n3 & Hn3 & Hna3).
  destruct (sto_file _ _ _ _ _ Hst3) as (EQ3 & ES3 & Esz3 & _ & EU3 & EP3).
  rewrite clip_count by lia. change (Z.min count (Q - pos mod Q)) with (write_len d pos count).
  set (m := write_len d pos count).
  assert (0 <= m <= Q - pos mod Q) as Hm.
  { unfold m, write_len. fold Q. lia. }
  assert (length (a_slots a) = Z.to_nat (d_qset d)) as Hla.
  { pose proof (wf_nodes _ (st_dev _ _ (q_wf _ _ _ Hq12))) as Hf.
    rewrite ES2, EQ2, Forall_lookup in Hf. specialize (Hf _ _ Hn). unfold node_ok in Hf.
    rewrite Hna in Hf. by destruct Hf as [Hl _]. }
  wp_step. eapply wp_mono; [|apply (user_to_quantum_wp true s3 (pos / Q) n3);
    [congruence|apply Hst3|done|done|done|lia|lia|rewrite EQ3, EQ2; lia|lia]].
  intros r s4 [-> Hst4]. rewrite EU3, EU2 in *.
  assert (old_quantum d (pos / Q) q) as Hold'.
  { unfold old_quantum in *. rewrite (q_data _ _ _ Hq12), EQ2 in Hold. done. }
  pose proof (stored_quiet _ _ _ _ _ _ Hq12 (stored_stored _ _ _ _ _ _ _ Hst3 Hst4)) as Hst.
  destruct (sto_file _ _ _ _ _ Hst) as (_ & _ & Esz & _ & EU & EP). fold d in Esz. fold pos in EP.
  destruct (_ =? 0)%nat eqn:Eleft; wp_steps; right; exists q, s4;
    (split; [done|]); cbv zeta; fold d pos; fold m; (split; [done|]); rewrite Eleft; [|done].
  rewrite Esz, EP. rewrite !s64_id, !u64_id by (unfold LLONG_MAX; lia).
  split; [done|]. unfold set_pos, set_dev, with_size. destruct s4 as [p4 [] h4 u4 f4]. simpl in *. subst.
  destruct (Z.ltb_spec (d_size d) (pos + m)); simpl.
  - by rewrite Z.max_r by lia.
  - by rewrite Z.max_l by lia.
Qed.

End grow.
