(* ===== verification/ScullThms.v ===== *)
(** Theorems on the bare scull device: the handlers against the sparse-file
    specification, memory accounting, reachable states, and the inputs on which
    main.c misbehaves. *)
From Stdlib Require Import ZArith Lia.
From stdpp Require Import base list gmap.
From S2P Require Import Prelude Kernel Scull ScullSpec.

(** ** Specification: a sparse file *)

Record afile := AFile { af_size : Z; af_cell : Z → option cell }.

Definition abs (d : scull_dev) : afile := AFile (d_size d) (dev_cell d).

(** A hole may become backed by memory nobody wrote; nothing else changes. *)
Definition cell_grows (old new : option cell) : Prop :=
  new = old ∨ old = None ∧ new = Some None.

(** The file keeps its size and its bytes outside [pos, pos + n). *)
Definition file_frame (f f' : afile) (pos n : Z) : Prop :=
  ∀ p, 0 <= p → p < pos ∨ pos + n <= p → cell_grows (af_cell f p) (af_cell f' p).

(** [cs] written at [pos]. *)
Definition file_write (f f' : afile) (pos : Z) (cs : list cell) : Prop :=
  af_size f' = Z.max (af_size f) (pos + Z.of_nat (length cs)) ∧
  (∀ j : nat, (j < length cs)%nat → af_cell f' (pos + Z.of_nat j) = cs !! j) ∧
  file_frame f f' pos (Z.of_nat (length cs)).

(** [cs] are the bytes of the file from [pos]. *)
Definition file_read (f : afile) (pos : Z) (cs : list cell) : Prop :=
  pos + Z.of_nat (length cs) <= af_size f ∧
  ∀ j : nat, (j < length cs)%nat → af_cell f (pos + Z.of_nat j) = cs !! j.

(** Positions the code can address: the list index fits an [int]. *)
Definition pos_ok (d : scull_dev) (pos : Z) : Prop :=
  0 <= pos <= LLONG_MAX - d_quantum d ∧ pos / d_quantum d / d_qset d <= INT_MAX.

Section thms.
Context {H U : Type} `{KernelHeap H} `{UserMem U}.
Abbreviation st := (scull_st H U).
Implicit Types s : st.

Definition lock (b : bool) (s : st) : st := set_dev (with_locked (dev s) b) s.

Lemma lock_wf b b' s : st_wf b s → st_wf b' (lock b' s).
Proof. intros [[G Sz N D] O L]. by split; [split|..]. Qed.

Lemma with_mutex_wp intr (body : M st Z) fail s (Q : Z → st → Prop) :
  d_locked (dev s) = false →
  (intr = true → Q fail s) →
  (intr = false → wp body (lock true s)
     (λ r s', d_locked (dev s') = true ∧ Q r (lock false s'))) →
  wp (failed ← mutex_lock_interruptible intr;
      if (failed : bool) then mret fail else
      retval ← body; mutex_unlock ≫= λ _, mret retval) s Q.
Proof.
  intros Hl Hi Hb. wp_step. unfold wp at 1, mutex_lock_interruptible.
  destruct intr; [wp_steps; auto|]. rewrite Hl. wp_step.
  eapply wp_mono; [|by apply Hb]. intros r s' [Hl' HQ].
  wp_step. unfold wp at 1, mutex_unlock. rewrite Hl'. by wp_steps.
Qed.

(** ** Quiet and stored steps, seen as file steps *)

Lemma quiet_cells b s s' :
  quiet b s s' → ∀ p, dev_cell (dev s') p = dev_cell (dev s) p.
Proof.
  intros [_ _ (EQ & _) Hd _] p. unfold dev_cell. by rewrite EQ, Hd.
Qed.

Lemma stored_cells b s s1 q0 l cs :
  let d := dev s in let pos := f_pos s in let Q := d_quantum d in
  dev_wf d → 0 <= pos → old_quantum d (pos / Q) q0 →
  Z.of_nat (length cs) <= Q - pos mod Q →
  stored b (pos / Q) (QuantumBlk l (list_inserts (Z.to_nat (pos mod Q)) cs (q_mem q0))) s s1 →
  (∀ j : nat, (j < length cs)%nat → dev_cell (dev s1) (pos + Z.of_nat j) = cs !! j) ∧
  file_frame (abs d) (abs (dev s1)) pos (Z.of_nat (length cs)).
Proof.
  intros d pos Q Hwf Hpos Hold Hlen Hst.
  pose proof (wf_geom _ Hwf) as (HQ & HS & _). fold Q in HQ.
  pose proof (Z.mod_pos_bound pos Q HQ) as Hm.
  pose proof (Z.div_pos pos Q ltac:(lia) HQ) as Hg.
  assert (length (q_mem q0) = Z.to_nat Q) as Hq0.
  { destruct Hold as [Ho|[_ ->]]; [by eapply dev_quantum_ok|by len]. }
  destruct (sto_file _ _ _ _ _ Hst) as (EQ & _). fold d in EQ. fold Q in EQ.
  split.
  - intros j Hj. destruct (same_quantum Q pos (Z.of_nat j)) as [E1 E2]; [lia..|].
    unfold dev_cell. rewrite EQ, E1, E2, (sto_eq _ _ _ _ _ Hst). simpl.
    rewrite list_lookup_inserts by lia. f_equal. lia.
  - intros p Hp Hout. unfold cell_grows. simpl. unfold dev_cell. rewrite EQ. fold Q.
    destruct (decide (p / Q = pos / Q)) as [E|E].
    2:{ left. rewrite (sto_ne _ _ _ _ _ Hst); [done|by apply Z.div_pos|done]. }
    rewrite E, (sto_eq _ _ _ _ _ Hst). simpl.
    pose proof (Z.mod_pos_bound p Q HQ) as Hm'.
    pose proof (Z.div_mod p Q ltac:(lia)). pose proof (Z.div_mod pos Q ltac:(lia)).
    assert (list_inserts (Z.to_nat (pos mod Q)) cs (q_mem q0) !! Z.to_nat (p mod Q)
            = q_mem q0 !! Z.to_nat (p mod Q)) as ->.
    { destruct Hout; [apply list_lookup_inserts_lt|apply list_lookup_inserts_ge]; nia. }
    destruct Hold as [->|[-> ->]]; [by left|right].
    split; [done|]. apply lookup_replicate_2. lia.
Qed.

(** ** The handlers *)

(** What every call keeps: the invariant, the blocks the device does not own,
    the geometry and the module parameters. *)
Definition call_frame (s s' : st) : Prop :=
  st_wf false s' ∧ foreign s' = foreign s ∧ params s' = params s ∧
  d_quantum (dev s') = d_quantum (dev s) ∧ d_qset (dev s') = d_qset (dev s).

Lemma quiet_unlock s s' : quiet true (lock true s) s' → call_frame s (lock false s').
Proof.
  intros [W F (EQ & ES & _ & EP & _) _ _]. split_and!; [by eapply lock_wf|done|done|done|done].
Qed.

Lemma stored_unlock g q s s' : stored true g q (lock true s) s' → call_frame s (lock false s').
Proof.
  intros [W F (EQ & ES & _ & EP & _) _ _]. split_and!; [by eapply lock_wf|done|done|done|done].
Qed.

Lemma write_wp intr s buf count :
  st_wf false s → pos_ok (dev s) (f_pos s) → 0 <= count <= LLONG_MAX →
  wp (scull_write intr buf count) s (λ r s',
    intr = true ∧ r = - ERESTARTSYS ∧ s' = s ∨
    intr = false ∧ ∃ s1, write_post (lock true s) buf count true r s1 ∧ s' = lock false s1).
Proof.
  intros Hwf [Hp Hi] Hc. unfold scull_write. wp_step. wp_step.
  apply with_mutex_wp; [apply Hwf|by left|]. intros ->.
  eapply wp_mono; [|by apply (write_locked_wp (lock true s)); [eapply lock_wf|..]].
  intros r s1 Hpost. split; [|right; eauto].
  destruct Hpost as [[_ Hq]|(q0 & s2 & _ & Hst & Hr)]; [apply Hq|].
  destruct (_ =? 0)%nat; destruct Hr as [-> ->]; apply Hst.
Qed.

Lemma read_wp intr s buf count :
  st_wf false s → pos_ok (dev s) (f_pos s) → 0 <= count <= LLONG_MAX →
  wp (scull_read intr buf count) s (λ r s',
    intr = true ∧ r = - ERESTARTSYS ∧ s' = s ∨
    intr = false ∧ ∃ s1, quiet true (lock true s) s1 ∧
    let d := dev s in let pos := f_pos s in let Q := d_quantum d in
    match read_source d pos with
    | None => r = 0 ∧ s' = lock false s1
    | Some q =>
        let n := read_len d pos count in
        let c := copy_to_user (user s) buf (slice (Z.to_nat (pos mod Q)) (Z.to_nat n) (q_mem q)) in
        if (c.2 =? 0)%nat then r = n ∧ s' = set_pos (pos + n) (set_user c.1 (lock false s1))
        else r = - EFAULT ∧ s' = set_user c.1 (lock false s1)
    end).
Proof.
  intros Hwf [Hp Hi] Hc. unfold scull_read. wp_step. wp_step.
  pose proof (wf_geom _ (st_dev _ _ Hwf)) as (HQ & _).
  apply with_mutex_wp; [apply Hwf|by left|]. intros ->.
  eapply wp_mono; [|apply (read_locked_wp (lock true s)); [by eapply lock_wf|simpl; lia|done|done]].
  intros r s1 (s2 & Hq & Hr). split.
  - change (read_source (dev (lock true s))) with (read_source (dev s)) in Hr.
    destruct (read_source _ _); [|destruct Hr as [-> ->]; apply Hq].
    simpl in Hr. destruct (_ =? 0)%nat; destruct Hr as [-> ->]; apply Hq.
  - right. split; [done|]. exists s2. split; [done|]. simpl in *.
    change (read_source (dev s) (f_pos s)) with (read_source (with_locked (dev s) true) (f_pos s)).
    destruct (read_source _ _); [|by destruct Hr as [-> ->]].
    simpl in Hr. change (read_len (dev s)) with (read_len (with_locked (dev s) true)).
    destruct (_ =? 0)%nat; by destruct Hr as [-> ->].
Qed.

Definition same_bytes (s s' : st) : Prop :=
  f_pos s' = f_pos s ∧ d_size (dev s') = d_size (dev s) ∧
  ∀ p, dev_cell (dev s') p = dev_cell (dev s) p.

Lemma call_frame_refl s : st_wf false s → call_frame s s.
Proof. by intros. Qed.

Lemma frame_size s s1 n :
  call_frame s s1 → 0 <= n <= LLONG_MAX → call_frame s (set_dev (with_size (dev s1) n) s1).
Proof.
  intros ([[G Sz N D] O L] & F & P & Q & S) Hn. split_and!; [|done..].
  by split; [split|..].
Qed.

Lemma frame_pos s s1 p : call_frame s s1 → call_frame s (set_pos p s1).
Proof. intros ([[G Sz N D] O L] & F & P & Q & S). by split_and!; [split; [split|..]|..]. Qed.

Lemma frame_user s s1 u : call_frame s s1 → call_frame s (set_user u s1).
Proof. intros ([[G Sz N D] O L] & F & P & Q & S). by split_and!; [split; [split|..]|..]. Qed.

(** The result of a write, on every path. *)
Definition write_ok (intr : bool) (s : st) (buf count r : Z) (s' : st) : Prop :=
  let n := write_len (dev s) (f_pos s) count in
  call_frame s s' ∧
  (intr = true ∧ r = - ERESTARTSYS ∧ s' = s
   ∨ r = - ENOMEM ∧ same_bytes s s'
   ∨ r = - EFAULT ∧ f_pos s' = f_pos s ∧ d_size (dev s') = d_size (dev s) ∧
     file_frame (abs (dev s)) (abs (dev s')) (f_pos s) n
   ∨ r = n ∧ f_pos s' = f_pos s + n ∧
     length (user_bytes (user s) buf (Z.to_nat n)) = Z.to_nat n ∧
     file_write (abs (dev s)) (abs (dev s')) (f_pos s) (user_bytes (user s) buf (Z.to_nat n))).

Lemma write_ok_wp intr s buf count :
  st_wf false s → pos_ok (dev s) (f_pos s) → 0 <= count <= LLONG_MAX →
  wp (scull_write intr buf count) s (write_ok intr s buf count).
Proof.
  intros Hwf Hp Hc. eapply wp_mono; [|by apply write_wp].
  pose proof (wf_size _ (st_dev _ _ Hwf)) as Hsz.
  pose proof (wf_geom _ (st_dev _ _ Hwf)) as (HQ & _).
  pose proof Hp as [Hp' _]. set (n := write_len (dev s) (f_pos s) count).
  assert (0 <= n <= d_quantum (dev s) - f_pos s mod d_quantum (dev s)) as Hn.
  { unfold n, write_len. pose proof (Z.mod_pos_bound (f_pos s) _ HQ). lia. }
  pose proof (Z.mod_pos_bound (f_pos s) _ HQ) as Hm.
  unfold write_ok. fold n.
  intros r s' [(-> & -> & ->)|(-> & s1 & Hpost & ->)]; [by eauto 10 using call_frame_refl|].
  destruct Hpost as [[-> Hq]|(q0 & s2 & Hold & Hst & Hr)].
  { split; [by apply quiet_unlock|]. right; left. split; [done|].
    destruct (q_file _ _ _ Hq) as (_ & _ & Es & _ & _ & Ep).
    split_and!; [done..|]. apply (quiet_cells _ _ _ Hq). }
  change (write_len (dev (lock true s)) (f_pos (lock true s)) count) with n in *.
  pose proof (cfu_length_law (user s) buf (Z.to_nat n)) as Hlen.
  destruct (sto_file _ _ _ _ _ Hst) as (_ & _ & Es & _ & _ & Ep).
  pose proof (stored_cells true (lock true s) s2 q0 (q_loc q0)
    (copy_from_user (user s) buf (Z.to_nat n)).1
    (st_dev _ _ (lock_wf _ true _ Hwf)) ltac:(simpl; lia) Hold) as Hcells.
  simpl in Hcells. rewrite Hlen, Z2Nat.id in Hcells by lia.
  destruct (Hcells ltac:(lia) Hst) as [Hin Hout]. clear Hcells.
  simpl in Hr, Hin, Hout, Hlen.
  destruct (copy_from_user (user s) buf (Z.to_nat n)) as [cs k] eqn:Ecp. simpl in *.
  destruct (k =? 0)%nat eqn:Ek; destruct Hr as [-> ->].
  - apply Nat.eqb_eq in Ek as ->. apply cfu_ok_law in Ecp as ->.
    split; [apply (frame_pos s (set_dev _ (lock false s2))),
              (frame_size s (lock false s2)); [by eapply stored_unlock|simpl; lia]|].
    right; right; right. split; [done|]. split; [done|]. split; [done|].
    unfold file_write. rewrite Hlen, Z2Nat.id by lia. done.
  - split; [by eapply stored_unlock|]. right; right; left. done.
Qed.

(** The result of a read, on every path. *)
Definition read_ok (intr : bool) (s : st) (buf count r : Z) (s' : st) : Prop :=
  let d := dev s in let pos := f_pos s in
  call_frame s s' ∧ d_size (dev s') = d_size d ∧ (∀ p, dev_cell (dev s') p = dev_cell d p) ∧
  (intr = true ∧ r = - ERESTARTSYS ∧ s' = s
   ∨ (d_size d <= pos ∨ dev_cell d pos = None) ∧ r = 0 ∧ f_pos s' = pos ∧ user s' = user s
   ∨ r = - EFAULT ∧ f_pos s' = pos
   ∨ pos < d_size d ∧ r = read_len d pos count ∧ f_pos s' = pos + r ∧
     length (user_bytes (user s') buf (Z.to_nat r)) = Z.to_nat r ∧
     file_read (abs d) pos (user_bytes (user s') buf (Z.to_nat r))).

Lemma read_ok_wp intr s buf count :
  st_wf false s → pos_ok (dev s) (f_pos s) → 0 <= count <= LLONG_MAX →
  wp (scull_read intr buf count) s (read_ok intr s buf count).
Proof.
  intros Hwf Hp Hc. eapply wp_mono; [|by apply read_wp].
  pose proof (wf_geom _ (st_dev _ _ Hwf)) as (HQ & _).
  pose proof Hp as [Hp' _]. pose proof (Z.mod_pos_bound (f_pos s) _ HQ) as Hm.
  pose proof (Z.div_pos (f_pos s) (d_quantum (dev s)) ltac:(lia) HQ) as Hg.
  unfold read_ok.
  intros r s' [(-> & -> & ->)|(-> & s1 & Hq & Hr)]; [by eauto 10 using call_frame_refl|].
  destruct (q_file _ _ _ Hq) as (_ & _ & Es & _ & Eu & Ep). simpl in Es, Eu, Ep.
  pose proof (quiet_cells _ _ _ Hq) as Hcell. cbv zeta in Hr.
  destruct (read_source (dev s) (f_pos s)) as [q|] eqn:Esrc.
  2:{ destruct Hr as [-> ->]. split_and!; [by apply quiet_unlock|done|apply Hcell|].
      right; left. split_and!; [|done..]. unfold read_source in Esrc.
      destruct (Z.leb_spec (d_size (dev s)) (f_pos s)); [by left|right].
      unfold dev_cell. by rewrite Esrc. }
  unfold read_source in Esrc. destruct (Z.leb_spec (d_size (dev s)) (f_pos s)) as [|Hlt]; [done|].
  set (n := read_len (dev s) (f_pos s) count) in *.
  assert (0 <= n ∧ n <= d_quantum (dev s) - f_pos s mod d_quantum (dev s) ∧
          n <= d_size (dev s) - f_pos s) as Hn by (unfold n, read_len; lia).
  pose proof (dev_quantum_ok _ _ _ (st_dev _ _ Hwf) Hg Esrc) as Hql.
  set (cs := slice _ _ _) in Hr.
  assert (length cs = Z.to_nat n) as Hcs by (apply slice_length; lia).
  destruct (copy_to_user (user s) buf cs) as [u k] eqn:Ecp. simpl in Hr.
  destruct (k =? 0)%nat eqn:Ek; destruct Hr as [-> ->].
  - apply Nat.eqb_eq in Ek as ->. apply ctu_ok_law in Ecp. rewrite Hcs in Ecp.
    split_and!; [by apply frame_pos, frame_user, quiet_unlock|done|apply Hcell|].
    right; right; right. simpl. rewrite Ecp. split_and!; [done..|].
    split; simpl; [lia|]. intros j Hj. rewrite Hcs in Hj.
    destruct (same_quantum (d_quantum (dev s)) (f_pos s) (Z.of_nat j)) as [E1 E2]; [lia..|].
    unfold dev_cell. rewrite E1, E2, Esrc. unfold cs. rewrite slice_lookup by lia.
    f_equal. lia.
  - split_and!; [by apply frame_user, quiet_unlock|done|apply Hcell|]. right; right; left. done.
Qed.

(** ** Sequences of calls *)

Inductive syscall :=
  | SysOpen (intr : bool) (f_flags : Z)
  | SysRead (intr : bool) (buf count : Z)
  | SysWrite (intr : bool) (buf count : Z)
  | SysLlseek (off whence : Z)
  | SysRelease.

Definition run_call (c : syscall) : M st Z :=
  match c with
  | SysOpen intr f_flags => scull_open intr f_flags
  | SysRead intr buf count => scull_read intr buf count
  | SysWrite intr buf count => scull_write intr buf count
  | SysLlseek off whence => scull_llseek off whence
  | SysRelease => scull_release
  end.

(** What the kernel and the module parameters guarantee when a call is made. *)
Definition call_pre (c : syscall) (s : st) : Prop :=
  match c with
  | SysRead _ _ count | SysWrite _ _ count => pos_ok (dev s) (f_pos s) ∧ 0 <= count <= LLONG_MAX
  | _ => True
  end.

(** One step of the system: a call on the device, a switch to another open
    file (its own position), or user memory changing. *)
Inductive scull_step : st → st → Prop :=
  | step_call c s r s' : call_pre c s → run_call c s = Ret (r, s') → scull_step s s'
  | step_file s p : scull_step s (set_pos p s)
  | step_user s u : scull_step s (set_user u s).

Lemma scull_open_wp intr f_flags s :
  st_wf false s → geom_ok (scull_quantum (params s)) (scull_qset (params s)) →
  wp (scull_open intr f_flags) s (λ r s',
    st_wf false s' ∧ foreign s' = foreign s ∧ params s' = params s ∧
    (opened_wronly f_flags = true ∧ intr = true ∧ r = - ERESTARTSYS ∧ s' = s
     ∨ opened_wronly f_flags = true ∧ intr = false ∧ r = 0 ∧ d_size (dev s') = 0 ∧
       d_data (dev s') = [] ∧ live (heap s') = foreign s
     ∨ opened_wronly f_flags = false ∧ r = 0 ∧ s' = s)).
Proof.
  intros Hwf Hg. unfold scull_open. destruct (opened_wronly f_flags).
  2:{ wp_step. eauto 10. }
  wp_step. unfold wp at 1, mutex_lock_interruptible. destruct intr; [wp_steps; eauto 10|].
  rewrite (st_lock _ _ Hwf). wp_step.
  pose proof (lock_wf _ true _ Hwf) as [Hd Ho _].
  eapply wp_mono; [|apply (trim_wp (lock true s)); done].
  intros r s1 (-> & El & ->). wp_step. unfold wp at 1, mutex_unlock. simpl. wp_steps.
  change (foreign (lock true s)) with (foreign s) in El. split_and!; [|..|done|].
  - split; [split; simpl; [done|unfold LLONG_MAX; lia|constructor|constructor]|intros ? []%elem_of_nil|done].
  - unfold foreign at 1. simpl. rewrite El. set_solver.
  - right; left. done.
Qed.

(** The position llseek computes; [None] for an unknown [whence]. *)
Definition seek_target (s : st) (off whence : Z) : option Z :=
  match whence with
  | 0 => Some off
  | 1 => Some (s64 (f_pos s + off))
  | 2 => Some (s64 (d_size (dev s) + off))
  | _ => None
  end.

Lemma llseek_wp off whence s :
  wp (scull_llseek off whence) s (λ r s',
    match seek_target s off whence with
    | Some p => if p <? 0 then r = - EINVAL ∧ s' = s else r = p ∧ s' = set_pos p s
    | None => r = - EINVAL ∧ s' = s
    end).
Proof.
  unfold scull_llseek, seek_target. wp_step. wp_step.
  destruct (Z.eqb_spec whence 0) as [->|]; [by case_match; wp_steps|].
  destruct (Z.eqb_spec whence 1) as [->|]; [by case_match; wp_steps|].
  destruct (Z.eqb_spec whence 2) as [->|]; [by case_match; wp_steps|].
  wp_step. by destruct whence as [|[[]|[]|]|].
Qed.

(** Every call keeps the invariant, the foreign blocks and the parameters. *)
Lemma run_call_wp c s :
  st_wf false s → geom_ok (scull_quantum (params s)) (scull_qset (params s)) → call_pre c s →
  wp (run_call c) s (λ _ s', st_wf false s' ∧ foreign s' = foreign s ∧ params s' = params s).
Proof.
  intros Hwf Hg Hpre. destruct c as [intr fl|intr buf count|intr buf count|off wh|]; simpl.
  - eapply wp_mono; [|by apply scull_open_wp]. naive_solver.
  - destruct Hpre. eapply wp_mono; [|by apply read_ok_wp]. intros r s' ((?&?&?&_)&_). done.
  - destruct Hpre. eapply wp_mono; [|by apply write_ok_wp]. intros r s' ((?&?&?&_)&_). done.
  - eapply wp_mono; [|apply llseek_wp]. destruct Hwf as [Hd Ho Hl].
    intros r s' Hr. by repeat case_match; destruct Hr as [_ ->].
  - unfold scull_release. by wp_step.
Qed.

Lemma scull_reachable_inv s0 s :
  st_wf false s0 → geom_ok (scull_quantum (params s0)) (scull_qset (params s0)) →
  rtc scull_step s0 s →
  st_wf false s ∧ foreign s = foreign s0 ∧ params s = params s0.
Proof.
  intros Hwf Hg Hr. induction Hr as [|s0 s1 s2 Hstep _ IH]; [done|].
  assert (st_wf false s1 ∧ foreign s1 = foreign s0 ∧ params s1 = params s0) as (W & F & P).
  { inversion Hstep as [c ? r ? Hpre E|? p|? u]; subst.
    - pose proof (run_call_wp c s0 Hwf Hg Hpre) as Hw. unfold wp in Hw. by rewrite E in Hw.
    - destruct Hwf as [Hd Ho Hl]. done.
    - destruct Hwf as [Hd Ho Hl]. done. }
  destruct IH as (W2 & F2 & P2); [done|by rewrite P|]. split_and!; [done|congruence..].
Qed.


(** ** Claims *)

(** C1: a write on the sparse file, on every path.  It never faults.
    Interrupted or out of memory, it changes no byte; a fault in the user
    buffer can change only the bytes it was writing; otherwise it stores the
    user's bytes at the file position, up to the end of the quantum, moves the
    position and extends the size.  Whatever happens the mutex is released and
    no block leaks. *)
Theorem scull_write_refines intr s buf count :
  st_wf false s → pos_ok (dev s) (f_pos s) → 0 <= count <= LLONG_MAX →
  ∃ r s', scull_write intr buf count s = Ret (r, s') ∧ write_ok intr s buf count r s'.
Proof. intros. by apply wp_elim, write_ok_wp. Qed.

(** C2: a read never faults and returns bytes of the file from the file
    position: at end of file and in a hole 0; otherwise the bytes up to the end
    of the quantum or of the file are copied to the user and the position moves
    past them.  The file itself never changes. *)
Theorem scull_read_refines intr s buf count :
  st_wf false s → pos_ok (dev s) (f_pos s) → 0 <= count <= LLONG_MAX →
  ∃ r s', scull_read intr buf count s = Ret (r, s') ∧ read_ok intr s buf count r s'.
Proof. intros. by apply wp_elim, read_ok_wp. Qed.

(** C3: seeking back and reading what was just written returns it: when the
    write stored [w] bytes, the read returns the same number of the same bytes
    (unless the second user buffer faults). *)
Theorem scull_write_read_roundtrip s buf buf' count :
  st_wf false s → pos_ok (dev s) (f_pos s) → 0 < count <= LLONG_MAX →
  wp (w ← scull_write false buf count;
      scull_llseek (f_pos s) 0 ≫= λ _,
      r ← scull_read false buf' count;
      mret (w, r)) s (λ '(w, r) s',
    0 < w → r = - EFAULT ∨
    r = w ∧ user_bytes (user s') buf' (Z.to_nat w) = user_bytes (user s) buf (Z.to_nat w)).
Proof.
  intros Hwf Hp Hc. wp_step. eapply wp_mono; [|by apply write_ok_wp; [..|lia]].
  intros w s1 ((W1 & _ & _ & EQ & ES) & Hw).
  pose proof Hp as [Hp' Hi]. pose proof (wf_geom _ (st_dev _ _ Hwf)) as (HQ & _).
  wp_step. eapply wp_mono; [|apply llseek_wp]. intros p s2 Hs2.
  cbn in Hs2. rewrite (proj2 (Z.ltb_ge _ _)) in Hs2 by lia. destruct Hs2 as [-> ->].
  wp_step. eapply wp_mono; [|apply read_ok_wp; [|unfold pos_ok; simpl; by rewrite EQ, ES|lia]].
  2:{ destruct W1 as [Hd1 Ho1 Hl1]. done. }
  intros r s3 (_ & _ & _ & Hr). wp_step. intros Hpos.
  destruct Hw as [(? & _)|[[-> _]|[[-> _]|(-> & _ & Hlen & Hfw)]]];
    [done|unfold ENOMEM in *; lia|unfold EFAULT in *; lia|].
  set (n := write_len (dev s) (f_pos s) count) in *. destruct Hfw as (Esz & Hin & _).
  rewrite Hlen, Z2Nat.id in Esz by lia. simpl in Esz.
  assert (n = Z.min count (d_quantum (dev s) - f_pos s mod d_quantum (dev s))) as En by done.
  assert (read_len (dev s1) (f_pos s) count = n) as Ern.
  { unfold read_len. rewrite EQ, Esz. lia. }
  destruct Hr as [(? & _)|[(Hno & _)|[[-> _]|(_ & -> & _ & Hl & Hfr)]]]; simpl in *.
  - done.
  - exfalso. destruct Hno as [Hno|Hno]; [lia|].
    specialize (Hin 0%nat ltac:(lia)). rewrite Z.add_0_r, Hno in Hin.
    symmetry in Hin. apply lookup_ge_None in Hin. lia.
  - by left.
  - right. rewrite Ern in *. split; [done|]. destruct Hfr as [_ Hfr].
    apply list_eq_same_length with (Z.to_nat n); [done|done|].
    intros i x y Hi' Hx Hy. rewrite Hl in Hfr. rewrite Hlen in Hin.
    specialize (Hfr i Hi'). specialize (Hin i Hi'). simpl in *. congruence.
Qed.


(** Scull_trim frees every block of the device exactly once and nothing
    else: the blocks left are those the device does not own.  It resets the
    device to the module parameters. *)
Theorem scull_trim_frees_all s :
  dev_wf (dev s) → owns s →
  ∃ h, scull_trim s = Ret (0, set_dev (ScullDev [] (scull_quantum (params s))
         (scull_qset (params s)) 0 (d_access_key (dev s)) (d_locked (dev s))) (set_heap h s)) ∧
       live h = live (heap s) ∖ list_to_set (dev_locs (dev s)).
Proof.
  intros Hwf Ho. destruct (wp_elim _ _ _ (trim_wp s Hwf Ho)) as (r & s' & E & -> & El & Es).
  exists (heap s'). by rewrite E, Es at 1.
Qed.

(** No sequence of system calls, on any number of open files, reaches a
    fault, leaks or steals a block, or leaves the mutex held, as long as the
    module parameters are a valid geometry and the positions are addressable. *)
Theorem scull_reachable_safe s0 s c :
  st_wf false s0 → geom_ok (scull_quantum (params s0)) (scull_qset (params s0)) →
  rtc scull_step s0 s → call_pre c s →
  ∃ r s', run_call c s = Ret (r, s') ∧ st_wf false s' ∧ foreign s' = foreign s0.
Proof.
  intros Hwf Hg Hr Hpre. destruct (scull_reachable_inv _ _ Hwf Hg Hr) as (W & F & P).
  rewrite <- P in Hg.
  destruct (wp_elim _ _ _ (run_call_wp c s W Hg Hpre)) as (r & s' & E & W' & F' & _).
  exists r, s'. by rewrite F', F.
Qed.

(** Llseek moves the position to the requested one and nothing else; an
    unknown [whence], a negative target and a sum that overflows loff_t give
    -EINVAL and leave the state alone. *)
Theorem scull_llseek_spec s off whence :
  -9223372036854775808 <= off <= LLONG_MAX → 0 <= f_pos s <= LLONG_MAX →
  0 <= d_size (dev s) <= LLONG_MAX →
  let target := if whence =? 0 then off
                else if whence =? 1 then f_pos s + off else d_size (dev s) + off in
  scull_llseek off whence s =
    if bool_decide (0 <= whence <= 2 ∧ 0 <= target <= LLONG_MAX)
    then Ret (target, set_pos target s) else Ret (- EINVAL, s).
Proof.
  intros Ho Hp Hs target. unfold LLONG_MAX in *.
  destruct (wp_elim _ _ _ (llseek_wp off whence s)) as (r & s' & -> & Hr).
  assert (∀ a, 0 <= a <= 9223372036854775807 → a + off < 9223372036854775808 →
          s64 (a + off) = a + off) as Hin by (intros; apply s64_id; unfold LLONG_MAX; lia).
  assert (∀ a, 0 <= a <= 9223372036854775807 → 9223372036854775808 <= a + off →
          s64 (a + off) = a + off - 18446744073709551616) as Hout.
  { intros. apply s64_over. lia. }
  unfold seek_target in Hr. unfold target. clear target.
  case_bool_decide as Hb.
  - destruct Hb as [Hw Ht].
    assert (whence = 0 ∨ whence = 1 ∨ whence = 2) as [->|[->| ->]] by lia; simpl in *;
      rewrite ?Hin in Hr by lia; rewrite (proj2 (Z.ltb_ge _ _)) in Hr by lia;
      by destruct Hr as [-> ->].
  - assert (r = - EINVAL ∧ s' = s) as [-> ->]; [|done].
    destruct (decide (0 <= whence <= 2)) as [Hw|Hw].
    + assert (whence = 0 ∨ whence = 1 ∨ whence = 2) as [->|[->| ->]] by lia; simpl in *.
      * rewrite (proj2 (Z.ltb_lt _ _)) in Hr by lia. done.
      * destruct (decide (f_pos s + off < 9223372036854775808));
          [rewrite Hin in Hr by lia|rewrite Hout in Hr by lia];
          by rewrite (proj2 (Z.ltb_lt _ _)) in Hr by lia.
      * destruct (decide (d_size (dev s) + off < 9223372036854775808));
          [rewrite Hin in Hr by lia|rewrite Hout in Hr by lia];
          by rewrite (proj2 (Z.ltb_lt _ _)) in Hr by lia.
    + by destruct whence as [|[[]|[]|]|]; try done; lia.
Qed.

Lemma write_dense intr s buf count r s' :
  st_wf false s → 0 <= f_pos s <= d_size (dev s) → 0 <= count → dense (dev s) →
  Forall is_Some (user_bytes (user s) buf (Z.to_nat (write_len (dev s) (f_pos s) count))) →
  write_ok intr s buf count r s' → r ≠ - EFAULT → dense (dev s').
Proof.
  intros Hwf Hp Hc Hd Hu (_ & Hr) Hne.
  destruct Hr as [(_ & _ & ->)|[(_ & _ & Es & Ec)|[[-> _]|(_ & _ & Hlen & Esz & Hin & Hout)]]];
    [done| |done|].
  - intros p Hp'. rewrite Ec. apply Hd. lia.
  - intros p Hp'. simpl in *. pose proof (wf_geom _ (st_dev _ _ Hwf)) as (HQ & _).
    set (n := write_len (dev s) (f_pos s) count) in *.
    assert (0 <= n) by (unfold n, write_len; pose proof (Z.mod_pos_bound (f_pos s) _ HQ); lia).
    unfold file_frame in Hout. rewrite Hlen, Z2Nat.id in * by lia. simpl in *.
    destruct (decide (f_pos s <= p < f_pos s + n)) as [Hi|Ho].
    + specialize (Hin (Z.to_nat (p - f_pos s)) ltac:(lia)).
      rewrite Z2Nat.id in Hin by lia. replace (f_pos s + (p - f_pos s)) with p in Hin by lia.
      destruct (lookup_lt_is_Some_2 (user_bytes (user s) buf (Z.to_nat n))
        (Z.to_nat (p - f_pos s))) as [c Ec]; [lia|].
      rewrite Forall_lookup in Hu. destruct (Hu _ _ Ec) as [x ->]. exists x. congruence.
    + destruct (Hd p) as [x Hx]; [lia|].
      destruct (Hout p) as [Hg|[Hg _]]; [lia|lia| |congruence]. exists x. congruence.
Qed.

Lemma read_dense intr s buf count r s' :
  0 <= f_pos s → dense (dev s) → read_ok intr s buf count r s' → 0 < r →
  Forall is_Some (user_bytes (user s') buf (Z.to_nat r)).
Proof.
  intros Hp Hd (_ & _ & _ & Hr) Hpos.
  destruct Hr as [(_ & -> & _)|[(_ & -> & _)|[[-> _]|(_ & _ & _ & Hlen & Hsz & Hin)]]];
    [unfold ERESTARTSYS in *; lia|lia|unfold EFAULT in *; lia|].
  apply Forall_lookup. intros i c Hc. pose proof (lookup_lt_Some _ _ _ Hc) as Hi.
  simpl in *. specialize (Hin i Hi).
  destruct (Hd (f_pos s + Z.of_nat i)) as [x Hx]; [lia|]. rewrite Hx, Hc in Hin.
  exists x. congruence.
Qed.

(** On a file written without gaps, no read hands the user a byte of
    kernel memory nobody wrote, and writing at or before the end of the file
    keeps it so. *)
Theorem scull_no_uninitialised_byte intr s buf count :
  st_wf false s → pos_ok (dev s) (f_pos s) → 0 <= count <= LLONG_MAX → dense (dev s) →
  wp (scull_read intr buf count) s (λ r s',
    dense (dev s') ∧ (0 < r → Forall is_Some (user_bytes (user s') buf (Z.to_nat r)))) ∧
  (f_pos s <= d_size (dev s) →
   Forall is_Some (user_bytes (user s) buf (Z.to_nat (write_len (dev s) (f_pos s) count))) →
   wp (scull_write intr buf count) s (λ r s', r ≠ - EFAULT → dense (dev s'))).
Proof.
  intros Hwf Hp Hc Hd. pose proof Hp as [Hp' _]. split.
  - eapply wp_mono; [|by apply read_ok_wp]. intros r s' Hr. split.
    + destruct Hr as (_ & Es & Ec & _). intros p Hpp. rewrite Ec. apply Hd. lia.
    + apply (read_dense intr s buf count r s'); [lia|done..].
  - intros Hle Hu. eapply wp_mono; [|by apply write_ok_wp].
    intros r s' Hr Hne. eapply write_dense; eauto; lia.
Qed.

End thms.

(** ** Concrete runs *)

Definition demo_user : umap :=
  list_to_map [(100, Some x41); (101, Some x42); (102, Some x43); (103, Some x44)].

(** quantum 4, quantum set 2, an empty device. *)
Definition demo (pos : Z) : scull_st bump umap :=
  ScullSt (ScullParams 4 2 10) (ScullDev [] 4 2 0 0 false) bump_init demo_user pos.

Lemma scull_demo_wf pos : st_wf false (demo pos).
Proof.
  split; [split|..]; [done|done|constructor|constructor|intros ? []%elem_of_nil|done].
Qed.

Lemma demo_pos pos : 0 <= pos <= 1000 → pos_ok (dev (demo pos)) pos.
Proof. intros. unfold pos_ok, LLONG_MAX, INT_MAX. simpl. split; [lia|]. Z.div_mod_to_equations. lia. Qed.

Lemma scull_write_refines_witness : ∃ r s',
  scull_write false 100 4 (demo 9) = Ret (r, s') ∧ write_ok false (demo 9) 100 4 r s'.
Proof. apply scull_write_refines; [apply scull_demo_wf|by apply demo_pos|unfold LLONG_MAX; lia]. Defined.

Lemma scull_read_refines_witness : ∃ r s',
  scull_read false 100 4 (demo 9) = Ret (r, s') ∧ read_ok false (demo 9) 100 4 r s'.
Proof. apply scull_read_refines; [apply scull_demo_wf|by apply demo_pos|unfold LLONG_MAX; lia]. Defined.

Lemma scull_write_read_roundtrip_witness :
  wp (w ← scull_write false 100 4;
      scull_llseek 9 0 ≫= λ _,
      r ← scull_read false 101 4;
      mret (w, r)) (demo 9) (λ '(w, r) s',
    0 < w → r = - EFAULT ∨
    r = w ∧ user_bytes (user s') 101 (Z.to_nat w) = user_bytes demo_user 100 (Z.to_nat w)).
Proof.
  apply (scull_write_read_roundtrip (demo 9) 100 101 4);
    [apply scull_demo_wf|by apply demo_pos|unfold LLONG_MAX; lia].
Defined.

Lemma scull_trim_frees_all_witness : ∃ h, scull_trim (demo 0) =
  Ret (0, set_dev (ScullDev [] 4 2 0 0 false) (set_heap h (demo 0))) ∧
  live h = live bump_init ∖ list_to_set (dev_locs (dev (demo 0))).
Proof. apply (scull_trim_frees_all (demo 0)); apply (scull_demo_wf 0). Defined.

Lemma scull_reachable_safe_witness : ∃ r s',
  run_call (SysWrite false 100 4) (demo 9) = Ret (r, s') ∧ st_wf false s' ∧
  foreign s' = foreign (demo 9).
Proof.
  apply (scull_reachable_safe (demo 9) (demo 9));
    [apply scull_demo_wf|unfold geom_ok, INT_MAX; simpl; lia|apply rtc_refl|].
  split; [by apply demo_pos|unfold LLONG_MAX; lia].
Defined.

Lemma scull_llseek_spec_witness :
  scull_llseek (-3) 1 (demo 9) = Ret (6, set_pos 6 (demo 9)).
Proof.
  assert (0 <= 9 <= LLONG_MAX) by (unfold LLONG_MAX; lia).
  assert (0 <= 0 <= LLONG_MAX) by (unfold LLONG_MAX; lia).
  etransitivity; [apply (scull_llseek_spec (demo 9) (-3) 1); [unfold LLONG_MAX; lia|done..]|].
  reflexivity.
Defined.

Lemma scull_no_uninitialised_byte_witness :
  wp (scull_write false 100 4) (demo 0) (λ r s', r ≠ - EFAULT → dense (dev s')).
Proof.
  eapply (scull_no_uninitialised_byte false (demo 0) 100 4);
    [apply scull_demo_wf|by apply demo_pos|unfold LLONG_MAX; lia|intros p Hp; simpl in Hp; lia|simpl; lia|].
  vm_compute. repeat constructor; eauto.
Defined.

(** The gap before a write is filled with memory kmalloc did not clear, and
    a later read copies it out: writing one byte at offset 2 of an empty device
    and reading from offset 0 returns three bytes of which two were never
    written. *)
Theorem scull_gap_exposes_kernel_memory :
  ∃ s', (scull_write false 100 1 ≫= λ _, scull_llseek 0 0 ≫= λ _, scull_read false 100 4) (demo 2)
        = Ret (3, s') ∧
  user_bytes (user s') 100 3 = [None; None; Some x41].
Proof. eexists. split; [vm_compute; reflexivity|]. vm_compute. reflexivity. Qed.

(** Positions past [INT_MAX] list items alias low ones, because the list
    index is stored in an [int]: with quantum sets of 8 bytes, a write at offset
    8 * 2^32 overwrites the byte at offset 0. *)
Theorem scull_far_write_aliases :
  ∃ s', (scull_write false 100 1 ≫= λ _,
         scull_llseek (8 * 4294967296) 0 ≫= λ _,
         scull_write false 101 1) (demo 0) = Ret (1, s') ∧
  dev_cell (dev s') 0 = Some (Some x42) ∧ d_size (dev s') = 8 * 4294967296 + 1.
Proof. eexists. split; [vm_compute; reflexivity|]. vm_compute. split; reflexivity. Qed.

(** Quantum and qset are read before the mutex is taken.  If the device is
    trimmed to a smaller geometry and refilled in between, the stale values
    index past the end of the new quantum: the write faults. *)
Theorem scull_stale_geometry_overflows :
  ∃ s1, (scull_write false 100 1) (ScullSt (ScullParams 2 2 10) (ScullDev [] 2 2 0 0 false)
          bump_init demo_user 0) = Ret (1, s1) ∧
  scull_write_locked 4 2 100 4 (set_pos 0 (set_dev (with_locked (dev s1) true) s1)) = Fault OutOfBounds.
Proof. eexists. split; [vm_compute; reflexivity|]. vm_compute. reflexivity. Qed.

(** With scull_quantum or scull_qset at 0, the write after the next
    write-only open divides by zero, whatever the device holds. *)
Theorem scull_zero_geometry_traps {H U : Type} `{KernelHeap H} `{UserMem U} (s : scull_st H U) buf count :
  st_wf false s → scull_quantum (params s) = 0 ∨ scull_qset (params s) = 0 →
  (scull_open false O_WRONLY ≫= λ _, scull_write false buf count) s = Fault DivZero.
Proof.
  intros Hwf Hz. unfold mbind at 1, M_bind at 1, scull_open.
  change (opened_wronly O_WRONLY) with true. cbv iota.
  unfold mbind at 1, M_bind at 1, mutex_lock_interruptible at 1. rewrite (st_lock _ _ Hwf).
  pose proof (lock_wf _ true _ Hwf) as [Hd Ho _].
  destruct (wp_elim _ _ _ (trim_wp _ Hd Ho)) as (r & s1 & E & _ & _ & Es).
  unfold mbind, M_bind. change (set_dev (with_locked (dev s) true) s) with (lock true s).
  rewrite E. rewrite Es. simpl.
  unfold scull_write, scull_write_locked, locate, c_div, div_traps, mbind, M_bind. simpl.
  assert (s32 (scull_quantum (params s) * scull_qset (params s)) = 0) as ->; [|done].
  destruct Hz as [-> | ->]; [done|]. by rewrite Z.mul_0_r.
Qed.

Lemma scull_zero_geometry_traps_witness :
  (scull_open false O_WRONLY ≫= λ _, scull_write false 100 4)
    (ScullSt (ScullParams 0 2 10) (dev (demo 0)) bump_init demo_user 0) = Fault DivZero.
Proof. apply scull_zero_geometry_traps; [|by left]. destruct (scull_demo_wf 0) as [Hd Ho Hl]. by split. Defined.
