(* ===== verification/ScullIoctl.v ===== *)
(** The ioctl handlers: scull_ioctl (src/ldd/scull/main.c) and scullp_ioctl
    (src/ldd/scullp/main.c), with their command words (scull.h, scullp.h).

    The state is the pair of the module parameters and user memory; the handler
    is a function of the caller's CAP_SYS_ADMIN, the command and the argument. *)
From Stdlib Require Import ZArith Lia.
From stdpp Require Import base list gmap.
From S2P Require Import Prelude Kernel Scull.

(** ** Commands of scull.h *)

Section commands.
Context `{IocCodec}.

Definition SCULL_IOC_MAGIC := 107.   (* 'k' *)
Definition SCULL_IOC_MAXNR := 14.
Definition SCULL_IOCRESET := _IO SCULL_IOC_MAGIC 0.
Definition SCULL_IOCSQUANTUM := _IOW SCULL_IOC_MAGIC 1 sizeof_int.
Definition SCULL_IOCSQSET := _IOW SCULL_IOC_MAGIC 2 sizeof_int.
Definition SCULL_IOCTQUANTUM := _IO SCULL_IOC_MAGIC 3.
Definition SCULL_IOCTQSET := _IO SCULL_IOC_MAGIC 4.
Definition SCULL_IOCGQUANTUM := _IOR SCULL_IOC_MAGIC 5 sizeof_int.
Definition SCULL_IOCGQSET := _IOR SCULL_IOC_MAGIC 6 sizeof_int.
Definition SCULL_IOCQQUANTUM := _IO SCULL_IOC_MAGIC 7.
Definition SCULL_IOCQQSET := _IO SCULL_IOC_MAGIC 8.
Definition SCULL_IOCXQUANTUM := _IOWR SCULL_IOC_MAGIC 9 sizeof_int.
Definition SCULL_IOCXQSET := _IOWR SCULL_IOC_MAGIC 10 sizeof_int.
Definition SCULL_IOCHQUANTUM := _IO SCULL_IOC_MAGIC 11.
Definition SCULL_IOCHQSET := _IO SCULL_IOC_MAGIC 12.
Definition SCULL_P_IOCTSIZE := _IO SCULL_IOC_MAGIC 13.
Definition SCULL_P_IOCQSIZE := _IO SCULL_IOC_MAGIC 14.

(** ** Commands of scullp.h *)

Definition SCULLP_IOC_MAGIC := 75.   (* 'K' *)
Definition SCULLP_IOC_MAXNR := 12.
Definition SCULLP_IOCRESET := _IO SCULLP_IOC_MAGIC 0.
Definition SCULLP_IOCSORDER := _IOW SCULLP_IOC_MAGIC 1 sizeof_int.
Definition SCULLP_IOCTORDER := _IO SCULLP_IOC_MAGIC 2.
Definition SCULLP_IOCGORDER := _IOR SCULLP_IOC_MAGIC 3 sizeof_int.
Definition SCULLP_IOCQORDER := _IO SCULLP_IOC_MAGIC 4.
Definition SCULLP_IOCXORDER := _IOWR SCULLP_IOC_MAGIC 5 sizeof_int.
Definition SCULLP_IOCHORDER := _IO SCULLP_IOC_MAGIC 6.
Definition SCULLP_IOCSQSET := _IOW SCULLP_IOC_MAGIC 7 sizeof_int.
Definition SCULLP_IOCTQSET := _IO SCULLP_IOC_MAGIC 8.
Definition SCULLP_IOCGQSET := _IOR SCULLP_IOC_MAGIC 9 sizeof_int.
Definition SCULLP_IOCQQSET := _IO SCULLP_IOC_MAGIC 10.
Definition SCULLP_IOCXQSET := _IOWR SCULLP_IOC_MAGIC 11 sizeof_int.
Definition SCULLP_IOCHQSET := _IO SCULLP_IOC_MAGIC 12.

End commands.

Definition SCULLP_QSET := 500.
Definition SCULLP_ORDER := 0.

Record scullp_params := ScullpParams { scullp_order : Z; scullp_qset : Z }.

(** ** The transfers *)

Section transfers.
Context {U : Type} `{UserInt U}.

(** [retval = __get_user(var, arg)]: on a fault [var] is set to zero. *)
Definition do_get_user (u : U) (arg : Z) : Z * Z :=
  match get_user u arg with
  | Some v => (0, v)
  | None => (- EFAULT, 0)
  end.

(** [retval = __put_user(v, arg)] *)
Definition do_put_user (u : U) (arg v : Z) : Z * U :=
  match put_user u arg v with
  | Some u' => (0, u')
  | None => (- EFAULT, u)
  end.

(** The X commands: set [var] from the user, give the old value back. *)
Definition do_exchange (u : U) (arg old : Z) : Z * Z * U :=
  let '(retval, new) := do_get_user u arg in
  if retval =? 0 then let '(retval, u') := do_put_user u arg old in (retval, new, u')
  else (retval, new, u).

(** The checks before the switch: [Some e] is an early return. *)
Definition ioctl_check `{IocCodec} (magic maxnr cmd arg : Z) : option Z :=
  if negb (_IOC_TYPE cmd =? magic) then Some (- ENOTTY)
  else if maxnr <? _IOC_NR cmd then Some (- ENOTTY)
  else
    let err :=
      if negb (Z.land (_IOC_DIR cmd) _IOC_READ =? 0) then negb (access_ok arg (_IOC_SIZE cmd))
      else if negb (Z.land (_IOC_DIR cmd) _IOC_WRITE =? 0) then negb (access_ok arg (_IOC_SIZE cmd))
      else false in
    if err then Some (- EFAULT) else None.

(** ** scull_ioctl *)

Definition set_quantum (p : scull_params) (v : Z) : scull_params :=
  ScullParams v (scull_qset p) (scull_p_buffer p).
Definition set_qset (p : scull_params) (v : Z) : scull_params :=
  ScullParams (scull_quantum p) v (scull_p_buffer p).
Definition set_p_buffer (p : scull_params) (v : Z) : scull_params :=
  ScullParams (scull_quantum p) (scull_qset p) v.

Definition scull_ioctl `{IocCodec} (capable : bool) (cmd arg : Z) (p : scull_params) (u : U)
    : Z * (scull_params * U) :=
  match ioctl_check SCULL_IOC_MAGIC SCULL_IOC_MAXNR cmd arg with
  | Some e => (e, (p, u))
  | None =>
  if cmd =? SCULL_IOCRESET then
    (0, (set_qset (set_quantum p SCULL_QUANTUM) SCULL_QSET, u))
  else if cmd =? SCULL_IOCSQUANTUM then
    if negb capable then (- EPERM, (p, u)) else
    let '(retval, v) := do_get_user u arg in (retval, (set_quantum p v, u))
  else if cmd =? SCULL_IOCTQUANTUM then
    if negb capable then (- EPERM, (p, u)) else (0, (set_quantum p (s32 arg), u))
  else if cmd =? SCULL_IOCGQUANTUM then
    let '(retval, u') := do_put_user u arg (scull_quantum p) in (retval, (p, u'))
  else if cmd =? SCULL_IOCQQUANTUM then (scull_quantum p, (p, u))
  else if cmd =? SCULL_IOCXQUANTUM then
    if negb capable then (- EPERM, (p, u)) else
    let '(retval, v, u') := do_exchange u arg (scull_quantum p) in
    (retval, (set_quantum p v, u'))
  else if cmd =? SCULL_IOCHQUANTUM then
    if negb capable then (- EPERM, (p, u)) else
    (scull_quantum p, (set_quantum p (s32 arg), u))
  else if cmd =? SCULL_IOCSQSET then
    if negb capable then (- EPERM, (p, u)) else
    let '(retval, v) := do_get_user u arg in (retval, (set_qset p v, u))
  else if cmd =? SCULL_IOCTQSET then
    if negb capable then (- EPERM, (p, u)) else (0, (set_qset p (s32 arg), u))
  else if cmd =? SCULL_IOCGQSET then
    let '(retval, u') := do_put_user u arg (scull_qset p) in (retval, (p, u'))
  else if cmd =? SCULL_IOCQQSET then (scull_qset p, (p, u))
  else if cmd =? SCULL_IOCXQSET then
    if negb capable then (- EPERM, (p, u)) else
    let '(retval, v, u') := do_exchange u arg (scull_qset p) in
    (retval, (set_qset p v, u'))
  else if cmd =? SCULL_IOCHQSET then
    if negb capable then (- EPERM, (p, u)) else
    (scull_qset p, (set_qset p (s32 arg), u))
  else if cmd =? SCULL_P_IOCTSIZE then (0, (set_p_buffer p (s32 arg), u))
  else if cmd =? SCULL_P_IOCQSIZE then (scull_p_buffer p, (p, u))
  else (- ENOTTY, (p, u))
  end.

(** ** scullp_ioctl *)

Definition set_order (p : scullp_params) (v : Z) : scullp_params := ScullpParams v (scullp_qset p).
Definition setp_qset (p : scullp_params) (v : Z) : scullp_params := ScullpParams (scullp_order p) v.

Definition scullp_ioctl `{IocCodec} (cmd arg : Z) (p : scullp_params) (u : U)
    : Z * (scullp_params * U) :=
  match ioctl_check SCULLP_IOC_MAGIC SCULLP_IOC_MAXNR cmd arg with
  | Some e => (e, (p, u))
  | None =>
  if cmd =? SCULLP_IOCRESET then (0, (ScullpParams SCULLP_ORDER SCULLP_QSET, u))
  else if cmd =? SCULLP_IOCSORDER then
    let '(ret, v) := do_get_user u arg in (ret, (set_order p v, u))
  else if cmd =? SCULLP_IOCTORDER then (0, (set_order p (s32 arg), u))
  else if cmd =? SCULLP_IOCGORDER then
    let '(ret, u') := do_put_user u arg (scullp_order p) in (ret, (p, u'))
  else if cmd =? SCULLP_IOCQORDER then (scullp_order p, (p, u))
  else if cmd =? SCULLP_IOCXORDER then
    let '(ret, v, u') := do_exchange u arg (scullp_order p) in (ret, (set_order p v, u'))
  else if cmd =? SCULLP_IOCHORDER then (scullp_order p, (set_order p (s32 arg), u))
  else if cmd =? SCULLP_IOCSQSET then
    let '(ret, v) := do_get_user u arg in (ret, (setp_qset p v, u))
  else if cmd =? SCULLP_IOCTQSET then (0, (setp_qset p (s32 arg), u))
  else if cmd =? SCULLP_IOCGQSET then
    let '(ret, u') := do_put_user u arg (scullp_qset p) in (ret, (p, u'))
  else if cmd =? SCULLP_IOCQQSET then (scullp_qset p, (p, u))
  else if cmd =? SCULLP_IOCXQSET then
    let '(ret, v, u') := do_exchange u arg (scullp_qset p) in (ret, (setp_qset p v, u'))
  else if cmd =? SCULLP_IOCHQSET then (scullp_qset p, (setp_qset p (s32 arg), u))
  else (- ENOTTY, (p, u))
  end.

End transfers.

(** ** Evaluating the switch for an abstract command layout *)

Ltac ioc_unfold := unfold SCULL_IOCRESET, SCULL_IOCSQUANTUM, SCULL_IOCSQSET, SCULL_IOCTQUANTUM,
  SCULL_IOCTQSET, SCULL_IOCGQUANTUM, SCULL_IOCGQSET, SCULL_IOCQQUANTUM, SCULL_IOCQQSET,
  SCULL_IOCXQUANTUM, SCULL_IOCXQSET, SCULL_IOCHQUANTUM, SCULL_IOCHQSET, SCULL_P_IOCTSIZE,
  SCULL_P_IOCQSIZE, SCULLP_IOCRESET, SCULLP_IOCSORDER, SCULLP_IOCTORDER, SCULLP_IOCGORDER,
  SCULLP_IOCQORDER, SCULLP_IOCXORDER, SCULLP_IOCHORDER, SCULLP_IOCSQSET, SCULLP_IOCTQSET,
  SCULLP_IOCGQSET, SCULLP_IOCQQSET, SCULLP_IOCXQSET, SCULLP_IOCHQSET, _IO, _IOR, _IOW, _IOWR in *.

(** Decides [_IOC .. =? _IOC ..] from the decoding law. *)
Ltac ioc_eqb :=
  repeat (rewrite Z.eqb_refl || match goal with
  | |- context [_IOC ?d ?t ?n ?s =? _IOC ?d' ?t' ?n' ?s'] =>
      rewrite (proj2 (Z.eqb_neq (_IOC d t n s) (_IOC d' t' n' s')))
        by (intros E; apply ioc_inj in E; vm_compute in E |- *; intuition congruence)
  end).

(** The checks pass for a command of the device, up to access_ok. *)
Lemma ioctl_check_ok {U} `{UserInt U} `{IocCodec} magic maxnr d n s arg :
  0 <= d < 4 → 0 <= magic < 256 → 0 <= n <= maxnr → maxnr < 256 → 0 <= s < 16384 →
  (d ≠ 0 → access_ok (U:=U) arg s = true) →
  ioctl_check (U:=U) magic maxnr (_IOC d magic n s) arg = None.
Proof.
  intros Hd Hm Hn Hx Hs Ha. unfold ioctl_check.
  destruct (ioc_decode_law d magic n s) as (-> & -> & -> & ->); [lia..|].
  rewrite Z.eqb_refl. simpl. rewrite (proj2 (Z.ltb_ge _ _)) by lia.
  destruct (decide (d = 0)) as [->|Hd0]; [done|]. rewrite Ha by done. simpl.
  by repeat case_match.
Qed.

(** Runs one command: the checks pass, the switch picks its case. *)
Ltac ioctl_run :=
  ioc_unfold; unfold scull_ioctl, scullp_ioctl; ioc_unfold;
  rewrite ioctl_check_ok by (vm_compute; intuition (congruence || assumption));
  ioc_eqb; cbn [negb].

Section ioctl_thms.
Context {U : Type} `{UserInt U} `{IocCodec}.

Definition quantum_cmds : list Z :=
  [SCULL_IOCSQUANTUM; SCULL_IOCTQUANTUM; SCULL_IOCXQUANTUM; SCULL_IOCHQUANTUM;
   SCULL_IOCSQSET; SCULL_IOCTQSET; SCULL_IOCXQSET; SCULL_IOCHQSET].

Lemma ioc_nr d t n s :
  0 <= d < 4 → 0 <= t < 256 → 0 <= n < 256 → 0 <= s < 16384 → _IOC_NR (_IOC d t n s) = n.
Proof. intros. by apply ioc_decode_law. Qed.

Lemma quantum_cmds_nr cmd : cmd ∈ quantum_cmds → _IOC_NR cmd ∈ [1; 3; 9; 11; 2; 4; 10; 12].
Proof.
  unfold quantum_cmds. ioc_unfold. rewrite !elem_of_cons, elem_of_nil.
  intros Hc. repeat (destruct Hc as [->|Hc]; [rewrite ioc_nr by done; tauto|]). done.
Qed.

(** A command outside [quantum_cmds] is not one of them: its number tells. *)
Ltac not_quantum_cmd :=
  let Hc := fresh in intros Hc; apply quantum_cmds_nr in Hc; ioc_unfold;
  rewrite ioc_nr in Hc by done; exfalso; revert Hc;
  rewrite !elem_of_cons, elem_of_nil; cbv; intuition congruence.

(** A caller without CAP_SYS_ADMIN cannot choose the geometry: any command
    leaves scull_quantum and scull_qset as they are, or is SCULL_IOCRESET, which
    puts the defaults back; the privileged commands answer -EPERM and change
    nothing (or fail the checks first). *)
Theorem scull_ioctl_unprivileged cmd arg p (u : U) :
  let '(r, (p', u')) := scull_ioctl false cmd arg p u in
  (scull_quantum p' = scull_quantum p ∧ scull_qset p' = scull_qset p
   ∨ cmd = SCULL_IOCRESET ∧ scull_quantum p' = SCULL_QUANTUM ∧ scull_qset p' = SCULL_QSET) ∧
  (cmd ∈ quantum_cmds → p' = p ∧ u' = u ∧
     (r = - EPERM ∨ ioctl_check (U:=U) SCULL_IOC_MAGIC SCULL_IOC_MAXNR cmd arg = Some r)).
Proof.
  unfold scull_ioctl. destruct (ioctl_check _ _ cmd arg) as [e|]; [eauto 10|]. cbn [negb].
  repeat match goal with
  | |- context [cmd =? ?c] => destruct (Z.eqb_spec cmd c) as [->|]; [|]
  end; try (by eauto 10); repeat case_match; simplify_eq/=;
  (split; [by eauto|]); try not_quantum_cmd.
  unfold quantum_cmds. rewrite !elem_of_cons, elem_of_nil. tauto.
Qed.

(** A command word the switch does not know, whatever its direction, number
    or size, answers -ENOTTY or -EFAULT and changes nothing. *)
Theorem scull_ioctl_unknown capable cmd arg p (u : U) :
  cmd ∉ quantum_cmds →
  cmd ∉ [SCULL_IOCRESET; SCULL_IOCGQUANTUM; SCULL_IOCQQUANTUM; SCULL_IOCGQSET; SCULL_IOCQQSET;
         SCULL_P_IOCTSIZE; SCULL_P_IOCQSIZE] →
  scull_ioctl capable cmd arg p u = (- ENOTTY, (p, u)) ∨
  scull_ioctl capable cmd arg p u = (- EFAULT, (p, u)) ∧ _IOC_TYPE cmd = SCULL_IOC_MAGIC ∧
    _IOC_NR cmd <= SCULL_IOC_MAXNR ∧ access_ok (U:=U) arg (_IOC_SIZE cmd) = false.
Proof.
  unfold quantum_cmds. rewrite !not_elem_of_cons. intros Hq Hr.
  unfold scull_ioctl. destruct (ioctl_check _ _ cmd arg) as [e|] eqn:Ec.
  - unfold ioctl_check in Ec.
    destruct (Z.eqb_spec (_IOC_TYPE cmd) SCULL_IOC_MAGIC); simpl in Ec; [|left; congruence].
    destruct (Z.ltb_spec SCULL_IOC_MAXNR (_IOC_NR cmd)); [left; congruence|].
    repeat case_match; simplify_eq; right; split_and!; try done; by apply negb_true_iff.
  - left. rewrite !(proj2 (Z.eqb_neq cmd _)) by tauto. done.
Qed.

(** Set and get agree: a privileged Set through a pointer followed by a Get
    through a pointer stores the same value back; Tell followed by Query returns
    the argument truncated to an int; eXchange leaves the old value with the
    user and sets the new one. *)
Theorem scull_ioctl_set_get arg arg' p (u : U) v :
  -2147483648 <= scull_quantum p <= INT_MAX →
  access_ok (U:=U) arg sizeof_int = true → access_ok (U:=U) arg' sizeof_int = true →
  get_user u arg = Some v →
  (let '(r, (p1, u1)) := scull_ioctl true SCULL_IOCSQUANTUM arg p u in
   r = 0 ∧ u1 = u ∧ scull_quantum p1 = v ∧ scull_qset p1 = scull_qset p ∧
   let '(r2, (p2, u2)) := scull_ioctl true SCULL_IOCGQUANTUM arg' p1 u1 in
   p2 = p1 ∧ (r2 = 0 → get_user u2 arg' = Some v)) ∧
  (let '(_, (p1, u1)) := scull_ioctl true SCULL_IOCTQSET arg p u in
   (scull_ioctl true SCULL_IOCQQSET 0 p1 u1).1 = s32 arg) ∧
  (let '(r, (p1, u1)) := scull_ioctl true SCULL_IOCXQUANTUM arg p u in
   scull_quantum p1 = v ∧ (r = 0 → get_user u1 arg = Some (scull_quantum p))).
Proof.
  intros Hq Ha Ha' Hv. split_and!.
  - ioctl_run. unfold do_get_user. rewrite Hv. cbn.
    split_and!; [done..|]. ioctl_run. unfold do_put_user. cbn.
    destruct (put_user u arg' v) as [u'|] eqn:E; cbn; (split; [done|]); [|intros E'; by inversion E'].
    intros _. eapply put_get_law; [|done]. by eapply get_user_range_law.
  - ioctl_run. by ioctl_run.
  - ioctl_run. unfold do_exchange, do_get_user. rewrite Hv. cbn. unfold do_put_user.
    destruct (put_user u arg _) as [u'|] eqn:E; cbn; (split; [done|]); [|intros E'; by inversion E'].
    intros _. by eapply put_get_law.
Qed.

(** A Set command whose pointer faults still overwrites the parameter: it
    answers -EFAULT with scull_quantum zeroed, the value that makes the next
    trimmed device trap. *)
Theorem scull_ioctl_fault_zeroes_quantum arg p (u : U) :
  access_ok (U:=U) arg sizeof_int = true → get_user u arg = None →
  scull_ioctl true SCULL_IOCSQUANTUM arg p u = (- EFAULT, (set_quantum p 0, u)).
Proof. intros Ha Hg. ioctl_run. unfold do_get_user. by rewrite Hg. Qed.

(** Scullp has no privilege check at all: any caller sets the quantum-set
    size of scullp devices to any int, zero and negative ones included. *)
Theorem scullp_ioctl_any_caller_sets_qset arg p (u : U) :
  scullp_ioctl SCULLP_IOCTQSET arg p u = (0, (setp_qset p (s32 arg), u)) ∧
  scullp_ioctl SCULLP_IOCTORDER arg p u = (0, (set_order p (s32 arg), u)).
Proof. split; by ioctl_run. Qed.

(** ** The command table of scull.h

    The headers explain the commands by their letters: S sets through a pointer,
    T tells directly with the argument, G gets through a pointer, Q queries with
    the result, X is S and G in one, H is T and Q in one.  Every parameter has a
    command for each letter; [meaning] says what a letter does to a parameter,
    whichever it is. *)
Inductive letter := LSet | LTell | LGet | LQuery | LExchange | LShift.
Definition letters : list letter := [LSet; LTell; LGet; LQuery; LExchange; LShift].
Definition letter_word (l : letter) (magic nr : Z) : Z :=
  match l with
  | LSet => _IOW magic nr sizeof_int
  | LGet => _IOR magic nr sizeof_int
  | LExchange => _IOWR magic nr sizeof_int
  | LTell | LQuery | LShift => _IO magic nr
  end.
Definition changes (l : letter) : bool := match l with LGet | LQuery => false | _ => true end.

(** A parameter of the module: how it is read and written. *)
Record param (P : Type) := Param { p_get : P → Z; p_set : P → Z → P }.
Arguments Param {P} _ _.
Arguments p_get {P} _ _.
Arguments p_set {P} _ _ _.

Definition meaning {P} (l : letter) (x : param P) (arg : Z) (p : P) (u : U) : Z * (P * U) :=
  let old := p_get x p in
  match l with
  | LSet =>
      match get_user u arg with
      | Some v => (0, (p_set x p v, u))
      | None => (- EFAULT, (p_set x p 0, u))
      end
  | LTell => (0, (p_set x p (s32 arg), u))
  | LGet =>
      match put_user u arg old with
      | Some u' => (0, (p, u'))
      | None => (- EFAULT, (p, u))
      end
  | LQuery => (old, (p, u))
  | LExchange =>
      match get_user u arg with
      | Some v =>
          match put_user u arg old with
          | Some u' => (0, (p_set x p v, u'))
          | None => (- EFAULT, (p_set x p v, u))
          end
      | None => (- EFAULT, (p_set x p 0, u))
      end
  | LShift => (old, (p_set x p (s32 arg), u))
  end.

(** A row: the command word, its letter, its parameter, and whether changing
    the parameter takes CAP_SYS_ADMIN. *)
Definition row P : Type := Z * (letter * param P * bool).
(** The six commands of a parameter, numbered from [nr] in steps of [step]. *)
Definition rows {P} (magic nr step : Z) (x : param P) (priv : bool) : list (row P) :=
  imap (λ i l, (letter_word l magic (nr + step * Z.of_nat i), (l, x, priv))) letters.

Fixpoint find_row {P} (cmd : Z) (table : list (row P)) : option (letter * param P * bool) :=
  match table with
  | [] => None
  | (w, r) :: table => if cmd =? w then Some r else find_row cmd table
  end.

Definition table_answer {P} (magic maxnr reset : Z) (defaults : P → P) (table : list (row P)) (capable : bool)
    (cmd arg : Z) (p : P) (u : U) : Z * (P * U) :=
  match ioctl_check (U:=U) magic maxnr cmd arg with
  | Some e => (e, (p, u))
  | None =>
      if cmd =? reset then (0, (defaults p, u)) else
      match find_row cmd table with
      | Some (l, x, priv) =>
          if priv && changes l && negb capable then (- EPERM, (p, u)) else meaning l x arg p u
      | None => (- ENOTTY, (p, u))
      end
  end.

Definition quantum_param := Param scull_quantum set_quantum.
Definition qset_param := Param scull_qset set_qset.
Definition p_buffer_param := Param scull_p_buffer set_p_buffer.
Definition scull_table : list (row scull_params) :=
  rows SCULL_IOC_MAGIC 1 2 quantum_param true ++ rows SCULL_IOC_MAGIC 2 2 qset_param true ++
  [(_IO SCULL_IOC_MAGIC 13, (LTell, p_buffer_param, false)); (_IO SCULL_IOC_MAGIC 14, (LQuery, p_buffer_param, false))].
Definition scullp_table : list (row scullp_params) :=
  rows SCULLP_IOC_MAGIC 1 1 (Param scullp_order set_order) false ++
  rows SCULLP_IOC_MAGIC 7 1 (Param scullp_qset setp_qset) false.

(** The command is one of the words of the switch, or none of them; either way
    the tests of the switch and of the table are decided. *)
Ltac table_case :=
  unfold scull_table, scullp_table, rows, letters; cbn [imap app]; unfold compose, letter_word;
  cbn [Z.of_nat Z.mul Z.add Pos.mul Pos.add Pos.of_succ_nat Pos.succ find_row];
  ioc_unfold;
  repeat match goal with
  | |- context [?cmd =? ?c] => is_var cmd; destruct (Z.eqb_spec cmd c) as [->|]
  end; ioc_eqb; cbn [andb changes negb meaning p_get p_set quantum_param qset_param p_buffer_param].


End ioctl_thms.

(** ** Concrete runs *)

Definition demo_ints : gmap Z Z := {[ 8 := 77; 16 := 1 ]}.

Lemma scull_ioctl_unknown_witness :
  scull_ioctl true 2147511043 0 (ScullParams 1 1 1) demo_ints = (- ENOTTY, (ScullParams 1 1 1, demo_ints)).
Proof.
  destruct (scull_ioctl_unknown true 2147511043 0 (ScullParams 1 1 1) demo_ints) as [E|(_ & _ & _ & E)];
    [apply (bool_decide_unpack _); vm_compute; exact I..|exact E|].
  vm_compute in E. congruence.
Defined.

Lemma scull_ioctl_set_get_witness :
  let '(_, (p1, u1)) := scull_ioctl true SCULL_IOCTQSET 8 (ScullParams 1 1 1) demo_ints in
  (scull_ioctl true SCULL_IOCQQSET 0 p1 u1).1 = s32 8.
Proof.
  apply (scull_ioctl_set_get 8 16 (ScullParams 1 1 1) demo_ints 77);
    [unfold INT_MAX; simpl; lia|reflexivity..].
Defined.

Lemma scull_ioctl_fault_zeroes_quantum_witness :
  scull_ioctl true SCULL_IOCSQUANTUM 24 (ScullParams 4000 1000 4000) demo_ints
  = (- EFAULT, (ScullParams 0 1000 4000, demo_ints)).
Proof. apply (scull_ioctl_fault_zeroes_quantum 24); reflexivity. Defined.


