(* ===== verification/ScullPipe.v ===== *)
(** The scullpipe device (src/ldd/scull/pipe.c): a circular buffer shared by
    readers and writers.

    [rp], [wp] and [end] are offsets from [buffer].  The code between obtaining
    and releasing the mutex is one function ([p_read_pass], [p_write_pass]); a
    handler is a sequence of such passes separated by sleeps, [wake] standing
    for what the rest of the system did meanwhile. *)
From Stdlib Require Import ZArith Lia.
From stdpp Require Import base list gmap.
From S2P Require Import Prelude Kernel Scull.

Definition POLLIN := 1.
Definition POLLOUT := 4.
Definition POLLRDNORM := 64.
Definition POLLWRNORM := 256.

Record scull_pipe := ScullPipe {
  buffer : option (loc * list cell);   (* None: no buffer allocated *)
  p_end : Z;
  buffersize : Z;
  p_rp : Z;
  p_wp : Z;
  nreaders : Z;
  nwriters : Z;
  async_queue : list Z;                (* the files that asked for SIGIO *)
  p_locked : bool
}.

(** The state of a zeroed scull_pipe, as scull_p_init leaves it. *)
Definition pipe0 : scull_pipe := ScullPipe None 0 0 0 0 0 0 [] false.

Record pipe_st (H U : Type) := PipeSt {
  pipe : scull_pipe;
  p_heap : H;
  p_user : U;
  p_param : Z;        (* scull_p_buffer *)
  sigio : nat         (* SIGIO notifications sent so far *)
}.
Arguments PipeSt {H U}.
Arguments pipe {H U}.
Arguments p_heap {H U}.
Arguments p_user {H U}.
Arguments p_param {H U}.
Arguments sigio {H U}.

Definition pipe_lock (p : scull_pipe) (b : bool) : scull_pipe :=
  ScullPipe (buffer p) (p_end p) (buffersize p) (p_rp p) (p_wp p)
    (nreaders p) (nwriters p) (async_queue p) b.
Definition pipe_set_rp (p : scull_pipe) (v : Z) : scull_pipe :=
  ScullPipe (buffer p) (p_end p) (buffersize p) v (p_wp p)
    (nreaders p) (nwriters p) (async_queue p) (p_locked p).
Definition pipe_set_wp (p : scull_pipe) (v : Z) : scull_pipe :=
  ScullPipe (buffer p) (p_end p) (buffersize p) (p_rp p) v
    (nreaders p) (nwriters p) (async_queue p) (p_locked p).
Definition pipe_set_buffer (p : scull_pipe) (b : option (loc * list cell)) : scull_pipe :=
  ScullPipe b (p_end p) (buffersize p) (p_rp p) (p_wp p)
    (nreaders p) (nwriters p) (async_queue p) (p_locked p).
Definition pipe_set_counts (p : scull_pipe) (r w : Z) : scull_pipe :=
  ScullPipe (buffer p) (p_end p) (buffersize p) (p_rp p) (p_wp p)
    r w (async_queue p) (p_locked p).
Definition pipe_set_async (p : scull_pipe) (q : list Z) : scull_pipe :=
  ScullPipe (buffer p) (p_end p) (buffersize p) (p_rp p) (p_wp p)
    (nreaders p) (nwriters p) q (p_locked p).

Section ops.
Context {H U : Type} `{KernelHeap H} `{UserMem U}.
Abbreviation st := (pipe_st H U).

Definition set_pipe (p : scull_pipe) (s : st) : st :=
  PipeSt p (p_heap s) (p_user s) (p_param s) (sigio s).
Definition set_pheap (h : H) (s : st) : st :=
  PipeSt (pipe s) h (p_user s) (p_param s) (sigio s).
Definition set_puser (u : U) (s : st) : st :=
  PipeSt (pipe s) (p_heap s) u (p_param s) (sigio s).

Definition pipe_mutex_lock (intr : bool) : M st bool := λ s,
  if intr then Ret (true, s)
  else if p_locked (pipe s) then Fault SelfDeadlock
  else Ret (false, set_pipe (pipe_lock (pipe s) true) s).

Definition pipe_mutex_unlock : M st unit := λ s,
  if p_locked (pipe s) then Ret (tt, set_pipe (pipe_lock (pipe s) false) s)
  else Fault BadUnlock.

(** How much space is free? *)
Definition spacefree : M st Z :=
  s ← mget;
  let p := pipe s in
  if p_rp p =? p_wp p then mret (s32 (buffersize p - 1))
  else
    r ← c_rem 64 (p_rp p + buffersize p - p_wp p) (buffersize p);
    mret (s32 (r - 1)).

(** copy_to_user from, copy_from_user to, offset [off] of the buffer. *)
Definition pipe_to_user (buf off n : Z) : M st nat := λ s,
  match buffer (pipe s) with
  | None => Fault NullDeref
  | Some (_, mem) =>
      if (0 <=? off) && (off + n <=? Z.of_nat (length mem)) then
        let '(u, uncopied) :=
          copy_to_user (p_user s) buf (slice (Z.to_nat off) (Z.to_nat n) mem) in
        Ret (uncopied, set_puser u s)
      else Fault OutOfBounds
  end.

Definition user_to_pipe (buf off n : Z) : M st nat := λ s,
  match buffer (pipe s) with
  | None => Fault NullDeref
  | Some (l, mem) =>
      if (0 <=? off) && (off + n <=? Z.of_nat (length mem)) then
        let '(cs, uncopied) := copy_from_user (p_user s) buf (Z.to_nat n) in
        Ret (uncopied, set_pipe (pipe_set_buffer (pipe s)
               (Some (l, list_inserts (Z.to_nat off) cs mem))) s)
      else Fault OutOfBounds
  end.

(** ** open and release *)

Definition mode_has (f_mode bit : Z) : bool := negb (Z.land f_mode bit =? 0).

Definition scull_p_open (intr : bool) (f_mode : Z) : M st Z :=
  failed ← pipe_mutex_lock intr;
  if (failed : bool) then mret (- ERESTARTSYS) else
  s ← mget;
  ok ← (match buffer (pipe s) with
        | Some _ => mret true
        | None =>
            let '(r, h) := kmalloc (u64 (p_param s)) (p_heap s) in
            mput (set_pheap h s) ≫= λ _,
            match r with
            | None => mret false
            | Some l =>
                mmodify (λ s, set_pipe (pipe_set_buffer (pipe s)
                  (Some (l, replicate (Z.to_nat (u64 (p_param s))) None))) s) ≫= λ _,
                mret true
            end
        end);
  if negb ok then pipe_mutex_unlock ≫= λ _, mret (- ENOMEM) else
  mmodify (λ s,
    let p := pipe s in
    set_pipe (ScullPipe (buffer p) (p_param s) (p_param s) 0 0
      (if mode_has f_mode FMODE_READ then s32 (nreaders p + 1) else nreaders p)
      (if mode_has f_mode FMODE_WRITE then s32 (nwriters p + 1) else nwriters p)
      (async_queue p) (p_locked p)) s) ≫= λ _,
  pipe_mutex_unlock ≫= λ _,
  mret 0.                              (* nonseekable_open *)

(** [fasync_helper fd filp on queue]: kernel code. *)
Variable fasync_helper : Z → Z → Z → list Z → Z * list Z.

Definition scull_p_fasync (fd filp mode : Z) : M st Z :=
  s ← mget;
  let '(r, q) := fasync_helper fd filp mode (async_queue (pipe s)) in
  mput (set_pipe (pipe_set_async (pipe s) q) s) ≫= λ _,
  mret r.

Definition scull_p_release (filp f_mode : Z) : M st Z :=
  scull_p_fasync (-1) filp 0 ≫= λ _,
  pipe_mutex_lock false ≫= λ _,
  mmodify (λ s,
    let p := pipe s in
    set_pipe (pipe_set_counts p
      (if mode_has f_mode FMODE_READ then s32 (nreaders p - 1) else nreaders p)
      (if mode_has f_mode FMODE_WRITE then s32 (nwriters p - 1) else nwriters p)) s) ≫= λ _,
  s ← mget;
  (if s32 (nreaders (pipe s) + nwriters (pipe s)) =? 0 then
     match buffer (pipe s) with
     | None => mret tt                 (* kfree(NULL) *)
     | Some (l, _) =>
         if bool_decide (l ∈ live (p_heap s)) then
           mput (set_pipe (pipe_set_buffer (pipe s) None) (set_pheap (kfree l (p_heap s)) s))
         else mfault BadFree
     end
   else mret tt) ≫= λ _,
  pipe_mutex_unlock ≫= λ _,
  mret 0.

(** ** read *)

(** From a held mutex to its release: [None] is "nothing to read, sleep". *)
Definition p_read_pass (nonblock : bool) (buf count : Z) : M st (option Z) :=
  s ← mget;
  let p := pipe s in
  if p_rp p =? p_wp p then
    pipe_mutex_unlock ≫= λ _,
    mret (if nonblock then Some (- EAGAIN) else None)
  else
    let count := if p_rp p <? p_wp p then Z.min count (u64 (p_wp p - p_rp p))
                 else Z.min count (u64 (p_end p - p_rp p)) in
    uncopied ← pipe_to_user buf (p_rp p) count;
    if negb (uncopied =? 0)%nat then
      pipe_mutex_unlock ≫= λ _, mret (Some (- EFAULT))
    else
      mmodify (λ s,
        let p := pipe s in
        let rp := p_rp p + count in
        set_pipe (pipe_set_rp p (if rp =? p_end p then 0 else rp)) s) ≫= λ _,
      pipe_mutex_unlock ≫= λ _,
      mret (Some (s64 count)).

(** What ends a sleep: a signal, or a wake-up after the others changed the
    state; then the mutex is taken again, unless a signal comes first. *)
Inductive wake :=
  | WakeSignal
  | WakeUp (others : st → st) (intr : bool).

(** [None]: still asleep when the list of wake-ups ends. *)
Fixpoint read_loop (nonblock : bool) (buf count : Z) (ws : list wake) : M st (option Z) :=
  r ← p_read_pass nonblock buf count;
  match r with
  | Some v => mret (Some v)
  | None =>
      match ws with
      | [] => mret None
      | WakeSignal :: _ => mret (Some (- ERESTARTSYS))
      | WakeUp others intr :: ws' =>
          mmodify others ≫= λ _,
          failed ← pipe_mutex_lock intr;
          if (failed : bool) then mret (Some (- ERESTARTSYS))
          else read_loop nonblock buf count ws'
      end
  end.

Definition scull_p_read (intr nonblock : bool) (buf count : Z) (ws : list wake)
    : M st (option Z) :=
  failed ← pipe_mutex_lock intr;
  if (failed : bool) then mret (Some (- ERESTARTSYS)) else
  read_loop nonblock buf count ws.

(** ** write *)

(** The test of scull_getwritespace: [Some (inl r)] returns [r] (the mutex is
    released), [Some (inr tt)] is space with the mutex held, [None] sleeps. *)
Definition getwritespace_pass (nonblock : bool) : M st (option (Z + unit)) :=
  n ← spacefree;
  if n =? 0 then
    pipe_mutex_unlock ≫= λ _,
    mret (if nonblock then Some (inl (- EAGAIN)) else None)
  else mret (Some (inr tt)).

Fixpoint scull_getwritespace (nonblock : bool) (ws : list wake) : M st (option (Z + unit)) :=
  r ← getwritespace_pass nonblock;
  match r with
  | Some v => mret (Some v)
  | None =>
      match ws with
      | [] => mret None
      | WakeSignal :: _ => mret (Some (inl (- ERESTARTSYS)))
      | WakeUp others intr :: ws' =>
          mmodify others ≫= λ _,
          failed ← pipe_mutex_lock intr;
          if (failed : bool) then mret (Some (inl (- ERESTARTSYS)))
          else scull_getwritespace nonblock ws'
      end
  end.

(** scull_p_write once there is space. *)
Definition p_write_data (buf count : Z) : M st Z :=
  n ← spacefree;
  s ← mget;
  let p := pipe s in
  let count := Z.min count (u64 n) in
  let count := if p_rp p <=? p_wp p then Z.min count (u64 (p_end p - p_wp p))
               else Z.min count (u64 (p_rp p - p_wp p - 1)) in
  uncopied ← user_to_pipe buf (p_wp p) count;
  if negb (uncopied =? 0)%nat then
    pipe_mutex_unlock ≫= λ _, mret (- EFAULT)
  else
    mmodify (λ s,
      let p := pipe s in
      let wp := p_wp p + count in
      set_pipe (pipe_set_wp p (if wp =? p_end p then 0 else wp)) s) ≫= λ _,
    pipe_mutex_unlock ≫= λ _,
    mmodify (λ s, PipeSt (pipe s) (p_heap s) (p_user s) (p_param s)
      (match async_queue (pipe s) with [] => sigio s | _ => S (sigio s) end)) ≫= λ _,
    mret (s64 count).

Definition scull_p_write (intr nonblock : bool) (buf count : Z) (ws : list wake)
    : M st (option Z) :=
  failed ← pipe_mutex_lock intr;
  if (failed : bool) then mret (Some (- ERESTARTSYS)) else
  result ← scull_getwritespace nonblock ws;
  match result with
  | None => mret None
  | Some (inl r) => mret (Some r)
  | Some (inr tt) => r ← p_write_data buf count; mret (Some r)
  end.

(** One pass of a writer, from a held mutex to its release. *)
Definition p_write_pass (nonblock : bool) (buf count : Z) : M st (option Z) :=
  r ← getwritespace_pass nonblock;
  match r with
  | None => mret None
  | Some (inl v) => mret (Some v)
  | Some (inr tt) => v ← p_write_data buf count; mret (Some v)
  end.

(** ** poll *)

Definition scull_p_poll : M st Z :=
  pipe_mutex_lock false ≫= λ _,
  s ← mget;
  n ← spacefree;
  pipe_mutex_unlock ≫= λ _,
  mret (Z.lor (if p_rp (pipe s) =? p_wp (pipe s) then 0 else Z.lor POLLIN POLLRDNORM)
              (if n =? 0 then 0 else Z.lor POLLOUT POLLWRNORM)).

End ops.
