(* ===== verification/ScullPipeThms.v ===== *)
(** Correctness of scullpipe: the circular buffer implements a bounded FIFO.

    [contents] is the abstraction: the bytes between the read and the write
    pointer, through the wrap-around.  [read_pass_wp] and [write_pass_wp]
    describe one critical section of a reader and of a writer; the handlers and
    the interleaving of several of them (ScullPipeConc) are built on these. *)
From Stdlib Require Import ZArith Lia.
From stdpp Require Import base list gmap.
From S2P Require Import Prelude Kernel Scull ScullPipe.

(** ** Representation invariant and abstraction *)

Record pipe_wf (p : scull_pipe) : Prop := PipeWf {
  wf_buffer : ∃ l mem, buffer p = Some (l, mem) ∧
                length mem = Z.to_nat (buffersize p);
  wf_end : p_end p = buffersize p;
  wf_size : 1 <= buffersize p <= INT_MAX;
  wf_rp : 0 <= p_rp p < buffersize p;
  wf_wp : 0 <= p_wp p < buffersize p
}.

Definition contents (p : scull_pipe) : list cell :=
  match buffer p with
  | None => []
  | Some (_, mem) =>
      let rp := Z.to_nat (p_rp p) in
      let wp := Z.to_nat (p_wp p) in
      if p_rp p <=? p_wp p then slice rp (wp - rp) mem
      else slice rp (Z.to_nat (p_end p) - rp) mem ++ slice 0 wp mem
  end.

(** Bytes that can be taken out, or put in, in one copy. *)
Definition readable_run (p : scull_pipe) : Z :=
  if p_rp p <=? p_wp p then p_wp p - p_rp p else p_end p - p_rp p.
Definition writable_run (p : scull_pipe) : Z :=
  let free := buffersize p - 1 - Z.of_nat (length (contents p)) in
  if p_rp p <=? p_wp p then Z.min free (p_end p - p_wp p) else free.

Ltac pipe_cases H :=
  let l := fresh "l" in let mem := fresh "mem" in
  destruct H as [(l & mem & ?Hb & ?Hm) ?He ?Hs ?Hr ?Hw]; unfold INT_MAX in *;
  unfold readable_run, writable_run, contents in *; cbv zeta in *.

Section abstraction.
Implicit Types p : scull_pipe.

Lemma contents_length p : pipe_wf p →
  Z.of_nat (length (contents p)) =
  if p_rp p <=? p_wp p then p_wp p - p_rp p else buffersize p + p_wp p - p_rp p.
Proof.
  intros W. pipe_cases W. rewrite Hb. destruct (Z.leb_spec (p_rp p) (p_wp p)).
  - rewrite slice_length; lia.
  - rewrite length_app, !slice_length; lia.
Qed.

Lemma contents_nil p : pipe_wf p → contents p = [] ↔ p_rp p = p_wp p.
Proof.
  intros W. rewrite <- length_zero_iff_nil. pose proof (contents_length p W).
  pipe_cases W. destruct (Z.leb_spec (p_rp p) (p_wp p)); lia.
Qed.

Lemma contents_bound p : pipe_wf p →
  0 <= Z.of_nat (length (contents p)) <= buffersize p - 1.
Proof.
  intros W. pose proof (contents_length p W). pipe_cases W.
  destruct (Z.leb_spec (p_rp p) (p_wp p)); lia.
Qed.

Lemma wf_set_rp p v : pipe_wf p → 0 <= v < buffersize p → pipe_wf (pipe_set_rp p v).
Proof. intros [] ?. by split. Qed.
Lemma wf_set_wp p v : pipe_wf p → 0 <= v < buffersize p → pipe_wf (pipe_set_wp p v).
Proof. intros [] ?. by split. Qed.

(** [wp] or [rp] moved by [n], going back to the start at the end. *)
Definition advance p (x n : Z) : Z := if x + n =? p_end p then 0 else x + n.

(** The bytes at [rp] are the head of the queue. *)
Lemma contents_head p n l mem : pipe_wf p → buffer p = Some (l, mem) →
  0 <= n <= readable_run p →
  slice (Z.to_nat (p_rp p)) (Z.to_nat n) mem = take (Z.to_nat n) (contents p).
Proof.
  intros W Hb' Hn. pipe_cases W. rewrite Hb. simplify_eq.
  destruct (Z.leb_spec (p_rp p) (p_wp p)).
  - unfold slice. rewrite take_take. f_equal. lia.
  - rewrite take_app_le by (rewrite slice_length; lia).
    unfold slice. rewrite take_take. f_equal. lia.
Qed.

(** Advancing [rp] drops the head. *)
Lemma contents_advance_rp p n : pipe_wf p → contents p ≠ [] → 0 <= n <= readable_run p →
  contents (pipe_set_rp p (advance p (p_rp p) n)) = drop (Z.to_nat n) (contents p)
  ∧ pipe_wf (pipe_set_rp p (advance p (p_rp p) n)).
Proof.
  intros W Hne Hn. rewrite contents_nil in Hne by done. pose proof W as W'. pipe_cases W.
  unfold advance. destruct (Z.leb_spec (p_rp p) (p_wp p)).
  - rewrite (proj2 (Z.eqb_neq _ _)) by lia. simpl. split.
    + rewrite Hb, (proj2 (Z.leb_le _ _)) by lia.
      unfold slice. rewrite skipn_firstn_comm, drop_drop. f_equal; [lia|f_equal; lia].
    + apply wf_set_rp; [done|lia].
  - destruct (Z.eqb_spec (p_rp p + n) (p_end p)) as [E|E]; simpl; rewrite Hb.
    + split; [|apply wf_set_rp; [done|lia]].
      rewrite (proj2 (Z.leb_le _ _)) by lia.
      rewrite drop_app_length'; [|rewrite slice_length; lia].
      rewrite Z2Nat.inj_0, Nat.sub_0_r. done.
    + split; [|apply wf_set_rp; [done|lia]].
      rewrite (proj2 (Z.leb_gt _ _)) by lia.
      rewrite drop_app_le by (rewrite slice_length; lia). f_equal.
      unfold slice. rewrite skipn_firstn_comm, drop_drop. f_equal; [lia|f_equal; lia].
Qed.

(** A copy into the writable run changes no queued byte. *)
Lemma contents_store p l mem cs : pipe_wf p → buffer p = Some (l, mem) →
  Z.of_nat (length cs) <= writable_run p →
  contents (pipe_set_buffer p (Some (l, list_inserts (Z.to_nat (p_wp p)) cs mem))) = contents p
  ∧ pipe_wf (pipe_set_buffer p (Some (l, list_inserts (Z.to_nat (p_wp p)) cs mem))).
Proof.
  intros W Hb' Hn. pose proof (contents_length p W) as HL. split.
  - pipe_cases W. simpl. rewrite Hb in *. simplify_eq.
    destruct (Z.leb_spec (p_rp p) (p_wp p)).
    + apply slice_inserts_disjoint. lia.
    + f_equal; apply slice_inserts_disjoint; lia.
  - pipe_cases W. simplify_eq. split; simpl; eauto.
    do 2 eexists. split; [done|]. len. lia.
Qed.

(** Advancing [wp] over [cs] appends [cs]. *)
Lemma contents_append p l mem cs : pipe_wf p → buffer p = Some (l, mem) →
  Z.of_nat (length cs) <= writable_run p →
  let p' := pipe_set_buffer p (Some (l, list_inserts (Z.to_nat (p_wp p)) cs mem)) in
  let q := pipe_set_wp p' (advance p (p_wp p) (Z.of_nat (length cs))) in
  contents q = contents p ++ cs ∧ pipe_wf q.
Proof.
  intros W Hb' Hn p' q. pose proof (contents_length p W) as HL.
  destruct (contents_store p l mem cs W Hb' Hn) as [HC W'].
  pipe_cases W. rewrite Hb in *. simplify_eq. subst p' q. unfold advance. simpl in *.
  set (m' := list_inserts _ _ _) in *.
  assert (Hin : slice (Z.to_nat (p_wp p)) (length cs) m' = cs).
  { apply slice_inserts_same. clear HC W'.
    destruct (Z.leb_spec (p_rp p) (p_wp p)) in Hn, HL; lia. }
  assert (Hlen : length m' = length mem) by (unfold m'; by len).
  destruct (Z.leb_spec (p_rp p) (p_wp p)); rewrite <- HC.
  - destruct (Z.eqb_spec (p_wp p + Z.of_nat (length cs)) (p_end p)).
    + split; [|apply wf_set_wp; [done|simpl; lia]].
      destruct (Z.leb_spec (p_rp p) 0).
      * (* rp = 0 and the buffer would be filled: excluded by the free cell *)
        exfalso. lia.
      * rewrite Z2Nat.inj_0, slice_nil, app_nil_r.
        replace (Z.to_nat (p_end p) - Z.to_nat (p_rp p))%nat
          with ((Z.to_nat (p_wp p) - Z.to_nat (p_rp p)) + length cs)%nat by lia.
        rewrite slice_split. f_equal. rewrite <- Hin at 2. f_equal. lia.
    + split; [|apply wf_set_wp; [done|simpl; lia]].
      rewrite (proj2 (Z.leb_le _ _)) by lia.
      replace (Z.to_nat (p_wp p + Z.of_nat (length cs)) - Z.to_nat (p_rp p))%nat
        with ((Z.to_nat (p_wp p) - Z.to_nat (p_rp p)) + length cs)%nat by lia.
      rewrite slice_split. f_equal. rewrite <- Hin at 2. f_equal. lia.
  - rewrite (proj2 (Z.eqb_neq _ _)) by lia.
    split; [|apply wf_set_wp; [done|simpl; lia]].
    rewrite (proj2 (Z.leb_gt _ _)) by lia.
    rewrite Z2Nat.inj_add, Nat2Z.id by lia. rewrite slice_split, app_assoc.
    f_equal. done.
Qed.

End abstraction.

(** ** Symbolic execution of the handlers *)

Section passes.
Context {H U : Type} `{KernelHeap H} `{UserMem U}.
Abbreviation st := (pipe_st H U).
Implicit Types s : st.

(** What a read or a write leaves alone. *)
Definition p_frame s s' : Prop :=
  p_heap s' = p_heap s ∧ p_param s' = p_param s ∧
  buffersize (pipe s') = buffersize (pipe s) ∧
  nreaders (pipe s') = nreaders (pipe s) ∧ nwriters (pipe s') = nwriters (pipe s) ∧
  async_queue (pipe s') = async_queue (pipe s) ∧
  fst <$> buffer (pipe s') = fst <$> buffer (pipe s).

Lemma wf_lock p b : pipe_wf p → pipe_wf (pipe_lock p b).
Proof. intros []. by split. Qed.
Lemma contents_lock p b : contents (pipe_lock p b) = contents p.
Proof. done. Qed.

Lemma plock_wp s Q :
  p_locked (pipe s) = false → Q false (set_pipe (pipe_lock (pipe s) true) s) →
  wp (pipe_mutex_lock false) s Q.
Proof. intros E HQ. unfold pipe_mutex_lock, wp. by rewrite E. Qed.

Lemma punlock_wp s (Q : unit → st → Prop) :
  p_locked (pipe s) = true → Q tt (set_pipe (pipe_lock (pipe s) false) s) →
  wp pipe_mutex_unlock s Q.
Proof. intros E HQ. unfold pipe_mutex_unlock, wp. by rewrite E. Qed.

Lemma spacefree_wp s Q : pipe_wf (pipe s) →
  Q (buffersize (pipe s) - 1 - Z.of_nat (length (contents (pipe s)))) s →
  wp spacefree s Q.
Proof.
  intros W HQ. pose proof (contents_length _ W) as HL. pose proof W as [_ _ Hs Hr Hw].
  unfold INT_MAX in *. unfold spacefree. wp_steps.
  destruct (Z.eqb_spec (p_rp (pipe s)) (p_wp (pipe s))) as [E|E].
  - rewrite E, Z.leb_refl in HL. wp_steps. wrap_simpl.
    by replace (buffersize (pipe s) - 1) with
      (buffersize (pipe s) - 1 - Z.of_nat (length (contents (pipe s)))) by lia.
  - wp_steps. apply c_rem_wp; [lia..|]. wp_steps.
    replace ((p_rp (pipe s) + buffersize (pipe s) - p_wp (pipe s)) mod buffersize (pipe s))
      with (buffersize (pipe s) - Z.of_nat (length (contents (pipe s)))).
    { assert (HB := contents_bound _ W). wrap_simpl.
      by replace (_ - _ - 1) with
        (buffersize (pipe s) - 1 - Z.of_nat (length (contents (pipe s)))) by lia. }
    rewrite HL. destruct (Z.leb_spec (p_rp (pipe s)) (p_wp (pipe s))).
    + rewrite Z.mod_small by lia. lia.
    + apply (Z.mod_unique_pos _ _ 1); lia.
Qed.

(** *** One reader pass *)

(** The number of bytes a read of [count] from a nonempty pipe takes. *)
Definition read_len s (count : Z) : Z := Z.min count (readable_run (pipe s)).

Definition read_post (nonblock : bool) (buf count : Z) s (r : option Z) s' : Prop :=
  (contents (pipe s) = [] ∧ contents (pipe s') = [] ∧ p_user s' = p_user s ∧
     r = if nonblock then Some (- EAGAIN) else None) ∨
  (contents (pipe s) ≠ [] ∧ r = Some (- EFAULT) ∧
     contents (pipe s') = contents (pipe s)) ∨
  (contents (pipe s) ≠ [] ∧
     let n := read_len s count in
     r = Some n ∧ (0 < count → 0 < n) ∧
     n <= Z.of_nat (length (contents (pipe s))) ∧
     contents (pipe s') = drop (Z.to_nat n) (contents (pipe s)) ∧
     user_bytes (p_user s') buf (Z.to_nat n) = take (Z.to_nat n) (contents (pipe s))).

Lemma readable_run_le p : pipe_wf p → contents p ≠ [] →
  1 <= readable_run p <= Z.of_nat (length (contents p)).
Proof.
  intros W Hne. rewrite contents_nil in Hne by done. rewrite contents_length by done.
  destruct W. unfold readable_run, INT_MAX in *.
  destruct (Z.leb_spec (p_rp p) (p_wp p)); lia.
Qed.

Lemma read_pass_wp s nonblock buf count :
  pipe_wf (pipe s) → p_locked (pipe s) = true → 0 <= count < 18446744073709551616 →
  wp (p_read_pass nonblock buf count) s (λ r s',
    pipe_wf (pipe s') ∧ p_locked (pipe s') = false ∧ p_frame s s' ∧ sigio s' = sigio s ∧
    read_post nonblock buf count s r s').
Proof.
  intros W L Hc. unfold p_read_pass. wp_steps.
  destruct (Z.eqb_spec (p_rp (pipe s)) (p_wp (pipe s))) as [E|E].
  { rewrite <- contents_nil in E by done. wp_steps. apply punlock_wp; [done|].
    wp_steps. split_and!; [by apply wf_lock|done..|]. left. split_and!; done. }
  rewrite <- contents_nil in E by done.
  pose proof (readable_run_le _ W E) as HR.
  assert (HB := contents_bound _ W). destruct (wf_size _ W) as [_ Hmax].
  set (n := if (_ <? _) then _ else _). assert (Hn : n = read_len s count).
  { unfold n, read_len. pose proof W as []. unfold readable_run, INT_MAX in *.
    rewrite contents_nil in E by done.
    destruct (Z.ltb_spec (p_rp (pipe s)) (p_wp (pipe s))),
      (Z.leb_spec (p_rp (pipe s)) (p_wp (pipe s))); try lia; wrap_simpl; done. }
  clearbody n. subst n. unfold INT_MAX in *.
  remember (read_len s count) as n eqn:Hn'. pose proof Hn' as Hn. unfold read_len in Hn.
  destruct (wf_buffer _ W) as (l & mem & Hb & Hm).
  assert (Hin : p_rp (pipe s) + n <= Z.of_nat (length mem)).
  { destruct W. unfold readable_run in *.
    destruct (Z.leb_spec (p_rp (pipe s)) (p_wp (pipe s))); lia. }
  wp_steps. unfold pipe_to_user at 1. unfold wp at 1. rewrite Hb.
  rewrite (proj2 (Z.leb_le 0 _)), (proj2 (Z.leb_le _ _) Hin) by (destruct W; lia). simpl.
  rewrite (contents_head _ n l mem) by (done || lia).
  destruct (copy_to_user _ _ _) as [u [|k]] eqn:EC; simpl; wp_steps.
  - destruct (contents_advance_rp _ n W E) as [HC HW]; [lia|]. unfold advance in *.
    apply punlock_wp; [done|]. wp_steps. simpl in *.
    split_and!; [by apply wf_lock|done| | |]; [by unfold p_frame| done|].
    right; right. split; [done|]. cbv zeta. rewrite <- Hn'. split_and!.
    + wrap_simpl. done.
    + lia.
    + lia.
    + exact HC.
    + apply ctu_ok_law in EC. rewrite length_take, Nat.min_l in EC by lia. done.
  - apply punlock_wp; [done|]. wp_steps.
    split_and!; [by apply wf_lock|done| |done|]; [by unfold p_frame|].
    right; left. split_and!; done.
Qed.

(** *** One writer pass *)

Definition pipe_full (p : scull_pipe) : Prop :=
  Z.of_nat (length (contents p)) = buffersize p - 1.

(** The number of bytes a write of [count] to a pipe that is not full accepts. *)
Definition write_len s (count : Z) : Z := Z.min count (writable_run (pipe s)).

Definition write_post (nonblock : bool) (buf count : Z) s (r : option Z) s' : Prop :=
  (pipe_full (pipe s) ∧ r = (if nonblock then Some (- EAGAIN) else None) ∧
     contents (pipe s') = contents (pipe s) ∧ sigio s' = sigio s) ∨
  (¬ pipe_full (pipe s) ∧ r = Some (- EFAULT) ∧
     contents (pipe s') = contents (pipe s) ∧ sigio s' = sigio s) ∨
  (¬ pipe_full (pipe s) ∧
     let n := write_len s count in
     r = Some n ∧ (0 < count → 0 < n) ∧
     contents (pipe s') = contents (pipe s) ++ user_bytes (p_user s) buf (Z.to_nat n) ∧
     sigio s' = match async_queue (pipe s) with [] => sigio s | _ => S (sigio s) end).

Lemma writable_run_pos p : pipe_wf p → ¬ pipe_full p → 1 <= writable_run p <= INT_MAX.
Proof.
  intros W Hf. unfold pipe_full, writable_run in *. pose proof (contents_bound p W).
  destruct W. destruct (p_rp p <=? p_wp p); lia.
Qed.

(** The room the code computes is the writable run. *)
Lemma write_room p count : pipe_wf p → ¬ pipe_full p →
  0 <= count < 18446744073709551616 →
  (let c := Z.min count (u64 (buffersize p - 1 - Z.of_nat (length (contents p)))) in
   if p_rp p <=? p_wp p then Z.min c (u64 (p_end p - p_wp p))
   else Z.min c (u64 (p_rp p - p_wp p - 1))) = Z.min count (writable_run p).
Proof.
  intros W Hf Hc. unfold pipe_full, writable_run in *. pose proof (contents_bound p W).
  pose proof (contents_length p W). destruct W. unfold INT_MAX in *. cbv zeta.
  destruct (Z.leb_spec (p_rp p) (p_wp p)); wrap_simpl; lia.
Qed.

Lemma write_pass_wp s nonblock buf count :
  pipe_wf (pipe s) → p_locked (pipe s) = true → 0 <= count < 18446744073709551616 →
  wp (p_write_pass nonblock buf count) s (λ r s',
    pipe_wf (pipe s') ∧ p_locked (pipe s') = false ∧ p_frame s s' ∧ p_user s' = p_user s ∧
    write_post nonblock buf count s r s').
Proof.
  intros W L Hc. unfold p_write_pass, getwritespace_pass. wp_steps.
  apply spacefree_wp; [done|].
  destruct (Z.eqb_spec (buffersize (pipe s) - 1 - Z.of_nat (length (contents (pipe s)))) 0) as [E|E].
  { assert (pipe_full (pipe s)) by (unfold pipe_full; lia).
    wp_steps. apply punlock_wp; [done|]. wp_steps. destruct nonblock; wp_steps;
      (split_and!; [by apply wf_lock|done|by unfold p_frame|done|]; left; split_and!; done). }
  assert (NF : ¬ pipe_full (pipe s)) by (unfold pipe_full; lia). clear E.
  wp_steps. unfold p_write_data. wp_steps. apply spacefree_wp; [done|]. wp_steps.
  pose proof (write_room _ count W NF Hc) as Hn. cbv zeta in Hn. rewrite Hn. clear Hn.
  pose proof (writable_run_pos _ W NF) as HR. unfold INT_MAX in HR.
  remember (write_len s count) as n eqn:Hn'. pose proof Hn' as Hn. unfold write_len in Hn.
  rewrite <- Hn. destruct (wf_buffer _ W) as (l & mem & Hb & Hm).
  unfold user_to_pipe at 1. unfold wp at 1. rewrite Hb.
  assert (Hin : p_wp (pipe s) + n <= Z.of_nat (length mem)).
  { pose proof (contents_length _ W). destruct W. unfold writable_run in *.
    destruct (Z.leb_spec (p_rp (pipe s)) (p_wp (pipe s))); lia. }
  rewrite (proj2 (Z.leb_le 0 _)), (proj2 (Z.leb_le _ _) Hin) by (destruct W; lia). simpl.
  pose proof (cfu_length_law (p_user s) buf (Z.to_nat n)) as HL.
  destruct (copy_from_user _ _ _) as [cs [|k]] eqn:EC; simpl in *; wp_steps.
  - destruct (contents_append _ l mem cs W Hb) as [HC HW]; [lia|]. unfold advance in *.
    rewrite HL, Z2Nat.id in HC, HW by lia.
    apply punlock_wp; [done|]. wp_steps. simpl in *.
    split_and!; [by apply wf_lock|done| | |]; [|done|].
    { unfold p_frame. simpl. by rewrite Hb. }
    right; right. split; [done|]. cbv zeta. rewrite <- Hn'. split_and!.
    + wrap_simpl. done.
    + lia.
    + apply cfu_ok_law in EC. subst cs. exact HC.
    + by destruct (async_queue (pipe s)).
  - destruct (contents_store _ l mem cs W Hb) as [HC HW]; [lia|].
    apply punlock_wp; [done|]. wp_steps. simpl in *.
    split_and!; [by apply wf_lock|done| |done|].
    { unfold p_frame. simpl. by rewrite Hb. }
    right; left. split_and!; done.
Qed.

(** *** Handlers: a pass, and passes separated by sleeps *)

Definition pipe_ok s : Prop := pipe_wf (pipe s) ∧ p_locked (pipe s) = false.

(** While a handler sleeps the others keep the pipe well formed and, when the
    handler gets the mutex again, have released it. *)
Definition env_ok (ws : list (@wake H U)) : Prop :=
  Forall (λ w, match w with
               | WakeSignal => True
               | WakeUp others _ => ∀ s, pipe_ok s → pipe_ok (others s)
               end) ws.

(** [r] comes from a signal, or from a pass that started in a state [s1]. *)
Definition loop_post (pass : st → option Z → st → Prop) (intr : bool) (ws : list (@wake H U))
    s (r : option Z) s' : Prop :=
  pipe_ok s' ∧
  ((r = Some (- ERESTARTSYS) ∧ (intr = true ∨ ws ≠ [])) ∨
   ∃ s1, pipe_wf (pipe s1) ∧ (ws = [] → contents (pipe s1) = contents (pipe s) ∧
                                        p_user s1 = p_user s) ∧ pass s1 r s').

Lemma read_loop_wp nonblock buf count ws s :
  pipe_wf (pipe s) → p_locked (pipe s) = true → env_ok ws →
  0 <= count < 18446744073709551616 →
  wp (read_loop nonblock buf count ws) s
    (loop_post (read_post nonblock buf count) false ws s).
Proof.
  intros W L E Hc. revert s W L. induction E as [|w ws Hw E IH]; intros s W L; simpl;
    apply wp_bind; (eapply wp_mono; [|by apply read_pass_wp]);
    intros [v|] s' (W' & L' & _ & _ & P); cbv beta iota.
  - wp_steps. split; [done|]. right. eauto.
  - wp_steps. split; [done|]. right. eauto.
  - wp_steps. split; [done|]. right. eauto 10.
  - destruct w as [|others intr]; [wp_steps; split; [done|left; by auto]|].
    wp_steps. destruct (Hw s') as [W1 L1]; [done|].
    destruct intr; [wp_steps; split; [done|left; by auto]|].
    apply plock_wp; [done|]. cbv beta iota.
    eapply wp_mono; [|apply IH; [by apply wf_lock|done]].
    intros r s2 [Ok [[-> [?|?]]|(s1 & ? & ? & ?)]]; (split; [done|]); [done|left; by auto|].
    right. exists s1. split_and!; done.
Qed.

Lemma write_loop_wp nonblock buf count ws s :
  pipe_wf (pipe s) → p_locked (pipe s) = true → env_ok ws →
  0 <= count < 18446744073709551616 →
  wp (result ← scull_getwritespace nonblock ws;
      match result with
      | None => mret None
      | Some (inl r) => mret (Some r)
      | Some (inr tt) => r ← p_write_data buf count; mret (Some r)
      end) s (loop_post (write_post nonblock buf count) false ws s).
Proof.
  intros W L E Hc. revert s W L. induction E as [|w ws Hw E IH]; intros s W L;
    pose proof (write_pass_wp s nonblock buf count W L Hc) as P;
    unfold p_write_pass, wp, mbind, M_bind in P; unfold wp, mbind, M_bind; simpl;
    unfold mbind, M_bind;
    destruct (getwritespace_pass nonblock s) as [[[[v|[]]|] s']|]; simpl in *; try done.
  - destruct P as (W' & L' & _ & _ & P). split; [done|]. right. eauto.
  - destruct (p_write_data buf count s') as [[r s2]|]; [|done]. simpl in *.
    destruct P as (W' & L' & _ & _ & P). split; [done|]. right. eauto.
  - destruct P as (W' & L' & _ & _ & P). split; [done|]. right. eauto.
  - destruct P as (W' & L' & _ & _ & P). split; [done|]. right. eauto 10.
  - destruct (p_write_data buf count s') as [[r s2]|]; [|done]. simpl in *.
    destruct P as (W' & L' & _ & _ & P). split; [done|]. right. eauto 10.
  - destruct P as (W' & L' & _ & _ & P).
    destruct w as [|others intr]; simpl; [split; [done|left; by auto]|].
    destruct (Hw s') as [W1 L1]; [done|]. unfold mmodify, pipe_mutex_lock.
    destruct intr; simpl; [split; [done|left; by auto]|].
    rewrite L1. set (sL := set_pipe (pipe_lock (pipe (others s')) true) (others s')).
    refine (wp_mono _ _ _ _ _ (IH sL (wf_lock _ true W1) eq_refl)).
    intros r s2 [Ok [[-> [?|?]]|(s1 & ? & ? & ?)]]; (split; [done|]); [done|left; by auto|].
    right. exists s1. split_and!; done.
Qed.

Lemma p_read_wp intr nonblock buf count ws s :
  pipe_ok s → env_ok ws → 0 <= count < 18446744073709551616 →
  wp (scull_p_read intr nonblock buf count ws) s
    (loop_post (read_post nonblock buf count) intr ws s).
Proof.
  intros [W L] E Hc. unfold scull_p_read. wp_steps. destruct intr.
  { unfold pipe_mutex_lock, wp. split; [done|]. left. auto. }
  apply plock_wp; [done|]. cbv beta iota.
  eapply wp_mono; [|apply read_loop_wp; [by apply wf_lock|done..]]. done.
Qed.

Lemma p_write_wp intr nonblock buf count ws s :
  pipe_ok s → env_ok ws → 0 <= count < 18446744073709551616 →
  wp (scull_p_write intr nonblock buf count ws) s
    (loop_post (write_post nonblock buf count) intr ws s).
Proof.
  intros [W L] E Hc. unfold scull_p_write. apply wp_bind. destruct intr.
  { unfold pipe_mutex_lock, wp. split; [done|]. left. auto. }
  apply plock_wp; [done|]. cbv beta iota.
  eapply wp_mono; [|apply write_loop_wp; [by apply wf_lock|done..]]. done.
Qed.

(** *** open and release *)

(** [base]: the blocks of the rest of the kernel.  [fs]: the modes of the
    open files, in no particular order. *)
Definition readers (fs : list Z) : Z :=
  Z.of_nat (length (filter (λ m, mode_has m FMODE_READ = true) fs)).
Definition writers (fs : list Z) : Z :=
  Z.of_nat (length (filter (λ m, mode_has m FMODE_WRITE = true) fs)).

Record life_inv (base : gset loc) (fs : list Z) s : Prop := LifeInv {
  li_unlocked : p_locked (pipe s) = false;
  li_param : 1 <= p_param s <= INT_MAX;
  li_modes : Forall (λ m, 1 <= m <= 3) fs;
  li_few : Z.of_nat (length fs) <= 1073741823;
  li_readers : nreaders (pipe s) = readers fs;
  li_writers : nwriters (pipe s) = writers fs;
  li_closed : fs = [] → buffer (pipe s) = None ∧ live (p_heap s) = base;
  li_open : fs ≠ [] → pipe_wf (pipe s) ∧ buffersize (pipe s) = p_param s ∧
    ∃ l mem, buffer (pipe s) = Some (l, mem) ∧ (l ∉ base) ∧ live (p_heap s) = {[l]} ∪ base
}.

Lemma mode_cases m : 1 <= m <= 3 → m = 1 ∨ m = 2 ∨ m = 3.
Proof. lia. Qed.

Lemma readers_cons m fs :
  readers (m :: fs) = (if mode_has m FMODE_READ then readers fs + 1 else readers fs).
Proof. unfold readers. rewrite filter_cons. case_decide as E; rewrite ?E; simpl; [lia|]. by destruct mode_has. Qed.
Lemma writers_cons m fs :
  writers (m :: fs) = (if mode_has m FMODE_WRITE then writers fs + 1 else writers fs).
Proof. unfold writers. rewrite filter_cons. case_decide as E; rewrite ?E; simpl; [lia|]. by destruct mode_has. Qed.

Lemma counts_range fs : 0 <= readers fs <= Z.of_nat (length fs) ∧
                        0 <= writers fs <= Z.of_nat (length fs).
Proof.
  unfold readers, writers.
  pose proof (length_filter (λ m, mode_has m FMODE_READ = true) fs).
  pose proof (length_filter (λ m, mode_has m FMODE_WRITE = true) fs). lia.
Qed.

(** Every open file counts as a reader or as a writer. *)
Lemma counts_pos m fs : 1 <= m <= 3 → 1 <= readers (m :: fs) + writers (m :: fs).
Proof.
  intros Hm. rewrite readers_cons, writers_cons. pose proof (counts_range fs).
  destruct (mode_cases m Hm) as [->|[->| ->]]; simpl; lia.
Qed.

Ltac punlock := try (apply punlock_wp; [done|]); wp_steps.

Lemma p_open_wp base fs s m :
  life_inv base fs s → 1 <= m <= 3 → Z.of_nat (length fs) < 1073741823 →
  wp (scull_p_open false m) s (λ r s',
    (r = 0 ∧ life_inv base (m :: fs) s' ∧ contents (pipe s') = []) ∨
    (r = - ENOMEM ∧ fs = [] ∧ life_inv base [] s')).
Proof.
  intros [Lk Hp Hm Hf Hr Hw Hc Ho] Hmm Hfew. unfold scull_p_open. wp_steps.
  apply plock_wp; [done|]. cbv beta iota. wp_steps. unfold INT_MAX in *.
  pose proof (counts_range fs).
  assert (HR : s32 (readers fs + 1) = readers fs + 1) by (wrap_simpl; lia).
  assert (HW : s32 (writers fs + 1) = writers fs + 1) by (wrap_simpl; lia).
  destruct (buffer (pipe s)) as [[l mem]|] eqn:Eb.
  - assert (Hne : fs ≠ []) by (intros ->; by destruct Hc).
    destruct (Ho Hne) as ([(l0 & m0 & Hb & Hl) _ _ _ _] & HB & l1 & m1 & Hb1 & Hn1 & Hl1).
    simplify_eq. wp_steps. punlock. left. split; [done|].
    split; [|by unfold contents; simpl; rewrite Eb].
    split; simpl; rewrite ?readers_cons, ?writers_cons, ?Hr, ?Hw, ?HR, ?HW; eauto; try done; [lia|].
    intros _. split_and!; [|done|eauto].
    split; simpl; [rewrite <- HB; eauto|unfold INT_MAX in *; lia..].
  - assert (fs = []) as ->.
    { destruct fs; [done|]. destruct Ho as (? & ? & ? & ? & ? & ?); [done|congruence]. }
    destruct Hc as [_ Hl]; [done|]. simpl. rewrite u64_id by lia.
    destruct (kmalloc (p_param s) (p_heap s)) as [[l|] h'] eqn:Ek; wp_steps.
    + punlock. left. split; [done|]. rewrite u64_id by lia.
      split; [|done].
      destruct (kmalloc_some_law _ _ _ _ Ek) as [Hfr Hlv].
      split; simpl; rewrite ?readers_cons, ?writers_cons, ?Hr, ?Hw, ?HR, ?HW; eauto; try done.
      intros _. split_and!; [|done|].
      * split; simpl; [|unfold INT_MAX in *; lia..]. do 2 eexists. split; [done|].
        by rewrite length_replicate.
      * do 2 eexists. split_and!; [done|set_solver|set_solver].
    + punlock. right. split_and!; [done..|].
      split; simpl; eauto; [|done]. intros _. split; [done|].
      by rewrite (kmalloc_none_law _ _ _ Ek).
Qed.

Lemma release_wp fasync_helper base fs s m filp :
  life_inv base (m :: fs) s →
  wp (scull_p_release fasync_helper filp m) s (λ r s', r = 0 ∧ life_inv base fs s').
Proof.
  intros [Lk Hp Hm Hf Hr Hw Hc Ho]. unfold scull_p_release, scull_p_fasync. wp_steps.
  destruct (fasync_helper (-1) filp 0 (async_queue (pipe s))) as [r q]. wp_steps.
  apply plock_wp; [done|]. wp_steps.
  destruct Ho as (W & HB & l & mem & Hb & Hn & Hl); [done|].
  apply Forall_cons in Hm as [Hm0 Hms]. simpl length in Hf.
  pose proof (counts_range fs).
  rewrite readers_cons in Hr. rewrite writers_cons in Hw. unfold INT_MAX in *.
  assert (Er : (if mode_has m FMODE_READ then s32 (nreaders (pipe s) - 1)
                else nreaders (pipe s)) = readers fs)
    by (rewrite Hr; destruct (mode_has m FMODE_READ); wrap_simpl; lia).
  assert (Ew : (if mode_has m FMODE_WRITE then s32 (nwriters (pipe s) - 1)
                else nwriters (pipe s)) = writers fs)
    by (rewrite Hw; destruct (mode_has m FMODE_WRITE); wrap_simpl; lia).
  rewrite Er, Ew. rewrite s32_id by (unfold INT_MAX; lia).
  destruct (Z.eqb_spec (readers fs + writers fs) 0) as [E|E].
  - assert (fs = []) as ->.
    { destruct fs as [|m' fs']; [done|]. apply Forall_cons in Hms as [? _].
      pose proof (counts_pos m' fs'). lia. }
    rewrite Hb. rewrite bool_decide_eq_true_2 by set_solver. wp_steps.
    punlock. split; [done|].
    split; simpl; eauto; [|done]. intros _. split; [done|].
    rewrite kfree_law, Hl. set_solver.
  - assert (Hne : fs ≠ []) by (intros ->; by apply E). wp_steps.
    punlock. split; [done|].
    split; simpl; eauto; [lia|done|].
    intros _. split_and!; [by destruct W|done|eauto].
Qed.

(** A read or write by an open file keeps the lifecycle invariant. *)
Lemma life_frame base fs s s' : fs ≠ [] →
  life_inv base fs s → p_frame s s' → pipe_wf (pipe s') → p_locked (pipe s') = false →
  life_inv base fs s'.
Proof.
  intros Hne [Lk Hp Hm Hf Hr Hw Hc Ho] (Fh & Fp & Fb & Fr & Fw & Fa & Fl) W L.
  split; rewrite ?Fh, ?Fp, ?Fb, ?Fr, ?Fw; eauto; [done|]. intros _.
  destruct (Ho Hne) as (_ & HB & l & mem & Hb & Hn & Hl). split_and!; [done..|].
  rewrite Hb in Fl. destruct (buffer (pipe s')) as [[l' mem']|]; simplify_eq/=. eauto.
Qed.

(** The invariant does not depend on the order in which files were opened. *)
#[local] Instance life_inv_proper base :
  Proper ((≡ₚ) ==> (=) ==> iff) (life_inv base).
Proof.
  assert (Himp : ∀ fs fs' s, fs ≡ₚ fs' → life_inv base fs s → life_inv base fs' s).
  { intros fs fs' s HP [? ? ? ? Hr Hw Hc Ho]. split; try done.
    - by rewrite <- HP.
    - by rewrite <- HP.
    - rewrite Hr. unfold readers. by rewrite HP.
    - rewrite Hw. unfold writers. by rewrite HP.
    - intros ->. apply Hc. by apply Permutation_nil_r.
    - intros Hne. apply Ho. intros ->. apply Hne. symmetry. by apply Permutation_nil_l. }
  intros fs fs' HP s s' <-. split; by apply Himp.
Qed.

(** Histories of one pipe device: files open it, use it and close it. *)
Inductive life_step (fasync_helper : Z → Z → Z → list Z → Z * list Z)
    : relation (list Z * st) :=
  | ls_open fs s m r s' : 1 <= m <= 3 → Z.of_nat (length fs) < 1073741823 →
      scull_p_open false m s = Ret (r, s') →
      life_step fasync_helper (fs, s) ((if r =? 0 then m :: fs else fs), s')
  | ls_release fs1 m fs2 s filp r s' :
      scull_p_release fasync_helper filp m s = Ret (r, s') →
      life_step fasync_helper (fs1 ++ m :: fs2, s) (fs1 ++ fs2, s')
  | ls_read fs s nonblock buf count r s' : fs ≠ [] → 0 <= count < 18446744073709551616 →
      scull_p_read false nonblock buf count [] s = Ret (r, s') →
      life_step fasync_helper (fs, s) (fs, s')
  | ls_write fs s nonblock buf count r s' : fs ≠ [] → 0 <= count < 18446744073709551616 →
      scull_p_write false nonblock buf count [] s = Ret (r, s') →
      life_step fasync_helper (fs, s) (fs, s').

Lemma p_read_frame_wp nonblock buf count s : pipe_ok s → 0 <= count < 18446744073709551616 →
  wp (scull_p_read false nonblock buf count []) s (λ _ s', p_frame s s' ∧ pipe_ok s').
Proof.
  intros [W L] Hc. unfold scull_p_read. wp_steps. apply plock_wp; [done|]. cbv beta iota.
  wp_steps. eapply wp_mono; [|by apply read_pass_wp; [apply wf_lock|..]].
  intros [v|] s' (W' & L' & F & _ & _); wp_steps; by split.
Qed.

Lemma p_write_frame_wp nonblock buf count s : pipe_ok s → 0 <= count < 18446744073709551616 →
  wp (scull_p_write false nonblock buf count []) s (λ _ s', p_frame s s' ∧ pipe_ok s').
Proof.
  intros [W L] Hc. unfold scull_p_write. apply wp_bind, plock_wp; [done|]. cbv beta iota.
  pose proof (write_pass_wp (set_pipe (pipe_lock (pipe s) true) s) nonblock buf count
    (wf_lock _ true W) eq_refl Hc) as P.
  unfold p_write_pass, wp, mbind, M_bind in P. unfold wp, mbind, M_bind, scull_getwritespace.
  unfold mbind, M_bind.
  destruct (getwritespace_pass nonblock _) as [[[[v|[]]|] s']|]; simpl in *; try done.
  - destruct P as (? & ? & F & _). by split.
  - destruct (p_write_data buf count s') as [[r s2]|]; [|done]. simpl in *.
    destruct P as (? & ? & F & _). by split.
  - destruct P as (? & ? & F & _). by split.
Qed.

Lemma life_step_inv fh base fs s fs' s' :
  life_step fh (fs, s) (fs', s') → life_inv base fs s → life_inv base fs' s'.
Proof.
  intros Hstep I. inversion Hstep as [? ? ? ? ? ? ? E|? ? ? ? ? ? ? E|? ? ? ? ? ? ? ? ? E
    |? ? ? ? ? ? ? ? ? E]; subst; clear Hstep.
  - by destruct (wp_run _ _ _ _ _ (p_open_wp base fs s m I ltac:(done) ltac:(done)) E)
      as [(-> & ? & _)|(-> & -> & ?)].
  - rewrite <- Permutation_middle in I.
    by destruct (wp_run _ _ _ _ _ (release_wp fh base (fs1 ++ fs2) s m filp I) E) as [_ ?].
  - destruct (li_open _ _ _ I) as [W _]; [done|].
    destruct (wp_run _ _ _ _ _ (p_read_frame_wp nonblock buf count s
      (conj W (li_unlocked _ _ _ I)) ltac:(done)) E) as (F & W1 & L1).
    by apply (life_frame base fs' s s').
  - destruct (li_open _ _ _ I) as [W _]; [done|].
    destruct (wp_run _ _ _ _ _ (p_write_frame_wp nonblock buf count s
      (conj W (li_unlocked _ _ _ I)) ltac:(done)) E) as (F & W1 & L1).
    by apply (life_frame base fs' s s').
Qed.

Lemma life_reachable_inv fh base fs s fs' s' :
  rtc (life_step fh) (fs, s) (fs', s') → life_inv base fs s → life_inv base fs' s'.
Proof.
  remember (fs, s) as x eqn:Ex. remember (fs', s') as y eqn:Ey.
  intros R. revert fs s Ex. induction R as [x|x [fs1 s1] z Hs R IH]; intros fs s -> I.
  - by simplify_eq.
  - eapply IH; eauto using life_step_inv.
Qed.

(** ** The properties *)

(** C13: a read of the pipe dequeues: whatever the sleeps and wake-ups, it
    ends with the mutex released and either a signal, or one pass over a
    well-formed pipe that reports an empty queue (-EAGAIN, or asleep), or fails
    to copy and keeps the queue, or moves the first [n] queued bytes to the
    user's buffer and removes exactly those. *)
Theorem scull_p_read_dequeues intr nonblock buf count ws s :
  pipe_ok s → env_ok ws → 0 <= count < 18446744073709551616 →
  wp (scull_p_read intr nonblock buf count ws) s
    (loop_post (read_post nonblock buf count) intr ws s).
Proof. apply p_read_wp. Qed.

(** C14: a write to the pipe enqueues: the accepted bytes are a nonempty
    prefix of the user's (for a nonempty request to a pipe that is not full),
    go to the back of the queue, and SIGIO is sent exactly when somebody asked
    for it; a full pipe gives -EAGAIN or sleeps, a failed copy keeps the queue. *)
Theorem scull_p_write_enqueues intr nonblock buf count ws s :
  pipe_ok s → env_ok ws → 0 <= count < 18446744073709551616 →
  wp (scull_p_write intr nonblock buf count ws) s
    (loop_post (write_post nonblock buf count) intr ws s).
Proof. apply p_write_wp. Qed.

Lemma poll_bits (b c : bool) :
  Z.lor (if b then 0 else Z.lor POLLIN POLLRDNORM) (if c then 0 else Z.lor POLLOUT POLLWRNORM)
  = (if b then 0 else POLLIN + POLLRDNORM) + (if c then 0 else POLLOUT + POLLWRNORM).
Proof. by destruct b, c. Qed.

(** Poll tells the truth: it reports the pipe readable exactly when the
    queue is not empty, writable exactly when it is not full, and changes
    nothing. *)
Theorem scull_p_poll_exact s : pipe_ok s →
  wp scull_p_poll s (λ mask s', s' = s ∧
    mask = (if decide (contents (pipe s) = []) then 0 else POLLIN + POLLRDNORM) +
           (if decide (Z.of_nat (length (contents (pipe s))) = buffersize (pipe s) - 1)
            then 0 else POLLOUT + POLLWRNORM)).
Proof.
  intros [W L]. unfold scull_p_poll. wp_steps. apply plock_wp; [done|]. wp_steps.
  apply spacefree_wp; [by apply wf_lock|]. punlock. rewrite poll_bits.
  destruct s as [p h u pa sg]; simpl in *. split.
  - unfold set_pipe. simpl. f_equal. destruct p; simpl in *. by subst.
  - rewrite contents_lock. f_equal.
    + rewrite <- (decide_ext (p_rp p = p_wp p) (contents p = [])) by (by rewrite contents_nil).
      destruct (Z.eqb_spec (p_rp p) (p_wp p)); by case_decide.
    + destruct (Z.eqb_spec (buffersize p - 1 - Z.of_nat (length (contents p))) 0);
        case_decide; try done; lia.
Qed.

(** C12: over any history of opens, closes, reads and writes that starts with
    the unused device and leaves the size parameter, a positive int, alone, the
    reader and writer counts are those of the open files, the buffer is allocated
    exactly while some file is open, and the last close returns the heap to what
    it was.  At every point of the history no handler faults: an open ends with
    the pipe empty or in -ENOMEM, a close of an open file answers 0, and, while
    some file is open, a read or a write of any count, interrupted or not,
    however often it sleeps, ends with the mutex released and the pipe well
    formed, provided those who run while it sleeps leave the pipe so. *)
Theorem scull_p_lifecycle fh param base h u n fs s :
  1 <= param <= INT_MAX → live h = base →
  rtc (life_step fh) ([], PipeSt pipe0 h u param n) (fs, s) →
  (nreaders (pipe s) = readers fs ∧ nwriters (pipe s) = writers fs) ∧
  (fs = [] → buffer (pipe s) = None ∧ live (p_heap s) = base) ∧
  (fs ≠ [] → pipe_ok s ∧ ∃ l mem, buffer (pipe s) = Some (l, mem) ∧ (l ∉ base) ∧
     live (p_heap s) = {[l]} ∪ base) ∧
  (∀ m, 1 <= m <= 3 → Z.of_nat (length fs) < 1073741823 →
     wp (scull_p_open false m) s (λ r s', r = - ENOMEM ∨ contents (pipe s') = [])) ∧
  (∀ m filp, m ∈ fs → wp (scull_p_release fh filp m) s (λ r s', r = 0)) ∧
  (∀ intr nonblock buf count ws, fs ≠ [] → 0 <= count < 18446744073709551616 → env_ok ws →
     wp (scull_p_read intr nonblock buf count ws) s (λ _ s', pipe_ok s') ∧
     wp (scull_p_write intr nonblock buf count ws) s (λ _ s', pipe_ok s')).
Proof.
  intros Hp Hl R.
  assert (I : life_inv base fs s).
  { apply (life_reachable_inv fh base _ _ _ _ R). by split. }
  split; [by destruct I|]. split; [by apply I|]. split_and!.
  - intros Hne. destruct (li_open _ _ _ I Hne) as (? & _ & ?). split; [|done].
    split; [done|apply I].
  - intros m Hm Hf. eapply wp_mono; [|by apply (p_open_wp base fs)].
    intros r s' [(_ & _ & ?)|(? & _)]; auto.
  - intros m filp (fs1 & fs2 & ->)%list_elem_of_split.
    rewrite <- Permutation_middle in I.
    eapply wp_mono; [|by apply (release_wp fh base (fs1 ++ fs2))]. by intros ? ? [? _].
  - intros intr nonblock buf count ws Hne Hc He. destruct (li_open _ _ _ I Hne) as [W _].
    assert (Ok : pipe_ok s) by (split; [done|apply I]).
    split; (eapply wp_mono; [|by first [apply p_read_wp|apply p_write_wp]]); by intros r s' [? _].
Qed.

End passes.

(** ** Witnesses and closed runs *)

Section examples.
Abbreviation st := (pipe_st bump umap).

Definition user0 : umap := umap_store ∅ 0 (Some <$> [x61; x62; x63; x64; x65; x00; x00; x00; x00; x00; x00]).
Definition opened (param : Z) (m : Z) : outcome (Z * st) :=
  scull_p_open false m (PipeSt pipe0 bump_init user0 param 0).
Definition st_of {A} (dflt : st) (o : outcome (A * st)) : st :=
  match o with Ret (_, s) => s | Fault _ => dflt end.
Definition dflt : st := PipeSt pipe0 bump_init user0 4 0.
Definition s_open : st := st_of dflt (opened 4 3).
Definition s_full : st := st_of dflt (scull_p_write false false 0 3 [] s_open).

(** A process that writes one byte while the reader sleeps. *)
Definition env_write (s : st) : st :=
  match scull_p_write false true 4 1 [] s with
  | Ret (_, s') => s'
  | Fault _ => s
  end.

Lemma pipe_wf_intro p l mem : buffer p = Some (l, mem) →
  length mem = Z.to_nat (buffersize p) → p_end p = buffersize p →
  1 <= buffersize p <= INT_MAX → 0 <= p_rp p < buffersize p → 0 <= p_wp p < buffersize p →
  pipe_wf p.
Proof. intros. split; eauto. Qed.

Lemma s_open_ok : pipe_ok s_open.
Proof. split; [|done]. eapply pipe_wf_intro; vm_compute; done. Qed.

Lemma s_full_ok : pipe_ok s_full.
Proof. split; [|done]. eapply pipe_wf_intro; vm_compute; done. Qed.

Lemma env_write_ok s : pipe_ok s → pipe_ok (env_write s).
Proof.
  intros Ok. unfold env_write. pose proof (p_write_frame_wp true 4 1 s Ok ltac:(lia)) as W.
  unfold wp in W. destruct (scull_p_write _ _ _ _ _ _) as [[r s']|]; [|done]. apply W.
Qed.

Definition result_of {A S} (o : outcome (A * S)) : option A :=
  match o with Ret (a, _) => Some a | Fault _ => None end.

(** A blocked reader is woken by a writer and gets the byte it wrote. *)
Lemma scull_p_read_dequeues_witness :
  result_of (scull_p_read false false 8 3 [WakeUp env_write false] s_open) = Some (Some 1) ∧
  wp (scull_p_read false false 8 3 [WakeUp env_write false]) s_open
    (loop_post (read_post false 8 3) false [WakeUp env_write false] s_open).
Proof.
  split; [vm_compute; reflexivity|].
  apply (scull_p_read_dequeues false false 8 3 [WakeUp env_write false] s_open).
  - exact s_open_ok.
  - constructor; [exact env_write_ok|constructor].
  - lia.
Defined.

(** A pipe of 4 cells accepts 3 of 5 bytes. *)
Lemma scull_p_write_enqueues_witness :
  result_of (scull_p_write false false 0 5 [] s_open) = Some (Some 3) ∧
  wp (scull_p_write false false 0 5 []) s_open
    (loop_post (write_post false 0 5) false [] s_open).
Proof.
  split; [vm_compute; reflexivity|].
  apply (scull_p_write_enqueues false false 0 5 [] s_open);
    [exact s_open_ok|constructor|lia].
Defined.

(** The full pipe is readable and not writable. *)
Lemma scull_p_poll_exact_witness :
  result_of (scull_p_poll s_full) = Some (POLLIN + POLLRDNORM) ∧
  wp scull_p_poll s_full (λ mask s', s' = s_full ∧
    mask = (if decide (contents (pipe s_full) = []) then 0 else POLLIN + POLLRDNORM) +
           (if decide (Z.of_nat (length (contents (pipe s_full))) = buffersize (pipe s_full) - 1)
            then 0 else POLLOUT + POLLWRNORM)).
Proof.
  split; [vm_compute; reflexivity|]. apply (scull_p_poll_exact s_full). exact s_full_ok.
Defined.

Definition no_async (fd filp mode : Z) (q : list Z) : Z * list Z := (0, q).
Definition s_closed : st := st_of dflt (scull_p_release no_async 0 3 s_full).

(** Open, write, close: nothing is left allocated. *)
Lemma scull_p_lifecycle_witness :
  rtc (life_step no_async) ([], dflt) ([], s_closed) ∧
  buffer (pipe s_closed) = None ∧ live (p_heap s_closed) = live bump_init.
Proof.
  assert (R : rtc (life_step no_async) ([], dflt) ([], s_closed)).
  { eapply rtc_l; [apply (ls_open _ [] dflt 3 0 s_open); [lia|simpl; lia|reflexivity]|].
    eapply rtc_l; [apply (ls_write _ [3] s_open false 0 3 (Some 3) s_full);
      [done|lia|vm_compute; reflexivity]|].
    eapply rtc_l; [apply (ls_release no_async [] 3 [] s_full 0 0 s_closed);
      vm_compute; reflexivity|]. apply rtc_refl. }
  split; [exact R|].
  destruct (scull_p_lifecycle no_async 4 (live bump_init) bump_init user0 0 [] s_closed)
    as (_ & Hc & _); [unfold INT_MAX; lia|reflexivity|exact R|].
  exact (Hc eq_refl).
Defined.

(** The size raised to 8 by SCULL_P_IOCTSIZE, then a second open. *)
Definition s_resized : st :=
  st_of dflt (scull_p_open false 3 (PipeSt (pipe s_open) (p_heap s_open) (p_user s_open) 8 0)).

(** The buffer is not reallocated when the device is opened again after
    SCULL_P_IOCTSIZE raised the size: the next write runs past the block. *)
Theorem scull_p_resize_overflows :
  scull_p_open false 3 (PipeSt pipe0 bump_init user0 4 0) = Ret (0, s_open) ∧
  scull_p_open false 3 (PipeSt (pipe s_open) (p_heap s_open) (p_user s_open) 8 0)
    = Ret (0, s_resized) ∧
  scull_p_write false false 0 5 [] s_resized = Fault OutOfBounds.
Proof.
  split; [vm_compute; reflexivity|]. split; [vm_compute; reflexivity|].
  vm_compute. reflexivity.
Qed.

Definition s_reopened : st := st_of dflt (scull_p_open false 1 s_full).

(** Opening the device a second time discards the bytes the first
    opener had written and nobody has read. *)
Theorem scull_p_reopen_discards :
  length (contents (pipe s_full)) = 3%nat ∧
  scull_p_open false 1 s_full = Ret (0, s_reopened) ∧ contents (pipe s_reopened) = [].
Proof.
  split; [vm_compute; reflexivity|]. split; [vm_compute; reflexivity|].
  vm_compute. reflexivity.
Qed.

End examples.
