(* ===== verification/ScullPipeConc.v ===== *)
(** Several readers and writers on one scullpipe (src/ldd/scull/pipe.c).

    A thread is one call of scull_p_read or scull_p_write; its program counter
    names the points where another thread can run.  The critical sections are
    the passes of ScullPipe.  The sleeps are those of the code: a reader waits
    with wait_event_interruptible on [inq], a writer with prepare_to_wait, a
    second test of spacefree and schedule on [outq]; wake_up comes after the
    mutex was released, as a step of its own. *)
From Stdlib Require Import ZArith Lia.
From stdpp Require Import base list gmap relations.
From S2P Require Import Prelude Kernel Scull ScullPipe ScullPipeThms.

Inductive role := Reader | Writer.
#[export] Instance role_eq_dec : EqDecision role.
Proof. solve_decision. Defined.

Inductive pc :=
  | PStart           (* before the first mutex_lock_interruptible *)
  | PLocked          (* in the critical section *)
  | PPrep            (* on the wait queue, before testing the condition *)
  | PSched           (* in schedule() *)
  | PWoken           (* off the queue, before taking the mutex again *)
  | PWake (n : Z)    (* mutex released, before wake_up_interruptible *)
  | PDone (r : Z).   (* returned [r] *)
#[export] Instance pc_eq_dec : EqDecision pc.
Proof. solve_decision. Defined.

Record thread := Thread {
  t_role : role;
  t_nonblock : bool;
  t_buf : Z;
  t_count : Z;
  t_pc : pc
}.
Definition set_pc (th : thread) (p : pc) : thread :=
  Thread (t_role th) (t_nonblock th) (t_buf th) (t_count th) p.

(** [c_wrote], [c_got]: the bytes all writers put in and all readers took out
    so far, in order. *)
Record cfg (H U : Type) := Cfg {
  c_st : pipe_st H U;
  c_thr : gmap nat thread;
  c_wrote : list cell;
  c_got : list cell
}.
Arguments Cfg {H U}.
Arguments c_st {H U}.
Arguments c_thr {H U}.
Arguments c_wrote {H U}.
Arguments c_got {H U}.

Section conc.
Context {H U : Type} `{KernelHeap H} `{UserMem U}.
Abbreviation st := (pipe_st H U).

Definition thread_pass (th : thread) : M st (option Z) :=
  match t_role th with
  | Reader => p_read_pass (t_nonblock th) (t_buf th) (t_count th)
  | Writer => p_write_pass (t_nonblock th) (t_buf th) (t_count th)
  end.

(** The condition a thread sleeps on, tested without the mutex. *)
Definition must_sleep (r : role) (s : st) : outcome (bool * st) :=
  match r with
  | Reader => Ret (p_rp (pipe s) =? p_wp (pipe s), s)
  | Writer => (n ← spacefree; mret (n =? 0)) s
  end.

(** Where a pass leads: to sleep, to the wake-up of the other side, or, after
    an error, to the return. *)
Definition after_pass (r : option Z) : pc :=
  match r with
  | None => PPrep
  | Some v => if 0 <=? v then PWake v else PDone v
  end.

Definition moved (ro : role) (want : role) (u : U) (buf : Z) (r : option Z) : list cell :=
  match r with
  | Some v => if decide (ro = want ∧ 0 <= v) then user_bytes u buf (Z.to_nat v) else []
  | None => []
  end.

(** wake_up_interruptible on the queue of [r]: a writer leaves its sleep, a
    reader goes round the loop of wait_event_interruptible. *)
Definition wake_thread (r : role) (th : thread) : thread :=
  if decide (t_role th = r) then
    match t_pc th, r with
    | PSched, Reader => set_pc th PPrep
    | PSched, Writer | PPrep, Writer => set_pc th PWoken
    | _, _ => th
    end
  else th.
Definition other (r : role) : role := match r with Reader => Writer | Writer => Reader end.

(** A step is labelled by the thread that runs, or by the signal it gets. *)
Inductive label := LRun (t : nat) | LSignal (t : nat).

Inductive step : label → relation (cfg H U) :=
  | s_lock c t th s' : c_thr c !! t = Some th → t_pc th = PStart ∨ t_pc th = PWoken →
      p_locked (pipe (c_st c)) = false →
      pipe_mutex_lock false (c_st c) = Ret (false, s') →
      step (LRun t) c (Cfg s' (<[t := set_pc th PLocked]> (c_thr c)) (c_wrote c) (c_got c))
  | s_signal c t th : c_thr c !! t = Some th →
      t_pc th = PStart ∨ t_pc th = PPrep ∨ t_pc th = PSched ∨ t_pc th = PWoken →
      step (LSignal t) c (Cfg (c_st c) (<[t := set_pc th (PDone (- ERESTARTSYS))]> (c_thr c))
                (c_wrote c) (c_got c))
  | s_pass c t th r s' : c_thr c !! t = Some th → t_pc th = PLocked →
      thread_pass th (c_st c) = Ret (r, s') →
      step (LRun t) c (Cfg s' (<[t := set_pc th (after_pass r)]> (c_thr c))
                (c_wrote c ++ moved (t_role th) Writer (p_user (c_st c)) (t_buf th) r)
                (c_got c ++ moved (t_role th) Reader (p_user s') (t_buf th) r))
  | s_check c t th b : c_thr c !! t = Some th → t_pc th = PPrep →
      must_sleep (t_role th) (c_st c) = Ret (b, c_st c) →
      step (LRun t) c (Cfg (c_st c) (<[t := set_pc th (if b then PSched else PWoken)]> (c_thr c))
                (c_wrote c) (c_got c))
  | s_wake c t th n : c_thr c !! t = Some th → t_pc th = PWake n →
      step (LRun t) c (Cfg (c_st c)
                (wake_thread (other (t_role th)) <$> (<[t := set_pc th (PDone n)]> (c_thr c)))
                (c_wrote c) (c_got c)).

Definition steps (c c' : cfg H U) : Prop := rtc (λ x y, ∃ l, step l x y) c c'.

(** The step of thread [t], computed. *)
Definition exec_step (t : nat) (c : cfg H U) : option (cfg H U) :=
  th ← c_thr c !! t;
  let go p := Cfg (c_st c) (<[t := set_pc th p]> (c_thr c)) (c_wrote c) (c_got c) in
  match t_pc th with
  | PStart | PWoken =>
      if p_locked (pipe (c_st c)) then None else
      match pipe_mutex_lock false (c_st c) with
      | Ret (false, s') =>
          Some (Cfg s' (<[t := set_pc th PLocked]> (c_thr c)) (c_wrote c) (c_got c))
      | _ => None
      end
  | PLocked =>
      match thread_pass th (c_st c) with
      | Ret (r, s') =>
          Some (Cfg s' (<[t := set_pc th (after_pass r)]> (c_thr c))
            (c_wrote c ++ moved (t_role th) Writer (p_user (c_st c)) (t_buf th) r)
            (c_got c ++ moved (t_role th) Reader (p_user s') (t_buf th) r))
      | Fault _ => None
      end
  | PPrep =>
      match must_sleep (t_role th) (c_st c) with
      | Ret (b, _) => Some (go (if b then PSched else PWoken))
      | Fault _ => None
      end
  | PWake n =>
      Some (Cfg (c_st c)
        (wake_thread (other (t_role th)) <$> (<[t := set_pc th (PDone n)]> (c_thr c)))
        (c_wrote c) (c_got c))
  | PSched | PDone _ => None
  end.

(** A schedule: the threads that run, in order. *)
Fixpoint exec (ts : list nat) (c : cfg H U) : option (cfg H U) :=
  match ts with
  | [] => Some c
  | t :: ts' => c' ← exec_step t c; exec ts' c'
  end.

(** ** The invariant *)

Definition at_pc (c : cfg H U) (t : nat) (r : role) (p : pc) : Prop :=
  ∃ th, c_thr c !! t = Some th ∧ t_role th = r ∧ t_pc th = p.

(** What keeps a sleeping thread of role [r] from being forgotten. *)
Definition blocked (r : role) (p : scull_pipe) : Prop :=
  match r with Reader => contents p = [] | Writer => pipe_full p end.

Record conc_inv (c : cfg H U) : Prop := ConcInv {
  ci_wf : pipe_wf (pipe (c_st c));
  ci_count : ∀ t th, c_thr c !! t = Some th → 0 <= t_count th < 18446744073709551616;
  ci_lock : p_locked (pipe (c_st c)) = true ↔ ∃ t r, at_pc c t r PLocked;
  ci_mutex : ∀ t1 r1 t2 r2, at_pc c t1 r1 PLocked → at_pc c t2 r2 PLocked → t1 = t2;
  ci_fifo : c_wrote c = c_got c ++ contents (pipe (c_st c));
  ci_nolost : ∀ t r, at_pc c t r PSched → blocked r (pipe (c_st c)) ∨
    ∃ t' n, at_pc c t' (other r) (PWake n)
}.

(** A configuration in which no call has started. *)
Definition conc_init (c : cfg H U) : Prop :=
  pipe_ok (c_st c) ∧ c_wrote c = contents (pipe (c_st c)) ∧ c_got c = [] ∧
  ∀ t th, c_thr c !! t = Some th →
    t_pc th = PStart ∧ 0 <= t_count th < 18446744073709551616.

(** *** Bookkeeping of program counters *)

Lemma at_pc_insert s m w g t th p t' r q : m !! t = Some th →
  at_pc (Cfg s (<[t := set_pc th p]> m) w g) t' r q ↔
  (t' = t ∧ r = t_role th ∧ q = p) ∨ (t' ≠ t ∧ ∃ th', m !! t' = Some th' ∧ t_role th' = r ∧ t_pc th' = q).
Proof.
  intros Ht. unfold at_pc. simpl. destruct (decide (t' = t)) as [->|N].
  - rewrite lookup_insert_eq. naive_solver.
  - rewrite lookup_insert_ne by done. naive_solver.
Qed.

Lemma count_insert (m : gmap nat thread) t th p : m !! t = Some th →
  (∀ t th, m !! t = Some th → 0 <= t_count th < 18446744073709551616) →
  ∀ t' th', <[t := set_pc th p]> m !! t' = Some th' →
    0 <= t_count th' < 18446744073709551616.
Proof.
  intros Ht Hc t' th'. rewrite lookup_insert. case_decide; [|by eauto].
  intros [= <-]. by apply (Hc t th).
Qed.

Lemma wake_role r th : t_role (wake_thread r th) = t_role th.
Proof. unfold wake_thread. case_decide; [|done]. by destruct (t_pc th), r. Qed.
Lemma wake_count r th : t_count (wake_thread r th) = t_count th.
Proof. unfold wake_thread. case_decide; [|done]. by destruct (t_pc th), r. Qed.

(** A wake-up moves no thread into or out of the critical section, nor into
    or out of a pending wake-up, and leaves no thread of its role asleep. *)
Lemma wake_pc r th p : t_pc (wake_thread r th) = p →
  (p = PLocked ∨ (∃ n, p = PWake n) → t_pc th = p) ∧
  (p = PSched → t_pc th = PSched ∧ t_role th ≠ r).
Proof.
  unfold wake_thread. intros <-. case_decide as E; [|by split].
  destruct (t_pc th) eqn:Ep, r; simpl; rewrite ?Ep;
    (split; [intros [?|[? ?]]|intros ?]; done).
Qed.
Lemma wake_keeps r th : t_pc th = PLocked ∨ (∃ n, t_pc th = PWake n) →
  t_pc (wake_thread r th) = t_pc th.
Proof.
  unfold wake_thread. case_decide; [|done]. intros [E|[n E]]; rewrite E; by destruct r.
Qed.

(** *** One pass of a thread *)

Lemma pass_wp th (s : st) :
  pipe_wf (pipe s) → p_locked (pipe s) = true → 0 <= t_count th < 18446744073709551616 →
  wp (thread_pass th) s (λ r s',
    pipe_wf (pipe s') ∧ p_locked (pipe s') = false ∧
    contents (pipe s) ++ moved (t_role th) Writer (p_user s) (t_buf th) r =
      moved (t_role th) Reader (p_user s') (t_buf th) r ++ contents (pipe s') ∧
    buffersize (pipe s') = buffersize (pipe s) ∧
    ((∃ n, after_pass r = PWake n) ∨ contents (pipe s') = contents (pipe s)) ∧
    after_pass r ≠ PSched ∧ after_pass r ≠ PLocked ∧
    (t_role th = Reader → blocked Reader (pipe s) → contents (pipe s') = []) ∧
    (t_role th = Writer → pipe_full (pipe s) → pipe_full (pipe s'))).
Proof.
  intros W L Hc. unfold thread_pass. destruct (t_role th) eqn:Er.
  - eapply wp_mono; [|by apply read_pass_wp].
    intros r s' (W' & L' & (_ & _ & Fb & _) & _ & [P|[P|P]]); (split; [done|]; split; [done|]).
    + destruct P as (E & E' & _ & ->). rewrite E, E'.
      destruct (t_nonblock th); simpl; split_and!; auto; done.
    + destruct P as (E & -> & E'). rewrite E'. simpl. split_and!; auto; try done.
      by rewrite app_nil_r.
    + destruct P as (E & -> & _ & Hle & HC & HU). unfold after_pass, moved.
      pose proof (contents_bound _ W).
      assert (0 <= read_len s (t_count th)) by
        (unfold read_len; pose proof (readable_run_le _ W E); lia).
      rewrite (proj2 (Z.leb_le 0 _)), decide_False, decide_True by naive_solver.
      rewrite HU, HC, take_drop, app_nil_r. split_and!; eauto; done.
  - eapply wp_mono; [|by apply write_pass_wp].
    intros r s' (W' & L' & (_ & _ & Fb & _) & _ & [P|[P|P]]); (split; [done|]; split; [done|]).
    + destruct P as (E & -> & E' & _). unfold pipe_full in *. rewrite E', Fb.
      destruct (t_nonblock th); simpl; split_and!; auto; try done; by rewrite app_nil_r.
    + destruct P as (E & -> & E' & _). rewrite E'. simpl. split_and!; auto; try done.
      by rewrite app_nil_r.
    + destruct P as (E & -> & _ & HC & _). unfold after_pass, moved.
      assert (0 <= write_len s (t_count th)) by
        (unfold write_len; pose proof (writable_run_pos _ W E); lia).
      rewrite (proj2 (Z.leb_le 0 _)), decide_True, decide_False by naive_solver.
      split_and!; eauto; done.
Qed.

Lemma must_sleep_spec r (s : st) : pipe_wf (pipe s) →
  ∃ b, must_sleep r s = Ret (b, s) ∧ (b = true ↔ blocked r (pipe s)).
Proof.
  intros W. destruct r; simpl.
  - eexists. split; [done|]. by rewrite contents_nil, Z.eqb_eq.
  - destruct (wp_elim spacefree s (λ n s', s' = s ∧
      n = buffersize (pipe s) - 1 - Z.of_nat (length (contents (pipe s)))))
      as (n & s' & E & -> & ->); [by apply spacefree_wp|].
    unfold mbind, M_bind. rewrite E. eexists. split; [done|].
    rewrite Z.eqb_eq. unfold pipe_full. lia.
Qed.

Lemma exec_step_sound t c c' : pipe_wf (pipe (c_st c)) →
  exec_step t c = Some c' → step (LRun t) c c'.
Proof.
  intros W E. unfold exec_step in E. apply bind_Some in E as (th & Ht & E).
  destruct (t_pc th) eqn:Hp; try done.
  - destruct (p_locked _) eqn:L; [done|]. destruct (pipe_mutex_lock _ _) as [[[] s']|] eqn:K;
      simplify_eq. eapply s_lock; eauto.
  - destruct (thread_pass _ _) as [[r s']|] eqn:K; simplify_eq. by eapply s_pass.
  - destruct (must_sleep_spec (t_role th) (c_st c) W) as (b & K & _). rewrite K in E.
    simplify_eq. by eapply s_check.
  - destruct (p_locked _) eqn:L; [done|]. destruct (pipe_mutex_lock _ _) as [[[] s']|] eqn:K;
      simplify_eq. eapply s_lock; eauto.
  - simplify_eq. by eapply s_wake.
Qed.

(** *** Preservation *)

Lemma lock_inv c t th s' : c_thr c !! t = Some th →
  t_pc th = PStart ∨ t_pc th = PWoken → p_locked (pipe (c_st c)) = false →
  pipe_mutex_lock false (c_st c) = Ret (false, s') → conc_inv c →
  conc_inv (Cfg s' (<[t := set_pc th PLocked]> (c_thr c)) (c_wrote c) (c_got c)).
Proof.
  intros Ht Hp Hl E [W Hc Hk Hm Hf Hn]. unfold pipe_mutex_lock in E. rewrite Hl in E.
  simplify_eq. assert (No : ∀ t r, ¬ at_pc c t r PLocked) by (intros ? ? ?; naive_solver congruence).
  split; simpl; [by apply wf_lock|by apply count_insert| | |done|].
  - split; [intros _; exists t, (t_role th); apply at_pc_insert; naive_solver|done].
  - intros t1 r1 t2 r2. rewrite !at_pc_insert by done.
    intros [(-> & _)|[_ A1]] [(-> & _)|[_ A2]]; try done;
      exfalso; eapply No; first [exact A1|exact A2].
  - intros t' r. rewrite at_pc_insert by done. intros [(_ & _ & ?)|[_ A]]; [done|].
    destruct (Hn t' r A) as [?|(t2 & n & A2)]; [left; by destruct r|right].
    exists t2, n. apply at_pc_insert; [done|]. right. destruct A2 as (th2 & E2 & ? & ?).
    split; [intros ->; naive_solver congruence|eauto].
Qed.

(** A step outside the critical section that only moves one thread. *)
Lemma quiet_inv c t th p : c_thr c !! t = Some th →
  t_pc th ≠ PLocked → (∀ n, t_pc th ≠ PWake n) → p ≠ PLocked →
  (p = PSched → blocked (t_role th) (pipe (c_st c))) → conc_inv c →
  conc_inv (Cfg (c_st c) (<[t := set_pc th p]> (c_thr c)) (c_wrote c) (c_got c)).
Proof.
  intros Ht N1 N2 N3 Hb [W Hc Hk Hm Hf Hn].
  assert (K : ∀ t' r q, q = PLocked ∨ (∃ n, q = PWake n) → at_pc c t' r q →
    at_pc (Cfg (c_st c) (<[t := set_pc th p]> (c_thr c)) (c_wrote c) (c_got c)) t' r q).
  { intros t' r q Hq (th' & E & ? & ?). apply at_pc_insert; [done|]. right.
    split; [|eauto]. intros ->. naive_solver. }
  split; simpl; [done|by apply count_insert| | |done|].
  - rewrite Hk. split; intros (t' & r & A); exists t', r; [apply K; auto|].
    rewrite at_pc_insert in A by done. destruct A as [(_ & _ & ?)|[_ A]]; done.
  - intros t1 r1 t2 r2. rewrite !at_pc_insert by done.
    intros [(_ & _ & ?)|[_ A1]] [(_ & _ & ?)|[_ A2]]; try done. by apply (Hm t1 r1 t2 r2).
  - intros t' r. rewrite at_pc_insert by done. intros [(_ & -> & Ep)|[_ A]]; [left; auto|].
    destruct (Hn t' r A) as [?|(t2 & n & A2)]; [by left|right].
    exists t2, n. apply K; eauto.
Qed.

Lemma pass_inv c t th r s' : c_thr c !! t = Some th → t_pc th = PLocked →
  thread_pass th (c_st c) = Ret (r, s') → conc_inv c →
  conc_inv (Cfg s' (<[t := set_pc th (after_pass r)]> (c_thr c))
    (c_wrote c ++ moved (t_role th) Writer (p_user (c_st c)) (t_buf th) r)
    (c_got c ++ moved (t_role th) Reader (p_user s') (t_buf th) r)).
Proof.
  intros Ht Hp E [W Hc Hk Hm Hf Hn].
  assert (Lk : at_pc c t (t_role th) PLocked) by (exists th; done).
  destruct (wp_run _ _ _ _ _ (pass_wp th (c_st c) W (proj2 Hk ltac:(eauto)) (Hc t th Ht)) E)
    as (W' & L' & HF & HB & Hcase & N1 & N2 & HR & HW).
  assert (Only : ∀ t' r', t' ≠ t → ¬ at_pc c t' r' PLocked) by (intros ? ? N A; eauto).
  split; simpl; [done|by apply count_insert| | | |].
  - rewrite L'. split; [done|]. intros (t' & r' & A). rewrite at_pc_insert in A by done.
    destruct A as [(_ & _ & ?)|[N A]]; [done|]. by destruct (Only t' r' N).
  - intros t1 r1 t2 r2. rewrite !at_pc_insert by done.
    intros [(_ & _ & ?)|[N A1]] _; [done|]. by destruct (Only t1 r1 N).
  - rewrite Hf, <- !app_assoc. by rewrite HF.
  - intros t' r'. rewrite at_pc_insert by done. intros [(_ & _ & ?)|[N A]]; [done|].
    destruct Hcase as [[n En]|Esame].
    + destruct (decide (t_role th = other r')) as [Eo|Eo].
      { right. exists t, n. apply at_pc_insert; [done|]. left. by rewrite En, Eo. }
      assert (t_role th = r') as Er by (destruct (t_role th), r'; done).
      destruct (Hn t' r' A) as [B|(t2 & n2 & A2)].
      { left. destruct r'; simpl in *; auto. }
      right. exists t2, n2. apply at_pc_insert; [done|]. right.
      destruct A2 as (th2 & E2 & ? & ?). split; [intros ->; congruence|eauto].
    + destruct (Hn t' r' A) as [B|(t2 & n2 & A2)].
      { left. destruct r'; simpl in *; unfold pipe_full in *; by rewrite Esame, ?HB. }
      right. exists t2, n2. apply at_pc_insert; [done|]. right.
      destruct A2 as (th2 & E2 & ? & ?). split; [intros ->; congruence|eauto].
Qed.

Lemma wake_inv c t th n : c_thr c !! t = Some th → t_pc th = PWake n → conc_inv c →
  conc_inv (Cfg (c_st c)
    (wake_thread (other (t_role th)) <$> (<[t := set_pc th (PDone n)]> (c_thr c)))
    (c_wrote c) (c_got c)).
Proof.
  intros Ht Hp [W Hc Hk Hm Hf Hn]. set (m := <[t := _]> _).
  assert (Hback : ∀ t' r q, at_pc (Cfg (c_st c) (wake_thread (other (t_role th)) <$> m)
      (c_wrote c) (c_got c)) t' r q → q = PLocked ∨ q = PSched →
    at_pc c t' r q ∧ (q = PSched → r = t_role th)).
  { intros t' r q (th' & E & <- & Eq) Hq. simpl in E. rewrite lookup_fmap in E.
    apply fmap_Some in E as (th0 & E0 & ->). rewrite wake_role in *.
    destruct (wake_pc _ _ _ Eq) as [K1 K2]. unfold m in E0.
    rewrite lookup_insert in E0. case_decide.
    - exfalso. assert (t_pc th0 = PDone n) by (by simplify_eq).
      destruct Hq as [Hq|Hq]; [specialize (K1 (or_introl Hq))|destruct (K2 Hq)]; congruence.
    - destruct Hq as [->| ->].
      + split; [|done]. exists th0. split_and!; [done..|]. apply K1. auto.
      + destruct K2 as [K2 K3]; [done|]. split; [by exists th0|]. intros _.
        destruct (t_role th0), (t_role th); done. }
  assert (Hfwd : ∀ t' r q, t' ≠ t → at_pc c t' r q → q = PLocked ∨ (∃ n, q = PWake n) →
    at_pc (Cfg (c_st c) (wake_thread (other (t_role th)) <$> m) (c_wrote c) (c_got c)) t' r q).
  { intros t' r q N (th' & E & <- & <-) Hq. exists (wake_thread (other (t_role th)) th').
    simpl. rewrite lookup_fmap. unfold m. rewrite lookup_insert_ne, E by done.
    split_and!; [done|apply wake_role|by apply wake_keeps]. }
  split; simpl; [done| | | |done|].
  - intros t' th'. rewrite lookup_fmap. intros (th0 & E0 & ->)%fmap_Some.
    rewrite wake_count. exact (count_insert _ t th (PDone n) Ht Hc t' th0 E0).
  - rewrite Hk. split; intros (t' & r & A); exists t', r.
    + apply Hfwd; [|done|auto]. intros ->. destruct A as (? & ? & ? & ?). congruence.
    + apply Hback in A as [A _]; auto.
  - intros t1 r1 t2 r2 A1 A2. apply Hback in A1 as [A1 _], A2 as [A2 _]; eauto.
  - intros t' r A. apply Hback in A as [A Er]; [|auto]. specialize (Er eq_refl) as ->.
    destruct (Hn t' _ A) as [B|(t2 & n2 & A2)]; [by left|right].
    exists t2, n2. apply Hfwd; eauto. intros ->. destruct A2 as (th2 & E2 & Er2 & _).
    assert (th2 = th) as -> by congruence. by destruct (t_role th).
Qed.

Lemma step_inv l c c' : step l c c' → conc_inv c → conc_inv c'.
Proof.
  intros [c0 t th s' Ht Hp Hl E|c0 t th Ht Hp|c0 t th r s' Ht Hp E|c0 t th b Ht Hp E
    |c0 t th n Ht Hp] I.
  - by apply (lock_inv _ _ _ s').
  - apply quiet_inv; [done| | |done..]; intros;
      destruct Hp as [->|[->|[->| ->]]]; done.
  - by apply pass_inv.
  - destruct (must_sleep_spec (t_role th) (c_st c0)) as (b' & E' & Hb); [apply I|].
    rewrite E' in E. injection E as ->.
    apply quiet_inv; [done|rewrite Hp; done|rewrite Hp; done| | |done]; destruct b; try done.
    intros _. by apply Hb.
  - by apply (wake_inv _ _ _ n).
Qed.

Lemma init_inv c : conc_init c → conc_inv c.
Proof.
  intros ([W L] & Hw & Hg & Ht). split; [done|by eapply Ht| | |by rewrite Hw, Hg|].
  - rewrite L. split; [done|]. intros (t & r & th & E & _ & P). destruct (Ht t th E); congruence.
  - intros t1 r1 t2 r2 (th & E & _ & P). destruct (Ht t1 th E); congruence.
  - intros t r (th & E & _ & P). destruct (Ht t th E); congruence.
Qed.

Lemma conc_reachable_inv c c' : steps c c' → conc_init c → conc_inv c'.
Proof.
  intros R I. apply init_inv in I. induction R as [|x y z [l Hs] R IH]; eauto using step_inv.
Qed.

Lemma exec_sound ts c c' : conc_inv c → exec ts c = Some c' → steps c c'.
Proof.
  revert c. induction ts as [|t ts IH]; intros c I E; simpl in E.
  - simplify_eq. apply rtc_refl.
  - apply bind_Some in E as (c1 & E1 & E2). apply exec_step_sound in E1; [|apply I].
    eapply rtc_l; [by eexists|]. apply (IH c1); [by eapply step_inv|done].
Qed.

(** *** Enabled steps *)

Lemma locked_runs c : conc_inv c → (∃ t r, at_pc c t r PLocked) →
  ∃ t c', step (LRun t) c c'.
Proof.
  intros I (t & r & th & Ht & _ & Hp).
  destruct (wp_elim _ _ _ (pass_wp th (c_st c) (ci_wf _ I)
    (proj2 (ci_lock _ I) ltac:(exists t, (t_role th), th; done)) (ci_count _ I t th Ht)))
    as (v & s' & E & _).
  exists t. eexists. by apply (s_pass c t th v s').
Qed.

Lemma thread_runs c t th : conc_inv c → c_thr c !! t = Some th →
  (∀ r, t_pc th ≠ PDone r) → t_pc th ≠ PSched → ∃ t' c', step (LRun t') c c'.
Proof.
  intros I Ht Nd Ns.
  assert (Hlock : t_pc th = PStart ∨ t_pc th = PWoken → ∃ t' c', step (LRun t') c c').
  { intros Hp. destruct (p_locked (pipe (c_st c))) eqn:L.
    - apply locked_runs, I; [done|]. done.
    - exists t. eexists. eapply s_lock; [done..|]. unfold pipe_mutex_lock. by rewrite L. }
  destruct (t_pc th) eqn:Hp; [auto| | |done|auto| |by destruct (Nd r)].
  - apply locked_runs; [done|]. by exists t, (t_role th), th.
  - destruct (must_sleep_spec (t_role th) (c_st c)) as (b & E & _); [apply I|].
    exists t. eexists. by apply (s_check c t th b).
  - exists t. eexists. by apply (s_wake c t th n).
Qed.

(** ** The properties *)

(** C4: whatever the interleaving of any number of readers and writers,
    with signals at any sleep, the pipe is a FIFO: the bytes written are the
    bytes read followed by the bytes queued, at most one thread is in the
    critical section, and the queue never holds more than [buffersize - 1]. *)
Theorem scull_p_concurrent_fifo c c' :
  conc_init c → steps c c' →
  c_wrote c' = c_got c' ++ contents (pipe (c_st c')) ∧
  Z.of_nat (length (contents (pipe (c_st c')))) <= buffersize (pipe (c_st c')) - 1 ∧
  (∀ t1 r1 t2 r2, at_pc c' t1 r1 PLocked → at_pc c' t2 r2 PLocked → t1 = t2) ∧
  (p_locked (pipe (c_st c')) = true ↔ ∃ t r, at_pc c' t r PLocked).
Proof.
  intros I R. apply (conc_reachable_inv c c') in I; [|done].
  destruct I as [W _ Hk Hm Hf _]. split_and!; [done| |done..].
  by apply contents_bound.
Qed.

(** C5: no wake-up is lost and no call faults: in every reachable
    configuration some thread can run without the help of a signal, unless
    every call has returned or sleeps for a reason: a reader on an empty pipe,
    a writer on a full one. *)
Theorem scull_p_no_lost_wakeup c c' :
  conc_init c → steps c c' →
  (∃ t c'', step (LRun t) c' c'') ∨
  ∀ t th, c_thr c' !! t = Some th →
    (∃ r, t_pc th = PDone r) ∨ (t_pc th = PSched ∧ blocked (t_role th) (pipe (c_st c'))).
Proof.
  intros I R. apply (conc_reachable_inv c c') in I; [|done].
  set (idle := λ (_ : nat) th, match t_pc th with PDone _ | PSched => True | _ => False end).
  assert (∀ t th, Decision (idle t th)) by (intros t th; unfold idle; destruct (t_pc th); apply _).
  destruct (decide (map_Forall idle (c_thr c'))) as [Idle|Busy].
  - right. intros t th Ht. pose proof (Idle t th Ht) as D. unfold idle in D.
    destruct (t_pc th) eqn:Hp; try done; [|by eauto].
    right. split; [done|].
    destruct (ci_nolost _ I t (t_role th)) as [?|(t' & n & th' & Ht' & _ & Hp')];
      [by exists th|done|].
    specialize (Idle t' th' Ht'). unfold idle in Idle. by rewrite Hp' in Idle.
  - left. apply map_not_Forall in Busy as (t & th & Ht & N); [|apply _].
    unfold idle in N. apply (thread_runs c' t th); [done..| |]; intros; intros E;
      rewrite E in N; by apply N.
Qed.

End conc.

(** ** Witnesses *)

Section examples.

(** A blocking reader, and a writer of five bytes, on the empty pipe of four
    cells. *)
Definition two_threads : cfg bump umap :=
  Cfg s_open
    (<[0%nat := Thread Reader false 8 3 PStart]> {[1%nat := Thread Writer false 0 5 PStart]})
    [] [].

Lemma two_threads_init : conc_init two_threads.
Proof.
  split; [exact s_open_ok|]. split; [by vm_compute|]. split; [done|].
  intros t th. unfold two_threads. simpl.
  rewrite lookup_insert, lookup_singleton. repeat case_decide; intros [= <-]; simpl; lia || done.
Qed.

Definition run_to (ts : list nat) : cfg bump umap := default two_threads (exec ts two_threads).

(** The reader falls asleep; the writer writes and wakes it; it reads. *)
Definition handover := run_to [0; 0; 0; 1; 1; 1; 0; 0; 0; 0]%nat.
(** The reader sleeps and the writer, not yet at its wake-up, has written. *)
Definition pending := run_to [0; 0; 0; 1; 1]%nat.

Lemma handover_steps : steps two_threads handover.
Proof.
  apply (exec_sound [0; 0; 0; 1; 1; 1; 0; 0; 0; 0]%nat).
  - apply init_inv, two_threads_init.
  - vm_compute. reflexivity.
Qed.

Lemma pending_steps : steps two_threads pending.
Proof.
  apply (exec_sound [0; 0; 0; 1; 1]%nat).
  - apply init_inv, two_threads_init.
  - vm_compute. reflexivity.
Qed.

Lemma scull_p_concurrent_fifo_witness :
  c_got handover = Some <$> [x61; x62; x63] ∧
  c_wrote handover = c_got handover ++ contents (pipe (c_st handover)).
Proof.
  split; [vm_compute; reflexivity|].
  exact (proj1 (scull_p_concurrent_fifo two_threads handover two_threads_init handover_steps)).
Defined.

Lemma scull_p_no_lost_wakeup_witness :
  (t_pc <$> c_thr pending !! 0%nat) = Some PSched ∧
  ((∃ t c'', step (LRun t) pending c'') ∨
   ∀ t th, c_thr pending !! t = Some th →
    (∃ r, t_pc th = PDone r) ∨ (t_pc th = PSched ∧ blocked (t_role th) (pipe (c_st pending)))).
Proof.
  split; [vm_compute; reflexivity|].
  exact (scull_p_no_lost_wakeup two_threads pending two_threads_init pending_steps).
Defined.

End examples.
