(* ===== verification/ScullAccess.v ===== *)
(** The access-controlled scull devices (src/ldd/scull/access.c): scullsingle,
    sculluid, scullwuid and scullpriv.

    Each device is a bare scull device behind its own open and release.  The
    devices share the heap and the module parameters; [on_device] runs a
    function of main.c on one of them.  A section under a spinlock is one
    transition; calls that may sleep there are counted in [a_sleeps]. *)
From Stdlib Require Import ZArith Lia.
From stdpp Require Import base list gmap relations.
From S2P Require Import Prelude Kernel Scull ScullSpec.

(** ** Data *)

(** The opener: real and effective uid, and capable(CAP_DAC_OVERRIDE). *)
Record cred := Cred { cr_uid : Z; cr_euid : Z; cr_dac : bool }.

Record sngl_dev := SnglDev { sd_dev : scull_dev; scull_s_available : Z }.

(** [scull_u_device] with its count and owner; the same for [scull_w_device]. *)
Record uid_dev := UidDev { ud_dev : scull_dev; ud_count : Z; ud_owner : Z }.

Record scull_listitem := ListItem { li_loc : loc; li_key : Z; li_dev : scull_dev }.

Record acc_st (H U : Type) := AccSt {
  a_params : scull_params;
  a_heap : H;
  a_user : U;
  a_sngl : sngl_dev;
  a_u : uid_dev;
  a_w : uid_dev;
  a_wq : nat;                        (* wake-ups of scull_w_wait so far *)
  a_list : list scull_listitem;      (* scull_c_list *)
  a_sleeps : nat
}.
Arguments AccSt {H U}.
Arguments a_params {H U}.
Arguments a_heap {H U}.
Arguments a_user {H U}.
Arguments a_sngl {H U}.
Arguments a_u {H U}.
Arguments a_w {H U}.
Arguments a_wq {H U}.
Arguments a_list {H U}.
Arguments a_sleeps {H U}.

Definition zero_dev : scull_dev := ScullDev [] 0 0 0 0 false.

Section ops.
Context {H U : Type} `{KernelHeap H} `{UserMem U}.
Abbreviation st := (acc_st H U).

Definition set_aheap (h : H) (s : st) : st :=
  AccSt (a_params s) h (a_user s) (a_sngl s) (a_u s) (a_w s) (a_wq s) (a_list s) (a_sleeps s).
Definition set_sngl (x : sngl_dev) (s : st) : st :=
  AccSt (a_params s) (a_heap s) (a_user s) x (a_u s) (a_w s) (a_wq s) (a_list s) (a_sleeps s).
Definition set_u (x : uid_dev) (s : st) : st :=
  AccSt (a_params s) (a_heap s) (a_user s) (a_sngl s) x (a_w s) (a_wq s) (a_list s) (a_sleeps s).
Definition set_w (x : uid_dev) (s : st) : st :=
  AccSt (a_params s) (a_heap s) (a_user s) (a_sngl s) (a_u s) x (a_wq s) (a_list s) (a_sleeps s).
Definition set_list (x : list scull_listitem) (s : st) : st :=
  AccSt (a_params s) (a_heap s) (a_user s) (a_sngl s) (a_u s) (a_w s) (a_wq s) x (a_sleeps s).

(** scull_trim on the device [d]: its result and what it leaves of [d]. *)
Definition trim_device (d : scull_dev) : M st scull_dev := λ s,
  match scull_trim (ScullSt (a_params s) d (a_heap s) (a_user s) 0) with
  | Ret (_, s') => Ret (dev s', set_aheap (heap s') s)
  | Fault f => Fault f
  end.

(** ** scullsingle *)

Definition atomic_dec_and_test : M st bool := λ s,
  let v := s32 (scull_s_available (a_sngl s) - 1) in
  Ret (v =? 0, set_sngl (SnglDev (sd_dev (a_sngl s)) v) s).
Definition atomic_inc : M st unit := mmodify (λ s,
  set_sngl (SnglDev (sd_dev (a_sngl s)) (s32 (scull_s_available (a_sngl s) + 1))) s).

Definition scull_s_opened (f_flags : Z) : M st Z :=
  s ← mget;
  (if opened_wronly f_flags then
     d ← trim_device (sd_dev (a_sngl s));
     mmodify (λ s, set_sngl (SnglDev d (scull_s_available (a_sngl s))) s)
   else mret tt) ≫= λ _,
  mret 0.

Definition scull_s_open (f_flags : Z) : M st Z :=
  free ← atomic_dec_and_test;
  if negb free then atomic_inc ≫= λ _, mret (- EBUSY) else
  scull_s_opened f_flags.

Definition scull_s_release : M st Z := atomic_inc ≫= λ _, mret 0.

(** ** sculluid *)

(** The test of scull_u_open that lets an opener through. *)
Definition allowed (c : cred) (owner : Z) : bool :=
  (owner =? cr_uid c) || (owner =? cr_euid c) || cr_dac c.

(** The device taken by [c]: counted, and owned when it was free. *)
Definition grab (c : cred) (x : uid_dev) : uid_dev :=
  UidDev (ud_dev x) (s32 (ud_count x + 1))
    (if ud_count x =? 0 then cr_uid c else ud_owner x).

Definition scull_u_open (c : cred) (f_flags : Z) : M st Z :=
  s ← mget;
  let x := a_u s in
  if negb (ud_count x =? 0) && negb (ud_owner x =? cr_uid c) &&
     negb (ud_owner x =? cr_euid c) && negb (cr_dac c) then mret (- EBUSY)
  else
    mput (set_u (grab c x) s) ≫= λ _,
    (if opened_wronly f_flags then
       d ← trim_device (ud_dev x);
       mmodify (λ s, set_u (UidDev d (ud_count (a_u s)) (ud_owner (a_u s))) s)
     else mret tt) ≫= λ _,
    mret 0.

Definition scull_u_release : M st Z :=
  mmodify (λ s, set_u (UidDev (ud_dev (a_u s)) (s32 (ud_count (a_u s) - 1))
                         (ud_owner (a_u s))) s) ≫= λ _,
  mret 0.

(** ** scullwuid *)

Definition scull_w_available (c : cred) (s : st) : bool :=
  (ud_count (a_w s) =? 0) || (ud_owner (a_w s) =? cr_uid c) ||
  (ud_owner (a_w s) =? cr_euid c) || cr_dac c.

(** The section under scull_w_lock: [true] when the device was taken. *)
Definition scull_w_try (c : cred) : M st bool :=
  s ← mget;
  if scull_w_available c s then mput (set_w (grab c (a_w s)) s) ≫= λ _, mret true
  else mret false.

(** After the device was taken. *)
Definition scull_w_opened (f_flags : Z) : M st Z :=
  s ← mget;
  (if opened_wronly f_flags then
     d ← trim_device (ud_dev (a_w s));
     mmodify (λ s, set_w (UidDev d (ud_count (a_w s)) (ud_owner (a_w s))) s)
   else mret tt) ≫= λ _,
  mret 0.

(** How a wait ends: by a signal, or because the condition became true after
    what the others did. *)
Inductive w_wake :=
  | WSignal
  | WAvail (others : st → st).

(** [None]: still asleep when the list of wake-ups ends. *)
Fixpoint scull_w_open (c : cred) (nonblock : bool) (f_flags : Z) (ws : list w_wake)
    : M st (option Z) :=
  ok ← scull_w_try c;
  if (ok : bool) then r ← scull_w_opened f_flags; mret (Some r)
  else if nonblock then mret (Some (- EAGAIN))
  else
    match ws with
    | [] => mret None
    | WSignal :: _ => mret (Some (- ERESTARTSYS))
    | WAvail others :: ws' =>
        mmodify others ≫= λ _, scull_w_open c nonblock f_flags ws'
    end.

(** The section under scull_w_lock: [true] when the count reached zero. *)
Definition scull_w_put : M st bool :=
  mmodify (λ s, set_w (UidDev (ud_dev (a_w s)) (s32 (ud_count (a_w s) - 1))
                         (ud_owner (a_w s))) s) ≫= λ _,
  s ← mget;
  mret (ud_count (a_w s) =? 0).

Definition wake_up_w : M st unit := mmodify (λ s,
  AccSt (a_params s) (a_heap s) (a_user s) (a_sngl s) (a_u s) (a_w s) (S (a_wq s))
    (a_list s) (a_sleeps s)).

(** After the lock: whether the sleepers were woken. *)
Definition scull_w_finish (last : bool) : M st bool :=
  if last then wake_up_w ≫= λ _, mret true else mret false.

Definition scull_w_release : M st Z :=
  last ← scull_w_put;
  scull_w_finish last ≫= λ _,
  mret 0.

(** ** scullpriv *)

Fixpoint find_key (key : Z) (l : list scull_listitem) : option nat :=
  match l with
  | [] => None
  | x :: r => if li_key x =? key then Some O else S <$> find_key key r
  end.

Definition set_item_dev (i : nat) (d : scull_dev) : M st unit := mmodify (λ s,
  set_list (alter (λ x, ListItem (li_loc x) (li_key x) d) i (a_list s)) s).

(** sizeof(struct scull_listitem), which depends on the kernel's cdev. *)
Variable sizeof_listitem : Z.

(** The index of the device of [key]; the caller holds scull_c_lock, under
    which kmalloc(GFP_KERNEL) may sleep. *)
Definition scull_c_lookfor_device (key : Z) : M st (option nat) :=
  s ← mget;
  match find_key key (a_list s) with
  | Some i => mret (Some i)
  | None =>
      let '(p, h) := kmalloc sizeof_listitem (a_heap s) in
      mput (AccSt (a_params s) h (a_user s) (a_sngl s) (a_u s) (a_w s) (a_wq s) (a_list s)
              (S (a_sleeps s))) ≫= λ _,
      match p with
      | None => mret None
      | Some l =>
          d ← trim_device zero_dev;
          mmodify (λ s, set_list (ListItem l key d :: a_list s) s) ≫= λ _,
          mret (Some O)
      end
  end.

(** [tty]: tty_devnum of the controlling terminal, if there is one. *)
Definition scull_c_open (tty : option Z) (f_flags : Z) : M st Z :=
  match tty with
  | None => mret (- EINVAL)
  | Some key =>
      r ← scull_c_lookfor_device key;
      match r with
      | None => mret (- ENOMEM)
      | Some i =>
          s ← mget;
          (if opened_wronly f_flags then
             match a_list s !! i with
             | None => mfault NullDeref
             | Some x => d ← trim_device (li_dev x); set_item_dev i d
             end
           else mret tt) ≫= λ _,
          mret 0
      end
  end.

Definition scull_c_release : M st Z := mret 0.

End ops.
