(* ===== verification/ScullAccessThms.v ===== *)
(** Who gets to open the access-controlled scull devices: at most one opener
    of scullsingle, one user of sculluid and scullwuid, no opener of scullwuid
    left asleep without a reason, one private device per terminal. *)
From Stdlib Require Import ZArith Lia.
From stdpp Require Import base list gmap relations.
From S2P Require Import Prelude Kernel Scull ScullSpec ScullAccess.

(** ** Ownership of the blocks by the devices *)

Section wf.
Context {H U : Type} `{KernelHeap H} `{UserMem U}.
Abbreviation st := (acc_st H U).
Implicit Types s : st.

Definition acc_devs s : list scull_dev :=
  sd_dev (a_sngl s) :: ud_dev (a_u s) :: ud_dev (a_w s) :: (li_dev <$> a_list s).
Definition acc_locs s : list loc := (acc_devs s ≫= dev_locs) ++ (li_loc <$> a_list s).

Record acc_wf s : Prop := AccWf {
  aw_geom : geom_ok (scull_quantum (a_params s)) (scull_qset (a_params s));
  aw_devs : Forall dev_wf (acc_devs s);
  aw_nodup : NoDup (acc_locs s);
  aw_owns : ∀ l, l ∈ acc_locs s → l ∈ live (a_heap s)
}.

(** The blocks the devices do not own. *)
Definition acc_foreign s : gset loc := live (a_heap s) ∖ list_to_set (acc_locs s).

Definition fresh_dev s (d : scull_dev) : scull_dev :=
  ScullDev [] (scull_quantum (a_params s)) (scull_qset (a_params s)) 0
    (d_access_key d) (d_locked d).

Lemma fresh_dev_wf s d : acc_wf s → dev_wf (fresh_dev s d).
Proof.
  intros [G _ _ _]. split; simpl; [done|unfold LLONG_MAX; lia|constructor|constructor].
Qed.

Lemma trim_device_wp s d : dev_wf d → (∀ l, l ∈ dev_locs d → l ∈ live (a_heap s)) →
  wp (trim_device d) s (λ d' s', d' = fresh_dev s d ∧
    ∃ h', s' = set_aheap h' s ∧ live h' = live (a_heap s) ∖ list_to_set (dev_locs d)).
Proof.
  intros W O. unfold trim_device, wp.
  destruct (wp_elim _ _ _ (trim_wp (ScullSt (a_params s) d (a_heap s) (a_user s) 0) W O))
    as (r & s' & E & -> & Hl & Es).
  rewrite E, Es. split; [done|]. eexists. split; [done|]. done.
Qed.

(** Trimming one device, from the point of view of all of them. *)
Lemma acc_wf_trim s s' d rest devs h' :
  acc_wf s → acc_locs s ≡ₚ dev_locs d ++ rest → acc_locs s' ≡ₚ rest →
  acc_devs s' ≡ₚ fresh_dev s d :: devs → acc_devs s ≡ₚ d :: devs →
  a_params s' = a_params s → a_heap s' = h' →
  live h' = live (a_heap s) ∖ list_to_set (dev_locs d) →
  acc_wf s' ∧ acc_foreign s' = acc_foreign s.
Proof.
  intros W E1 E2 D2 D1 Ep Eh Hl. pose proof (fresh_dev_wf s d W). destruct W as [G Wd N O].
  rewrite E1 in N. apply NoDup_app in N as (_ & Hdis & Nr). split.
  - split.
    + by rewrite Ep.
    + rewrite D2. rewrite D1 in Wd. apply Forall_cons in Wd as [_ Wd]. by constructor.
    + by rewrite E2.
    + intros l Hx. rewrite E2 in Hx. rewrite Eh, Hl. apply elem_of_difference. split.
      * apply O. rewrite E1. set_solver.
      * rewrite elem_of_list_to_set. set_solver.
  - unfold acc_foreign. rewrite Eh, Hl, E1, E2. rewrite list_to_set_app_L.
    apply set_eq. intros x. rewrite !elem_of_difference, elem_of_union. tauto.
Qed.

(** Counts and owners are no part of the ownership. *)
Lemma acc_wf_counts s s' :
  acc_wf s → acc_devs s' = acc_devs s → a_list s' = a_list s →
  a_params s' = a_params s → a_heap s' = a_heap s →
  acc_wf s' ∧ acc_foreign s' = acc_foreign s.
Proof.
  intros [G D N O] E1 E2 E3 E4. unfold acc_foreign. split; [split|];
    unfold acc_locs in *; rewrite ?E1, ?E2, ?E3, ?E4; done.
Qed.

(** Every opener ends by trimming the device it opened for writing only. *)
Lemma s_opened_wp s f_flags : acc_wf s →
  wp (scull_s_opened f_flags) s (λ r s', r = 0 ∧ acc_wf s' ∧ acc_foreign s' = acc_foreign s ∧
    scull_s_available (a_sngl s') = scull_s_available (a_sngl s) ∧
    a_u s' = a_u s ∧ a_w s' = a_w s ∧ a_list s' = a_list s).
Proof.
  intros W. unfold scull_s_opened. wp_steps. destruct (opened_wronly f_flags); [|by wp_steps].
  wp_steps. pose proof (aw_devs _ W) as D. unfold acc_devs in D. apply Forall_cons in D as [D0 _].
  eapply wp_mono; [|apply trim_device_wp; [done|]].
  2:{ intros l Hx. apply (aw_owns _ W). unfold acc_locs, acc_devs. simpl.
      rewrite !elem_of_app. tauto. }
  intros d s1 (-> & h' & -> & Hl). wp_steps.
  set (s' := set_sngl _ _).
  destruct (acc_wf_trim s s' (sd_dev (a_sngl s))
    (dev_locs (ud_dev (a_u s)) ++ dev_locs (ud_dev (a_w s)) ++
       ((li_dev <$> a_list s) ≫= dev_locs) ++ (li_loc <$> a_list s))
    (ud_dev (a_u s) :: ud_dev (a_w s) :: (li_dev <$> a_list s)) h') as [W' F'];
    [done|..|split_and!; done]; try done; unfold acc_locs, acc_devs; simpl;
    by rewrite <- !app_assoc.
Qed.

(** What scull_u_open does once the device was taken, and its frame. *)
Lemma u_trim_wp s : acc_wf s →
  wp (d ← trim_device (ud_dev (a_u s));
      mmodify (λ s, set_u (UidDev d (ud_count (a_u s)) (ud_owner (a_u s))) s)) s
    (λ _ s', acc_wf s' ∧ acc_foreign s' = acc_foreign s ∧
      ud_count (a_u s') = ud_count (a_u s) ∧ ud_owner (a_u s') = ud_owner (a_u s) ∧
      a_sngl s' = a_sngl s ∧ a_w s' = a_w s ∧ a_list s' = a_list s).
Proof.
  intros W. wp_steps. pose proof (aw_devs _ W) as D. unfold acc_devs in D.
  apply Forall_cons in D as [_ D]. apply Forall_cons in D as [D0 _].
  eapply wp_mono; [|apply trim_device_wp; [done|]].
  2:{ intros l Hx. apply (aw_owns _ W). unfold acc_locs, acc_devs. simpl.
      rewrite !elem_of_app. tauto. }
  intros d s1 (-> & h' & -> & Hl). wp_steps.
  set (s' := set_u _ _).
  destruct (acc_wf_trim s s' (ud_dev (a_u s))
    (dev_locs (sd_dev (a_sngl s)) ++ dev_locs (ud_dev (a_w s)) ++
       ((li_dev <$> a_list s) ≫= dev_locs) ++ (li_loc <$> a_list s))
    (sd_dev (a_sngl s) :: ud_dev (a_w s) :: (li_dev <$> a_list s)) h') as [W' F'];
    [done|..|split_and!; done]; try done; unfold acc_locs, acc_devs; simpl.
  - rewrite <- !app_assoc. by rewrite Permutation_app_swap_app.
  - by rewrite <- !app_assoc.
  - apply perm_swap.
  - apply perm_swap.
Qed.

Lemma w_trim_wp s : acc_wf s →
  wp (d ← trim_device (ud_dev (a_w s));
      mmodify (λ s, set_w (UidDev d (ud_count (a_w s)) (ud_owner (a_w s))) s)) s
    (λ _ s', acc_wf s' ∧ acc_foreign s' = acc_foreign s ∧
      ud_count (a_w s') = ud_count (a_w s) ∧ ud_owner (a_w s') = ud_owner (a_w s) ∧
      a_sngl s' = a_sngl s ∧ a_u s' = a_u s ∧ a_list s' = a_list s).
Proof.
  intros W. wp_steps. pose proof (aw_devs _ W) as D. unfold acc_devs in D.
  do 2 apply Forall_cons in D as [_ D]. apply Forall_cons in D as [D0 _].
  eapply wp_mono; [|apply trim_device_wp; [done|]].
  2:{ intros l Hx. apply (aw_owns _ W). unfold acc_locs, acc_devs. simpl.
      rewrite !elem_of_app. tauto. }
  intros d s1 (-> & h' & -> & Hl). wp_steps.
  set (s' := set_w _ _).
  destruct (acc_wf_trim s s' (ud_dev (a_w s))
    (dev_locs (sd_dev (a_sngl s)) ++ dev_locs (ud_dev (a_u s)) ++
       ((li_dev <$> a_list s) ≫= dev_locs) ++ (li_loc <$> a_list s))
    (sd_dev (a_sngl s) :: ud_dev (a_u s) :: (li_dev <$> a_list s)) h') as [W' F'];
    [done|..|split_and!; done]; try done; unfold acc_locs, acc_devs; simpl.
  - rewrite <- !app_assoc. rewrite (Permutation_app_swap_app (dev_locs (ud_dev (a_u s)))).
    by rewrite Permutation_app_swap_app.
  - by rewrite <- !app_assoc.
  - etrans; [apply perm_skip, perm_swap|apply perm_swap].
  - etrans; [apply perm_skip, perm_swap|apply perm_swap].
Qed.

End wf.

(** ** scullsingle: any number of processes race for the device *)

Inductive s_pc :=
  | SIdle
  | SFailing    (* decremented, found the device taken, not yet incremented *)
  | SHeld.      (* open returned 0, or is about to *)
#[export] Instance s_pc_eq_dec : EqDecision s_pc.
Proof. solve_decision. Defined.

Definition is_held (p : s_pc) : bool := match p with SHeld => true | _ => false end.
Definition is_failing (p : s_pc) : bool := match p with SFailing => true | _ => false end.

Section single.
Context {H U : Type} `{KernelHeap H} `{UserMem U}.
Abbreviation st := (acc_st H U).
Implicit Types s : st.

(** scull_s_open and scull_s_release cut where another process can run. *)
Inductive s_step : relation (list s_pc * st) :=
  | ss_dec ps s i b s' : ps !! i = Some SIdle → atomic_dec_and_test s = Ret (b, s') →
      s_step (ps, s) (<[i := if (b : bool) then SHeld else SFailing]> ps, s')
  | ss_inc ps s i s' : ps !! i = Some SFailing → atomic_inc s = Ret (tt, s') →
      s_step (ps, s) (<[i := SIdle]> ps, s')
  | ss_opened ps s i f_flags r s' : ps !! i = Some SHeld →
      scull_s_opened f_flags s = Ret (r, s') → s_step (ps, s) (ps, s')
  | ss_release ps s i r s' : ps !! i = Some SHeld → scull_s_release s = Ret (r, s') →
      s_step (ps, s) (<[i := SIdle]> ps, s').

Definition s_inv (c : list s_pc * st) : Prop :=
  acc_wf c.2 ∧ Z.of_nat (length c.1) <= INT_MAX ∧
  scull_s_available (a_sngl c.2) = 1 - cnt is_held c.1 - cnt is_failing c.1 ∧
  cnt is_held c.1 <= 1.

Lemma acc_wf_avail s v : acc_wf s → acc_wf (set_sngl (SnglDev (sd_dev (a_sngl s)) v) s).
Proof. intros W. by apply (acc_wf_counts s). Qed.

Lemma s_step_inv c c' : s_step c c' → s_inv c → s_inv c'.
Proof.
  intros Hs. destruct Hs as [ps s i b s' Hi E|ps s i s' Hi E|ps s i f r s' Hi E|ps s i r s' Hi E];
    intros (W & Hlen & Ha & Hh); simpl in *; unfold INT_MAX in *;
    pose proof (cnt_range is_held ps); pose proof (cnt_range is_failing ps);
    assert (cnt is_held ps + cnt is_failing ps <= Z.of_nat (length ps)) by
      (apply cnt_disjoint; by intros []).
  - unfold atomic_dec_and_test in E. rewrite s32_id in E by (unfold INT_MAX; lia).
    injection E as <- <-. unfold s_inv. simpl. rewrite length_insert.
    rewrite !(cnt_insert _ ps i _ _ Hi). split_and!; [by apply acc_wf_avail|done|..];
      destruct (Z.eqb_spec (scull_s_available (a_sngl s) - 1) 0); simpl; lia.
  - unfold atomic_inc, mmodify in E. rewrite s32_id in E by (unfold INT_MAX; lia).
    injection E as <-. unfold s_inv. simpl. rewrite length_insert.
    rewrite !(cnt_insert _ ps i _ _ Hi). split_and!; [by apply acc_wf_avail|done|..];
      simpl; lia.
  - destruct (wp_run _ _ _ _ _ (s_opened_wp s f W) E) as (_ & W' & _ & Ea & _).
    unfold s_inv. simpl. rewrite Ea. done.
  - unfold scull_s_release, atomic_inc, mmodify, mbind, M_bind, mret, M_ret in E.
    rewrite s32_id in E by (unfold INT_MAX; lia). injection E as <- <-.
    unfold s_inv. simpl. rewrite length_insert.
    rewrite !(cnt_insert _ ps i _ _ Hi). split_and!; [by apply acc_wf_avail|done|..];
      simpl; lia.
Qed.

Lemma s_reachable_inv c c' : rtc s_step c c' → s_inv c → s_inv c'.
Proof. induction 1; eauto using s_step_inv. Qed.

(** C21: however at most INT_MAX openers of scullsingle, all idle at first,
    interleave, at most one of them holds the device; the counter is one less
    the holders less the openers that have yet to undo their decrement; and when
    nobody holds the device and no opener has a decrement to undo, an open
    succeeds and takes the counter to zero. *)
Theorem scull_s_exclusive ps0 s0 ps s :
  acc_wf s0 → scull_s_available (a_sngl s0) = 1 → Z.of_nat (length ps0) <= INT_MAX →
  Forall (SIdle =.) ps0 → rtc s_step (ps0, s0) (ps, s) →
  cnt is_held ps <= 1 ∧
  scull_s_available (a_sngl s) = 1 - cnt is_held ps - cnt is_failing ps ∧
  (cnt is_held ps = 0 → cnt is_failing ps = 0 → ∀ f_flags,
     wp (scull_s_open f_flags) s (λ r s', r = 0 ∧ scull_s_available (a_sngl s') = 0)).
Proof.
  intros W A L F R.
  assert (cnt is_held ps0 = 0 ∧ cnt is_failing ps0 = 0) as [Z1 Z2].
  { split; apply cnt_zero; (eapply Forall_impl; [exact F|]); by intros ? <-. }
  assert (I : s_inv (ps, s)).
  { apply (s_reachable_inv _ _ R). split_and!; [done|done|..]; simpl;
      rewrite ?Z1, ?Z2; lia. }
  destruct I as (W' & _ & Ha & Hh). split_and!; [done|done|]. simpl in *.
  intros E1 E2 f. rewrite E1, E2 in Ha. unfold scull_s_open. apply wp_bind.
  unfold atomic_dec_and_test, wp at 1. rewrite Ha. simpl.
  eapply wp_mono; [|apply s_opened_wp; by apply acc_wf_avail].
  intros r s' (-> & _ & _ & -> & _). done.
Qed.

End single.

(** ** sculluid: histories of opens and closes *)

Section uid.
Context {H U : Type} `{KernelHeap H} `{UserMem U}.
Abbreviation st := (acc_st H U).
Implicit Types s : st.

(** [hs]: the credentials of the files that are open. *)
Inductive u_step : relation (list cred * st) :=
  | us_open hs s c f_flags r s' : Z.of_nat (length hs) < INT_MAX →
      scull_u_open c f_flags s = Ret (r, s') →
      u_step (hs, s) ((if r =? 0 then c :: hs else hs), s')
  | us_release hs1 c hs2 s r s' : scull_u_release s = Ret (r, s') →
      u_step (hs1 ++ c :: hs2, s) (hs1 ++ hs2, s').

Definition u_inv (hs : list cred) s : Prop :=
  acc_wf s ∧ ud_count (a_u s) = Z.of_nat (length hs) ∧ Z.of_nat (length hs) <= INT_MAX ∧
  Forall (λ c, allowed c (ud_owner (a_u s)) = true) hs.

Lemma allowed_self c : allowed c (cr_uid c) = true.
Proof. unfold allowed. by rewrite Z.eqb_refl. Qed.

(** The credentials that may open the device when [hs] hold it. *)
Definition may_open (hs : list cred) s (c : cred) : bool :=
  match hs with [] => true | _ => allowed c (ud_owner (a_u s)) end.

Lemma u_open_wp hs s c f_flags : u_inv hs s → Z.of_nat (length hs) < INT_MAX →
  wp (scull_u_open c f_flags) s (λ r s',
    if may_open hs s c then r = 0 ∧ u_inv (c :: hs) s' ∧ acc_foreign s' = acc_foreign s ∧
      ud_owner (a_u s') = (match hs with [] => cr_uid c | _ => ud_owner (a_u s) end)
    else r = - EBUSY ∧ s' = s).
Proof.
  intros (W & Hc & Hl & Hf) Hlt. unfold scull_u_open. wp_steps. rewrite Hc.
  set (refused := _ && negb (cr_dac c)).
  assert (refused = negb (may_open hs s c)) as ->.
  { unfold refused, may_open, allowed. destruct hs as [|h hs]; [done|].
    rewrite (proj2 (Z.eqb_neq _ 0)) by (simpl; lia). simpl.
    by destruct (_ =? cr_uid c), (_ =? cr_euid c), (cr_dac c). }
  destruct (may_open hs s c) eqn:Em; simpl; [|by wp_steps].
  wp_step. wp_step. set (s1 := set_u (grab c (a_u s)) s).
  destruct (acc_wf_counts s s1) as [W1 F1]; [done..|].
  assert (Ho : ud_owner (a_u s1) = match hs with [] => cr_uid c | _ => ud_owner (a_u s) end).
  { simpl. rewrite Hc. by destruct hs. }
  assert (I1 : u_inv (c :: hs) s1).
  { split_and!; [done| |simpl in *; lia|].
    - simpl. rewrite Hc, s32_id by (unfold INT_MAX in *; lia). lia.
    - rewrite Ho. destruct hs; (constructor; [|done]); [apply allowed_self|done]. }
  destruct (opened_wronly f_flags); [|by wp_steps].
  wp_step. eapply wp_mono; [|exact (u_trim_wp s1 W1)]. intros _ s' (W' & F' & Ec & Eo & _). wp_step. split; [done|].
  destruct I1 as (_ & C1 & L1 & A1). unfold u_inv. rewrite Ec, Eo, F', F1. done.
Qed.

Lemma u_step_inv c c' : u_step c c' → u_inv c.1 c.2 → u_inv c'.1 c'.2.
Proof.
  intros [hs s c0 f r s' Hl E|hs1 c0 hs2 s r s' E] I; simpl in *.
  - pose proof (wp_run _ _ _ _ _ (u_open_wp hs s c0 f I Hl) E) as P. simpl in P.
    destruct (may_open hs s c0); [by destruct P as (-> & ? & _)|].
    by destruct P as (-> & ->).
  - destruct I as (W & Hc & Hl & Hf). unfold scull_u_release, mmodify, mbind, M_bind, mret, M_ret in E.
    injection E as <- <-. split_and!.
    + by apply (acc_wf_counts s).
    + simpl. rewrite Hc. len. simpl. rewrite s32_id by (unfold INT_MAX in *; len; simpl in *; lia). lia.
    + len. simpl in *. lia.
    + simpl. apply Forall_app in Hf as [? Hf]. apply Forall_cons in Hf as [_ ?].
      by apply Forall_app.
Qed.

(** C22: over any history of opens and closes of sculluid, the count is the
    number of open files, every one of them was opened by the owner's uid or
    euid or by a privileged process, and the next open succeeds exactly for
    those (anyone when nobody has it open), refusing the others with -EBUSY
    and no effect. *)
Theorem scull_u_policy s0 hs s :
  acc_wf s0 → ud_count (a_u s0) = 0 → rtc u_step ([], s0) (hs, s) →
  ud_count (a_u s) = Z.of_nat (length hs) ∧
  Forall (λ c, allowed c (ud_owner (a_u s)) = true) hs ∧
  ∀ c f_flags, Z.of_nat (length hs) < INT_MAX →
    wp (scull_u_open c f_flags) s (λ r s',
      if may_open hs s c then r = 0 ∧ ud_count (a_u s') = Z.of_nat (length hs) + 1 ∧
        ud_owner (a_u s') = (match hs with [] => cr_uid c | _ => ud_owner (a_u s) end)
      else r = - EBUSY ∧ s' = s).
Proof.
  intros W C R.
  assert (I : u_inv hs s).
  { assert (G : ∀ x y, rtc u_step x y → u_inv x.1 x.2 → u_inv y.1 y.2)
      by (induction 1; eauto using u_step_inv).
    apply (G _ _ R). split_and!; simpl; [done|by rewrite C|unfold INT_MAX; lia|constructor]. }
  split_and!; [apply I|apply I|]. intros c f Hl.
  eapply wp_mono; [|by apply (u_open_wp hs)]. intros r s'. simpl.
  destruct (may_open hs s c); [|done]. intros (-> & (_ & Ec & _) & _ & ->).
  rewrite Ec. simpl. split_and!; [done|lia|done].
Qed.

End uid.

(** ** scullwuid: openers that block *)

Inductive w_pc :=
  | WStart           (* before spin_lock *)
  | WPrep            (* on scull_w_wait, before testing the condition *)
  | WSched           (* asleep *)
  | WWoken           (* the condition held; before spin_lock *)
  | WHeld            (* the device is open *)
  | WLast            (* closed it as the last one, before the end of the close *)
  | WDone (r : Z).

Record w_thread := WThread { wt_cred : cred; wt_nonblock : bool; wt_pc : w_pc }.
Definition w_set (t : w_thread) (p : w_pc) : w_thread :=
  WThread (wt_cred t) (wt_nonblock t) p.
Definition holds (t : w_thread) : bool := match wt_pc t with WHeld => true | _ => false end.
Lemma holds_set t p : holds (w_set t p) = match p with WHeld => true | _ => false end.
Proof. done. Qed.
Definition w_wake_thread (t : w_thread) : w_thread :=
  match wt_pc t with WSched => w_set t WPrep | _ => t end.

Section wuid.
Context {H U : Type} `{KernelHeap H} `{UserMem U}.
Abbreviation st := (acc_st H U).
Implicit Types s : st.

Inductive w_step : relation (list w_thread * st) :=
  | ws_try ts s i t b s' : ts !! i = Some t → wt_pc t = WStart ∨ wt_pc t = WWoken →
      scull_w_try (wt_cred t) s = Ret (b, s') →
      w_step (ts, s)
        (<[i := w_set t (if (b : bool) then WHeld
                         else if wt_nonblock t then WDone (- EAGAIN) else WPrep)]> ts, s')
  | ws_check ts s i t : ts !! i = Some t → wt_pc t = WPrep →
      w_step (ts, s)
        (<[i := w_set t (if scull_w_available (wt_cred t) s then WWoken else WSched)]> ts, s)
  | ws_signal ts s i t : ts !! i = Some t → wt_pc t = WPrep ∨ wt_pc t = WSched →
      w_step (ts, s) (<[i := w_set t (WDone (- ERESTARTSYS))]> ts, s)
  | ws_opened ts s i t f_flags r s' : ts !! i = Some t → wt_pc t = WHeld →
      scull_w_opened f_flags s = Ret (r, s') → w_step (ts, s) (ts, s')
  | ws_put ts s i t b s' : ts !! i = Some t → wt_pc t = WHeld →
      scull_w_put s = Ret (b, s') →
      w_step (ts, s) (<[i := w_set t (if (b : bool) then WLast else WDone 0)]> ts, s')
  | ws_wake ts s i t woken s' : ts !! i = Some t → wt_pc t = WLast →
      scull_w_finish true s = Ret (woken, s') →
      w_step (ts, s)
        ((if (woken : bool) then w_wake_thread else id) <$> (<[i := w_set t (WDone 0)]> ts), s').

Record w_inv (ts : list w_thread) s : Prop := WInv {
  wi_wf : acc_wf s;
  wi_few : Z.of_nat (length ts) <= INT_MAX;
  wi_count : ud_count (a_w s) = cnt holds ts;
  wi_owner : ∀ i t, ts !! i = Some t → wt_pc t = WHeld →
    allowed (wt_cred t) (ud_owner (a_w s)) = true;
  wi_nolost : ∀ i t, ts !! i = Some t → wt_pc t = WSched →
    scull_w_available (wt_cred t) s = false ∨ ∃ j t', ts !! j = Some t' ∧ wt_pc t' = WLast
}.

Lemma available_allowed c s :
  scull_w_available c s = (ud_count (a_w s) =? 0) || allowed c (ud_owner (a_w s)).
Proof. unfold scull_w_available, allowed. by rewrite !orb_assoc. Qed.

(** A thread that is not at [WLast] moves: pending wake-ups stay. *)
Lemma last_insert (ts : list w_thread) i t p : ts !! i = Some t → wt_pc t ≠ WLast →
  (∃ j t', ts !! j = Some t' ∧ wt_pc t' = WLast) →
  ∃ j t', <[i := w_set t p]> ts !! j = Some t' ∧ wt_pc t' = WLast.
Proof.
  intros Hi N (j & t' & Hj & Hp). exists j, t'. split; [|done].
  rewrite list_lookup_insert_ne; [done|]. intros ->. congruence.
Qed.

Lemma lookup_moved (ts : list w_thread) i t p j t' :
  ts !! i = Some t → <[i := w_set t p]> ts !! j = Some t' →
  (j = i ∧ t' = w_set t p) ∨ (j ≠ i ∧ ts !! j = Some t').
Proof.
  intros Hi. destruct (decide (i = j)) as [->|N].
  - rewrite list_lookup_insert_eq by (by eapply lookup_lt_Some). intros [= <-]. auto.
  - rewrite list_lookup_insert_ne by done. auto.
Qed.

Lemma w_try_inv ts s i t b s' : ts !! i = Some t →
  wt_pc t = WStart ∨ wt_pc t = WWoken → scull_w_try (wt_cred t) s = Ret (b, s') →
  w_inv ts s →
  w_inv (<[i := w_set t (if (b : bool) then WHeld
                         else if wt_nonblock t then WDone (- EAGAIN) else WPrep)]> ts) s'.
Proof.
  intros Hi Hp E [W F C O N].
  assert (Nh : holds t = false) by (unfold holds; by destruct Hp as [-> | ->]).
  assert (Nl : wt_pc t ≠ WLast) by (by destruct Hp as [-> | ->]).
  pose proof (cnt_range holds ts) as R.
  unfold scull_w_try, mbind, M_bind, mget in E.
  destruct (scull_w_available (wt_cred t) s) eqn:A.
  - injection E as <- <-.
    assert (Lt : cnt holds ts < Z.of_nat (length ts)).
    { pose proof (cnt_insert holds ts i t (w_set t WHeld) Hi) as E1. rewrite Nh in E1.
      simpl in E1. pose proof (cnt_range holds (<[i:=w_set t WHeld]> ts)) as R1.
      rewrite length_insert in R1. lia. }
    assert (Eo : ud_count (a_w s) ≠ 0 → ud_owner (grab (wt_cred t) (a_w s)) = ud_owner (a_w s)).
    { intros Nz. simpl. by rewrite (proj2 (Z.eqb_neq _ 0) Nz). }
    rewrite available_allowed in A. split.
    + by apply (acc_wf_counts s).
    + by rewrite length_insert.
    + simpl. rewrite (cnt_insert _ _ _ _ _ Hi), Nh, C, s32_id by (unfold INT_MAX in *; lia).
      simpl. lia.
    + intros j t' Hj Hp'. destruct (lookup_moved _ _ _ _ _ _ Hi Hj) as [(-> & ->)|(Nj & Hj')].
      * simpl. destruct (Z.eqb_spec (ud_count (a_w s)) 0); [apply allowed_self|done].
      * pose proof (cnt_lookup holds ts j t' Hj') as P. unfold holds in P at 1.
        rewrite Hp' in P. specialize (P eq_refl).
        change (allowed (wt_cred t') (ud_owner (grab (wt_cred t) (a_w s))) = true).
        rewrite Eo by lia. by apply (O j).
    + intros j t' Hj Hp'. destruct (lookup_moved _ _ _ _ _ _ Hi Hj) as [(-> & ->)|(Nj & Hj')];
        [done|].
      destruct (N j t' Hj' Hp') as [A'|Q]; [left|right; by apply last_insert].
      rewrite available_allowed in *. apply orb_false_iff in A' as [Z0 A'].
      apply Z.eqb_neq in Z0.
      change ((s32 (ud_count (a_w s) + 1) =? 0) ||
        allowed (wt_cred t') (ud_owner (grab (wt_cred t) (a_w s))) = false).
      rewrite Eo, A' by done. rewrite s32_id by (unfold INT_MAX in *; lia).
      by rewrite (proj2 (Z.eqb_neq _ 0)) by lia.
  - injection E as <- <-. split.
    + done.
    + by rewrite length_insert.
    + rewrite (cnt_insert _ _ _ _ _ Hi), Nh, C, holds_set.
      destruct (wt_nonblock t); simpl; lia.
    + intros j t' Hj Hp'. destruct (lookup_moved _ _ _ _ _ _ Hi Hj) as [(-> & ->)|(Nj & Hj')];
        [by destruct (wt_nonblock t)|by apply (O j)].
    + intros j t' Hj Hp'. destruct (lookup_moved _ _ _ _ _ _ Hi Hj) as [(-> & ->)|(Nj & Hj')];
        [by destruct (wt_nonblock t)|].
      destruct (N j t' Hj' Hp') as [A'|Q]; [by left|right; by apply last_insert].
Qed.

(** Steps that move one thread outside the device and change nothing else. *)
Lemma w_quiet_inv ts s i t p : ts !! i = Some t → wt_pc t = WPrep ∨ wt_pc t = WSched →
  p ≠ WHeld → (p = WSched → scull_w_available (wt_cred t) s = false) →
  w_inv ts s → w_inv (<[i := w_set t p]> ts) s.
Proof.
  intros Hi Hp N1 N2 [W F C O N].
  assert (Nh : holds t = false) by (unfold holds; by destruct Hp as [-> | ->]).
  assert (Nl : wt_pc t ≠ WLast) by (by destruct Hp as [-> | ->]).
  split; [done|by rewrite length_insert| | |].
  - rewrite (cnt_insert _ _ _ _ _ Hi), Nh, C, holds_set. destruct p; simpl; lia || done.
  - intros j t' Hj Hp'. destruct (lookup_moved _ _ _ _ _ _ Hi Hj) as [(-> & ->)|(Nj & Hj')];
      [done|by apply (O j)].
  - intros j t' Hj Hp'. destruct (lookup_moved _ _ _ _ _ _ Hi Hj) as [(-> & ->)|(Nj & Hj')].
    + left. by apply N2.
    + destruct (N j t' Hj' Hp') as [A'|Q]; [by left|right; by apply last_insert].
Qed.

Lemma w_put_inv ts s i t b s' : ts !! i = Some t → wt_pc t = WHeld →
  scull_w_put s = Ret (b, s') → w_inv ts s →
  w_inv (<[i := w_set t (if (b : bool) then WLast else WDone 0)]> ts) s'.
Proof.
  intros Hi Hp E [W F C O N].
  assert (Hh : holds t = true) by (unfold holds; by rewrite Hp).
  pose proof (cnt_lookup holds ts i t Hi Hh). pose proof (cnt_range holds ts).
  unfold scull_w_put, mbind, M_bind, mget, mmodify, mret, M_ret in E. simpl in E.
  rewrite C, s32_id in E by (unfold INT_MAX in *; lia). injection E as <- <-.
  assert (Nl : wt_pc t ≠ WLast) by congruence.
  split.
  - by apply (acc_wf_counts s).
  - by rewrite length_insert.
  - simpl. rewrite (cnt_insert _ _ _ _ _ Hi), Hh, holds_set.
    destruct (_ =? 0); simpl; lia.
  - intros j t' Hj Hp'. destruct (lookup_moved _ _ _ _ _ _ Hi Hj) as [(-> & ->)|(Nj & Hj')];
      [by destruct (_ =? 0)|by apply (O j)].
  - intros j t' Hj Hp'. destruct (lookup_moved _ _ _ _ _ _ Hi Hj) as [(-> & ->)|(Nj & Hj')];
      [by destruct (_ =? 0)|].
    destruct (Z.eqb_spec (cnt holds ts - 1) 0) as [E0|E0].
    + right. exists i, (w_set t WLast). split; [|done].
      apply list_lookup_insert_eq. by eapply lookup_lt_Some.
    + destruct (N j t' Hj' Hp') as [A'|Q]; [left|right; by apply last_insert].
      rewrite available_allowed in *. simpl. apply orb_false_iff in A' as [_ ->].
      by rewrite (proj2 (Z.eqb_neq _ 0)) by lia.
Qed.

Lemma holds_wake t : holds (w_wake_thread t) = holds t.
Proof. unfold holds, w_wake_thread. by destruct (wt_pc t) eqn:E; simpl; rewrite ?E. Qed.

Lemma w_wake_inv ts s i t s' : ts !! i = Some t → wt_pc t = WLast →
  wake_up_w s = Ret (tt, s') → w_inv ts s →
  w_inv (w_wake_thread <$> (<[i := w_set t (WDone 0)]> ts)) s'.
Proof.
  intros Hi Hp E [W F C O N].
  unfold wake_up_w, mmodify in E. injection E as <-.
  assert (Hh : holds t = false) by (unfold holds; by rewrite Hp).
  split.
  - by apply (acc_wf_counts s).
  - by rewrite length_fmap, length_insert.
  - simpl. rewrite cnt_fmap, (cnt_ext _ holds) by apply holds_wake.
    rewrite (cnt_insert _ _ _ _ _ Hi), Hh, C. simpl. lia.
  - intros j t' Hj Hp'. rewrite list_lookup_fmap in Hj.
    apply fmap_Some in Hj as (t0 & Hj & ->).
    assert (wt_pc t0 = WHeld ∧ wt_cred (w_wake_thread t0) = wt_cred t0) as [Hp0 ->].
    { unfold w_wake_thread in *. destruct (wt_pc t0) eqn:E0; simpl in *; try done; congruence. }
    destruct (lookup_moved _ _ _ _ _ _ Hi Hj) as [(-> & ->)|(Nj & Hj')]; [done|by apply (O j)].
  - intros j t' Hj Hp'. rewrite list_lookup_fmap in Hj.
    apply fmap_Some in Hj as (t0 & Hj & ->). exfalso.
    unfold w_wake_thread in *. destruct (wt_pc t0) eqn:E0; simpl in *; congruence.
Qed.

Lemma w_step_inv c c' : w_step c c' → w_inv c.1 c.2 → w_inv c'.1 c'.2.
Proof.
  intros Hs I. destruct Hs as [ts s i t b s' Hi Hp E|ts s i t Hi Hp|ts s i t Hi Hp
    |ts s i t f r s' Hi Hp E|ts s i t b s' Hi Hp E|ts s i t woken s' Hi Hp E]; simpl in *.
  - by apply (w_try_inv ts s).
  - destruct (scull_w_available (wt_cred t) s) eqn:A; apply w_quiet_inv; auto; done.
  - by apply w_quiet_inv.
  - destruct I as [W F C O N].
    assert (P : a_w s' = a_w s ∧ acc_wf s' ∨ acc_wf s' ∧
      ud_count (a_w s') = ud_count (a_w s) ∧ ud_owner (a_w s') = ud_owner (a_w s)).
    { unfold scull_w_opened, mbind, M_bind, mget in E. cbv zeta in E.
      destruct (opened_wronly f); [|injection E as <- <-; by left].
      pose proof (w_trim_wp s W) as P. unfold wp, mbind, M_bind in P.
      destruct (trim_device _ _) as [[d s1]|]; [|done]. unfold mmodify, mret, M_ret in *.
      injection E as <- <-. right. naive_solver. }
    assert (acc_wf s' ∧ ud_count (a_w s') = ud_count (a_w s) ∧
      ud_owner (a_w s') = ud_owner (a_w s)) as (W' & Ec & Eo) by (destruct P as [[-> ?]|?]; done).
    split; try done; [by rewrite Ec|by rewrite Eo|].
    intros j t' Hj Hp'. rewrite available_allowed, Ec, Eo, <- available_allowed. by apply (N j).
  - by apply (w_put_inv ts s).
  - apply bind_inv in E as ([] & s1 & E1 & [= <- <-]). by apply (w_wake_inv ts s _ t).
Qed.

(** C20: however the openers and closers of scullwuid interleave, the count is
    the number of holders, all of them are allowed by the owner, and an opener
    sleeps only while the device is really unavailable to it or the wake-up of
    the last closer is still to come. *)
Theorem scull_w_no_lost_wakeup ts0 s0 ts s :
  acc_wf s0 → ud_count (a_w s0) = 0 → Z.of_nat (length ts0) <= INT_MAX →
  Forall (λ t, wt_pc t = WStart) ts0 → rtc w_step (ts0, s0) (ts, s) →
  ud_count (a_w s) = cnt holds ts ∧
  (∀ i t, ts !! i = Some t → wt_pc t = WHeld →
    allowed (wt_cred t) (ud_owner (a_w s)) = true) ∧
  (∀ i t, ts !! i = Some t → wt_pc t = WSched →
    scull_w_available (wt_cred t) s = false ∨ ∃ j t', ts !! j = Some t' ∧ wt_pc t' = WLast).
Proof.
  intros W C L F R.
  assert (G : ∀ x y, rtc w_step x y → w_inv x.1 x.2 → w_inv y.1 y.2)
    by (induction 1; eauto using w_step_inv).
  destruct (G _ _ R) as [_ _ ? ? ?]; [|done].
  split; simpl; [done|done| |..].
  - rewrite C. symmetry. apply cnt_zero. eapply Forall_impl; [exact F|].
    intros t E. unfold holds. by rewrite E.
  - intros i t Hi Hp. rewrite Forall_lookup in F. rewrite (F i t Hi) in Hp. done.
  - intros i t Hi Hp. rewrite Forall_lookup in F. rewrite (F i t Hi) in Hp. done.
Qed.

End wuid.

(** ** scullpriv: a private device per terminal *)

Definition c_keys (l : list scull_listitem) : list Z := li_key <$> l.

(** The device of [key]. *)
Fixpoint c_dev (key : Z) (l : list scull_listitem) : option scull_dev :=
  match l with
  | [] => None
  | x :: r => if li_key x =? key then Some (li_dev x) else c_dev key r
  end.

Lemma find_key_none key l : find_key key l = None → (key ∉ c_keys l) ∧ c_dev key l = None.
Proof.
  induction l as [|x l IH]; simpl; [intros _; split; [set_solver|done]|].
  destruct (Z.eqb_spec (li_key x) key) as [E|E]; [done|].
  destruct (find_key key l); [done|]. intros _. destruct IH as [IH1 IH2]; [done|].
  split; [|done]. rewrite not_elem_of_cons. auto.
Qed.

Lemma find_key_some key l i : find_key key l = Some i →
  ∃ x, l !! i = Some x ∧ li_key x = key ∧ c_dev key l = Some (li_dev x) ∧
    ∀ d k, c_dev k (alter (λ x, ListItem (li_loc x) (li_key x) d) i l) =
           if k =? key then Some d else c_dev k l.
Proof.
  revert i. induction l as [|x l IH]; simpl; [done|]. intros i.
  destruct (Z.eqb_spec (li_key x) key) as [E|E].
  - intros [= <-]. exists x. split_and!; [done..|]. intros d k. simpl. rewrite E.
    rewrite (Z.eqb_sym key). by destruct (k =? key).
  - intros (j & Hj & ->)%fmap_Some. destruct (IH j Hj) as (y & Hy & Ky & Dy & A).
    exists y. split_and!; [done..|]. intros d k.
    change (alter ?f (S j) (x :: l)) with (x :: alter f j l). simpl. rewrite A.
    destruct (Z.eqb_spec (li_key x) k), (Z.eqb_spec k key); congruence.
Qed.

Section priv.
Context {H U : Type} `{KernelHeap H} `{UserMem U}.
Abbreviation st := (acc_st H U).
Implicit Types s : st.

Lemma acc_wf_item s l h' key d n : acc_wf s → dev_wf d → dev_locs d = [] →
  (l ∉ live (a_heap s)) → live h' = {[l]} ∪ live (a_heap s) →
  let s' := AccSt (a_params s) h' (a_user s) (a_sngl s) (a_u s) (a_w s) (a_wq s)
              (ListItem l key d :: a_list s) n in
  acc_wf s' ∧ acc_foreign s' = acc_foreign s.
Proof.
  intros [G D N O] Wd Ed Hf Hl s'.
  assert (EL : acc_locs s' ≡ₚ l :: acc_locs s).
  { unfold acc_locs, acc_devs. simpl. rewrite Ed. simpl.
    rewrite <- !Permutation_middle. done. }
  split; [split|].
  - done.
  - unfold acc_devs in *. simpl. rewrite !Forall_cons in *. naive_solver.
  - rewrite EL. apply NoDup_cons. split; [|done]. intros Hx. by apply Hf, O.
  - intros x Hx. rewrite EL in Hx. simpl. rewrite Hl. set_solver.
  - unfold acc_foreign. rewrite EL. simpl. rewrite Hl. set_solver.
Qed.

Lemma item_trim_wp s i x : acc_wf s → a_list s !! i = Some x →
  wp (d ← trim_device (li_dev x); set_item_dev i d) s (λ _ s',
    acc_wf s' ∧ acc_foreign s' = acc_foreign s ∧
    a_list s' = alter (λ y, ListItem (li_loc y) (li_key y) (fresh_dev s (li_dev x))) i (a_list s) ∧
    a_sleeps s' = a_sleeps s).
Proof.
  intros W Hi. apply list_elem_of_split_length in Hi as (l1 & l2 & El & ->).
  pose proof (aw_devs _ W) as D. unfold acc_devs in D. rewrite El in D.
  do 3 apply Forall_cons in D as [_ D]. rewrite fmap_app in D.
  apply Forall_app in D as [_ D]. apply Forall_cons in D as [D _].
  assert (EL : acc_locs s ≡ₚ dev_locs (li_dev x) ++
    ((sd_dev (a_sngl s) :: ud_dev (a_u s) :: ud_dev (a_w s) :: (li_dev <$> l1 ++ l2)) ≫= dev_locs)
    ++ (li_loc <$> l1 ++ x :: l2)).
  { unfold acc_locs, acc_devs. rewrite El, !fmap_app, !fmap_cons. simpl.
    rewrite !bind_app. simpl. rewrite <- !app_assoc.
    rewrite (Permutation_app_swap_app ((li_dev <$> l1) ≫= dev_locs)).
    rewrite (Permutation_app_swap_app (dev_locs (ud_dev (a_w s)))).
    rewrite (Permutation_app_swap_app (dev_locs (ud_dev (a_u s)))).
    by rewrite (Permutation_app_swap_app (dev_locs (sd_dev (a_sngl s)))). }
  apply wp_bind. eapply wp_mono; [|apply trim_device_wp; [done|]].
  2:{ intros l Hx. apply (aw_owns _ W). rewrite EL, elem_of_app. auto. }
  intros d s1 (-> & h' & -> & Hl). unfold set_item_dev. wp_step. set (s' := set_list _ _).
  assert (Ea : a_list s' = l1 ++ ListItem (li_loc x) (li_key x) (fresh_dev s (li_dev x)) :: l2).
  { simpl. rewrite El. rewrite alter_app_r_alt, Nat.sub_diag by lia. done. }
  destruct (acc_wf_trim s s' (li_dev x)
    (((sd_dev (a_sngl s) :: ud_dev (a_u s) :: ud_dev (a_w s) :: (li_dev <$> l1 ++ l2)) ≫= dev_locs)
    ++ (li_loc <$> l1 ++ x :: l2))
    (sd_dev (a_sngl s) :: ud_dev (a_u s) :: ud_dev (a_w s) :: (li_dev <$> l1 ++ l2)) h')
    as [W' F']; [done|done|..|split_and!; done]; try done.
  - unfold acc_locs, acc_devs. rewrite Ea, !fmap_app, !fmap_cons. simpl.
    rewrite !bind_app. done.
  - unfold acc_devs. rewrite Ea, !fmap_app, fmap_cons. simpl.
    rewrite <- Permutation_middle. symmetry.
    exact (Permutation_middle [sd_dev (a_sngl s); ud_dev (a_u s); ud_dev (a_w s)] _ _).
  - unfold acc_devs. rewrite El, !fmap_app, fmap_cons. simpl.
    rewrite <- Permutation_middle. symmetry.
    exact (Permutation_middle [sd_dev (a_sngl s); ud_dev (a_u s); ud_dev (a_w s)] _ _).
Qed.

(** What scull_c_open makes of the device of its terminal. *)
Definition c_opened s (f_flags : Z) (old : option scull_dev) : scull_dev :=
  match old with
  | None => fresh_dev s zero_dev
  | Some d => if opened_wronly f_flags then fresh_dev s d else d
  end.

Lemma trim_empty s d : d_data d = [] → trim_device d s = Ret (fresh_dev s d, s).
Proof.
  intros E. unfold trim_device, scull_trim, mbind, M_bind, mget. simpl. rewrite E.
  by destruct s.
Qed.

Lemma lookfor_wp size s key : acc_wf s → NoDup (c_keys (a_list s)) →
  wp (scull_c_lookfor_device size key) s (λ r s',
    acc_wf s' ∧ NoDup (c_keys (a_list s')) ∧ acc_foreign s' = acc_foreign s ∧
    a_params s' = a_params s ∧
    a_sleeps s' = (if find_key key (a_list s) is Some _ then a_sleeps s else S (a_sleeps s)) ∧
    match r with
    | None => a_list s' = a_list s ∧ c_dev key (a_list s) = None
    | Some i => find_key key (a_list s') = Some i ∧
        ∀ k, c_dev k (a_list s') = if k =? key then Some (default (fresh_dev s zero_dev)
                                     (c_dev key (a_list s))) else c_dev k (a_list s)
    end).
Proof.
  intros W N. unfold scull_c_lookfor_device. wp_steps.
  destruct (find_key key (a_list s)) as [i|] eqn:Ef.
  { wp_steps. destruct (find_key_some _ _ _ Ef) as (x & _ & _ & Ed & _).
    split_and!; [done..|]. intros k. rewrite Ed. simpl.
    by destruct (Z.eqb_spec k key) as [->|]. }
  destruct (find_key_none _ _ Ef) as [Nk Dk].
  destruct (kmalloc size (a_heap s)) as [[l|] h'] eqn:Ek; wp_steps.
  - destruct (kmalloc_some_law _ _ _ _ Ek) as [Hfr Hlv].
    eapply wp_intro; [by apply trim_empty|]. wp_steps.
    edestruct (acc_wf_item s l h' key) as [W' F'];
      [done|apply (fresh_dev_wf s zero_dev W)|done|done|done|].
    split_and!; [exact W'| |exact F'|done..| |].
    + unfold c_keys in *. simpl. by constructor.
    + by rewrite Z.eqb_refl.
    + intros k. rewrite Dk, (Z.eqb_sym key). simpl. by destruct (k =? key).
  - pose proof (kmalloc_none_law _ _ _ Ek) as Hl. destruct W as [G D Nd O].
    split_and!; try done; [split; try done|].
    + intros x Hx. simpl. rewrite Hl. by apply O.
    + unfold acc_foreign. simpl. by rewrite Hl.
Qed.

Lemma alter_keys i d (l : list scull_listitem) :
  c_keys (alter (λ y, ListItem (li_loc y) (li_key y) d) i l) = c_keys l.
Proof.
  unfold c_keys. revert i. induction l as [|x l IH]; intros [|i]; try done.
  change (alter ?f (S i) (x :: l)) with (x :: alter f i l). by rewrite !fmap_cons, IH.
Qed.

Lemma c_open_wp size s tty f_flags : acc_wf s → NoDup (c_keys (a_list s)) →
  wp (scull_c_open size tty f_flags) s (λ r s',
    acc_wf s' ∧ NoDup (c_keys (a_list s')) ∧ acc_foreign s' = acc_foreign s ∧
    match tty with
    | None => r = - EINVAL ∧ s' = s
    | Some key =>
        (r = - ENOMEM ∧ a_list s' = a_list s ∧ c_dev key (a_list s) = None) ∨
        (r = 0 ∧ ∀ k, c_dev k (a_list s') =
           if k =? key then Some (c_opened s f_flags (c_dev key (a_list s)))
           else c_dev k (a_list s))
    end).
Proof.
  intros W N. unfold scull_c_open. destruct tty as [key|]; [|by wp_steps].
  apply wp_bind. eapply wp_mono; [|by apply lookfor_wp].
  intros [i|] s1 (W1 & N1 & F1 & Ep & _ & P); [|wp_step; by destruct P; auto 10].
  destruct P as [Ef P]. destruct (find_key_some _ _ _ Ef) as (x & Hx & Kx & Dx & A).
  apply wp_bind, wp_get. rewrite P, Z.eqb_refl in Dx. injection Dx as Dx.
  destruct (opened_wronly f_flags) eqn:Ew.
  - rewrite Hx. apply wp_bind. eapply wp_mono; [|by apply item_trim_wp].
    intros _ s2 (W2 & F2 & E2 & _). wp_step. rewrite E2. split_and!.
    + done.
    + by rewrite alter_keys.
    + congruence.
    + right. split; [done|]. intros k. rewrite A, P. destruct (k =? key); [|done].
      f_equal. unfold c_opened, fresh_dev. rewrite Ep, Ew, <- Dx.
      by destruct (c_dev key (a_list s)).
  - wp_steps. split_and!; [done..|]. right. split; [done|]. intros k. rewrite P.
    destruct (k =? key); [|done]. f_equal. unfold c_opened. rewrite Ew.
    by destruct (c_dev key (a_list s)).
Qed.

(** C23: scullpriv gives every terminal its own device: an open from terminal
    [key] finds the one device of [key], emptied when opened for writing only,
    or makes a fresh one; it leaves the devices of the other terminals alone,
    keeps the keys distinct and fails only without a terminal or memory. *)
Theorem scull_c_private size s tty f_flags :
  acc_wf s → NoDup (c_keys (a_list s)) →
  wp (scull_c_open size tty f_flags) s (λ r s',
    acc_wf s' ∧ NoDup (c_keys (a_list s')) ∧ acc_foreign s' = acc_foreign s ∧
    match tty with
    | None => r = - EINVAL ∧ s' = s
    | Some key =>
        (r = - ENOMEM ∧ a_list s' = a_list s ∧ c_dev key (a_list s) = None) ∨
        (r = 0 ∧ ∀ k, c_dev k (a_list s') =
           if k =? key then Some (c_opened s f_flags (c_dev key (a_list s)))
           else c_dev k (a_list s))
    end).
Proof. apply c_open_wp. Qed.

(** The first open from a terminal calls kmalloc(GFP_KERNEL), which may
    sleep, with scull_c_lock held; an open from a known terminal does not. *)
Theorem scull_c_sleeps_under_spinlock size s key :
  acc_wf s → NoDup (c_keys (a_list s)) →
  wp (scull_c_lookfor_device size key) s (λ _ s',
    a_sleeps s' = (if decide (key ∈ c_keys (a_list s)) then a_sleeps s else S (a_sleeps s))).
Proof.
  intros W N. eapply wp_mono; [|by apply (lookfor_wp size s key)].
  intros r s' (_ & _ & _ & _ & -> & _). destruct (find_key key (a_list s)) as [i|] eqn:E.
  - destruct (find_key_some _ _ _ E) as (x & Hx & Kx & _). rewrite decide_True; [done|].
    unfold c_keys. apply list_elem_of_fmap. exists x. split; [done|].
    by eapply list_elem_of_lookup_2.
  - destruct (find_key_none _ _ E). by rewrite decide_False.
Qed.

End priv.

(** ** Witnesses *)

Section examples.
Abbreviation st := (acc_st bump umap).

Definition empty_dev : scull_dev := ScullDev [] 2 2 0 0 false.
Definition acc0 : st :=
  AccSt (ScullParams 2 2 4) bump_init ∅ (SnglDev empty_dev 1) (UidDev empty_dev 0 0)
    (UidDev empty_dev 0 0) 0 [] 0.

Lemma empty_dev_wf : dev_wf empty_dev.
Proof. split; simpl; [by vm_compute|unfold LLONG_MAX; lia|constructor|constructor]. Qed.

Lemma acc0_wf : acc_wf acc0.
Proof.
  split; [by vm_compute| |constructor|intros ? []%elem_of_nil].
  repeat constructor; apply empty_dev_wf.
Qed.

Definition alice := Cred 100 100 false.
Definition bob := Cred 200 200 false.
Definition root := Cred 0 0 true.

Definition acc_of {A} (o : outcome (A * st)) : st :=
  match o with Ret (_, s) => s | Fault _ => acc0 end.

(** The second opener backs out while the first holds the device. *)
Lemma scull_s_exclusive_witness :
  ∃ s, rtc s_step ([SIdle; SIdle], acc0) ([SHeld; SFailing], s) ∧
    scull_s_available (a_sngl s) = -1 ∧ cnt is_held [SHeld; SFailing] <= 1.
Proof.
  set (s1 := acc_of (atomic_dec_and_test acc0)).
  set (s2 := acc_of (atomic_dec_and_test s1)).
  assert (R : rtc s_step ([SIdle; SIdle], acc0) ([SHeld; SFailing], s2)).
  { eapply rtc_l; [apply (ss_dec _ acc0 0%nat true s1); vm_compute; reflexivity|].
    eapply rtc_l; [apply (ss_dec _ s1 1%nat false s2); vm_compute; reflexivity|].
    apply rtc_refl. }
  exists s2. split; [exact R|]. split; [vm_compute; reflexivity|].
  exact (proj1 (scull_s_exclusive [SIdle; SIdle] acc0 [SHeld; SFailing] s2 acc0_wf eq_refl
    ltac:(unfold INT_MAX; simpl; lia) ltac:(repeat constructor) R)).
Defined.

(** Alice holds the device: Bob is refused. *)
Lemma scull_u_policy_witness :
  ∃ s, rtc u_step ([], acc0) ([alice], s) ∧ ud_count (a_u s) = 1 ∧
    wp (scull_u_open bob 0) s (λ r s', r = - EBUSY ∧ s' = s).
Proof.
  set (s1 := acc_of (scull_u_open alice 0 acc0)).
  assert (R : rtc u_step ([], acc0) ([alice], s1)).
  { eapply rtc_l; [apply (us_open [] acc0 alice 0 0 s1);
      [unfold INT_MAX; simpl; lia|vm_compute; reflexivity]|]. apply rtc_refl. }
  destruct (scull_u_policy acc0 [alice] s1 acc0_wf eq_refl R) as (C & _ & O).
  exists s1. split; [exact R|]. split; [exact C|].
  exact (O bob 0 ltac:(unfold INT_MAX; simpl; lia)).
Defined.

(** Bob sleeps while Alice has the device. *)
Lemma scull_w_no_lost_wakeup_witness :
  ∃ s, rtc w_step ([WThread alice false WStart; WThread bob false WStart], acc0)
         ([WThread alice false WHeld; WThread bob false WSched], s) ∧
    ud_count (a_w s) = 1.
Proof.
  set (s1 := acc_of (scull_w_try alice acc0)).
  assert (R : rtc w_step ([WThread alice false WStart; WThread bob false WStart], acc0)
         ([WThread alice false WHeld; WThread bob false WSched], s1)).
  { eapply rtc_l; [apply (ws_try _ acc0 0%nat (WThread alice false WStart) true s1);
      [reflexivity|left; reflexivity|vm_compute; reflexivity]|].
    eapply rtc_l; [apply (ws_try _ s1 1%nat (WThread bob false WStart) false s1);
      [reflexivity|left; reflexivity|vm_compute; reflexivity]|].
    eapply rtc_l; [apply (ws_check _ s1 1%nat (WThread bob false WPrep)); reflexivity|].
    apply rtc_refl. }
  exists s1. split; [exact R|].
  exact (proj1 (scull_w_no_lost_wakeup [WThread alice false WStart; WThread bob false WStart]
    acc0 [WThread alice false WHeld; WThread bob false WSched] s1 acc0_wf eq_refl
    ltac:(unfold INT_MAX; simpl; lia) ltac:(repeat constructor) R)).
Defined.

Definition acc_c : st := acc_of (scull_c_open 200 (Some 5) 0 acc0).

(** Two terminals, two devices. *)
Lemma scull_c_private_witness :
  c_keys (a_list acc_c) = [5] ∧
  wp (scull_c_open 200 (Some 7) 0) acc0 (λ r s', NoDup (c_keys (a_list s'))).
Proof.
  split; [vm_compute; reflexivity|].
  eapply wp_mono; [|apply (scull_c_private 200 acc0 (Some 7) 0 acc0_wf); constructor].
  intros r s' (_ & N & _). exact N.
Defined.

Lemma scull_c_sleeps_under_spinlock_witness :
  wp (scull_c_lookfor_device 200 5) acc0 (λ _ s', a_sleeps s' = 1%nat).
Proof.
  apply (scull_c_sleeps_under_spinlock 200 acc0 5 acc0_wf). constructor.
Defined.

End examples.
