(* ===== verification/Scullp.v ===== *)
(** The page-based scull device (src/ldd/scullp/main.c, mmap.c, scullp.h).

    The device is its own first list item; [p_items] holds the list with the
    device's data array first, so a pointer into the list is an index.  An
    item made by scullp_follow is zeroed: it has order 0 and no data. *)
From Stdlib Require Import ZArith Lia.
From stdpp Require Import base list gmap.
From S2P Require Import Prelude Kernel Scull ScullIoctl.

(** [pi_loc] is [None] for the device itself, which scullp_trim must not free. *)
Record p_item := PItem { pi_loc : option loc; pi_order : Z; pi_data : option data_arr }.

Record scullp_dev := ScullpDev {
  p_data : option data_arr;       (* dev->data *)
  p_next : list p_item;           (* the items after the device *)
  p_vmas : Z;
  p_order : Z;
  p_qset : Z;
  p_size : Z;
  p_mutex : bool
}.
Definition p_items (d : scullp_dev) : list p_item :=
  PItem None (p_order d) (p_data d) :: p_next d.

Record scullp_st (H U : Type) := ScullpSt {
  sp_params : scullp_params;
  sp_dev : scullp_dev;
  sp_heap : H;
  sp_user : U;
  sp_pos : Z
}.
Arguments ScullpSt {H U}.
Arguments sp_params {H U}.
Arguments sp_dev {H U}.
Arguments sp_heap {H U}.
Arguments sp_user {H U}.
Arguments sp_pos {H U}.

(** sizeof(struct scullp_dev) depends on the kernel's cdev and mutex. *)
Class ScullpSizes := { sizeof_scullp_dev : Z }.

Definition with_pmutex (d : scullp_dev) (b : bool) : scullp_dev :=
  ScullpDev (p_data d) (p_next d) (p_vmas d) (p_order d) (p_qset d) (p_size d) b.
Definition with_psize (d : scullp_dev) (n : Z) : scullp_dev :=
  ScullpDev (p_data d) (p_next d) (p_vmas d) (p_order d) (p_qset d) n (p_mutex d).
Definition with_vmas (d : scullp_dev) (n : Z) : scullp_dev :=
  ScullpDev (p_data d) (p_next d) n (p_order d) (p_qset d) (p_size d) (p_mutex d).
Definition with_next (d : scullp_dev) (l : list p_item) : scullp_dev :=
  ScullpDev (p_data d) l (p_vmas d) (p_order d) (p_qset d) (p_size d) (p_mutex d).

(** The data array of item [i] replaced. *)
Definition with_item_data (d : scullp_dev) (i : nat) (a : option data_arr) : scullp_dev :=
  match i with
  | O => ScullpDev a (p_next d) (p_vmas d) (p_order d) (p_qset d) (p_size d) (p_mutex d)
  | S j => with_next d (alter (λ x, PItem (pi_loc x) (pi_order x) a) j (p_next d))
  end.

Section ops.
Context {H U : Type} `{PageAlloc H} `{UserMem U} `{ScullpSizes}.
Abbreviation st := (scullp_st H U).

Definition set_pdev (d : scullp_dev) (s : st) : st :=
  ScullpSt (sp_params s) d (sp_heap s) (sp_user s) (sp_pos s).
Definition set_sheap (h : H) (s : st) : st :=
  ScullpSt (sp_params s) (sp_dev s) h (sp_user s) (sp_pos s).
Definition set_suser (u : U) (s : st) : st :=
  ScullpSt (sp_params s) (sp_dev s) (sp_heap s) u (sp_pos s).
Definition set_spos (p : Z) (s : st) : st :=
  ScullpSt (sp_params s) (sp_dev s) (sp_heap s) (sp_user s) p.

Definition sp_lock (intr : bool) : M st bool := λ s,
  if intr then Ret (true, s)
  else if p_mutex (sp_dev s) then Fault SelfDeadlock
  else Ret (false, set_pdev (with_pmutex (sp_dev s) true) s).
Definition sp_unlock : M st unit := λ s,
  if p_mutex (sp_dev s) then Ret (tt, set_pdev (with_pmutex (sp_dev s) false) s)
  else Fault BadUnlock.

Definition sp_kmalloc (n : Z) : M st (option loc) := λ s,
  let '(r, h) := kmalloc n (sp_heap s) in Ret (r, set_sheap h s).
Definition sp_get_pages (order : Z) : M st (option loc) := λ s,
  let '(r, h) := get_free_pages order (sp_heap s) in Ret (r, set_sheap h s).
Definition sp_kfree (l : loc) : M st unit := λ s,
  if bool_decide (l ∈ live (sp_heap s)) then Ret (tt, set_sheap (kfree l (sp_heap s)) s)
  else Fault BadFree.
Definition sp_free_pages (l : loc) (order : Z) : M st unit := λ s,
  if bool_decide (l ∈ live (sp_heap s)) then Ret (tt, set_sheap (free_pages l order (sp_heap s)) s)
  else Fault BadFree.

Definition sp_get_page (l : loc) : M st unit := mmodify (λ s, set_sheap (get_page l (sp_heap s)) s).
(** What the kernel does with a page it takes out of a page table. *)
Definition sp_put_page (l : loc) : M st unit := sp_free_pages l 0.

(** [PAGE_SIZE << order], an unsigned long. *)
Definition page_shift (order : Z) : M st Z :=
  if (0 <=? order) && (order <? 64) then mret (u64 (Z.shiftl PAGE_SIZE order))
  else mfault BadShift.

(** ** scullp_trim *)

Definition p_trim_slot (order : Z) (a : data_arr) (i : nat) : M st unit :=
  match a_slots a !! i with
  | None => mfault OutOfBounds
  | Some None => mret tt
  | Some (Some q) => sp_free_pages (q_loc q) order
  end.

Definition p_trim_item (qset : Z) (x : p_item) : M st unit :=
  (match pi_data x with
   | Some a => mfor 0 (Z.to_nat qset) (p_trim_slot (pi_order x) a) ≫= λ _, sp_kfree (a_loc a)
   | None => mret tt
   end) ≫= λ _,
  match pi_loc x with
  | Some l => sp_kfree l
  | None => mret tt                     (* the device itself *)
  end.

Definition scullp_trim : M st Z :=
  s ← mget;
  let d := sp_dev s in
  if negb (p_vmas d =? 0) then mret (- EBUSY) else
  mforeach (p_items d) (p_trim_item (p_qset d)) ≫= λ _,
  mmodify (λ s, set_pdev (ScullpDev None [] (p_vmas (sp_dev s)) (scullp_order (sp_params s))
                  (scullp_qset (sp_params s)) 0 (p_mutex (sp_dev s))) s) ≫= λ _,
  mret 0.

(** ** open and release *)

Definition scullp_open (intr : bool) (f_flags : Z) : M st Z :=
  if opened_wronly f_flags then
    failed ← sp_lock intr;
    if (failed : bool) then mret (- ERESTARTSYS) else
    scullp_trim ≫= λ _,                 (* ignore errors *)
    sp_unlock ≫= λ _,
    mret 0
  else mret 0.

Definition scullp_release : M st Z := mret 0.

(** ** scullp_follow *)

(** A failed kmalloc is not checked: memset writes through the null pointer. *)
Fixpoint p_follow_loop (n : nat) (i : nat) : M st nat :=
  match n with
  | O => mret i
  | S n' =>
      s ← mget;
      if (i <? length (p_next (sp_dev s)))%nat then p_follow_loop n' (S i)
      else
        p ← sp_kmalloc sizeof_scullp_dev;
        match p with
        | None => mfault NullDeref
        | Some l =>
            mmodify (λ s, set_pdev (with_next (sp_dev s)
              (p_next (sp_dev s) ++ [PItem (Some l) 0 None])) s) ≫= λ _,
            p_follow_loop n' (S i)
        end
  end.

Definition scullp_follow (n : Z) : M st nat := p_follow_loop (Z.to_nat (u32 n)) 0.

(** ** read and write *)

Definition p_locate (quantum qset pos : Z) : M st (Z * Z * Z) :=
  let itemsize := s32 (quantum * qset) in
  item ← c_div 64 pos itemsize;
  rest ← c_rem 64 pos itemsize;
  s_pos ← c_div 32 (s32 rest) quantum;
  q_pos ← c_rem 32 (s32 rest) quantum;
  mret (s32 item, s32 s_pos, q_pos).

Definition p_get_item (i : nat) : M st p_item :=
  s ← mget;
  match p_items (sp_dev s) !! i with
  | Some x => mret x
  | None => mfault NullDeref
  end.

Definition p_get_slot (a : data_arr) (s_pos : Z) : M st (option quantum_blk) :=
  if s_pos <? 0 then mfault OutOfBounds else
  match a_slots a !! Z.to_nat s_pos with
  | Some q => mret q
  | None => mfault OutOfBounds
  end.

Definition page_to_user (buf : Z) (q : quantum_blk) (off n : Z) : M st nat := λ s,
  if in_block off n q then
    let '(u, uncopied) :=
      copy_to_user (sp_user s) buf (slice (Z.to_nat off) (Z.to_nat n) (q_mem q)) in
    Ret (uncopied, set_suser u s)
  else Fault OutOfBounds.

(** The section under the mutex: [inl r] leaves through [nothing], [inr n]
    copied [n] bytes. *)
Definition scullp_read_locked (quantum qset buf count : Z) : M st (Z + Z) :=
  s ← mget;
  let pos := sp_pos s in
  let size := p_size (sp_dev s) in
  if size <? u64 pos then mret (inl 0) else
  let count := if size <? u64 (pos + count) then u64 (size - pos) else count in
  '(item, s_pos, q_pos) ← p_locate quantum qset pos;
  i ← scullp_follow item;
  x ← p_get_item i;
  match pi_data x with
  | None => mret (inl 0)
  | Some a =>
      slot ← p_get_slot a s_pos;
      match slot with
      | None => mret (inl 0)
      | Some q =>
          let room := u64 (s32 (quantum - q_pos)) in
          let count := if room <? count then room else count in
          uncopied ← page_to_user buf q q_pos count;
          if (uncopied =? 0)%nat then mret (inr count) else mret (inl (- EFAULT))
      end
  end.

Definition scullp_read (intr : bool) (buf count : Z) : M st Z :=
  s ← mget;
  sz ← page_shift (p_order (sp_dev s));
  let quantum := s32 sz in
  let qset := p_qset (sp_dev s) in
  failed ← sp_lock intr;
  if (failed : bool) then mret (- ERESTARTSYS) else
  r ← scullp_read_locked quantum qset buf count;
  sp_unlock ≫= λ _,
  match r with
  | inl retval => mret retval
  | inr count =>
      mmodify (λ s, set_spos (s64 (sp_pos s + count)) s) ≫= λ _,
      mret (s64 count)
  end.

Definition p_set_data (i : nat) (a : option data_arr) : M st unit :=
  mmodify (λ s, set_pdev (with_item_data (sp_dev s) i a) s).

Definition p_ensure_array (qset : Z) (i : nat) : M st (option data_arr) :=
  x ← p_get_item i;
  match pi_data x with
  | Some a => mret (Some a)
  | None =>
      let bytes := u64 (qset * sizeof_ptr) in
      p ← sp_kmalloc bytes;
      match p with
      | None => mret None
      | Some l =>
          let a := DataArr l (replicate (Z.to_nat (bytes / sizeof_ptr)) None) in
          p_set_data i (Some a) ≫= λ _,
          mret (Some a)
      end
  end.

(** The pages are those of the item's order, not of the device's. *)
Definition p_ensure_pages (i : nat) (a : data_arr) (s_pos : Z) : M st (option quantum_blk) :=
  slot ← p_get_slot a s_pos;
  match slot with
  | Some q => mret (Some q)
  | None =>
      x ← p_get_item i;
      p ← sp_get_pages (pi_order x);
      match p with
      | None => mret None
      | Some l =>
          n ← page_shift (pi_order x);
          let q := QuantumBlk l (replicate (Z.to_nat n) (Some x00)) in
          p_set_data i (Some (put_slot a (Z.to_nat s_pos) q)) ≫= λ _,
          mret (Some q)
      end
  end.

Definition user_to_pages (buf : Z) (i : nat) (a : data_arr) (s_pos : Z)
    (q : quantum_blk) (off n : Z) : M st nat := λ s,
  if in_block off n q then
    let '(cs, uncopied) := copy_from_user (sp_user s) buf (Z.to_nat n) in
    let q' := QuantumBlk (q_loc q) (list_inserts (Z.to_nat off) cs (q_mem q)) in
    (p_set_data i (Some (put_slot a (Z.to_nat s_pos) q')) ≫= λ _, mret uncopied) s
  else Fault OutOfBounds.

Definition scullp_write_locked (quantum qset buf count : Z) : M st Z :=
  s ← mget;
  '(item, s_pos, q_pos) ← p_locate quantum qset (sp_pos s);
  i ← scullp_follow item;
  arr ← p_ensure_array qset i;
  match arr with
  | None => mret (- ENOMEM)
  | Some a =>
      slot ← p_ensure_pages i a s_pos;
      match slot with
      | None => mret (- ENOMEM)
      | Some q =>
          let room := u64 (s32 (quantum - q_pos)) in
          let count := if room <? count then room else count in
          uncopied ← user_to_pages buf i a s_pos q q_pos count;
          if (uncopied =? 0)%nat then
            mmodify (λ s, set_spos (s64 (sp_pos s + count)) s) ≫= λ _,
            mmodify (λ s, if p_size (sp_dev s) <? u64 (sp_pos s)
                          then set_pdev (with_psize (sp_dev s) (u64 (sp_pos s))) s else s) ≫= λ _,
            mret (s64 count)
          else mret (- EFAULT)
      end
  end.

Definition scullp_write (intr : bool) (buf count : Z) : M st Z :=
  s ← mget;
  sz ← page_shift (p_order (sp_dev s));
  let quantum := s32 sz in
  let qset := p_qset (sp_dev s) in
  failed ← sp_lock intr;
  if (failed : bool) then mret (- ERESTARTSYS) else
  retval ← scullp_write_locked quantum qset buf count;
  sp_unlock ≫= λ _,
  mret retval.

Definition scullp_llseek (off whence : Z) : M st Z :=
  s ← mget;
  let seek newpos :=
    if newpos <? 0 then mret (- EINVAL)
    else mmodify (set_spos newpos) ≫= λ _, mret newpos in
  if whence =? 0 then seek off
  else if whence =? 1 then seek (s64 (sp_pos s + off))
  else if whence =? 2 then seek (s64 (p_size (sp_dev s) + off))
  else mret (- EINVAL).

(** ** mmap *)

Definition VM_FAULT_NOPAGE := 256.

Definition scullp_vma_open : M st unit :=
  mmodify (λ s, set_pdev (with_vmas (sp_dev s) (s32 (p_vmas (sp_dev s) + 1))) s).
Definition scullp_vma_close : M st unit :=
  mmodify (λ s, set_pdev (with_vmas (sp_dev s) (s32 (p_vmas (sp_dev s) - 1))) s).

Definition scullp_mmap : M st Z :=
  s ← mget;
  if negb (p_order (sp_dev s) =? 0) then mret (- ENODEV) else
  scullp_vma_open ≫= λ _,
  mret 0.

(** [for (ptr = dev; ptr && offset >= dev->qset;)] over the items from [ptr]. *)
Fixpoint nopage_walk (qset : Z) (items : list p_item) (offset : Z) : option p_item * Z :=
  match items with
  | [] => (None, offset)
  | x :: r => if u64 qset <=? offset then nopage_walk qset r (u64 (offset - qset))
              else (Some x, offset)
  end.

(** The fault handler: the page (its block) it hands out, if any, with a
    reference of its own. *)
Definition scullp_vma_nopage (address vm_start vm_pgoff : Z) : M st (Z * option loc) :=
  sp_lock false ≫= λ _,
  s ← mget;
  let d := sp_dev s in
  let offset := u64 (u64 (address - vm_start) + u64 (Z.shiftl vm_pgoff PAGE_SHIFT)) in
  r ← (if p_size d <=? offset then mret (VM_FAULT_NOPAGE, None) else
       let '(ptr, offset) := nopage_walk (p_qset d) (p_items d) (Z.shiftr offset PAGE_SHIFT) in
       match ptr with
       | None => mret (VM_FAULT_NOPAGE, None)
       | Some x =>
           match pi_data x with
           | None => mret (VM_FAULT_NOPAGE, None)
           | Some a =>
               slot ← p_get_slot a offset;
               match slot with
               | None => mret (VM_FAULT_NOPAGE, None)
               | Some q => sp_get_page (q_loc q) ≫= λ _, mret (0, Some (q_loc q))
               end
           end
       end);
  sp_unlock ≫= λ _,
  mret r.

End ops.
