(* ===== verification/ScullpThms.v ===== *)
(** Theorems on the page-based device: its fault handler finds the pages the
    read path finds, trimming returns every block unless the device is mapped,
    and no page is freed under a mapping. *)
From Stdlib Require Import ZArith Lia.
From stdpp Require Import base list gmap relations.
From S2P Require Import Prelude Kernel Scull ScullSpec ScullIoctl Scullp.

(** ** Invariant and ownership *)

Definition item_locs (x : p_item) : list loc :=
  (match pi_data x with Some a => arr_locs a | None => [] end) ++
  (match pi_loc x with Some l => [l] | None => [] end).
Definition p_locs (d : scullp_dev) : list loc := p_items d ≫= item_locs.
(** The pages among them. *)
Definition item_pages (x : p_item) : list loc :=
  match pi_data x with Some a => a_slots a ≫= slot_locs | None => [] end.
Definition p_pages (d : scullp_dev) : list loc := p_items d ≫= item_pages.

Lemma pages_locs d l : l ∈ p_pages d → l ∈ p_locs d.
Proof.
  unfold p_pages, p_locs. rewrite !list_elem_of_bind. intros (x & Hl & Hx). exists x. split; [|done].
  unfold item_pages, item_locs, arr_locs in *. destruct (pi_data x); [|by apply not_elem_of_nil in Hl].
  rewrite !elem_of_app. auto.
Qed.

Definition item_ok (qset : Z) (x : p_item) : Prop :=
  match pi_data x with
  | Some a => arr_ok (Z.shiftl PAGE_SIZE (pi_order x)) qset a
  | None => True
  end.

Record p_wf (d : scullp_dev) : Prop := PWf {
  pw_qset : 0 < p_qset d <= INT_MAX;
  pw_size : 0 <= p_size d < 18446744073709551616;
  pw_items : Forall (item_ok (p_qset d)) (p_items d);
  pw_order : Forall (λ x, pi_order x = 0) (p_next d);
  pw_nodup : NoDup (p_locs d)
}.

(** The [g]-th page block of the device. *)
Definition p_quantum (d : scullp_dev) (g : Z) : option quantum_blk :=
  x ← p_items d !! Z.to_nat (g / p_qset d);
  a ← pi_data x;
  o ← a_slots a !! Z.to_nat (g mod p_qset d);
  o.

Section thms.
Context {H U : Type} `{PageAlloc H} `{UserMem U} `{ScullpSizes}.
Abbreviation st := (scullp_st H U).
Implicit Types s : st.

Definition p_owns s : Prop := ∀ l, l ∈ p_locs (sp_dev s) → l ∈ live (sp_heap s).

(** *** Freeing *)

(** From [h] to [h'] the blocks [ls] were given up: a page among them ([ps])
    is only gone if nobody else had a reference to it. *)
Record freed (ls ps : list loc) (h h' : H) : Prop := Freed {
  fr_sub : live h' ⊆ live h;
  fr_keep : ∀ l, l ∈ live h → l ∉ ls → l ∈ live h';
  fr_count : ∀ l, l ∉ ls → page_count l h' = page_count l h;
  fr_all : (∀ l, l ∈ ps → page_count l h = 1) → live h' = live h ∖ list_to_set ls
}.

Lemma freed_nil h : freed [] [] h h.
Proof. split; [done|done|done|set_solver]. Qed.

Definition p_frees (ls ps : list loc) (m : M st unit) : Prop :=
  (∀ l, l ∈ ps → l ∈ ls) ∧ ∀ s, NoDup ls → (∀ l, l ∈ ls → l ∈ live (sp_heap s)) →
  wp m s (λ _ s', s' = set_sheap (sp_heap s') s ∧ freed ls ps (sp_heap s) (sp_heap s')).

Lemma p_frees_nil : p_frees [] [] (mret tt).
Proof. split; [done|]. intros s _ _. wp_step. split; [by destruct s|apply freed_nil]. Qed.

Lemma p_frees_kfree l : p_frees [l] [] (sp_kfree l).
Proof.
  split; [by intros ? ?%elem_of_nil|]. intros s _ Hl. unfold wp, sp_kfree.
  rewrite bool_decide_eq_true_2 by set_solver. split; [done|]. simpl.
  split; rewrite ?kfree_law; [set_solver|set_solver|intros; apply kfree_count_law|set_solver].
Qed.

Lemma p_frees_pages l o : p_frees [l] [l] (sp_free_pages l o).
Proof.
  split; [done|]. intros s _ Hl. unfold wp, sp_free_pages.
  rewrite bool_decide_eq_true_2 by set_solver. split; [done|]. simpl.
  destruct (free_pages_law l o (sp_heap s)) as [L C].
  split; rewrite ?L.
  - destruct (_ =? 1); set_solver.
  - intros k Hk Hn. destruct (_ =? 1); set_solver.
  - intros k Hk. rewrite C, decide_False by set_solver. lia.
  - intros E. rewrite (E l) by set_solver. simpl. set_solver.
Qed.

Lemma p_frees_bind ls ks ps qs m k :
  p_frees ls ps m → p_frees ks qs k → p_frees (ls ++ ks) (ps ++ qs) (m ≫= λ _, k).
Proof.
  intros [Sm Hm] [Sk Hk]. split; [set_solver|]. intros s Hnd Hin. apply NoDup_app in Hnd as (N1 & Hdis & N2).
  wp_step. eapply wp_mono; [|apply Hm; set_solver].
  intros _ s1 [E1 F1]. rewrite E1 in F1 |- *. simpl in *.
  assert (Hks : ∀ l, l ∈ ks → l ∈ live (sp_heap s1)).
  { intros l Hl. apply (fr_keep _ _ _ _ F1); set_solver. }
  eapply wp_mono; [|apply Hk; [done|exact Hks]]. simpl. intros _ s2 [E2 F2]. rewrite E2 in F2 |- *. simpl in *.
  split; [done|]. split.
  - etrans; [apply (fr_sub _ _ _ _ F2)|apply (fr_sub _ _ _ _ F1)].
  - intros l Hl Hn. apply (fr_keep _ _ _ _ F2); [apply (fr_keep _ _ _ _ F1)|]; set_solver.
  - intros l Hn. rewrite (fr_count _ _ _ _ F2), (fr_count _ _ _ _ F1); set_solver.
  - intros Hc. rewrite (fr_all _ _ _ _ F2), (fr_all _ _ _ _ F1), list_to_set_app_L; [set_solver| |].
    + intros l Hl. apply Hc. set_solver.
    + intros l Hl. rewrite (fr_count _ _ _ _ F1); [apply Hc; set_solver|]. intros Hl'. apply (Hdis l); auto.
Qed.

Lemma p_frees_eq ls ls' ps ps' m : ls = ls' → ps = ps' → p_frees ls ps m → p_frees ls' ps' m.
Proof. by intros -> ->. Qed.

Lemma p_frees_slots o a n i :
  (i + n = length (a_slots a))%nat →
  p_frees (drop i (a_slots a) ≫= slot_locs) (drop i (a_slots a) ≫= slot_locs) (mfor i n (p_trim_slot o a)).
Proof.
  revert i. induction n as [|n IH]; intros i Hi; simpl.
  - rewrite drop_ge by lia. apply p_frees_nil.
  - destruct (lookup_lt_is_Some_2 (a_slots a) i) as [q Hq]; [lia|].
    rewrite (drop_S _ _ _ Hq). simpl. apply p_frees_bind; [|apply IH; lia].
    unfold p_trim_slot. rewrite Hq. destruct q; [apply p_frees_pages|apply p_frees_nil].
Qed.

Lemma p_frees_item qset x : item_ok qset x → p_frees (item_locs x) (item_pages x) (p_trim_item qset x).
Proof.
  intros Hx. unfold item_locs, item_pages, p_trim_item, item_ok in *.
  assert (D : p_frees (match pi_data x with Some a => arr_locs a | None => [] end)
    (match pi_data x with Some a => a_slots a ≫= slot_locs | None => [] end)
    (match pi_data x with
     | Some a => mfor 0 (Z.to_nat qset) (p_trim_slot (pi_order x) a) ≫= λ _, sp_kfree (a_loc a)
     | None => mret tt
     end)).
  { destruct (pi_data x) as [a|]; [|apply p_frees_nil]. destruct Hx as [Hx _].
    eapply p_frees_eq; [reflexivity|apply app_nil_r|]. apply p_frees_bind; [|apply p_frees_kfree].
    apply (p_frees_slots _ a _ 0). lia. }
  eapply p_frees_eq; [reflexivity|apply app_nil_r|]. apply p_frees_bind; [exact D|].
  destruct (pi_loc x); [apply p_frees_kfree|apply p_frees_nil].
Qed.

Lemma p_frees_foreach (l : list p_item) qset :
  Forall (item_ok qset) l → p_frees (l ≫= item_locs) (l ≫= item_pages) (mforeach l (p_trim_item qset)).
Proof.
  induction 1 as [|x l Hx _ IH]; simpl; [apply p_frees_nil|].
  apply p_frees_bind; [by apply p_frees_item|done].
Qed.

Definition p_trimmed s : scullp_dev :=
  ScullpDev None [] (p_vmas (sp_dev s)) (scullp_order (sp_params s))
    (scullp_qset (sp_params s)) 0 (p_mutex (sp_dev s)).

Lemma p_trim_wp s : p_wf (sp_dev s) → p_owns s →
  wp scullp_trim s (λ r s',
    if p_vmas (sp_dev s) =? 0 then
      r = 0 ∧ sp_dev s' = p_trimmed s ∧
      freed (p_locs (sp_dev s)) (p_pages (sp_dev s)) (sp_heap s) (sp_heap s')
    else r = - EBUSY ∧ s' = s).
Proof.
  intros W O. unfold scullp_trim. apply wp_bind, wp_get. cbv zeta.
  destruct (p_vmas (sp_dev s) =? 0) eqn:Ev; simpl negb; cbv iota; [|by wp_step].
  apply wp_bind.
  eapply wp_mono; [|apply (proj2 (p_frees_foreach _ _ (pw_items _ W)) s (pw_nodup _ W) O)].
  intros _ s1 [E1 F]. rewrite E1. wp_steps. done.
Qed.

(** *** The fault handler *)

(** The walk is the division by the size of a quantum set. *)
Lemma nopage_walk_div qset (items : list p_item) g :
  0 < qset <= INT_MAX → 0 <= g < 18446744073709551616 →
  nopage_walk qset items g =
  match items !! Z.to_nat (g / qset) with
  | Some x => (Some x, g mod qset)
  | None => (None, g - qset * Z.of_nat (length items))
  end.
Proof.
  intros Hq. unfold INT_MAX in Hq. revert g. induction items as [|x items IH]; intros g Hg; simpl.
  - f_equal. lia.
  - rewrite u64_id by lia. destruct (Z.leb_spec qset g) as [Hle|Hlt].
    + rewrite u64_id by lia. rewrite IH by lia.
      assert (Ed : g / qset = (g - qset) / qset + 1).
      { rewrite <- Z.div_add by lia. f_equal. lia. }
      pose proof (Z.div_pos (g - qset) qset ltac:(lia) ltac:(lia)).
      rewrite Ed, Z2Nat.inj_add by lia. rewrite Nat.add_1_r. simpl.
      destruct (items !! _).
      * f_equal. rewrite <- (Z.mod_add (g - qset) 1) by lia. f_equal. lia.
      * f_equal. lia.
    + rewrite Z.div_small, Z.mod_small by lia. done.
Qed.

(** The byte offset of a fault in the device. *)
Definition fault_offset (address vm_start vm_pgoff : Z) : Z :=
  u64 (u64 (address - vm_start) + u64 (Z.shiftl vm_pgoff PAGE_SHIFT)).

Lemma slock_wp s (Q : bool → st → Prop) :
  p_mutex (sp_dev s) = false → Q false (set_pdev (with_pmutex (sp_dev s) true) s) →
  wp (sp_lock false) s Q.
Proof. intros E HQ. unfold sp_lock, wp. by rewrite E. Qed.

Lemma sunlock_wp s (Q : unit → st → Prop) :
  p_mutex (sp_dev s) = true → Q tt (set_pdev (with_pmutex (sp_dev s) false) s) →
  wp sp_unlock s Q.
Proof. intros E HQ. unfold sp_unlock, wp. by rewrite E. Qed.

Lemma relock s : p_mutex (sp_dev s) = false →
  set_pdev (with_pmutex (sp_dev (set_pdev (with_pmutex (sp_dev s) true) s)) false)
    (set_pdev (with_pmutex (sp_dev s) true) s) = s.
Proof. destruct s as [? [] ? ? ?]; simpl. by intros ->. Qed.

(** A reference to the page taken. *)
Definition page_got (l : loc) s : st := set_sheap (get_page l (sp_heap s)) s.

Lemma nopage_wp s address vm_start vm_pgoff :
  p_wf (sp_dev s) → p_mutex (sp_dev s) = false →
  wp (scullp_vma_nopage address vm_start vm_pgoff) s (λ r s',
    let off := fault_offset address vm_start vm_pgoff in
    match (if off <? p_size (sp_dev s) then p_quantum (sp_dev s) (off / PAGE_SIZE) else None) with
    | Some q => r = (0, Some (q_loc q)) ∧ s' = page_got (q_loc q) s
    | None => r = (VM_FAULT_NOPAGE, None) ∧ s' = s
    end).
Proof.
  intros [Hq Hs Hi _ _] L. unfold scullp_vma_nopage. apply wp_bind, slock_wp; [done|].
  apply wp_bind, wp_get. cbv zeta. fold (fault_offset address vm_start vm_pgoff).
  set (off := fault_offset _ _ _). pose proof (u64_range (u64 (address - vm_start) +
    u64 (Z.shiftl vm_pgoff PAGE_SHIFT))) as Ho. fold (fault_offset address vm_start vm_pgoff) in Ho.
  fold off in Ho. clearbody off. simpl p_size. simpl p_qset.
  assert (Fin : ∀ r : Z * option loc,
    wp (mret r) (set_pdev (with_pmutex (sp_dev s) true) s)
      (λ a s', wp (sp_unlock ≫= λ _, mret a) s' (λ r' s'', r' = r ∧ s'' = s))).
  { intros r. wp_step. apply wp_bind, sunlock_wp; [done|]. wp_step.
    split; [done|exact (relock s L)]. }
  rewrite Z.leb_antisym. destruct (Z.ltb_spec off (p_size (sp_dev s))) as [Hlt|Hge]; simpl negb;
    cbv iota; [|apply wp_bind; eapply wp_mono; [|apply Fin]; done].
  unfold PAGE_SHIFT, PAGE_SIZE in *. rewrite Z.shiftr_div_pow2 by lia. change (2 ^ 12) with 4096.
  assert (Hg : 0 <= off / 4096 < 18446744073709551616).
  { split; [apply Z.div_pos; lia|]. apply Z.div_lt_upper_bound; lia. }
  change (p_items (sp_dev (set_pdev (with_pmutex (sp_dev s) true) s))) with (p_items (sp_dev s)).
  rewrite nopage_walk_div by done. unfold p_quantum.
  set (g := off / 4096) in *. destruct (p_items (sp_dev s) !! Z.to_nat (g / p_qset (sp_dev s)))
    as [x|] eqn:Ex; simpl; [|apply wp_bind; eapply wp_mono; [|apply Fin]; done].
  rewrite Forall_lookup in Hi. specialize (Hi _ _ Ex). unfold item_ok in Hi.
  destruct (pi_data x) as [a|]; simpl; [|apply wp_bind; eapply wp_mono; [|apply Fin]; done].
  pose proof (Z.mod_pos_bound g (p_qset (sp_dev s)) ltac:(lia)) as Hm.
  destruct (lookup_lt_is_Some_2 (a_slots a) (Z.to_nat (g mod p_qset (sp_dev s)))) as [o Eo]; [destruct Hi; lia|].
  unfold p_get_slot. rewrite (proj2 (Z.ltb_ge _ _)) by lia. rewrite Eo. simpl.
  apply wp_bind, wp_bind, wp_ret.
  destruct o as [q|]; [|eapply wp_mono; [|apply Fin]; done].
  apply wp_bind, wp_modify, wp_ret, wp_bind, sunlock_wp; [done|]. wp_step. split; [done|].
  exact (relock (page_got (q_loc q) s) L).
Qed.

(** *** Reading from pages *)

Lemma follow_there n i s : (i + n ≤ length (p_next (sp_dev s)))%nat →
  p_follow_loop n i s = Ret ((i + n)%nat, s).
Proof.
  revert i. induction n as [|n IH]; intros i Hn; simpl.
  - by rewrite Nat.add_0_r.
  - unfold mbind, M_bind, mget. rewrite (proj2 (Nat.ltb_lt _ _)) by lia.
    rewrite IH by lia. by rewrite Nat.add_succ_comm.
Qed.

Lemma p_locate_wp Q S pos s (P : Z * Z * Z → st → Prop) :
  geom_ok Q S → 0 <= pos <= LLONG_MAX → pos / Q / S <= INT_MAX →
  P (pos / Q / S, pos / Q mod S, pos mod Q) s → wp (p_locate Q S pos) s P.
Proof.
  intros (HQ & HS & HI) Hp Hit HP. unfold p_locate, INT_MAX, LLONG_MAX in *.
  assert (0 < Q * S) by nia. wrap_simpl.
  pose proof (Z.mod_pos_bound pos (Q * S) ltac:(lia)).
  pose proof (Z.div_pos pos (Q * S) ltac:(lia) ltac:(lia)).
  pose proof (Z.mod_pos_bound (pos / Q) S HS). pose proof (Z.mod_pos_bound pos Q HQ).
  assert (Q <= Q * S) by nia. assert (S <= Q * S) by nia.
  pose proof (Z.div_pos pos Q ltac:(lia) HQ). pose proof (Z.div_pos (pos / Q) S ltac:(lia) HS).
  wp_step. apply c_div_wp; [lia..|]. wp_step. apply c_rem_wp; [lia..|].
  rewrite (s32_id (pos mod _)) by (unfold INT_MAX; lia).
  wp_step. apply c_div_wp; [lia..|]. wp_step. apply c_rem_wp; [lia..|]. wp_step.
  rewrite locate_item, locate_slot, locate_off by lia.
  rewrite !s32_id by (unfold INT_MAX; lia). done.
Qed.

Lemma p_quantum_inv d g q : p_quantum d g = Some q →
  ∃ x a, p_items d !! Z.to_nat (g / p_qset d) = Some x ∧ pi_data x = Some a ∧
    a_slots a !! Z.to_nat (g mod p_qset d) = Some (Some q).
Proof.
  unfold p_quantum. intros (x & Hx & (a & Ha & (o & Ho & ->)%bind_Some)%bind_Some)%bind_Some.
  eauto.
Qed.

Lemma p_item_order d i x : p_order d = 0 → p_wf d → p_items d !! i = Some x → pi_order x = 0.
Proof.
  intros E W. destruct i as [|i]; simpl; [by intros [= <-]|]. intros Hx.
  pose proof (pw_order _ W) as F. rewrite Forall_lookup in F. eauto.
Qed.

(** A read that hits a page, from the held mutex. *)
Lemma read_hit_wp s q buf count :
  let d := sp_dev s in let pos := sp_pos s in
  p_wf d → p_order d = 0 → p_qset d * PAGE_SIZE <= INT_MAX →
  0 <= pos < p_size d → p_size d <= LLONG_MAX → pos / PAGE_SIZE / p_qset d <= INT_MAX →
  0 <= count <= LLONG_MAX → p_quantum d (pos / PAGE_SIZE) = Some q →
  let n := Z.min (Z.min count (p_size d - pos)) (PAGE_SIZE - pos mod PAGE_SIZE) in
  wp (scullp_read_locked PAGE_SIZE (p_qset d) buf count) s (λ r s',
    ∃ u, s' = set_suser u s ∧
    let c := copy_to_user (sp_user s) buf (slice (Z.to_nat (pos mod PAGE_SIZE)) (Z.to_nat n) (q_mem q)) in
    u = c.1 ∧ r = if (c.2 =? 0)%nat then inr n else inl (- EFAULT)).
Proof.
  intros d pos W E0 Hg Hp Hs Hit Hc Hq n. unfold PAGE_SIZE, LLONG_MAX, INT_MAX in *.
  pose proof (pw_qset _ W). fold d in Hit.
  destruct (p_quantum_inv _ _ _ Hq) as (x & a & Hx & Ha & Ho).
  pose proof (p_item_order _ _ _ E0 W Hx) as Eo.
  pose proof (pw_items _ W) as Hi. rewrite Forall_lookup in Hi. specialize (Hi _ _ Hx).
  unfold item_ok in Hi. rewrite Ha, Eo in Hi. destruct Hi as [_ Hi].
  rewrite Forall_lookup in Hi. specialize (Hi _ _ Ho). simpl in Hi.
  change (Z.shiftl PAGE_SIZE 0) with 4096 in Hi.
  unfold scullp_read_locked. apply wp_bind, wp_get. cbv zeta. fold d pos.
  rewrite u64_id by lia. rewrite (proj2 (Z.ltb_ge _ _)) by lia.
  rewrite (u64_id (pos + count)) by lia. rewrite (u64_id (p_size d - pos)) by lia.
  assert (Hclip : (if p_size d <? pos + count then p_size d - pos else count) =
    Z.min count (p_size d - pos)) by (destruct (Z.ltb_spec (p_size d) (pos + count)); lia).
  rewrite Hclip. apply wp_bind. apply p_locate_wp; [unfold geom_ok, INT_MAX; lia|
    unfold LLONG_MAX; lia|unfold INT_MAX; lia|].
  pose proof (Z.mod_pos_bound (pos / 4096) (p_qset d) ltac:(lia)) as Hm.
  pose proof (Z.mod_pos_bound pos 4096 ltac:(lia)) as Hr.
  pose proof (Z.div_pos pos 4096 ltac:(lia) ltac:(lia)) as Hd.
  pose proof (Z.div_pos (pos / 4096) (p_qset d) ltac:(lia) ltac:(lia)) as Hd2.
  apply wp_bind. unfold scullp_follow. rewrite u32_id by lia.
  eapply wp_intro; [apply follow_there|].
  { apply lookup_lt_Some in Hx. simpl in Hx. fold d. lia. }
  simpl Nat.add. apply wp_bind. unfold p_get_item. apply wp_bind, wp_get. fold d. rewrite Hx.
  apply wp_ret. rewrite Ha. apply wp_bind. unfold p_get_slot.
  rewrite (proj2 (Z.ltb_ge _ _)) by lia. rewrite Ho. apply wp_ret.
  rewrite clip_count by (unfold INT_MAX; lia). fold n.
  apply wp_bind. unfold page_to_user, wp at 1.
  rewrite in_block_true by (rewrite ?Hi; unfold n; lia).
  destruct (copy_to_user _ _ _) as [u k]. simpl. destruct (k =? 0)%nat; wp_step; eauto.
Qed.

(** *** Nothing is freed under a mapping *)

(** From [h] to [h'] nothing is freed, and no reference to a page changes. *)
Definition heap_grows (h h' : H) : Prop :=
  live h ⊆ live h' ∧ ∀ l, l ∈ live h → page_count l h' = page_count l h.

Lemma heap_grows_refl h : heap_grows h h.
Proof. done. Qed.
Lemma heap_grows_trans h1 h2 h3 : heap_grows h1 h2 → heap_grows h2 h3 → heap_grows h1 h3.
Proof. intros [A B] [C D]. split; [set_solver|]. intros l Hl. rewrite D, B; set_solver. Qed.

Lemma heap_grows_kmalloc n h : heap_grows h (kmalloc n h).2.
Proof.
  destruct (kmalloc n h) as [r h'] eqn:E. split; [by eapply kmalloc_mono|].
  intros l _. by rewrite <- (kmalloc_count_law n h l), E.
Qed.

Lemma heap_grows_pages o h : heap_grows h (get_free_pages o h).2.
Proof.
  destruct (get_free_pages o h) as [[l|] h'] eqn:E; simpl.
  - destruct (gfp_some_law _ _ _ _ E) as (F & L & _ & C). split; [set_solver|].
    intros k Hk. apply C. set_solver.
  - destruct (gfp_none_law _ _ _ E) as [L C]. split; [set_solver|]. intros k _. apply C.
Qed.

(** [m] frees nothing and keeps the mapping count. *)
Definition keeps {A} (m : M st A) : Prop := ∀ s a s', m s = Ret (a, s') →
  heap_grows (sp_heap s) (sp_heap s') ∧ p_vmas (sp_dev s') = p_vmas (sp_dev s).

Lemma keeps_ret {A} (a : A) : keeps (mret a).
Proof. intros s ? s' [= -> ->]. done. Qed.
Lemma keeps_fault {A} f : keeps (mfault (A := A) f).
Proof. done. Qed.
Lemma keeps_get : keeps mget.
Proof. intros s ? s' [= -> ->]. done. Qed.
Lemma keeps_bind {A B} (m : M st A) (k : A → M st B) :
  keeps m → (∀ a, keeps (k a)) → keeps (m ≫= k).
Proof.
  intros Hm Hk s b s' E. unfold mbind, M_bind in E. destruct (m s) as [[a s1]|] eqn:E1; [|done].
  destruct (Hm _ _ _ E1) as [L1 V1]. destruct (Hk a _ _ _ E) as [L2 V2].
  split; [by eapply heap_grows_trans|congruence].
Qed.
Lemma keeps_modify g : (∀ s, sp_heap (g s) = sp_heap s ∧
  p_vmas (sp_dev (g s)) = p_vmas (sp_dev s)) → keeps (mmodify g).
Proof. intros Hg s a s' [= <- <-]. destruct (Hg s) as [-> ->]. done. Qed.
Lemma keeps_kmalloc n : keeps (sp_kmalloc n).
Proof.
  intros s a s' E. unfold sp_kmalloc in E. destruct (kmalloc n (sp_heap s)) as [r h] eqn:Ek.
  injection E as <- <-. split; [|done]. simpl. pose proof (heap_grows_kmalloc n (sp_heap s)) as G.
  by rewrite Ek in G.
Qed.
Lemma keeps_pages o : keeps (sp_get_pages o).
Proof.
  intros s a s' E. unfold sp_get_pages in E. destruct (get_free_pages o (sp_heap s)) as [r h] eqn:Ek.
  injection E as <- <-. split; [|done]. simpl. pose proof (heap_grows_pages o (sp_heap s)) as G.
  by rewrite Ek in G.
Qed.
Lemma keeps_lock b : keeps (sp_lock b).
Proof. intros s a s' E. unfold sp_lock in E. destruct b; [|case_match]; by simplify_eq. Qed.
Lemma keeps_unlock : keeps sp_unlock.
Proof. intros s a s' E. unfold sp_unlock in E. case_match; by simplify_eq. Qed.
Lemma keeps_set_data i a : keeps (p_set_data i a).
Proof. apply keeps_modify. intros s. split; [done|]. by destruct i. Qed.

End thms.

Create HintDb keeps.
#[export] Hint Resolve keeps_ret keeps_fault keeps_get keeps_kmalloc keeps_pages keeps_lock
  keeps_unlock keeps_set_data : keeps.
(** Walks through a handler built from the steps above. *)
Ltac keeps_auto :=
  repeat first
    [ progress (intros; cbv beta zeta)
    | solve [auto with keeps]
    | apply keeps_bind
    | apply keeps_modify; intros; (split; [|]; repeat case_match; reflexivity)
    | match goal with |- keeps (match ?x with _ => _ end) => destruct x end ].

Section mapped.
Context {H U : Type} `{PageAlloc H} `{UserMem U} `{ScullpSizes}.
Abbreviation st := (scullp_st H U).
Implicit Types s : st.

Lemma keeps_follow n : keeps (H := H) (U := U) (scullp_follow n).
Proof.
  unfold scullp_follow. generalize 0%nat. induction (Z.to_nat (u32 n)) as [|m IH]; intros i;
    simpl; keeps_auto; apply IH.
Qed.
Hint Resolve keeps_follow : keeps.

Lemma keeps_copy_out buf q off n : keeps (H := H) (U := U) (page_to_user buf q off n).
Proof.
  intros s a s' E. unfold page_to_user in E. case_match; [|done].
  destruct (copy_to_user _ _ _). by simplify_eq.
Qed.
Hint Resolve keeps_copy_out : keeps.

Lemma keeps_copy_in buf i a k q off n : keeps (H := H) (U := U) (user_to_pages buf i a k q off n).
Proof.
  intros s r s' E. unfold user_to_pages in E. case_match; [|done].
  destruct (copy_from_user _ _ _) as [cs m].
  assert (K : keeps (H := H) (U := U)
    (p_set_data i (Some (put_slot a (Z.to_nat k)
       (QuantumBlk (q_loc q) (list_inserts (Z.to_nat off) cs (q_mem q))))) ≫= λ _, mret m))
    by keeps_auto.
  by apply (K s r s').
Qed.
Hint Resolve keeps_copy_in : keeps.

Lemma keeps_read intr buf count : keeps (H := H) (U := U) (scullp_read intr buf count).
Proof.
  unfold scullp_read, page_shift, scullp_read_locked, p_locate, c_div, c_rem, p_get_item, p_get_slot.
  keeps_auto.
Qed.

Lemma keeps_write intr buf count : keeps (H := H) (U := U) (scullp_write intr buf count).
Proof.
  unfold scullp_write, page_shift, scullp_write_locked, p_locate, c_div, c_rem,
    p_ensure_array, p_ensure_pages, page_shift, p_get_item, p_get_slot.
  keeps_auto.
Qed.

(** *** The pages of the device *)

(** [m] frees nothing and keeps the pages of the device; the pages it adds
    were free and have the reference of their allocation only. *)
Record grows s s' : Prop := Grows {
  gr_heap : heap_grows (sp_heap s) (sp_heap s');
  gr_vmas : p_vmas (sp_dev s') = p_vmas (sp_dev s);
  gr_pages : ∀ l, l ∈ p_pages (sp_dev s) → l ∈ p_pages (sp_dev s');
  gr_new : ∀ l, l ∈ p_pages (sp_dev s') → l ∉ p_pages (sp_dev s) →
    (l ∉ live (sp_heap s)) ∧ l ∈ live (sp_heap s') ∧ page_count l (sp_heap s') = 1
}.

Lemma grows_refl s : grows s s.
Proof. split; [done|done|done|]. by intros l L N. Qed.
(** Only the heap, and only so that it grows. *)
Lemma grows_heap h' s : heap_grows (sp_heap s) h' → grows s (set_sheap h' s).
Proof. intros G. split; [exact G|done|done|]. by intros l L N. Qed.

Lemma grows_trans s1 s2 s3 : grows s1 s2 → grows s2 s3 → grows s1 s3.
Proof.
  intros [G1 V1 P1 N1] [G2 V2 P2 N2]. split; [by eapply heap_grows_trans|congruence|auto|].
  intros l L3 L1. destruct (decide (l ∈ p_pages (sp_dev s2))) as [L2|L2].
  - destruct (N1 l L2 L1) as (F & L & C). split; [done|]. destruct G2 as [S2 C2]. split; [by apply S2|].
    by rewrite C2.
  - destruct (N2 l L3 L2) as (F & L & C). split; [|done]. destruct G1 as [S1 _]. set_solver.
Qed.

(** [m] does so from [s]. *)
Definition growing {A} (m : M st A) s : Prop := ∀ a s', m s = Ret (a, s') → grows s s'.

Lemma growing_bind {A B} (m : M st A) (k : A → M st B) s :
  growing m s → (∀ a s', m s = Ret (a, s') → growing (k a) s') → growing (m ≫= k) s.
Proof.
  intros Hm Hk b s' (a & s1 & E1 & E2)%bind_inv. eapply grows_trans; [by eapply Hm|by eapply (Hk a s1)].
Qed.

(** Keeps the pages as they are. *)
Definition same_pages {A} (m : M st A) : Prop := ∀ s a s', m s = Ret (a, s') →
  p_pages (sp_dev s') = p_pages (sp_dev s).

Lemma same_growing {A} (m : M st A) s : keeps m → same_pages m → growing m s.
Proof.
  intros K P a s' E. destruct (K _ _ _ E) as [G V]. pose proof (P _ _ _ E) as Q.
  split; [done|done|by rewrite Q|by rewrite Q].
Qed.

Lemma same_ret {A} (a : A) : same_pages (mret a).
Proof. by intros s ? s' [= -> ->]. Qed.
Lemma same_fault {A} f : same_pages (mfault (A := A) f).
Proof. done. Qed.
Lemma same_get : same_pages mget.
Proof. by intros s ? s' [= -> ->]. Qed.
Lemma same_bind {A B} (m : M st A) (k : A → M st B) :
  same_pages m → (∀ a, same_pages (k a)) → same_pages (m ≫= k).
Proof.
  intros Hm Hk s b s' (a & s1 & E1 & E2)%bind_inv. by rewrite (Hk _ _ _ _ E2), (Hm _ _ _ E1).
Qed.
Lemma same_modify g : (∀ s, p_pages (sp_dev (g s)) = p_pages (sp_dev s)) → same_pages (mmodify g).
Proof. intros Hg s a s' [= <- <-]. apply Hg. Qed.
Lemma same_kmalloc n : same_pages (sp_kmalloc n).
Proof. intros s a s' E. unfold sp_kmalloc in E. destruct (kmalloc _ _). by simplify_eq. Qed.
Lemma same_lock b : same_pages (sp_lock b).
Proof. intros s a s' E. unfold sp_lock in E. repeat case_match; by simplify_eq. Qed.
Lemma same_unlock : same_pages sp_unlock.
Proof. intros s a s' E. unfold sp_unlock in E. repeat case_match; by simplify_eq. Qed.
Lemma same_copy_out buf q off n : same_pages (page_to_user buf q off n).
Proof.
  intros s a s' E. unfold page_to_user in E. case_match; [|done]. destruct (copy_to_user _ _ _). by simplify_eq.
Qed.

End mapped.

#[export] Hint Resolve same_ret same_fault same_get same_kmalloc same_lock same_unlock same_copy_out : keeps.
Ltac same_auto :=
  repeat first
    [ progress (intros; cbv beta zeta)
    | solve [auto with keeps]
    | apply same_bind
    | apply same_modify; intros; repeat case_match; reflexivity
    | match goal with |- same_pages (match ?x with _ => _ end) => destruct x end ].

Section mapped_pages.
Context {H U : Type} `{PageAlloc H} `{UserMem U} `{ScullpSizes}.
Abbreviation st := (scullp_st H U).
Implicit Types s : st.

(** A new list item has no pages. *)
Lemma same_follow n : same_pages (H := H) (U := U) (scullp_follow n).
Proof.
  unfold scullp_follow. generalize 0%nat. induction (Z.to_nat (u32 n)) as [|m IH]; intros i;
    simpl; [same_auto|].
  apply same_bind; [same_auto|]. intros s. destruct (_ <? _)%nat; [apply IH|].
  apply same_bind; [same_auto|]. intros [l|]; [|same_auto]. apply same_bind; [|intros; apply IH].
  apply same_modify. intros s1. unfold p_pages, p_items. simpl. f_equal. rewrite bind_app. simpl. apply app_nil_r.
Qed.
#[local] Hint Resolve same_follow : keeps.

Lemma same_read intr buf count : same_pages (H := H) (U := U) (scullp_read intr buf count).
Proof.
  unfold scullp_read, page_shift, scullp_read_locked, p_locate, c_div, c_rem, p_get_item, p_get_slot.
  same_auto.
Qed.

(** The data of an item replaced. *)
Lemma with_data_items d i x o : p_items d !! i = Some x →
  p_items (with_item_data d i o) = <[i := PItem (pi_loc x) (pi_order x) o]> (p_items d).
Proof.
  destruct i as [|i]; simpl; [by intros [= <-]|]. intros Hx. unfold p_items. simpl. f_equal.
  revert i Hx. induction (p_next d) as [|y r IH]; intros [|i] E; simpl in *; simplify_eq; [done|].
  f_equal. by apply IH.
Qed.

Lemma with_data_pages d i x o l : p_items d !! i = Some x →
  l ∈ p_pages (with_item_data d i o) →
  l ∈ item_pages (PItem (pi_loc x) (pi_order x) o) ∨ l ∈ p_pages d.
Proof.
  intros Hx. unfold p_pages. rewrite (with_data_items _ _ _ _ Hx), !list_elem_of_bind.
  intros (y & Hl & (j & Hj)%list_elem_of_lookup). apply list_lookup_insert_Some in Hj as [(-> & <- & _)|[_ Hj]].
  - by left.
  - right. exists y. split; [done|]. by eapply list_elem_of_lookup_2.
Qed.

Lemma with_data_keeps d i x o l : p_items d !! i = Some x →
  (∀ l, l ∈ item_pages x → l ∈ item_pages (PItem (pi_loc x) (pi_order x) o)) →
  l ∈ p_pages d → l ∈ p_pages (with_item_data d i o).
Proof.
  intros Hx Hsub. unfold p_pages. rewrite (with_data_items _ _ _ _ Hx), !list_elem_of_bind.
  pose proof (lookup_lt_Some _ _ _ Hx) as Hi.
  intros (y & Hl & (j & Hj)%list_elem_of_lookup). destruct (decide (j = i)) as [->|Hn].
  - rewrite Hx in Hj. injection Hj as <-. exists (PItem (pi_loc x) (pi_order x) o). split; [by apply Hsub|].
    eapply list_elem_of_lookup_2. by apply list_lookup_insert_eq.
  - exists y. split; [done|]. eapply (list_elem_of_lookup_2 _ j). by rewrite list_lookup_insert_ne.
Qed.

Lemma put_slot_pages_in a k q q0 l : a_slots a !! k = Some q0 →
  l ∈ a_slots (put_slot a k q) ≫= slot_locs ↔ l = q_loc q ∨ ∃ j o, j ≠ k ∧ a_slots a !! j = Some o ∧ l ∈ slot_locs o.
Proof.
  intros Hk. unfold put_slot. simpl. rewrite list_elem_of_bind. split.
  - intros (o & Hl & (j & Hj)%list_elem_of_lookup). apply list_lookup_insert_Some in Hj as [(<- & <- & _)|[Hn Hj]].
    + left. simpl in Hl. set_solver.
    + right. eauto 10.
  - intros [->|(j & o & Hn & Hj & Hl)].
    + exists (Some q). split; [simpl; set_solver|]. eapply (list_elem_of_lookup_2 _ k).
      apply list_lookup_insert_eq. by eapply lookup_lt_Some.
    + exists o. split; [done|]. eapply (list_elem_of_lookup_2 _ j). by rewrite list_lookup_insert_ne.
Qed.

Lemma slots_in a k q0 l : a_slots a !! k = Some q0 →
  l ∈ a_slots a ≫= slot_locs ↔ l ∈ slot_locs q0 ∨ ∃ j o, j ≠ k ∧ a_slots a !! j = Some o ∧ l ∈ slot_locs o.
Proof.
  intros Hk. rewrite list_elem_of_bind. split.
  - intros (o & Hl & (j & Hj)%list_elem_of_lookup). destruct (decide (j = k)) as [->|]; [|eauto 10].
    rewrite Hk in Hj. injection Hj as ->. by left.
  - intros [Hl|(j & o & _ & Hj & Hl)]; [exists q0|exists o]; (split; [done|]; by eapply list_elem_of_lookup_2).
Qed.

(** The data array of an item, at the time it was looked up. *)
Definition item_has (i : nat) (a : data_arr) s : Prop :=
  ∃ x, p_items (sp_dev s) !! i = Some x ∧ pi_data x = Some a.

(** An array added to an item without one, or a slot of the array filled or
    filled again. *)
Lemma set_data_grows i x a s h' :
  p_items (sp_dev s) !! i = Some x → heap_grows (sp_heap s) h' →
  (∀ l, l ∈ item_pages x → l ∈ a_slots a ≫= slot_locs) →
  (∀ l, l ∈ a_slots a ≫= slot_locs → l ∈ item_pages x ∨
    (l ∉ live (sp_heap s)) ∧ l ∈ live h' ∧ page_count l h' = 1) →
  grows s (set_pdev (with_item_data (sp_dev s) i (Some a)) (set_sheap h' s)).
Proof.
  intros Hx G Hk Hn. split; [exact G|by destruct i| |].
  - intros l. by apply (with_data_keeps _ _ x).
  - simpl. intros l Hl Hl'. destruct (with_data_pages _ _ _ _ _ Hx Hl) as [Hp|]; [|done].
    destruct (Hn l Hp) as [Hi|]; [|done]. destruct Hl'. unfold p_pages. rewrite list_elem_of_bind.
    exists x. split; [done|]. by eapply list_elem_of_lookup_2.
Qed.

Lemma set_data_has i x a s : p_items (sp_dev s) !! i = Some x →
  item_has i a (set_pdev (with_item_data (sp_dev s) i (Some a)) s).
Proof.
  intros Hx. exists (PItem (pi_loc x) (pi_order x) (Some a)). split; [|done]. simpl.
  rewrite (with_data_items _ _ _ _ Hx). apply list_lookup_insert_eq. by eapply lookup_lt_Some.
Qed.

Lemma get_item_inv i x s s' : p_get_item i s = Ret (x, s') → s' = s ∧ p_items (sp_dev s) !! i = Some x.
Proof.
  unfold p_get_item. intros (s0 & s1 & [= <- <-] & E)%bind_inv.
  destruct (p_items (sp_dev s) !! i); [by injection E as -> ->|discriminate E].
Qed.

Lemma get_slot_inv a k o s s' : p_get_slot a k s = Ret (o, s') →
  s' = s ∧ a_slots a !! Z.to_nat k = Some o.
Proof.
  unfold p_get_slot. destruct (_ <? _); [done|].
  destruct (a_slots a !! Z.to_nat k); intros E; [by injection E as -> ->|discriminate E].
Qed.

Lemma ensure_array_grows qset i s r s' : p_ensure_array qset i s = Ret (r, s') →
  grows s s' ∧ (∀ a, r = Some a → item_has i a s').
Proof.
  unfold p_ensure_array. intros (x & s1 & [-> Hx]%get_item_inv & E)%bind_inv.
  destruct (pi_data x) as [a|] eqn:Ea.
  { injection E as <- <-. split; [apply grows_refl|]. intros ? [= <-]. by exists x. }
  apply bind_inv in E as (p & s1 & E1 & E). unfold sp_kmalloc in E1.
  pose proof (heap_grows_kmalloc (u64 (qset * sizeof_ptr)) (sp_heap s)) as G.
  destruct (kmalloc _ _) as [p' h]. injection E1 as -> <-. simpl in G.
  destruct p as [l|]; [|injection E as <- <-; split; [by apply grows_heap|done]].
  apply bind_inv in E as ([] & s2 & [= <-] & [= <- <-]). split.
  - apply (set_data_grows i x); [done|done|..]; unfold item_pages; rewrite Ea; [set_solver|].
    simpl. intros k (o & Ho & ->%elem_of_replicate_inv)%list_elem_of_bind. by apply elem_of_nil in Ho.
  - intros a [= <-]. by apply (set_data_has i x _ (set_sheap h s)).
Qed.

Lemma ensure_pages_grows i a k s r s' : item_has i a s → p_ensure_pages i a k s = Ret (r, s') →
  grows s s' ∧ (∀ q, r = Some q → ∃ a', item_has i a' s' ∧ a_slots a' !! Z.to_nat k = Some (Some q) ∧
    put_slot a' (Z.to_nat k) q = put_slot a (Z.to_nat k) q ∧ ∀ j, j ≠ Z.to_nat k → a_slots a' !! j = a_slots a !! j).
Proof.
  intros (x & Hx & Ha). unfold p_ensure_pages. intros (o & s1 & [-> Ho]%get_slot_inv & E)%bind_inv.
  destruct o as [q|].
  { injection E as <- <-. split; [apply grows_refl|]. intros ? [= <-]. exists a. split; [by exists x|done]. }
  apply bind_inv in E as (y & s1 & [-> Hy]%get_item_inv & E). rewrite Hx in Hy. injection Hy as <-.
  apply bind_inv in E as (p & s1 & E1 & E). unfold sp_get_pages in E1.
  pose proof (heap_grows_pages (pi_order x) (sp_heap s)) as G.
  destruct (get_free_pages _ _) as [p' h] eqn:Eg. injection E1 as -> <-. simpl in G.
  destruct p as [l|]; [|injection E as <- <-; split; [by apply grows_heap|done]].
  apply bind_inv in E as (n & s1 & E1 & E). unfold page_shift in E1. destruct (_ && _); [|done].
  injection E1 as <- <-. apply bind_inv in E as ([] & s2 & [= <-] & [= <- <-]).
  set (q := QuantumBlk l _). destruct (gfp_some_law _ _ _ _ Eg) as (F & L & C & _). split.
  - apply (set_data_grows i x); [done|done|..]; unfold item_pages; rewrite Ha.
    + intros j Hj. apply (slots_in _ _ _ _ Ho) in Hj as [Hj|Hj]; [by apply elem_of_nil in Hj|].
      apply (put_slot_pages_in _ _ _ _ _ Ho). by right.
    + intros j [->|Hj]%(put_slot_pages_in _ _ _ _ _ Ho).
      * right. split; [exact F|]. split; [rewrite L; simpl; set_solver|exact C].
      * left. apply (slots_in _ _ _ _ Ho). by right.
  - intros ? [= <-]. exists (put_slot a (Z.to_nat k) q). split; [by apply (set_data_has i x _ (set_sheap h s))|].
    unfold put_slot. simpl. split; [apply list_lookup_insert_eq; by eapply lookup_lt_Some|].
    split; [by rewrite list_insert_insert_eq|]. intros j Hj. by apply list_lookup_insert_ne.
Qed.

Lemma user_to_pages_grows buf i a a' k q off n s : item_has i a' s →
  a_slots a' !! Z.to_nat k = Some (Some q) → (∀ j, j ≠ Z.to_nat k → a_slots a' !! j = a_slots a !! j) →
  (Z.to_nat k < length (a_slots a))%nat →
  growing (user_to_pages buf i a k q off n) s.
Proof.
  intros (x & Hx & Ha) Hk Hj Hlen r s' E. unfold user_to_pages in E. destruct (in_block _ _ _); [|done].
  destruct (copy_from_user _ _ _) as [cs m]. apply bind_inv in E as ([] & s1 & [= <-] & [= <- <-]).
  destruct (lookup_lt_is_Some_2 _ _ Hlen) as [q0 Hq0].
  change (grows s (set_pdev (with_item_data (sp_dev s) i (Some (put_slot a (Z.to_nat k)
    (QuantumBlk (q_loc q) (list_inserts (Z.to_nat off) cs (q_mem q)))))) (set_sheap (sp_heap s) s))).
  apply (set_data_grows i x); [done|done|..]; unfold item_pages; rewrite Ha; intros l.
  - intros [Hl|(j & o & Hn & Ho & Hl)]%(slots_in _ _ _ _ Hk); apply (put_slot_pages_in _ _ _ _ _ Hq0).
    + left. simpl in Hl. set_solver.
    + right. exists j, o. by rewrite <- Hj.
  - intros [->|(j & o & Hn & Ho & Hl)]%(put_slot_pages_in _ _ _ _ _ Hq0); left; apply (slots_in _ _ _ _ Hk).
    + left. simpl. set_solver.
    + right. exists j, o. by rewrite Hj.
Qed.

Lemma write_locked_growing quantum qset buf count s : growing (scullp_write_locked (H := H) (U := U) quantum qset buf count) s.
Proof.
  unfold scullp_write_locked. apply growing_bind; [apply same_growing; auto with keeps|]. intros s0 s1 _.
  apply growing_bind.
  { unfold p_locate, c_div, c_rem. apply same_growing; [keeps_auto|same_auto]. }
  intros [[item s_pos] q_pos] s2 _. apply growing_bind; [apply same_growing; [apply keeps_follow|apply same_follow]|].
  intros i s3 _. apply growing_bind; [intros r s4 E; exact (proj1 (ensure_array_grows _ _ _ _ _ E))|].
  intros [a|] s4 E4; [|apply same_growing; auto with keeps].
  pose proof (proj2 (ensure_array_grows _ _ _ _ _ E4) a eq_refl) as Ha.
  apply growing_bind; [intros r s5 E; exact (proj1 (ensure_pages_grows _ _ _ _ _ _ Ha E))|].
  intros [q|] s5 E5; [|apply same_growing; auto with keeps]. cbv zeta.
  destruct (proj2 (ensure_pages_grows _ _ _ _ _ _ Ha E5) q eq_refl) as (a' & Ha' & Hk & _ & Hj).
  assert (Hlen : (Z.to_nat s_pos < length (a_slots a))%nat).
  { unfold p_ensure_pages in E5. apply bind_inv in E5 as (o & s6 & [_ Ho]%get_slot_inv & _).
    by eapply lookup_lt_Some. }
  apply growing_bind; [by eapply user_to_pages_grows|]. intros uncopied s6 _.
  apply same_growing; [destruct (uncopied =? 0)%nat; keeps_auto|destruct (uncopied =? 0)%nat; same_auto].
Qed.

Lemma write_growing intr buf count s : growing (scullp_write (H := H) (U := U) intr buf count) s.
Proof.
  unfold scullp_write, page_shift. apply growing_bind; [apply same_growing; auto with keeps|]. intros s0 s1 _.
  apply growing_bind; [apply same_growing; [keeps_auto|same_auto]|]. intros n s2 _. cbv zeta.
  apply growing_bind; [apply same_growing; auto with keeps|]. intros [] s3 _; [apply same_growing; auto with keeps|].
  apply growing_bind; [apply write_locked_growing|]. intros r s4 _.
  apply same_growing; [keeps_auto|same_auto].
Qed.

Lemma trim_mapped s : p_vmas (sp_dev s) ≠ 0 → scullp_trim s = Ret (- EBUSY, s).
Proof.
  intros E. unfold scullp_trim, mbind, M_bind, mget. by rewrite (proj2 (Z.eqb_neq _ _) E).
Qed.

Lemma open_mapped s intr f : p_vmas (sp_dev s) ≠ 0 → growing (scullp_open intr f) s.
Proof.
  intros Hv. unfold scullp_open. destruct (opened_wronly f); [|apply same_growing; auto with keeps].
  apply growing_bind; [apply same_growing; auto with keeps|]. intros b s1 E1.
  destruct (keeps_lock intr s b s1 E1) as [_ V1].
  destruct b; [apply same_growing; auto with keeps|]. apply growing_bind.
  - intros r s2 E. rewrite trim_mapped in E by congruence. injection E as <- <-. apply grows_refl.
  - intros r s2 _. apply same_growing; [keeps_auto|same_auto].
Qed.

(** What the fault handler hands out, whatever the device looks like. *)
Lemma nopage_walk_in qset (items : list p_item) off x off' :
  nopage_walk qset items off = (Some x, off') → x ∈ items.
Proof.
  revert off. induction items as [|y r IH]; intros off E; simpl in E; [done|].
  destruct (_ <=? _); [right; by eapply IH|]. injection E as -> _. left.
Qed.

Lemma nopage_run a b c s r s' : scullp_vma_nopage a b c s = Ret (r, s') →
  s' = s ∧ r.2 = None ∨ ∃ l, r.2 = Some l ∧ l ∈ p_pages (sp_dev s) ∧ s' = page_got l s.
Proof.
  unfold scullp_vma_nopage. intros (lk & s1 & E1 & E)%bind_inv. unfold sp_lock in E1.
  destruct (p_mutex (sp_dev s)) eqn:L; [done|]. injection E1 as _ <-. cbv zeta in E.
  apply bind_inv in E as (s0 & s1 & [= <- <-] & E).
  apply bind_inv in E as (r1 & s1 & E1 & E). apply bind_inv in E as ([] & s2 & E2 & [= <- <-]).
  set (s1' := set_pdev _ s) in E1.
  assert (D : s1 = s1' ∧ r1.2 = None ∨ ∃ l, r1.2 = Some l ∧ l ∈ p_pages (sp_dev s) ∧ s1 = page_got l s1').
  { clear E2. destruct (_ <=? _); [left; by injection E1 as <- <-|].
    destruct (nopage_walk _ _ _) as [[x|] off] eqn:Ew; [|left; by injection E1 as <- <-].
    apply nopage_walk_in in Ew. destruct (pi_data x) as [arr|] eqn:Ea; [|left; by injection E1 as <- <-].
    apply bind_inv in E1 as (o & s3 & [-> Ho]%get_slot_inv & E1).
    destruct o as [q|]; [|left; by injection E1 as <- <-]. apply bind_inv in E1 as ([] & s3 & [= <-] & [= <- <-]).
    right. exists (q_loc q). split; [done|]. split; [|done]. unfold p_pages. rewrite list_elem_of_bind.
    exists x. split; [|exact Ew]. unfold item_pages. rewrite Ea, list_elem_of_bind. exists (Some q).
    split; [simpl; set_solver|by eapply list_elem_of_lookup_2]. }
  unfold sp_unlock in E2. destruct D as [[-> ->]|(l & -> & Hl & ->)].
  - left. simpl in E2. injection E2 as <-. split; [exact (relock s L)|done].
  - right. exists l. split; [done|]. split; [done|]. simpl in E2. injection E2 as <-. exact (relock (page_got l s) L).
Qed.

(** *** Histories of a mapped device *)

(** The calls a process can make on the device, page faults apart. *)
Inductive pcall :=
  | POpen (intr : bool) (f_flags : Z)
  | PRead (intr : bool) (buf count : Z)
  | PWrite (intr : bool) (buf count : Z)
  | PSeek (off whence : Z)
  | PMmap
  | PVmaOpen
  | PVmaClose.

Definition run_pcall (c : pcall) : M st unit :=
  match c with
  | POpen intr f => scullp_open intr f ≫= λ _, mret tt
  | PRead intr buf n => scullp_read intr buf n ≫= λ _, mret tt
  | PWrite intr buf n => scullp_write intr buf n ≫= λ _, mret tt
  | PSeek off w => scullp_llseek off w ≫= λ _, mret tt
  | PMmap => scullp_mmap ≫= λ _, mret tt
  | PVmaOpen => scullp_vma_open
  | PVmaClose => scullp_vma_close
  end.

(** A step with the page table entries of the mappings, by the page they point
    to: the kernel enters the page a fault hands out, copies an entry for a
    forked process with a reference of its own, and drops the reference of an
    entry it removes. *)
Inductive mm_step : st * list loc → st * list loc → Prop :=
  | MmCall c s s' p : run_pcall c s = Ret (tt, s') → mm_step (s, p) (s', p)
  | MmFault a b c s r s' p : scullp_vma_nopage a b c s = Ret (r, s') →
      mm_step (s, p) (s', from_option (λ l, [l]) [] r.2 ++ p)
  | MmFork l s p : l ∈ p → mm_step (s, p) (page_got l s, l :: p)
  | MmUnmap l s s' p p' : sp_put_page l s = Ret (tt, s') → mm_step (s, p ++ l :: p') (s', p ++ p').

(** A step made while the device is mapped. *)
Definition mapped_step (x y : st * list loc) : Prop := p_vmas (sp_dev x.1) ≠ 0 ∧ mm_step x y.

Definition entries (l : loc) (p : list loc) : Z := Z.of_nat (count_occ Pos.eq_dec p l).

(** Every page of the device is allocated, with one reference of its own and
    one for each entry; the entries are pages of the device. *)
Record counted s (p : list loc) : Prop := Counted {
  ct_in : ∀ l, l ∈ p → l ∈ p_pages (sp_dev s);
  ct_live : ∀ l, l ∈ p_pages (sp_dev s) → l ∈ live (sp_heap s);
  ct_count : ∀ l, l ∈ p_pages (sp_dev s) → page_count l (sp_heap s) = 1 + entries l p
}.

Lemma entries_out l p : l ∉ p → entries l p = 0.
Proof.
  intros Hl. unfold entries. rewrite (proj1 (count_occ_not_In Pos.eq_dec p l)); [done|].
  by rewrite <- list_elem_of_In.
Qed.

Lemma entries_cons l k p : entries l (k :: p) = entries l p + (if decide (l = k) then 1 else 0).
Proof. unfold entries. simpl. destruct (Pos.eq_dec k l), (decide (l = k)); subst; try done; lia. Qed.

Lemma entries_mid l k p p' : entries l (p ++ k :: p') = entries l (p ++ p') + (if decide (l = k) then 1 else 0).
Proof.
  induction p as [|x p IH]; simpl; [apply entries_cons|]. rewrite !entries_cons, IH. lia.
Qed.

Lemma counted_grows s s' p : grows s s' → counted s p → counted s' p.
Proof.
  intros [[GL GC] _ GP GN] [I L C].
  split.
  - auto.
  - intros l Hl. destruct (decide (l ∈ p_pages (sp_dev s))) as [Ho|Ho]; [by apply GL, L|].
    by destruct (GN l Hl Ho) as (_ & ? & _).
  - intros l Hl. destruct (decide (l ∈ p_pages (sp_dev s))) as [Ho|Ho].
    + rewrite GC by auto. auto.
    + destruct (GN l Hl Ho) as (F & _ & ->). rewrite entries_out; [done|]. intros Hp. apply F, L, I, Hp.
Qed.

Lemma counted_got l s p : l ∈ p_pages (sp_dev s) → counted s p → counted (page_got l s) (l :: p).
Proof.
  intros Hl [I L C]. destruct (get_page_law l (sp_heap s)) as [GL GC]. split; simpl.
  - intros k [->|Hk]%elem_of_cons; auto.
  - intros k Hk. rewrite GL. auto.
  - intros k Hk. rewrite GC, entries_cons, C by done. lia.
Qed.

Lemma counted_put l s s' p p' : sp_put_page l s = Ret (tt, s') →
  counted s (p ++ l :: p') → sp_dev s' = sp_dev s ∧ counted s' (p ++ p').
Proof.
  intros E [I L C]. unfold sp_put_page, sp_free_pages in E. case_bool_decide; [|done]. injection E as <-.
  split; [done|]. destruct (free_pages_law l 0 (sp_heap s)) as [FL FC].
  assert (Hl : l ∈ p_pages (sp_dev s)) by (apply I; set_solver).
  assert (Hc : page_count l (sp_heap s) ≠ 1).
  { rewrite (C l Hl), entries_mid. unfold entries. case_decide; lia. }
  split; simpl.
  - intros k Hk. apply I. set_solver.
  - intros k Hk. rewrite FL, (proj2 (Z.eqb_neq _ _) Hc). auto.
  - intros k Hk. rewrite FC, (C k Hk), entries_mid. lia.
Qed.

Lemma call_keeps_pages c s s' p : p_vmas (sp_dev s) ≠ 0 → run_pcall c s = Ret (tt, s') →
  counted s p → counted s' p ∧ ∀ l, l ∈ p_pages (sp_dev s) → l ∈ p_pages (sp_dev s').
Proof.
  intros Hv E Ct. assert (K : ∀ m : M st Z, growing m s → (m ≫= λ _, mret tt) s = Ret (tt, s') →
    counted s' p ∧ ∀ l, l ∈ p_pages (sp_dev s) → l ∈ p_pages (sp_dev s')).
  { intros m Hm (r & s1 & E1 & [= <-])%bind_inv. pose proof (Hm _ _ E1) as G.
    split; [by eapply counted_grows|apply G]. }
  destruct c; simpl in E.
  - apply K in E; [done|by apply open_mapped].
  - apply K in E; [done|]. apply same_growing; [apply keeps_read|apply same_read].
  - apply K in E; [done|apply write_growing].
  - apply K in E; [done|]. unfold scullp_llseek. apply same_growing; [keeps_auto|same_auto].
  - apply bind_inv in E as (r & s1 & E & [= <-]). unfold scullp_mmap in E.
    apply bind_inv in E as (s0 & s2 & [= <- <-] & E). destruct (negb _); [injection E as _ <-; done|].
    apply bind_inv in E as ([] & s3 & [= <-] & [= _ <-]). destruct Ct. done.
  - injection E as <-. by destruct Ct.
  - injection E as <-. by destruct Ct.
Qed.

Lemma mapped_step_counted s p s' p' : mapped_step (s, p) (s', p') → counted s p →
  counted s' p' ∧ ∀ l, l ∈ p_pages (sp_dev s) → l ∈ p_pages (sp_dev s').
Proof.
  intros [Hv E] Ct. simpl in Hv. inversion E; subst; clear E.
  - by eapply call_keeps_pages.
  - match goal with E : scullp_vma_nopage _ _ _ _ = _ |- _ => apply nopage_run in E as [[-> ->]|(l & -> & Hl & ->)] end.
    + done.
    + split; [by apply counted_got|done].
  - split; [|done]. apply counted_got; [|done]. by apply (ct_in _ _ Ct).
  - match goal with E : sp_put_page _ _ = _ |- _ => destruct (counted_put _ _ _ _ _ E Ct) as [Ed C'] end.
    rewrite Ed. done.
Qed.

(** ** The properties *)

(** C24: the fault handler of a mapping never faults itself and hands out, for
    an address below the device size, the page of item [page / qset], slot
    [page mod qset], with one more reference to it; nothing else changes.  In a
    hole, past the end of the list or of the device it hands out no page,
    changes nothing and answers VM_FAULT_NOPAGE.  Those are the item and the
    slot that read and write compute for that position, when a quantum is one
    page, a quantum set at most INT_MAX bytes and the item number an int. *)
Theorem scullp_nopage_finds_page s address vm_start vm_pgoff :
  p_wf (sp_dev s) → p_mutex (sp_dev s) = false →
  let off := fault_offset address vm_start vm_pgoff in
  wp (scullp_vma_nopage address vm_start vm_pgoff) s (λ r s',
    match (if off <? p_size (sp_dev s) then p_quantum (sp_dev s) (off / PAGE_SIZE) else None) with
    | Some q => r = (0, Some (q_loc q)) ∧
        s' = ScullpSt (sp_params s) (sp_dev s) (get_page (q_loc q) (sp_heap s)) (sp_user s) (sp_pos s)
    | None => r = (VM_FAULT_NOPAGE, None) ∧ s' = s
    end) ∧
  (geom_ok PAGE_SIZE (p_qset (sp_dev s)) → p_order (sp_dev s) = 0 →
    off <= LLONG_MAX → off / PAGE_SIZE / p_qset (sp_dev s) <= INT_MAX →
    let quantum := s32 (u64 (Z.shiftl PAGE_SIZE (p_order (sp_dev s)))) in
    wp (p_locate quantum (p_qset (sp_dev s)) off) s (λ r s', s' = s ∧
      r = (off / PAGE_SIZE / p_qset (sp_dev s), off / PAGE_SIZE mod p_qset (sp_dev s), off mod PAGE_SIZE))).
Proof.
  intros W L off. split; [by apply nopage_wp|].
  intros G E Ho Hi. rewrite E. apply p_locate_wp; [done| |done..].
  unfold off, fault_offset in *. pose proof (u64_range (u64 (address - vm_start) + u64 (Z.shiftl vm_pgoff PAGE_SHIFT))).
  lia.
Qed.

(** Read copies from that same block: on a device of order 0, with a page
    at the file position, scullp_read returns the bytes of that page from the
    position on, up to the end of the page, of the file and of the request,
    advances the position by as much and releases the mutex; a failed copy
    gives -EFAULT and leaves the position. *)
Theorem scullp_read_copies_page s q buf count :
  let d := sp_dev s in let pos := sp_pos s in
  p_wf d → p_mutex d = false → p_order d = 0 → p_qset d * PAGE_SIZE <= INT_MAX →
  0 <= pos < p_size d → p_size d <= LLONG_MAX → pos / PAGE_SIZE / p_qset d <= INT_MAX →
  0 <= count <= LLONG_MAX → p_quantum d (pos / PAGE_SIZE) = Some q →
  let n := Z.min (Z.min count (p_size d - pos)) (PAGE_SIZE - pos mod PAGE_SIZE) in
  wp (scullp_read false buf count) s (λ r s', sp_dev s' = d ∧ sp_heap s' = sp_heap s ∧
    (r = - EFAULT ∧ sp_pos s' = pos ∨
     r = n ∧ sp_pos s' = pos + n ∧ user_bytes (sp_user s') buf (Z.to_nat n) =
       slice (Z.to_nat (pos mod PAGE_SIZE)) (Z.to_nat n) (q_mem q))).
Proof.
  intros d pos W L E0 Hg Hp Hs Hit Hc Hq n.
  assert (Hlen : Z.of_nat (length (q_mem q)) = PAGE_SIZE).
  { destruct (p_quantum_inv _ _ _ Hq) as (x & a & Hx & Ha & Ho).
    pose proof (pw_items _ W) as Hi. rewrite Forall_lookup in Hi. specialize (Hi _ _ Hx).
    unfold item_ok in Hi. rewrite Ha, (p_item_order _ _ _ E0 W Hx) in Hi. destruct Hi as [_ Hi].
    rewrite Forall_lookup in Hi. rewrite (Hi _ _ Ho). by rewrite Z2Nat.id. }
  unfold scullp_read. apply wp_bind, wp_get. fold d. rewrite E0. unfold page_shift. simpl.
  wp_step. wp_step. cbv zeta. change (s32 (u64 4096)) with PAGE_SIZE.
  apply wp_bind, slock_wp; [done|]. cbv beta iota. apply wp_bind.
  set (s1 := set_pdev _ _).
  eapply wp_mono; [|apply (read_hit_wp s1 q buf count); [by destruct W|done..]].
  unfold PAGE_SIZE, LLONG_MAX in *. pose proof (Z.mod_pos_bound pos 4096 ltac:(lia)) as Hm.
  intros r s2 (u & -> & Hu & Hr). cbv beta in *. apply wp_bind, sunlock_wp; [done|].
  change (sp_pos s1) with pos in *. change (p_size (sp_dev s1)) with (p_size d) in *.
  change (sp_user s1) with (sp_user s) in *. fold n in Hu, Hr.
  assert (Ed : with_pmutex (with_pmutex d true) false = d) by (destruct d; simpl in *; by subst).
  destruct (copy_to_user _ _ _) as [u' k] eqn:EC. simpl in Hu, Hr. subst u'.
  destruct (Nat.eqb_spec k 0) as [->|]; subst r; wp_steps.
  - split; [exact Ed|]. split; [done|]. right. fold d pos. unfold n in *. wrap_simpl.
    split_and!; [done..|]. apply ctu_ok_law in EC.
    rewrite slice_length in EC by lia. exact EC.
  - split; [exact Ed|]. split; [done|]. by left.
Qed.

(** Trimming the device returns every page, array and list item to the
    kernel, when nobody else holds a page, and resets it to the module's
    parameters, unless it is mapped: then it answers -EBUSY and changes nothing. *)
Theorem scullp_trim_unless_mapped s : p_wf (sp_dev s) → p_owns s →
  wp scullp_trim s (λ r s',
    if p_vmas (sp_dev s) =? 0 then
      r = 0 ∧ sp_dev s' = p_trimmed s ∧
      ((∀ l, l ∈ p_pages (sp_dev s) → page_count l (sp_heap s) = 1) →
        live (sp_heap s') = live (sp_heap s) ∖ list_to_set (p_locs (sp_dev s)))
    else r = - EBUSY ∧ s' = s).
Proof.
  intros W O. eapply wp_mono; [|by apply p_trim_wp]. intros r s'. cbv beta.
  destruct (_ =? 0); [|done]. intros (E & D & F). split_and!; [done..|apply F].
Qed.

(** C25: while the device is mapped, whatever calls are made on it (each run to
    its end), pages faulted in, page table entries copied and removed: every
    page of the device stays a page of the device and allocated, its reference
    count is one more than the entries pointing to it, and every entry points
    to a page of the device.  So the removal of an entry frees no page. *)
Theorem scullp_mapped_pages_stay s s' p :
  (∀ l, l ∈ p_pages (sp_dev s) → l ∈ live (sp_heap s) ∧ page_count l (sp_heap s) = 1) →
  rtc mapped_step (s, []) (s', p) →
  (∀ l, l ∈ p_pages (sp_dev s) → l ∈ p_pages (sp_dev s')) ∧
  (∀ l, l ∈ p_pages (sp_dev s') → l ∈ live (sp_heap s') ∧ page_count l (sp_heap s') = 1 + entries l p) ∧
  (∀ l, l ∈ p → l ∈ p_pages (sp_dev s')).
Proof.
  intros I R. assert (Ct : counted s []).
  { split; [by intros l ?%elem_of_nil|apply I|]. intros l Hl. apply (I l Hl). }
  clear I. assert (G : counted s' p ∧ ∀ l, l ∈ p_pages (sp_dev s) → l ∈ p_pages (sp_dev s')).
  { remember (s, []) as x eqn:Ex. remember (s', p) as y eqn:Ey.
    assert (G : counted y.1 y.2 ∧ ∀ l, l ∈ p_pages (sp_dev x.1) → l ∈ p_pages (sp_dev y.1)); [|by subst].
    assert (Ct' : counted x.1 x.2) by (by subst). clear -R Ct'.
    induction R as [x|[s1 p1] [s2 p2] y Hs R IH]; [done|].
    destruct (mapped_step_counted _ _ _ _ Hs Ct') as [C2 P2]. destruct (IH C2) as [C3 P3].
    split; [done|]. auto. }
  destruct G as [[GI GL GC] P]. split_and!; auto.
Qed.

End mapped_pages.

(** ** Witnesses and closed runs *)

Section examples.
#[local] Instance demo_sizes : ScullpSizes := {| sizeof_scullp_dev := 256 |}.
Abbreviation st := (scullp_st paged umap).

Definition page_a : quantum_blk := QuantumBlk 2 (replicate 4096 (Some x61)).
Definition demo_dev (vmas : Z) : scullp_dev :=
  ScullpDev (Some (DataArr 1 [Some page_a; None])) [] vmas 0 2 4096 false.
Definition demo_user : umap := umap_store ∅ 0 (replicate 8 (Some x00)).
Definition demo (vmas pos : Z) : st :=
  ScullpSt (ScullpParams 0 2) (demo_dev vmas) (Paged (Bump {[1%positive; 2%positive]} 3 []) {[2%positive := 1]}) demo_user pos.

Lemma scullp_demo_wf v : p_wf (demo_dev v).
Proof.
  split; [unfold INT_MAX; simpl; lia|simpl; lia| |constructor|].
  - constructor; [|constructor]. unfold item_ok. simpl. split; [done|].
    constructor; [|constructor; [done|constructor]]. unfold slot_ok, page_a.
    cbn [q_mem]. rewrite length_replicate. done.
  - vm_compute. repeat constructor; set_solver.
Qed.

Lemma demo_owns v p : p_owns (demo v p).
Proof. intros l. unfold demo, demo_dev, p_locs. simpl. set_solver. Qed.

Lemma demo_counts v p l : l ∈ p_pages (sp_dev (demo v p)) → page_count l (sp_heap (demo v p)) = 1.
Proof.
  change (p_pages (sp_dev (demo v p))) with [2%positive]. intros ->%list_elem_of_singleton. reflexivity.
Qed.

Definition res {A} (o : outcome (A * st)) : option A :=
  match o with Ret (a, _) => Some a | Fault _ => None end.

Lemma scullp_nopage_finds_page_witness :
  res (scullp_vma_nopage 4100 4096 0 (demo 1 0)) = Some (0, Some 2%positive) ∧
  wp (scullp_vma_nopage 4100 4096 0) (demo 1 0) (λ r s',
    r = (0, Some 2%positive) ∧ s' = page_got 2%positive (demo 1 0)) ∧
  wp (p_locate 4096 2 4) (demo 1 0) (λ r s', s' = demo 1 0 ∧ r = (0, 0, 4)).
Proof.
  split; [vm_compute; reflexivity|].
  destruct (scullp_nopage_finds_page (demo 1 0) 4100 4096 0 (scullp_demo_wf 1) eq_refl) as [F L].
  split; [exact F|].
  eapply wp_mono; [|apply L; [unfold geom_ok, PAGE_SIZE, INT_MAX; simpl; lia|reflexivity|vm_compute; discriminate..]].
  intros r s' [-> ->]. split; reflexivity.
Defined.

Lemma scullp_read_copies_page_witness :
  wp (scullp_read false 0 8) (demo 0 4092) (λ r s', sp_dev s' = demo_dev 0).
Proof.
  eapply wp_mono; [|apply (scullp_read_copies_page (demo 0 4092) page_a 0 8 (scullp_demo_wf 0) eq_refl eq_refl);
    unfold INT_MAX, LLONG_MAX, PAGE_SIZE; simpl; try lia; vm_compute; congruence].
  intros r s' [E _]. exact E.
Defined.

Lemma scullp_trim_unless_mapped_witness :
  wp scullp_trim (demo 0 0) (λ r s', r = 0 ∧ sp_dev s' = p_trimmed (demo 0 0) ∧
    live (sp_heap s') = live (sp_heap (demo 0 0)) ∖ list_to_set (p_locs (demo_dev 0))) ∧
  wp scullp_trim (demo 1 0) (λ r s', r = - EBUSY ∧ s' = demo 1 0).
Proof.
  split.
  - eapply wp_mono; [|exact (scullp_trim_unless_mapped (demo 0 0) (scullp_demo_wf 0) (demo_owns 0 0))].
    intros r s' (E & D & L). split; [exact E|]. split; [exact D|]. apply L. exact (demo_counts 0 0).
  - exact (scullp_trim_unless_mapped (demo 1 0) (scullp_demo_wf 1) (demo_owns 1 0)).
Defined.

(** A fault, a fork, a write-only open and one unmapping: one entry is left. *)
Lemma scullp_mapped_pages_stay_witness : ∃ s',
  rtc mapped_step (demo 1 0, []) (s', [2%positive]) ∧
  2%positive ∈ live (sp_heap s') ∧ page_count 2%positive (sp_heap s') = 2.
Proof.
  set (s1 := page_got 2%positive (demo 1 0)). set (s2 := page_got 2%positive s1).
  set (s3 := set_sheap (free_pages 2%positive 0 (sp_heap s2)) s2).
  assert (R : rtc mapped_step (demo 1 0, []) (s3, [2%positive])).
  { eapply (rtc_l _ _ (s1, [2%positive])).
    { split; [done|]. apply (MmFault 4100 4096 0 (demo 1 0) (0, Some 2%positive) s1 []). vm_compute. reflexivity. }
    eapply (rtc_l _ _ (s2, [2%positive; 2%positive])).
    { split; [done|]. apply MmFork. left. }
    eapply (rtc_l _ _ (s2, [2%positive; 2%positive])).
    { split; [done|]. apply (MmCall (POpen false 1)). vm_compute. reflexivity. }
    eapply rtc_l; [|apply rtc_refl].
    split; [done|]. apply (MmUnmap 2%positive s2 s3 [] [2%positive]). vm_compute. reflexivity. }
  exists s3. split; [exact R|].
  refine (proj1 (proj2 (scullp_mapped_pages_stay (demo 1 0) s3 [2%positive] _ R)) 2%positive _).
  - intros l Hl. split; [|by apply demo_counts]. change (p_pages (sp_dev (demo 1 0))) with [2%positive] in Hl.
    apply list_elem_of_singleton in Hl as ->. vm_compute. reflexivity.
  - change (p_pages (sp_dev s3)) with [2%positive]. left.
Defined.

(** With order 1 the second list item gets single pages for two-page quanta:
    a write to the second page of the quantum runs past its block. *)
Definition order1 (pos : Z) (oom : list bool) : st :=
  ScullpSt (ScullpParams 1 1) (ScullpDev None [] 0 1 1 0 false) (Paged (Bump ∅ 1 oom) ∅) demo_user pos.

Example scullp_second_item_overflows :
  scullp_write false 0 4 (order1 (8192 + 4096) []) = Fault OutOfBounds ∧
  res (scullp_write false 0 4 (order1 4096 [])) = Some 4.
Proof. split; vm_compute; reflexivity. Qed.

(** scullp_follow clears the new item without testing the allocation. *)
Example scullp_follow_null_deref :
  scullp_write false 0 4 (order1 8192 [true]) = Fault NullDeref.
Proof. vm_compute. reflexivity. Qed.

End examples.
