(* ===== verification/BlkDev.v ===== *)
(** The RAM-backed block drivers (src/m_modules/blk_dev): blkdev.c, sblkdev.c,
    mq-blkdev.c and the 2.6-style rd.c.

    A request is a direction, a start sector and the buffers of its segments;
    serving it copies between the buffers and the device's block.  The block
    layer (tag sets, queues, disks, major numbers) is kernel code: it is the
    interface [BlkLayer], a set of live objects with its documented laws. *)
From Stdlib Require Import ZArith Lia.
From stdpp Require Import base list gmap.
From S2P Require Import Prelude Kernel.

Definition SECTOR_SHIFT := 9.
Definition WRITE := 1.
Definition READ := 0.
Definition READA := 2.
Definition BLK_STS_OK := 0.
Definition BLK_STS_IOERR := 10.

Record request := Request {
  rq_dir : Z;                    (* rq_data_dir *)
  rq_pos : Z;                    (* blk_rq_pos, in sectors *)
  rq_segs : list (list cell)     (* the segments' buffers *)
}.

(** struct block_dev / sblkdev_device_s without the block-layer handles. *)
Record block_dev := BlockDev {
  capacity : Z;
  bdata : option (loc * list cell)
}.

(** What do_request threads through its loop. *)
Record rq_st := RqSt { rs_dev : block_dev; rs_pos : Z; rs_bytes : Z }.

Definition dev_size (d : block_dev) : Z := s64 (u64 (Z.shiftl (capacity d) SECTOR_SHIFT)).

(** memcpy between [dev->data + pos] and a buffer, and the counters. *)
Definition copy_segment (write : bool) (b_len : Z) (buf : list cell) : M rq_st (list cell) := λ s,
  match bdata (rs_dev s) with
  | None => Fault NullDeref
  | Some (l, mem) =>
      let pos := rs_pos s in
      if (0 <=? pos) && (pos + b_len <=? Z.of_nat (length mem)) &&
         (b_len <=? Z.of_nat (length buf)) then
        let n := Z.to_nat b_len in
        let mem' := if write then list_inserts (Z.to_nat pos) (take n buf) mem else mem in
        let buf' := if write then buf
                    else list_inserts 0 (slice (Z.to_nat pos) n mem) buf in
        Ret (buf', RqSt (BlockDev (capacity (rs_dev s)) (Some (l, mem')))
                     (s64 (pos + b_len)) (u32 (rs_bytes s + b_len)))
      else Fault OutOfBounds
  end.

(** [rq_for_each_segment] *)
Fixpoint for_each_segment (body : list cell → M rq_st (list cell)) (segs : list (list cell))
    : M rq_st (list (list cell)) :=
  match segs with
  | [] => mret []
  | b :: r => b' ← body b; r' ← for_each_segment body r; mret (b' :: r')
  end.

(** Runs the loop of a request on a device: the device, the buffers and the
    number of bytes. *)
Definition serve (body : list cell → M rq_st (list cell)) (rq : request) (d : block_dev)
    : outcome (Z * (block_dev * list (list cell))) :=
  let pos := s64 (u64 (Z.shiftl (rq_pos rq) SECTOR_SHIFT)) in
  match for_each_segment body (rq_segs rq) (RqSt d pos 0) with
  | Ret (segs, s) => Ret (rs_bytes s, (rs_dev s, segs))
  | Fault f => Fault f
  end.

(** [if ((pos + b_len) > dev_size) b_len = (unsigned long)(dev_size - pos);] *)
Definition clip_len (size pos b_len : Z) : Z :=
  if u64 size <? u64 (pos + b_len) then u64 (size - pos) else b_len.

(** ** blkdev.c *)

Module Blkdev.

Definition segment (rq : request) (size : Z) (buf : list cell) : M rq_st (list cell) :=
  s ← mget;
  let b_len := clip_len size (rs_pos s) (Z.of_nat (length buf)) in
  let b_len := if b_len <? 0 then 0 else b_len in
  copy_segment (rq_dir rq =? WRITE) b_len buf.

Definition do_request (rq : request) (d : block_dev) :=
  serve (segment rq (dev_size d)) rq d.

(** The status given to blk_mq_end_request. *)
Definition queue_rq (rq : request) (d : block_dev) : outcome (Z * (block_dev * list (list cell))) :=
  match do_request rq d with
  | Ret (_, r) => Ret (BLK_STS_OK, r)
  | Fault f => Fault f
  end.

End Blkdev.

(** ** sblkdev.c *)

Module Sblkdev.

Definition segment (rq : request) (size : Z) (buf : list cell) : M rq_st (list cell) :=
  s ← mget;
  let b_len := clip_len size (rs_pos s) (Z.of_nat (length buf)) in
  copy_segment (negb (rq_dir rq =? 0)) b_len buf.

Definition do_simple_request (rq : request) (d : block_dev) :=
  serve (segment rq (dev_size d)) rq d.

Definition queue_rq (rq : request) (d : block_dev) : outcome (Z * (block_dev * list (list cell))) :=
  match do_simple_request rq d with
  | Ret (_, r) => Ret (BLK_STS_OK, r)
  | Fault f => Fault f
  end.

End Sblkdev.

(** ** mq-blkdev.c *)

Module Mqblkdev.

Definition segment (rq : request) (size : Z) (buf : list cell) : M rq_st (list cell) :=
  s ← mget;
  let b_len := clip_len size (rs_pos s) (Z.of_nat (length buf)) in
  copy_segment (rq_dir rq =? WRITE) b_len buf.

Definition do_request (rq : request) (d : block_dev) :=
  serve (segment rq (dev_size d)) rq d.

(** [None] is BUG(): blk_update_request says bytes of the request remain. *)
Definition queue_rq (blk_update_request : request → Z → Z → bool) (rq : request) (d : block_dev)
    : outcome (option (Z * (block_dev * list (list cell)))) :=
  match do_request rq d with
  | Ret (nr_bytes, r) =>
      if blk_update_request rq BLK_STS_OK nr_bytes then Ret None else Ret (Some (BLK_STS_OK, r))
  | Fault f => Fault f
  end.

End Mqblkdev.

(** ** rd.c *)

Module Rd.

Definition DEVICE_SECTOR_SIZE := 512.
Definition DEVICE_SIZE := 4194304.

(** One step of bio_for_each_segment at [hdd_data = data + off]; the default
    of the switch is [None]. *)
Definition segment (dir off : Z) (data buf : list cell) : outcome (option (list cell * list cell)) :=
  let n := length buf in
  let in_disk := (0 <=? off) && (off + Z.of_nat n <=? Z.of_nat (length data)) in
  if (dir =? READA) || (dir =? READ) then
    if in_disk then Ret (Some (data, slice (Z.to_nat off) n data)) else Fault OutOfBounds
  else if dir =? WRITE then
    if in_disk then Ret (Some (list_inserts (Z.to_nat off) buf data, buf)) else Fault OutOfBounds
  else Ret None.

Fixpoint segments (dir off : Z) (data : list cell) (segs : list (list cell))
    : outcome (option (list cell * list (list cell))) :=
  match segs with
  | [] => Ret (Some (data, []))
  | b :: r =>
      match segment dir off data b with
      | Ret (Some (data', b')) =>
          match segments dir (off + Z.of_nat (length b)) data' r with
          | Ret (Some (data'', r')) => Ret (Some (data'', b' :: r'))
          | o => o
          end
      | Ret None => Ret None
      | Fault f => Fault f
      end
  end.

(** The sum is computed in sector_t (64 bits, unsigned); the address of the
    first byte is [data] plus the wrapped product. *)
Definition device_make_request (rq : request) (data : list cell)
    : outcome (Z * (list cell * list (list cell))) :=
  let start := u64 (rq_pos rq * DEVICE_SECTOR_SIZE) in
  let bi_size := Z.of_nat (length (concat (rq_segs rq))) in
  if DEVICE_SIZE <? u64 (start + bi_size) then Ret (-1, (data, rq_segs rq)) else
  match segments (rq_dir rq) (s64 start) data (rq_segs rq) with
  | Ret (Some (data', segs)) => Ret (0, (data', segs))
  | Ret None => Ret (-1, (data, rq_segs rq))
  | Fault f => Fault f
  end.

End Rd.

(** ** The block layer *)

(** Queues, tag sets and disks are objects with locations of their own. *)
Class BlkLayer (B : Type) := {
  bl_live : B → gset loc;
  bl_majors : B → gset Z;
  blk_mq_init_sq_queue : B → (Z + loc * loc) * B;  (* an error, or queue and tags *)
  blk_cleanup_queue : loc → B → B;
  blk_mq_free_tag_set : loc → B → B;
  alloc_disk : B → option loc * B;
  put_disk : loc → B → B;
  add_disk : loc → B → B;
  del_gendisk : loc → B → B;
  register_blkdev : Z → B → Z * B;
  unregister_blkdev : Z → B → B;
  init_queue_ok_law : ∀ b q t b', blk_mq_init_sq_queue b = (inr (q, t), b') →
    (q ∉ bl_live b) ∧ (t ∉ bl_live b) ∧ q ≠ t ∧
    bl_live b' = {[q; t]} ∪ bl_live b ∧ bl_majors b' = bl_majors b;
  init_queue_err_law : ∀ b e b', blk_mq_init_sq_queue b = (inl e, b') →
    e < 0 ∧ bl_live b' = bl_live b ∧ bl_majors b' = bl_majors b;
  cleanup_queue_law : ∀ q b, bl_live (blk_cleanup_queue q b) = bl_live b ∖ {[q]} ∧
    bl_majors (blk_cleanup_queue q b) = bl_majors b;
  free_tag_set_law : ∀ t b, bl_live (blk_mq_free_tag_set t b) = bl_live b ∖ {[t]} ∧
    bl_majors (blk_mq_free_tag_set t b) = bl_majors b;
  alloc_disk_some_law : ∀ b g b', alloc_disk b = (Some g, b') →
    (g ∉ bl_live b) ∧ bl_live b' = {[g]} ∪ bl_live b ∧ bl_majors b' = bl_majors b;
  alloc_disk_none_law : ∀ b b', alloc_disk b = (None, b') →
    bl_live b' = bl_live b ∧ bl_majors b' = bl_majors b;
  put_disk_law : ∀ g b, bl_live (put_disk g b) = bl_live b ∖ {[g]} ∧
    bl_majors (put_disk g b) = bl_majors b;
  add_disk_law : ∀ g b, bl_live (add_disk g b) = bl_live b ∧ bl_majors (add_disk g b) = bl_majors b;
  del_gendisk_law : ∀ g b,
    bl_live (del_gendisk g b) = bl_live b ∧ bl_majors (del_gendisk g b) = bl_majors b;
  (* register_blkdev(0, ..) picks a free major number and returns it;
     register_blkdev(m, ..) takes m and returns 0; an error is negative *)
  register_dyn_law : ∀ b r b', register_blkdev 0 b = (r, b') →
    bl_live b' = bl_live b ∧ -2147483648 <= r <= INT_MAX ∧ r ≠ 0 ∧
    (0 < r → (r ∉ bl_majors b) ∧ bl_majors b' = {[r]} ∪ bl_majors b) ∧
    (r < 0 → bl_majors b' = bl_majors b);
  register_fixed_law : ∀ m b r b', 0 < m → register_blkdev m b = (r, b') →
    bl_live b' = bl_live b ∧ -2147483648 <= r <= 0 ∧
    (r = 0 → (m ∉ bl_majors b) ∧ bl_majors b' = {[m]} ∪ bl_majors b) ∧
    (r < 0 → bl_majors b' = bl_majors b);
  unregister_law : ∀ m b, bl_live (unregister_blkdev m b) = bl_live b ∧
    bl_majors (unregister_blkdev m b) = bl_majors b ∖ {[m]}
}.

(** ** Adding and removing the device: blkdev.c and sblkdev.c

    The two files have the same code for this part, up to names and messages
    and up to the type of the major number. *)

(** The driver's device structure with its handles. *)
Record disk_dev := DiskDev {
  dd_loc : loc;
  dd_dev : block_dev;
  dd_open : Z;                   (* open_counter *)
  dd_queue : option loc;
  dd_tags : option loc;
  dd_disk : option loc
}.

Record drv_st (H B : Type) := DrvSt {
  drv_heap : H;
  drv_blk : B;
  drv_dev : option disk_dev;     (* blkdev_dev, _sblkdev_device *)
  drv_major : Z
}.
Arguments DrvSt {H B}.
Arguments drv_heap {H B}.
Arguments drv_blk {H B}.
Arguments drv_dev {H B}.
Arguments drv_major {H B}.

Section driver.
Context {H B : Type} `{KernelHeap H} `{BlkLayer B}.
Abbreviation st := (drv_st H B).
(** sizeof of the device structure. *)
Variable sizeof_dev : Z.

Definition BLKDEV_BUFSIZ := 16 * PAGE_SIZE.

Definition set_dev (d : option disk_dev) (s : st) : st :=
  DrvSt (drv_heap s) (drv_blk s) d (drv_major s).
Definition set_blk (b : B) (s : st) : st :=
  DrvSt (drv_heap s) b (drv_dev s) (drv_major s).
Definition set_hp (h : H) (s : st) : st :=
  DrvSt h (drv_blk s) (drv_dev s) (drv_major s).

Definition d_kmalloc (n : Z) : M st (option loc) := λ s,
  let '(r, h) := kmalloc n (drv_heap s) in Ret (r, set_hp h s).
Definition d_kfree (l : loc) : M st unit := λ s,
  if bool_decide (l ∈ live (drv_heap s)) then Ret (tt, set_hp (kfree l (drv_heap s)) s)
  else Fault BadFree.
Definition upd_dev (f : disk_dev → disk_dev) : M st unit :=
  mmodify (λ s, set_dev (f <$> drv_dev s) s).
Definition get_dev : M st disk_dev :=
  s ← mget; match drv_dev s with Some d => mret d | None => mfault NullDeref end.

Definition with_dev (d : disk_dev) (x : block_dev) : disk_dev :=
  DiskDev (dd_loc d) x (dd_open d) (dd_queue d) (dd_tags d) (dd_disk d).
Definition with_open (d : disk_dev) (n : Z) : disk_dev :=
  DiskDev (dd_loc d) (dd_dev d) n (dd_queue d) (dd_tags d) (dd_disk d).
Definition with_queue (d : disk_dev) (q : option loc) : disk_dev :=
  DiskDev (dd_loc d) (dd_dev d) (dd_open d) q (dd_tags d) (dd_disk d).
Definition with_tags (d : disk_dev) (t : option loc) : disk_dev :=
  DiskDev (dd_loc d) (dd_dev d) (dd_open d) (dd_queue d) t (dd_disk d).
Definition with_disk (d : disk_dev) (g : option loc) : disk_dev :=
  DiskDev (dd_loc d) (dd_dev d) (dd_open d) (dd_queue d) (dd_tags d) g.

Definition blkdev_alloc_buffer : M st Z :=
  let cap := Z.shiftr BLKDEV_BUFSIZ SECTOR_SHIFT in
  let bytes := Z.shiftl cap SECTOR_SHIFT in
  p ← d_kmalloc bytes;
  match p with
  | None => upd_dev (λ d, with_dev d (BlockDev cap None)) ≫= λ _, mret (- ENOMEM)
  | Some l => upd_dev (λ d, with_dev d (BlockDev cap
                (Some (l, replicate (Z.to_nat bytes) None)))) ≫= λ _, mret 0
  end.

Definition blkdev_free_buffer : M st unit :=
  d ← get_dev;
  match bdata (dd_dev d) with
  | Some (l, _) =>
      d_kfree l ≫= λ _, upd_dev (λ d, with_dev d (BlockDev 0 None))
  | None => mret tt
  end.

Definition blkdev_remove_device : M st unit :=
  s ← mget;
  match drv_dev s with
  | None => mret tt
  | Some _ =>
      d ← get_dev;
      (match dd_disk d with
       | Some g => mmodify (λ s, set_blk (del_gendisk g (drv_blk s)) s)
       | None => mret tt
       end) ≫= λ _,
      (match dd_queue d with
       | Some q => mmodify (λ s, set_blk (blk_cleanup_queue q (drv_blk s)) s) ≫= λ _,
                   upd_dev (λ d, with_queue d None)
       | None => mret tt
       end) ≫= λ _,
      (match dd_tags d with
       | Some t => mmodify (λ s, set_blk (blk_mq_free_tag_set t (drv_blk s)) s) ≫= λ _,
                   upd_dev (λ d, with_tags d None)
       | None => mret tt
       end) ≫= λ _,
      (match dd_disk d with
       | Some g => mmodify (λ s, set_blk (put_disk g (drv_blk s)) s) ≫= λ _,
                   upd_dev (λ d, with_disk d None)
       | None => mret tt
       end) ≫= λ _,
      blkdev_free_buffer ≫= λ _,
      d_kfree (dd_loc d) ≫= λ _,
      mmodify (set_dev None)
  end.

(** The body of [do { ... } while (false)]: the value of [ret]. *)
Definition add_device_body : M st Z :=
  ret ← blkdev_alloc_buffer;
  if negb (ret =? 0) then mret ret else
  s ← mget;
  let '(r, b) := blk_mq_init_sq_queue (drv_blk s) in
  mput (set_blk b s) ≫= λ _,
  match r with
  | inl e => mret e
  | inr (q, t) =>
      upd_dev (λ d, with_tags (with_queue d (Some q)) (Some t)) ≫= λ _,
      s ← mget;
      let '(g, b) := alloc_disk (drv_blk s) in
      mput (set_blk b s) ≫= λ _,
      match g with
      | None => mret (- ENOMEM)
      | Some g =>
          upd_dev (λ d, with_disk d (Some g)) ≫= λ _,
          mmodify (λ s, set_blk (add_disk g (drv_blk s)) s) ≫= λ _,
          mret 0
      end
  end.

Definition blkdev_add_device : M st Z :=
  p ← d_kmalloc sizeof_dev;
  match p with
  | None => mret (- ENOMEM)
  | Some l =>
      mmodify (set_dev (Some (DiskDev l (BlockDev 0 None) 0 None None None))) ≫= λ _,
      ret ← add_device_body;
      (if negb (ret =? 0) then blkdev_remove_device else mret tt) ≫= λ _,
      mret ret
  end.

Definition set_major (m : Z) (s : st) : st := DrvSt (drv_heap s) (drv_blk s) (drv_dev s) m.

(** [major] is how the driver stores the number: an [int] in blkdev.c, an
    [unsigned int] in sblkdev.c. *)
Definition init_with (store : Z → Z) : M st Z :=
  s ← mget;
  let '(r, b) := register_blkdev (drv_major s) (drv_blk s) in
  mput (set_major (store r) (set_blk b s)) ≫= λ _,
  if store r <=? 0 then mret (- EBUSY) else
  ret ← blkdev_add_device;
  (if negb (ret =? 0)
   then mmodify (λ s, set_blk (unregister_blkdev (drv_major s) (drv_blk s)) s)
   else mret tt) ≫= λ _,
  mret ret.

Definition blkdev_exit : M st unit :=
  blkdev_remove_device ≫= λ _,
  mmodify (λ s, if 0 <? drv_major s
                then set_blk (unregister_blkdev (drv_major s) (drv_blk s)) s else s).

Definition blkdev_init : M st Z := init_with s32.

(** dev_open and dev_release; [priv] tells whether private_data is set. *)
Definition dev_open (priv : bool) : M st Z :=
  if negb priv then mret (- ENXIO) else
  upd_dev (λ d, with_open d (s32 (dd_open d + 1))) ≫= λ _, mret 0.
Definition dev_release (priv : bool) : M st unit :=
  if negb priv then mret tt else upd_dev (λ d, with_open d (s32 (dd_open d - 1))).
Definition dev_ioctl (cmd arg : Z) : Z := - ENOTTY.

(** The functions of sblkdev.c: the code above under other names, with the
    same calls in the same order and the same tests. *)
Definition sblkdev_allocate_buffer : M st Z := blkdev_alloc_buffer.
Definition sblkdev_free_buffer : M st unit := blkdev_free_buffer.
Definition sblkdev_remove_device : M st unit := blkdev_remove_device.
Definition sblkdev_add_device : M st Z := blkdev_add_device.
Definition sblkdev_init : M st Z := init_with u32.
Definition sblkdev_exit : M st unit := blkdev_exit.
Definition _open (priv : bool) : M st Z := dev_open priv.
Definition _release (priv : bool) : M st unit := dev_release priv.
Definition _ioctl (cmd arg : Z) : Z := - ENOTTY.

End driver.
