(* ===== verification/BlkDevThms.v ===== *)
(** Theorems on the block drivers: the three request loops are one function,
    a request inside the disk reads and writes exactly its sectors, a request
    that runs over the end is cut, and adding and removing a device leaves no
    object behind on any path. *)
From Stdlib Require Import ZArith Lia.
From stdpp Require Import base list gmap.
From S2P Require Import Prelude Kernel BlkDev.

(** ** Serving a request *)

(** The loop body all three drivers share. *)
Definition segment (write : bool) (size : Z) (buf : list cell) : M rq_st (list cell) :=
  s ← mget; copy_segment write (clip_len size (rs_pos s) (Z.of_nat (length buf))) buf.

Lemma segment_run write size buf s : segment write size buf s =
  copy_segment write (clip_len size (rs_pos s) (Z.of_nat (length buf))) buf s.
Proof. done. Qed.

Definition seg_total (segs : list (list cell)) : Z := Z.of_nat (length (concat segs)).

Record disk_ok (d : block_dev) (l : loc) (mem : list cell) : Prop := DiskOk {
  dk_data : bdata d = Some (l, mem);
  dk_cap : 0 <= capacity d <= 9007199254740991;
  dk_len : Z.of_nat (length mem) = capacity d * 512
}.

(** The buffers after [n] bytes, read from [pos], were stored in them. *)
Definition filled (mem : list cell) (pos n : Z) (segs segs' : list (list cell)) : Prop :=
  concat segs' = slice (Z.to_nat pos) (Z.to_nat n) mem ++ drop (Z.to_nat n) (concat segs) ∧
  (length <$> segs') = (length <$> segs).

Definition stored (write : bool) (mem : list cell) (pos n : Z) (segs : list (list cell)) : list cell :=
  if write then list_inserts (Z.to_nat pos) (take (Z.to_nat n) (concat segs)) mem else mem.

Lemma clip_len_min size pos len : 0 <= pos <= size → size <= LLONG_MAX →
  0 <= len < 4294967296 → clip_len size pos len = Z.min len (size - pos).
Proof.
  intros Hp Hs Hl. unfold clip_len, LLONG_MAX in *. wrap_simpl.
  destruct (Z.ltb_spec size (pos + len)); lia.
Qed.

Lemma copy_segment_ok write n buf s l mem :
  bdata (rs_dev s) = Some (l, mem) → 0 <= rs_pos s → 0 <= n <= Z.of_nat (length buf) →
  rs_pos s + n <= Z.of_nat (length mem) <= LLONG_MAX →
  0 <= rs_bytes s → rs_bytes s + n < 4294967296 →
  copy_segment write n buf s =
    Ret ((if write then buf else slice (Z.to_nat (rs_pos s)) (Z.to_nat n) mem ++ drop (Z.to_nat n) buf),
         RqSt (BlockDev (capacity (rs_dev s))
                (Some (l, if write then list_inserts (Z.to_nat (rs_pos s)) (take (Z.to_nat n) buf) mem
                          else mem)))
           (rs_pos s + n) (rs_bytes s + n)).
Proof.
  intros E Hp Hn Hm Hb1 Hb2. unfold copy_segment. rewrite E.
  rewrite !(proj2 (Z.leb_le _ _)) by lia. simpl. unfold LLONG_MAX in *. wrap_simpl.
  repeat f_equal. destruct write; [done|].
  rewrite <- (take_drop (Z.to_nat n) buf) at 1. apply list_inserts_0_r.
  rewrite slice_length, length_take by lia. lia.
Qed.

(** Cutting a request after [a] bytes cuts its first segment and the rest. *)
Lemma cut_app {A} (a : nat) (b r : list A) :
  let m := Nat.min (length b) a in
  let k := Nat.min (length r) (a - m) in
  let n := Nat.min (length b + length r) a in
  n = (m + k)%nat ∧ take n (b ++ r) = take m b ++ take k r ∧
  drop n (b ++ r) = drop m b ++ drop k r.
Proof.
  intros m k n. assert (n = (m + k)%nat) as -> by lia. split; [done|].
  destruct (decide (a ≤ length b)%nat) as [Hle|Hgt].
  - assert (k = 0%nat) as -> by lia. rewrite Nat.add_0_r.
    rewrite take_app_le, drop_app_le by lia. simpl. by rewrite app_nil_r.
  - assert (m = length b) as -> by lia.
    by rewrite take_app_add, drop_app_add, firstn_all, drop_all.
Qed.

Lemma cut_appZ {A} (a : Z) (b r : list A) : 0 <= a →
  let m := Z.min (Z.of_nat (length b)) a in
  let k := Z.min (Z.of_nat (length r)) (a - m) in
  let n := Z.min (Z.of_nat (length b) + Z.of_nat (length r)) a in
  n = m + k ∧ 0 <= m ∧ 0 <= k ∧ (k = 0 ∨ m = Z.of_nat (length b)) ∧
  take (Z.to_nat n) (b ++ r) = take (Z.to_nat m) b ++ take (Z.to_nat k) r ∧
  drop (Z.to_nat n) (b ++ r) = drop (Z.to_nat m) b ++ drop (Z.to_nat k) r.
Proof.
  intros Ha m k n. destruct (cut_app (Z.to_nat a) b r) as (_ & Et & Ed).
  replace (Z.to_nat n) with (Nat.min (length b + length r) (Z.to_nat a)) by lia.
  replace (Z.to_nat k) with
    (Nat.min (length r) (Z.to_nat a - Nat.min (length b) (Z.to_nat a))) by lia.
  replace (Z.to_nat m) with (Nat.min (length b) (Z.to_nat a)) by lia.
  split_and!; [lia..|exact Et|exact Ed].
Qed.

Lemma for_each_segment_ok write size segs s l mem :
  bdata (rs_dev s) = Some (l, mem) → Z.of_nat (length mem) = size → size <= LLONG_MAX →
  0 <= rs_pos s <= size → 0 <= rs_bytes s → rs_bytes s + seg_total segs < 4294967296 →
  let n := Z.min (seg_total segs) (size - rs_pos s) in
  ∃ segs', for_each_segment (segment write size) segs s =
    Ret (segs', RqSt (BlockDev (capacity (rs_dev s)) (Some (l, stored write mem (rs_pos s) n segs)))
                  (rs_pos s + n) (rs_bytes s + n)) ∧
    if write then segs' = segs else filled mem (rs_pos s) n segs segs'.
Proof.
  intros E Hl Hs. revert s mem E Hl.
  induction segs as [|b segs IH]; intros s mem E Hl Hp Hb Ht n; unfold seg_total in *; simpl in *.
  - exists []. assert (n = 0) as -> by lia. split; [|by destruct write].
    destruct s as [[c dat] p by_]; simpl in *. subst. unfold stored. simpl.
    rewrite !Z.add_0_r. by destruct write.
  - subst n. rewrite length_app, Nat2Z.inj_add in *.
    destruct (cut_appZ (size - rs_pos s) b (concat segs)) as (En & Hm & Hk & Hmk & Et & Ed); [lia|].
    set (m := Z.min (Z.of_nat (length b)) (size - rs_pos s)) in *.
    set (k := Z.min (Z.of_nat (length (concat segs))) (size - rs_pos s - m)) in *.
    set (n := Z.min (Z.of_nat (length b) + Z.of_nat (length (concat segs))) (size - rs_pos s)) in *.
    assert (Hle : m <= Z.of_nat (length b) ∧ m <= size - rs_pos s ∧ k <= size - rs_pos s - m) by lia.
    unfold mbind, M_bind. rewrite segment_run, clip_len_min by lia. fold m.
    clearbody m n. rewrite (copy_segment_ok write m b s l mem) by (unfold LLONG_MAX in *; lia || done).
    set (s1 := RqSt _ _ _). set (mem1 := if write then list_inserts _ _ mem else mem) in *.
    assert (Hm1 : Z.of_nat (length mem1) = size) by (unfold mem1; destruct write; by len).
    destruct (IH s1 mem1) as (segs' & Es & P); [done|done|simpl; lia|simpl; lia|simpl; lia|].
    simpl in Es, P. replace (size - (rs_pos s + m)) with (size - rs_pos s - m) in Es, P by lia.
    fold k in Es, P. clearbody k. rewrite Es. simpl.
    assert (stored write mem1 (rs_pos s + m) k segs = stored write mem (rs_pos s) n (b :: segs)) as ->.
    { unfold stored, mem1. simpl. rewrite Et. destruct write; [|done].
      rewrite list_inserts_app_l, length_take. f_equal. lia. }
    replace (rs_pos s + n) with (rs_pos s + m + k) by lia.
    replace (rs_bytes s + n) with (rs_bytes s + m + k) by lia.
    eexists. split; [reflexivity|].
    destruct write; [by subst|]. destruct P as [Pc Pl]. unfold filled. split.
    + simpl. rewrite Pc, Ed, En, (Z2Nat.inj_add m k), (Z2Nat.inj_add (rs_pos s) m) by lia.
      unfold mem1. rewrite slice_split.
      destruct Hmk as [Ek0|Emb].
      * rewrite Ek0, !slice_nil. simpl. by rewrite app_nil_r, <- !app_assoc.
      * rewrite (drop_ge b) by lia. rewrite !app_nil_r. by rewrite <- !app_assoc.
    + rewrite !fmap_cons, Pl. f_equal. rewrite length_app, length_drop, slice_length by lia. lia.
Qed.

Lemma disk_size d l mem : disk_ok d l mem →
  dev_size d = Z.of_nat (length mem) ∧ 0 <= dev_size d <= LLONG_MAX.
Proof.
  intros [_ Hc Hl]. unfold dev_size, SECTOR_SHIFT, LLONG_MAX in *.
  rewrite Z.shiftl_mul_pow2 by lia. change (2 ^ 9) with 512. wrap_simpl. lia.
Qed.

(** A request that starts inside the disk, cut at its end. *)
Lemma serve_ok write rq d l mem :
  disk_ok d l mem → 0 <= rq_pos rq <= capacity d → seg_total (rq_segs rq) < 4294967296 →
  let pos := rq_pos rq * 512 in
  let n := Z.min (seg_total (rq_segs rq)) (Z.of_nat (length mem) - pos) in
  ∃ segs', serve (segment write (dev_size d)) rq d =
    Ret (n, (BlockDev (capacity d) (Some (l, stored write mem pos n (rq_segs rq))), segs')) ∧
    if write then segs' = rq_segs rq else filled mem pos n (rq_segs rq) segs'.
Proof.
  intros D Hp Ht pos n. destruct (disk_size _ _ _ D) as [Es Hs].
  destruct D as [Hd Hc Hl]. unfold serve, SECTOR_SHIFT, LLONG_MAX in *.
  rewrite Z.shiftl_mul_pow2 by lia. change (2 ^ 9) with 512.
  wrap_simpl. fold pos.
  destruct (for_each_segment_ok write (dev_size d) (rq_segs rq) (RqSt d pos 0) l mem)
    as (segs' & E & P); simpl in *; [done|lia|unfold LLONG_MAX; lia|lia|lia|lia|].
  rewrite Es in *. fold n in E, P. rewrite E. exists segs'. by split.
Qed.

(** ** One function *)

Lemma for_each_segment_ext f g segs s : (∀ b s, f b s = g b s) →
  for_each_segment f segs s = for_each_segment g segs s.
Proof.
  intros E. revert s. induction segs as [|b segs IH]; intros s; [done|]. simpl.
  unfold mbind, M_bind. rewrite E. destruct (g b s) as [[b' s']|]; [|done]. by rewrite IH.
Qed.

Lemma clip_len_nonneg size pos (buf : list cell) : 0 <= clip_len size pos (Z.of_nat (length buf)).
Proof.
  unfold clip_len. pose proof (u64_range (size - pos)).
  destruct (_ <? _); lia.
Qed.

Lemma blkdev_segment rq size b s :
  Blkdev.segment rq size b s = segment (rq_dir rq =? WRITE) size b s.
Proof.
  unfold Blkdev.segment, segment, mbind, M_bind, mget.
  rewrite (proj2 (Z.ltb_ge _ _)); [done|]. apply clip_len_nonneg.
Qed.

Lemma sblkdev_segment rq size b s : rq_dir rq = READ ∨ rq_dir rq = WRITE →
  Sblkdev.segment rq size b s = segment (rq_dir rq =? WRITE) size b s.
Proof. intros [E|E]; unfold Sblkdev.segment, segment; by rewrite E. Qed.

Lemma serve_ext f g rq d : (∀ b s, f b s = g b s) → serve f rq d = serve g rq d.
Proof. intros E. unfold serve. by rewrite (for_each_segment_ext f g). Qed.

Lemma requests_agree rq d : rq_dir rq = READ ∨ rq_dir rq = WRITE →
  Blkdev.do_request rq d = Sblkdev.do_simple_request rq d ∧
  Blkdev.do_request rq d = Mqblkdev.do_request rq d.
Proof.
  intros Hd. unfold Blkdev.do_request, Sblkdev.do_simple_request, Mqblkdev.do_request.
  split; apply serve_ext; intros b s; rewrite blkdev_segment; [by rewrite sblkdev_segment|done].
Qed.

Lemma blk_request_ok rq d l mem :
  disk_ok d l mem → 0 <= rq_pos rq <= capacity d → seg_total (rq_segs rq) < 4294967296 →
  let pos := rq_pos rq * 512 in
  let n := Z.min (seg_total (rq_segs rq)) (Z.of_nat (length mem) - pos) in
  let write := rq_dir rq =? WRITE in
  ∃ segs', Blkdev.do_request rq d =
    Ret (n, (BlockDev (capacity d) (Some (l, stored write mem pos n (rq_segs rq))), segs')) ∧
    if write then segs' = rq_segs rq else filled mem pos n (rq_segs rq) segs'.
Proof.
  intros D Hp Ht pos n write.
  destruct (serve_ok write rq d l mem D Hp Ht) as (segs' & E & P).
  exists segs'. split; [|exact P]. refine (eq_trans _ E). apply serve_ext, blkdev_segment.
Qed.

(** C17: a request moves exactly its bytes: a write stores the segments, in
    order, at the start sector and leaves the rest of the disk alone, a read
    fills the segments with the sectors and leaves the disk alone; a request
    that runs over the end of the disk is cut there, and the count says so. *)
Theorem blk_request_refines rq d l mem :
  disk_ok d l mem → 0 <= rq_pos rq <= capacity d → seg_total (rq_segs rq) < 4294967296 →
  let pos := rq_pos rq * 512 in
  let n := Z.min (seg_total (rq_segs rq)) (Z.of_nat (length mem) - pos) in
  let write := rq_dir rq =? WRITE in
  ∃ segs', Blkdev.do_request rq d =
    Ret (n, (BlockDev (capacity d) (Some (l, stored write mem pos n (rq_segs rq))), segs')) ∧
    disk_ok (BlockDev (capacity d) (Some (l, stored write mem pos n (rq_segs rq)))) l
      (stored write mem pos n (rq_segs rq)) ∧
    if write then segs' = rq_segs rq else filled mem pos n (rq_segs rq) segs'.
Proof.
  intros D Hp Ht pos n write. destruct (blk_request_ok rq d l mem D Hp Ht) as (segs' & E & P).
  exists segs'. split; [exact E|]. split; [|exact P]. destruct D as [Hd Hc Hl].
  split; simpl; [done|done|]. fold write. unfold stored. destruct write; [|done].
  by rewrite length_inserts.
Qed.

(** What a write stored, a read of the same sectors with as many bytes
    gives back, whatever the segments of the two requests. *)
Theorem blk_write_read_roundtrip d l mem pos wsegs rsegs :
  disk_ok d l mem → 0 <= pos → seg_total rsegs = seg_total wsegs →
  pos * 512 + seg_total wsegs <= capacity d * 512 → seg_total wsegs < 4294967296 →
  ∃ d' segs', Blkdev.do_request (Request WRITE pos wsegs) d = Ret (seg_total wsegs, (d', wsegs)) ∧
    Blkdev.do_request (Request READ pos rsegs) d' = Ret (seg_total wsegs, (d', segs')) ∧
    concat segs' = concat wsegs.
Proof.
  intros D Hp Er Hin Ht. pose proof D as [Hd Hc Hl].
  assert (0 <= seg_total wsegs) by (unfold seg_total; lia).
  destruct (blk_request_ok (Request WRITE pos wsegs) d l mem D) as (s1 & E1 & P1);
    simpl in *; [lia|done|].
  rewrite (Z.min_l (seg_total wsegs)) in E1 by lia.
  set (mem' := list_inserts (Z.to_nat (pos * 512)) (take (Z.to_nat (seg_total wsegs)) (concat wsegs)) mem).
  set (d' := BlockDev (capacity d) (Some (l, mem'))).
  assert (D' : disk_ok d' l mem').
  { split; simpl; [done|done|]. unfold mem'. by rewrite length_inserts. }
  destruct (blk_request_ok (Request READ pos rsegs) d' l mem' D') as (s2 & E2 & P2);
    simpl in *; [lia|lia|].
  assert (Hlm : length mem' = length mem) by (unfold mem'; by rewrite length_inserts).
  rewrite Er, Hlm, Z.min_l in E2, P2 by lia. destruct P2 as [P2 _].
  exists d', s2. split; [by rewrite E1, P1|]. split; [exact E2|].
  unfold seg_total in *. rewrite Nat2Z.id in *. rewrite P2.
  rewrite drop_ge by lia. rewrite app_nil_r. unfold mem', seg_total. rewrite Nat2Z.id, firstn_all.
  apply slice_inserts_same. lia.
Qed.

(** C18: the three drivers against each other.  Their request loops, of
    blkdev.c, sblkdev.c and mq-blkdev.c, do the same with every read or write
    request on every device: result, faults, effect on the disk and the buffers;
    the test [b_len < 0] that only blkdev.c has is false for every segment.  The
    queue_rq of blkdev.c and of sblkdev.c agree too: success, whatever was moved.
    The one of mq-blkdev.c does not: on a request that starts on the disk it
    agrees with them when the request fits, and reaches BUG() exactly when it
    does not, because it tells blk_update_request how many bytes were moved. *)
Theorem blk_drivers_agree rq d : rq_dir rq = READ ∨ rq_dir rq = WRITE →
  Blkdev.do_request rq d = Sblkdev.do_simple_request rq d ∧
  Blkdev.do_request rq d = Mqblkdev.do_request rq d ∧
  (∀ pos (buf : list cell), (clip_len (dev_size d) pos (Z.of_nat (length buf)) <? 0) = false) ∧
  Blkdev.queue_rq rq d = Sblkdev.queue_rq rq d ∧
  ∀ (upd : request → Z → Z → bool) l mem, (∀ rq st n, upd rq st n = true ↔ n < seg_total (rq_segs rq)) →
    disk_ok d l mem → 0 <= rq_pos rq <= capacity d → seg_total (rq_segs rq) < 4294967296 →
    ∃ r, Blkdev.queue_rq rq d = Ret (BLK_STS_OK, r) ∧
      Mqblkdev.queue_rq upd rq d =
        Ret (if capacity d * 512 <? rq_pos rq * 512 + seg_total (rq_segs rq) then None else Some (BLK_STS_OK, r)).
Proof.
  intros Hd. destruct (requests_agree rq d Hd) as [E1 E2]. split_and!; [done|done| | |].
  - intros pos buf. apply Z.ltb_ge, clip_len_nonneg.
  - unfold Blkdev.queue_rq, Sblkdev.queue_rq. by rewrite E1.
  - intros upd l mem Hu D Hp Ht. destruct (blk_request_ok rq d l mem D Hp Ht) as (segs' & E & _).
    unfold Blkdev.queue_rq, Mqblkdev.queue_rq. rewrite <- E2, E. eexists. split; [done|].
    destruct D as [_ Hc Hl]. rewrite Hl. destruct (upd _ _ _) eqn:Eu.
    + apply Hu in Eu. by rewrite (proj2 (Z.ltb_lt _ _)) by lia.
    + apply not_true_iff_false in Eu. rewrite Hu in Eu. by rewrite (proj2 (Z.ltb_ge _ _)) by lia.
Qed.

(** ** Adding and removing the device *)

Definition opt_locs (o : option loc) : list loc := match o with Some l => [l] | None => [] end.
Definition heap_locs (d : disk_dev) : list loc :=
  dd_loc d :: opt_locs (fst <$> bdata (dd_dev d)).
Definition blk_locs (d : disk_dev) : list loc :=
  opt_locs (dd_queue d) ++ opt_locs (dd_tags d) ++ opt_locs (dd_disk d).

(** [ls]: the objects of the driver, [base]: those of the others. *)
Definition owned (ls : list loc) (base all : gset loc) : Prop :=
  NoDup ls ∧ (∀ x, x ∈ ls → x ∉ base) ∧ all = list_to_set ls ∪ base.

Lemma owned_grow ls ls' (base all all' : gset loc) x :
  owned ls base all → (x ∉ all) → all' = {[x]} ∪ all → ls' ≡ₚ x :: ls → owned ls' base all'.
Proof.
  intros (N & F & ->) Hx -> P. rewrite not_elem_of_union, not_elem_of_list_to_set in Hx.
  destruct Hx as [Hx1 Hx2]. split_and!.
  - rewrite P. by constructor.
  - intros y Hy. rewrite P in Hy. apply elem_of_cons in Hy as [->|Hy]; [done|by apply F].
  - rewrite (list_to_set_perm_L _ _ P). simpl. by rewrite (assoc_L (∪)).
Qed.

Section lifecycle.
Context {H B : Type} `{KernelHeap H} `{BlkLayer B}.
Abbreviation st := (drv_st H B).
Implicit Types s : st.

(** The kernel objects are those of the rest of the system ([bh], [bb]) and
    those the driver's structure points to. *)
Definition drv_ok (bh bb : gset loc) s : Prop :=
  match drv_dev s with
  | None => live (drv_heap s) = bh ∧ bl_live (drv_blk s) = bb
  | Some d =>
      owned (heap_locs d) bh (live (drv_heap s)) ∧ owned (blk_locs d) bb (bl_live (drv_blk s))
  end.

(** The block layer's majors and the driver's number are not touched. *)
Definition same_major s s' : Prop :=
  bl_majors (drv_blk s') = bl_majors (drv_blk s) ∧ drv_major s' = drv_major s.

Lemma d_kfree_wp l s (Q : unit → st → Prop) :
  l ∈ live (drv_heap s) → Q tt (set_hp (kfree l (drv_heap s)) s) → wp (d_kfree l) s Q.
Proof. intros Hl HQ. unfold d_kfree, wp. by rewrite bool_decide_eq_true_2. Qed.

Lemma blk_release (b : B) (base : gset loc) (q t g : option loc) :
  (∀ l, l ∈ opt_locs q ++ opt_locs t ++ opt_locs g → l ∉ base) →
  bl_live b = list_to_set (opt_locs q ++ opt_locs t ++ opt_locs g) ∪ base →
  let b1 := match g with Some g => del_gendisk g b | None => b end in
  let b2 := match q with Some q => blk_cleanup_queue q b1 | None => b1 end in
  let b3 := match t with Some t => blk_mq_free_tag_set t b2 | None => b2 end in
  let b4 := match g with Some g => put_disk g b3 | None => b3 end in
  bl_live b4 = base ∧ bl_majors b4 = bl_majors b.
Proof.
  intros Hf Hl b1 b2 b3 b4.
  assert (bl_live b1 = bl_live b ∧ bl_majors b1 = bl_majors b) as [L1 M1]
    by (unfold b1; destruct g; [apply del_gendisk_law|done]).
  assert (bl_live b2 = bl_live b1 ∖ list_to_set (opt_locs q) ∧ bl_majors b2 = bl_majors b1) as [L2 M2].
  { unfold b2. destruct q as [l|]; simpl; [|split; [set_solver|done]].
    destruct (cleanup_queue_law l b1) as [-> ->]. split; [set_solver|done]. }
  assert (bl_live b3 = bl_live b2 ∖ list_to_set (opt_locs t) ∧ bl_majors b3 = bl_majors b2) as [L3 M3].
  { unfold b3. destruct t as [l|]; simpl; [|split; [set_solver|done]].
    destruct (free_tag_set_law l b2) as [-> ->]. split; [set_solver|done]. }
  assert (bl_live b4 = bl_live b3 ∖ list_to_set (opt_locs g) ∧ bl_majors b4 = bl_majors b3) as [L4 M4].
  { unfold b4. destruct g as [l|]; simpl; [|split; [set_solver|done]].
    destruct (put_disk_law l b3) as [-> ->]. split; [set_solver|done]. }
  split; [|congruence]. rewrite L4, L3, L2, L1, Hl, !list_to_set_app_L.
  apply set_eq. intros x. specialize (Hf x). revert Hf.
  rewrite !elem_of_app, !elem_of_difference, !elem_of_union, !elem_of_list_to_set. tauto.
Qed.

Lemma remove_wp bh bb s : drv_ok bh bb s →
  wp blkdev_remove_device s (λ _ s', drv_dev s' = None ∧ drv_ok bh bb s' ∧ same_major s s').
Proof.
  intros I. unfold blkdev_remove_device. apply wp_bind, wp_get. unfold drv_ok in I.
  destruct (drv_dev s) as [d|] eqn:Ed.
  2:{ wp_step. unfold drv_ok. by rewrite Ed. }
  destruct I as ((Nd & Fh & Lh) & (_ & Fb & Lb)).
  unfold get_dev at 1. do 2 apply wp_bind. apply wp_get. rewrite Ed. apply wp_ret.
  destruct (blk_release (drv_blk s) bb (dd_queue d) (dd_tags d) (dd_disk d) Fb Lb) as [RL RM].
  set (b1 := match dd_disk d with Some g => del_gendisk g (drv_blk s) | None => drv_blk s end) in *.
  set (b2 := match dd_queue d with Some q => blk_cleanup_queue q b1 | None => b1 end) in *.
  set (b3 := match dd_tags d with Some t => blk_mq_free_tag_set t b2 | None => b2 end) in *.
  set (b4 := match dd_disk d with Some g => put_disk g b3 | None => b3 end) in *.
  cbv zeta in RL, RM. fold b1 b2 b3 b4 in RL, RM.
  set (d4 := DiskDev (dd_loc d) (dd_dev d) (dd_open d) None None None).
  assert (Tail : ∀ s4, s4 = DrvSt (drv_heap s) b4 (Some d4) (drv_major s) →
    wp blkdev_free_buffer s4 (λ _ s5, wp (d_kfree (dd_loc d) ≫= λ _, mmodify (set_dev None)) s5
      (λ _ s', drv_dev s' = None ∧ drv_ok bh bb s' ∧ same_major s s'))).
  { intros s4 ->. unfold heap_locs in *. unfold blkdev_free_buffer, get_dev.
    do 2 apply wp_bind. apply wp_get. simpl. apply wp_ret. simpl.
    destruct (bdata (dd_dev d)) as [[lb m]|]; simpl in *.
    - apply NoDup_cons in Nd as [Nin _]. apply wp_bind, d_kfree_wp; [simpl; rewrite Lh; set_solver|].
      unfold upd_dev. apply wp_modify. apply wp_bind, d_kfree_wp.
      { simpl. rewrite kfree_law, Lh. set_solver. }
      apply wp_modify. split; [done|]. split; [|by split].
      unfold drv_ok. simpl. rewrite !kfree_law, Lh, RL. split; [|done].
      assert (lb ∉ bh) by (apply Fh; set_solver). assert (dd_loc d ∉ bh) by (apply Fh; set_solver).
      set_solver.
    - apply wp_ret. apply wp_bind, d_kfree_wp; [simpl; rewrite Lh; set_solver|].
      apply wp_modify. split; [done|]. split; [|by split].
      unfold drv_ok. simpl. rewrite !kfree_law, Lh, RL. split; [|done].
      assert (dd_loc d ∉ bh) by (apply Fh; set_solver). set_solver. }
  unfold d4 in Tail. destruct s as [h b dv mj]; simpl in *. subst dv.
  destruct d as [dl dd do dq dt dg]; simpl in *.
  destruct dg as [g|], dq as [q|], dt as [t|]; unfold upd_dev; wp_steps; exact (Tail _ eq_refl).
Qed.

Definition bare (l : loc) : disk_dev := DiskDev l (BlockDev 0 None) 0 None None None.

(** A device ready to serve: a buffer of its capacity, a queue and a disk. *)
Definition ready (d : disk_dev) : Prop :=
  (∃ l mem, disk_ok (dd_dev d) l mem) ∧ capacity (dd_dev d) = 128 ∧ dd_open d = 0 ∧
  is_Some (dd_queue d) ∧ is_Some (dd_tags d) ∧ is_Some (dd_disk d).

Lemma add_body_wp bh bb s l : drv_dev s = Some (bare l) → drv_ok bh bb s →
  wp add_device_body s (λ r s', drv_ok bh bb s' ∧ same_major s s' ∧ r <= 0 ∧
    ∃ d, drv_dev s' = Some d ∧ (r = 0 → ready d)).
Proof.
  intros Ed I. unfold drv_ok in I. rewrite Ed in I. destruct I as (Oh & Ob).
  destruct s as [h b dv mj]; simpl in *. subst dv.
  unfold add_device_body, blkdev_alloc_buffer. cbv zeta.
  set (cap := Z.shiftr _ _). set (bytes := Z.shiftl cap _).
  assert (cap = 128 ∧ bytes = 65536) as [Ec Eb] by (split; reflexivity). clearbody cap bytes.
  do 2 apply wp_bind. unfold d_kmalloc, wp at 1. simpl.
  destruct (kmalloc bytes h) as [[lb|] h'] eqn:Ek; unfold upd_dev; wp_steps.
  2:{ simpl negb. cbv iota. wp_step. unfold drv_ok. simpl.
      rewrite (kmalloc_none_law _ _ _ Ek). split_and!; try done. eexists. by split. }
  destruct (kmalloc_some_law _ _ _ _ Ek) as [Hf Hl].
  assert (Oh' : owned [l; lb] bh (live h')).
  { eapply owned_grow; [exact Oh|exact Hf|exact Hl|]. apply perm_swap. }
  destruct (blk_mq_init_sq_queue b) as [[e|[q t]] b'] eqn:Eq; wp_steps.
  - destruct (init_queue_err_law _ _ _ Eq) as (He & Hlb & Hm). unfold drv_ok, same_major. simpl.
    rewrite Hlb. split_and!; [done..|lia|]. eexists. split; [done|lia].
  - destruct (init_queue_ok_law _ _ _ _ Eq) as (Fq & Ft & Nqt & Hlb & Hm).
    assert (Ob' : owned [q; t] bb (bl_live b')).
    { eapply (owned_grow [t]); [eapply (owned_grow [] _ _ _ _ t); [exact Ob|exact Ft|done|done]| | |done].
      - clear -Fq Nqt. set_solver.
      - rewrite Hlb. by rewrite (assoc_L (∪)). }
    destruct (alloc_disk b') as [[g|] b''] eqn:Eg; wp_steps.
    + destruct (alloc_disk_some_law _ _ _ Eg) as (Fg & Hlg & Hmg).
      destruct (add_disk_law g b'') as [Hla Hma].
      unfold drv_ok, same_major. simpl. rewrite Hla, Hma.
      split_and!; [exact Oh'| |congruence|done|done|].
      { eapply owned_grow; [exact Ob'|exact Fg|exact Hlg|].
        exact (symmetry (Permutation_middle [q; t] [] g)). }
      eexists. split; [done|]. intros _. unfold ready. simpl.
      split_and!; try done; [|by eexists..].
      do 2 eexists. split; simpl; [done|lia|]. rewrite length_replicate. lia.
    + destruct (alloc_disk_none_law _ _ Eg) as (Hlg & Hmg).
      unfold drv_ok, same_major. simpl. rewrite Hlg.
      split_and!; [exact Oh'|exact Ob'|congruence|done|done|]. eexists. by split.
Qed.

Lemma add_device_wp size bh bb s : drv_dev s = None → drv_ok bh bb s →
  wp (blkdev_add_device size) s (λ r s', drv_ok bh bb s' ∧ same_major s s' ∧
    ((r = 0 ∧ ∃ d, drv_dev s' = Some d ∧ ready d) ∨ (r < 0 ∧ drv_dev s' = None))).
Proof.
  intros Ed I. unfold drv_ok in I. rewrite Ed in I. destruct I as (Lh & Lb).
  unfold blkdev_add_device, d_kmalloc. apply wp_bind. unfold wp at 1.
  destruct (kmalloc size (drv_heap s)) as [[l|] h'] eqn:Ek; simpl.
  2:{ wp_step. unfold drv_ok. simpl. rewrite Ed, (kmalloc_none_law _ _ _ Ek).
      split_and!; try done. by right. }
  destruct (kmalloc_some_law _ _ _ _ Ek) as [Hf Hl]. apply wp_bind, wp_modify.
  set (s1 := set_dev _ _). apply wp_bind.
  eapply wp_mono; [|apply (add_body_wp bh bb s1 l); [done|]].
  2:{ unfold drv_ok, s1. simpl. split.
      - eapply (owned_grow []); [|exact Hf|exact Hl|done].
        split_and!; [constructor|by intros ? ?%elem_of_nil|]. simpl. by rewrite (left_id_L ∅ (∪)).
      - split_and!; [constructor|by intros ? ?%elem_of_nil|]. simpl. by rewrite (left_id_L ∅ (∪)). }
  intros r s2 (I2 & M2 & Hr & d & Ed2 & Rd). apply wp_bind.
  destruct (Z.eqb_spec r 0) as [->|N]; simpl negb; cbv iota.
  - apply wp_ret, wp_ret. split_and!; [done|done|]. left. eauto.
  - eapply wp_mono; [|by apply (remove_wp bh bb)].
    intros _ s3 (E3 & I3 & M3). apply wp_ret. split_and!; [done| |right; split; [lia|done]].
    destruct M2, M3. unfold s1 in *. split; simpl in *; congruence.
Qed.

(** What the module changed in the kernel: nothing. *)
Definition restored (s s' : st) : Prop :=
  drv_dev s' = None ∧ live (drv_heap s') = live (drv_heap s) ∧
  bl_live (drv_blk s') = bl_live (drv_blk s) ∧ bl_majors (drv_blk s') = bl_majors (drv_blk s).

(** Loading and unloading, for either way the number is stored: what matters
    is that an error of register_blkdev is seen as one. *)
Definition loads_cleanly (init : M st Z) (s : st) : Prop :=
  wp init s (λ r s',
    (r = 0 ∧ (∃ d, drv_dev s' = Some d ∧ ready d) ∧ wp blkdev_exit s' (λ _ s'', restored s s'')) ∨
    (r < 0 ∧ restored s s')).

Lemma init_with_no_leak size store s : drv_dev s = None → drv_major s = 0 →
  (∀ r, 0 < r <= INT_MAX → store r = r) →
  ((register_blkdev 0 (drv_blk s)).1 < 0 → store (register_blkdev 0 (drv_blk s)).1 <= 0) →
  loads_cleanly (init_with size store) s.
Proof.
  intros Ed Ej Sp Sn. unfold loads_cleanly, init_with. apply wp_bind, wp_get. rewrite Ej.
  destruct (register_blkdev 0 (drv_blk s)) as [m b] eqn:Er. simpl in Sn.
  destruct (register_dyn_law _ _ _ Er) as (Lb & Rm & Nz & Pm & Nm).
  apply wp_bind, wp_put. destruct (decide (m < 0)) as [Neg|Pos].
  { rewrite (proj2 (Z.leb_le (store m) 0)) by auto.
    wp_step. right. unfold restored. simpl. rewrite Lb, Nm by done. by rewrite Ed. }
  assert (Hgt : 0 < m) by lia. rewrite Sp by lia. rewrite (proj2 (Z.leb_gt m 0)) by lia.
  destruct (Pm Hgt) as [Fm Mm]. set (s1 := set_major m (set_blk b s)).
  apply wp_bind. eapply wp_mono; [|apply (add_device_wp size (live (drv_heap s)) (bl_live (drv_blk s)) s1)];
    [|done|unfold drv_ok, s1; simpl; by rewrite Ed].
  intros r s2 (I2 & (M2 & J2) & [(-> & d & Ed2 & Rd)|(Hr & Ed2)]); unfold s1 in M2, J2; simpl in M2, J2.
  - simpl. wp_step. wp_step. left. split_and!; [done|eauto|].
    unfold blkdev_exit. apply wp_bind. eapply wp_mono; [|by apply (remove_wp _ _ _ I2)].
    intros _ s3 (E3 & I3 & (M3 & J3)). apply wp_modify.
    rewrite J3, J2, (proj2 (Z.ltb_lt _ _) Hgt).
    unfold drv_ok in I3. rewrite E3 in I3. destruct I3 as [L3 B3].
    destruct (unregister_law m (drv_blk s3)) as [UL UM].
    unfold restored. simpl. rewrite UL, UM. split_and!; [done..|].
    rewrite M3, M2, Mm. set_solver.
  - rewrite (proj2 (Z.eqb_neq r 0)) by lia. simpl. wp_steps. right. split; [done|].
    unfold drv_ok in I2. rewrite Ed2 in I2. destruct I2 as [L2 B2].
    rewrite J2. destruct (unregister_law m (drv_blk s2)) as [UL UM].
    unfold restored. simpl. rewrite UL, UM. split_and!; [done..|].
    rewrite M2, Mm. set_solver.
Qed.

(** Loading blkdev.c either succeeds with a device ready to serve, whose
    unloading gives every block, queue, tag set, disk and the major number
    back, or fails with an error and nothing of it left behind, whichever
    allocation failed; the same holds of sblkdev.c when a major number was
    given to it. *)
Theorem blkdev_load_unload_no_leak size s : drv_dev s = None → drv_major s = 0 →
  loads_cleanly (blkdev_init size) s ∧
  (0 < (register_blkdev 0 (drv_blk s)).1 → loads_cleanly (sblkdev_init size) s).
Proof.
  intros Ed Ej. destruct (register_blkdev 0 (drv_blk s)) as [m b] eqn:Er.
  destruct (register_dyn_law _ _ _ Er) as (_ & Rm & _). split; [|intros Hm; simpl in Hm];
    apply init_with_no_leak; try done; rewrite ?Er; unfold INT_MAX in *; simpl; intros.
  - apply s32_id. unfold INT_MAX. lia.
  - rewrite s32_id by (unfold INT_MAX; lia). lia.
  - apply u32_id. lia.
  - lia.
Qed.

(** sblkdev.c stores the number in an unsigned int: a negative error passes
    the test [<= 0] and the device is added without a major number. *)
Lemma sblkdev_misses_register_error size s r b :
  register_blkdev (drv_major s) (drv_blk s) = (r, b) → -2147483648 <= r < 0 →
  sblkdev_init size s =
    (ret ← blkdev_add_device size;
     (if negb (ret =? 0)
      then mmodify (λ s, set_blk (unregister_blkdev (drv_major s) (drv_blk s)) s)
      else mret tt) ≫= λ _, mret ret) (set_major (u32 r) (set_blk b s)).
Proof.
  intros E Hr. unfold sblkdev_init, init_with, mbind at 1, M_bind at 1, mget. rewrite E.
  unfold mbind at 1, M_bind at 1, mput.
  assert (u32 r = r + 4294967296) as ->.
  { unfold u32, wrapu. change (2 ^ 32) with 4294967296. Z.div_mod_to_equations. lia. }
  by rewrite (proj2 (Z.leb_gt _ _)) by lia.
Qed.

End lifecycle.

(** ** rd.c *)

Definition rd_filled (data : list cell) (off : Z) (segs segs' : list (list cell)) : Prop :=
  concat segs' = slice (Z.to_nat off) (length (concat segs)) data ∧
  (length <$> segs') = (length <$> segs).

Lemma rd_segments_ok dir off data segs :
  dir = READ ∨ dir = READA ∨ dir = WRITE → 0 <= off →
  off + seg_total segs <= Z.of_nat (length data) →
  ∃ segs', Rd.segments dir off data segs =
    Ret (Some (if dir =? WRITE then list_inserts (Z.to_nat off) (concat segs) data else data, segs')) ∧
    if dir =? WRITE then segs' = segs else rd_filled data off segs segs'.
Proof.
  intros Hd. revert off data. induction segs as [|b segs IH]; intros off data Ho Hin;
    unfold seg_total in *; simpl in *.
  { exists []. destruct (dir =? WRITE); [done|]. by split. }
  rewrite length_app, Nat2Z.inj_add in Hin.
  assert (Seg : Rd.segment dir off data b = Ret (Some
    (if dir =? WRITE then list_inserts (Z.to_nat off) b data else data,
     if dir =? WRITE then b else slice (Z.to_nat off) (length b) data))).
  { unfold Rd.segment. rewrite !(proj2 (Z.leb_le _ _)) by lia.
    by destruct Hd as [->|[->| ->]]. }
  rewrite Seg. set (data' := if dir =? WRITE then list_inserts _ b data else data).
  destruct (IH (off + Z.of_nat (length b)) data') as (segs' & E & P); [lia| |].
  { assert (length data' = length data) as -> by (unfold data'; case_match; by len). lia. }
  rewrite E.
  exists ((if dir =? WRITE then b else slice (Z.to_nat off) (length b) data) :: segs'). split.
  - unfold data'. destruct (dir =? WRITE); [|done]. rewrite list_inserts_app_l.
    replace (length b + Z.to_nat off)%nat with (Z.to_nat (off + Z.of_nat (length b))) by lia.
    reflexivity.
  - unfold data' in *. destruct (dir =? WRITE); [by subst|]. destruct P as [Pc Pl]. split.
    + simpl. rewrite Pc, length_app, slice_split. f_equal. f_equal. lia.
    + rewrite !fmap_cons, Pl, slice_length by lia. done.
Qed.

(** The ram disk of rd.c refuses a request that ends past the disk, with
    no effect, and otherwise moves exactly the bytes of the request, provided
    the end of the request fits the 64 bits of the check. *)
Theorem rd_request_refines rq data :
  rq_dir rq = READ ∨ rq_dir rq = READA ∨ rq_dir rq = WRITE → 0 <= rq_pos rq →
  rq_pos rq * 512 + seg_total (rq_segs rq) < 18446744073709551616 →
  Z.of_nat (length data) = Rd.DEVICE_SIZE →
  let pos := rq_pos rq * 512 in
  if Rd.DEVICE_SIZE <? pos + seg_total (rq_segs rq)
  then Rd.device_make_request rq data = Ret (-1, (data, rq_segs rq))
  else ∃ segs', Rd.device_make_request rq data =
    Ret (0, (if rq_dir rq =? WRITE then list_inserts (Z.to_nat pos) (concat (rq_segs rq)) data
             else data, segs')) ∧
    if rq_dir rq =? WRITE then segs' = rq_segs rq else rd_filled data pos (rq_segs rq) segs'.
Proof.
  intros Hd Hp Ht Hl pos. unfold Rd.device_make_request, Rd.DEVICE_SECTOR_SIZE.
  fold (seg_total (rq_segs rq)). fold pos.
  assert (0 <= seg_total (rq_segs rq)) by (unfold seg_total; lia).
  rewrite (u64_id pos) by lia. rewrite u64_id by lia.
  destruct (Z.ltb_spec Rd.DEVICE_SIZE (pos + seg_total (rq_segs rq))) as [Hgt|Hle]; [done|].
  unfold Rd.DEVICE_SIZE in *. rewrite s64_id by (unfold LLONG_MAX; lia).
  destruct (rd_segments_ok (rq_dir rq) pos data (rq_segs rq)) as (segs' & E & P); [done|lia|lia|].
  rewrite E. eauto.
Qed.

(** A start close to 2^64 wraps the sum of the check: the request is let
    through and addresses the bytes before the disk. *)
Lemma rd_check_wraps data :
  Rd.device_make_request (Request WRITE 36028797018963967 [replicate 1024 (Some x00)]) data
    = Fault OutOfBounds.
Proof. reflexivity. Qed.

(** ** Witnesses *)

Section examples.

(** A block layer whose objects are numbered; [k_fail] makes the next calls
    fail. *)
Record blk_sim := BlkSim { k_live : gset loc; k_next : loc; k_majors : gset Z; k_fail : list bool }.

Definition sim_fails (b : blk_sim) : bool := match k_fail b with true :: _ => true | _ => false end.
Definition sim_tick (b : blk_sim) : blk_sim :=
  BlkSim (k_live b) (k_next b) (k_majors b) (tail (k_fail b)).
Definition sim_del (l : loc) (b : blk_sim) : blk_sim :=
  BlkSim (k_live b ∖ {[l]}) (k_next b) (k_majors b) (k_fail b).

Definition sim_init_queue (b : blk_sim) : (Z + loc * loc) * blk_sim :=
  let q := fresh (k_live b) in
  let t := fresh ({[q]} ∪ k_live b) in
  if sim_fails b then (inl (- ENOMEM), sim_tick b)
  else (inr (q, t), BlkSim ({[q; t]} ∪ k_live b) (k_next b) (k_majors b) (tail (k_fail b))).
Definition sim_alloc_disk (b : blk_sim) : option loc * blk_sim :=
  let g := fresh (k_live b) in
  if sim_fails b then (None, sim_tick b)
  else (Some g, BlkSim ({[g]} ∪ k_live b) (k_next b) (k_majors b) (tail (k_fail b))).
(** The number 240 is handed out for 0. *)
Definition sim_register (m : Z) (b : blk_sim) : Z * blk_sim :=
  let n := if m =? 0 then 240 else m in
  if bool_decide (n ∈ k_majors b) then (- EBUSY, b)
  else (if m =? 0 then n else 0, BlkSim (k_live b) (k_next b) ({[n]} ∪ k_majors b) (k_fail b)).

#[local] Instance blk_sim_layer : BlkLayer blk_sim.
Proof.
  refine {| bl_live := k_live; bl_majors := k_majors;
    blk_mq_init_sq_queue := sim_init_queue; blk_cleanup_queue := sim_del;
    blk_mq_free_tag_set := sim_del; alloc_disk := sim_alloc_disk; put_disk := sim_del;
    add_disk := λ _ b, b; del_gendisk := λ _ b, b; register_blkdev := sim_register;
    unregister_blkdev := λ m b, BlkSim (k_live b) (k_next b) (k_majors b ∖ {[m]}) (k_fail b) |};
    try done.
  - intros b q t b' E. unfold sim_init_queue in E. destruct (sim_fails b); [done|].
    injection E as <- <- <-. pose proof (is_fresh (k_live b)) as F1.
    pose proof (is_fresh ({[fresh (k_live b)]} ∪ k_live b)) as F2.
    rewrite not_elem_of_union, not_elem_of_singleton in F2. naive_solver.
  - intros b e b' E. unfold sim_init_queue in E. destruct (sim_fails b); [|done].
    by injection E as <- <-.
  - intros b g b' E. unfold sim_alloc_disk in E. destruct (sim_fails b); [done|].
    injection E as <- <-. split; [apply is_fresh|done].
  - intros b b' E. unfold sim_alloc_disk in E. destruct (sim_fails b); [|done].
    by injection E as <-.
  - intros b r b' E. unfold sim_register in E. simpl in E.
    case_bool_decide as D; injection E as <- <-; unfold INT_MAX, EBUSY;
      split_and!; lia || naive_solver lia.
  - intros m b r b' Hm E. unfold sim_register in E. rewrite (proj2 (Z.eqb_neq m 0)) in E by lia.
    case_bool_decide as D; injection E as <- <-; unfold EBUSY; split_and!; lia || naive_solver lia.
Defined.

Definition blk0 : drv_st bump blk_sim := DrvSt bump_init (BlkSim ∅ 1 ∅ []) None 0.
(** The disk cannot be allocated. *)
Definition blk1 : drv_st bump blk_sim := DrvSt bump_init (BlkSim ∅ 1 ∅ [false; true]) None 0.

Lemma blkdev_load_unload_no_leak_witness :
  loads_cleanly (blkdev_init 100) blk0 ∧ loads_cleanly (sblkdev_init 100) blk1.
Proof.
  split; [apply (blkdev_load_unload_no_leak 100 blk0); reflexivity|].
  apply (blkdev_load_unload_no_leak 100 blk1); reflexivity.
Defined.

(** A disk of one sector. *)
Definition disk1 : block_dev := BlockDev 1 (Some (1%positive, replicate 512 (Some x00))).
Definition wseg : list cell := Some <$> [x61; x62; x63].

Lemma disk1_ok : disk_ok disk1 1%positive (replicate 512 (Some x00)).
Proof. split; [reflexivity|simpl; lia|reflexivity]. Qed.

(** A write that fits, and a read of two bytes more than the disk holds. *)
Lemma blk_drivers_agree_witness :
  Blkdev.do_request (Request WRITE 0 [wseg]) disk1 = Mqblkdev.do_request (Request WRITE 0 [wseg]) disk1 ∧
  Mqblkdev.queue_rq (λ rq _ n, n <? seg_total (rq_segs rq)) (Request READ 0 [replicate 514 None]) disk1 = Ret None.
Proof.
  split; [apply (blk_drivers_agree (Request WRITE 0 [wseg]) disk1); by right|].
  destruct (blk_drivers_agree (Request READ 0 [replicate 514 None]) disk1 (or_introl eq_refl)) as (_ & _ & _ & _ & Mq).
  destruct (Mq (λ rq _ n, n <? seg_total (rq_segs rq)) 1%positive (replicate 512 (Some x00))) as (r & _ & E).
  - intros rq st n. apply Z.ltb_lt.
  - exact disk1_ok.
  - simpl. lia.
  - unfold seg_total. simpl. lia.
  - rewrite E. reflexivity.
Defined.

Lemma blk_request_refines_witness : ∃ d' segs',
  Blkdev.do_request (Request WRITE 0 [wseg; wseg]) disk1 = Ret (6, (d', segs')).
Proof.
  destruct (blk_request_refines (Request WRITE 0 [wseg; wseg]) disk1 1%positive
    (replicate 512 (Some x00)) disk1_ok) as (segs' & E & _);
    [simpl; lia|unfold seg_total; simpl; lia|].
  exists (BlockDev 1 (Some (1%positive,
    stored true (replicate 512 (Some x00)) 0 6 [wseg; wseg]))), segs'. exact E.
Defined.

Lemma blk_write_read_roundtrip_witness : ∃ d' segs',
  Blkdev.do_request (Request WRITE 0 [wseg; wseg]) disk1 = Ret (6, (d', [wseg; wseg])) ∧
  Blkdev.do_request (Request READ 0 [replicate 6 None]) d' = Ret (6, (d', segs')) ∧
  concat segs' = wseg ++ wseg.
Proof.
  exact (blk_write_read_roundtrip disk1 1%positive (replicate 512 (Some x00)) 0 [wseg; wseg]
    [replicate 6 None] disk1_ok ltac:(lia) eq_refl ltac:(unfold seg_total; simpl; lia)
    ltac:(unfold seg_total; simpl; lia)).
Defined.

Lemma rd_request_refines_witness :
  Rd.device_make_request (Request READ 8192 [[None]]) (replicate (Z.to_nat Rd.DEVICE_SIZE) None) =
    Ret (-1, (replicate (Z.to_nat Rd.DEVICE_SIZE) None, [[None]])).
Proof.
  assert (L : Z.of_nat (length (replicate (Z.to_nat Rd.DEVICE_SIZE) (None : cell))) = Rd.DEVICE_SIZE)
    by (rewrite length_replicate; unfold Rd.DEVICE_SIZE; lia).
  refine (rd_request_refines (Request READ 8192 [[None]]) _ (or_introl eq_refl) _ _ L);
    unfold seg_total; simpl; lia.
Defined.

End examples.
