(* ===== verification/BlkLegacy.v ===== *)
(** Loading and unloading mq-blkdev.c and rd.c (src/m_modules/blk_dev).

    Unlike blkdev.c and sblkdev.c (BlkDev.v) these two give up their objects
    inline, test few of the results they get, and forget some objects when
    they are unloaded: the tag set in mq-blkdev.c, the queue in rd.c. *)
From Stdlib Require Import ZArith Lia.
From stdpp Require Import base list gmap.
From S2P Require Import Prelude Kernel BlkDev BlkDevThms.

(** ** mq-blkdev.c *)

Section mq.
Context {H B : Type} `{KernelHeap H} `{BlkLayer B}.
Abbreviation st := (drv_st H B).
(** sizeof(struct block_dev) of this file, which has no open counter. *)
Variable sizeof_dev : Z.

Definition blockdev_open : Z := 0.
Definition blockdev_release : unit := tt.
Definition blockdev_ioctl (cmd arg : Z) : Z := - ENOTTY.

Definition on_blk {A} (f : B → A * B) : M st A := λ s,
  let '(r, b) := f (drv_blk s) in Ret (r, set_blk b s).
Definition blk_do (f : B → B) : M st unit := mmodify (λ s, set_blk (f (drv_blk s)) s).
Definition unregister_mine : M st unit := λ s,
  Ret (tt, set_blk (unregister_blkdev (drv_major s) (drv_blk s)) s).

(** From [block_device->queue->queuedata = block_device] on. *)
Definition mq_add_disk : M st Z :=
  g ← on_blk alloc_disk;
  upd_dev (λ d, with_disk d g) ≫= λ _,
  match g with
  | None => mfault NullDeref                        (* gdisk->flags = .. *)
  | Some g => blk_do (add_disk g) ≫= λ _, mret 0
  end.

(** blk_mq_init_sq_queue returns a queue or an error pointer, and the code
    tests for NULL: the error pointer is dereferenced. *)
Definition myblock_driver_init : M st Z :=
  s ← mget;
  r ← on_blk (register_blkdev (drv_major s));
  mmodify (set_major r) ≫= λ _,
  p ← d_kmalloc sizeof_dev;
  match p with
  | None =>
      mmodify (set_dev None) ≫= λ _, unregister_mine ≫= λ _, mret (- ENOMEM)
  | Some l =>
      let cap := Z.shiftr (112 * PAGE_SIZE) 9 in
      mmodify (set_dev (Some (DiskDev l (BlockDev cap None) 0 None None None))) ≫= λ _,
      p ← d_kmalloc (Z.shiftl cap 9);
      match p with
      | None => unregister_mine ≫= λ _, d_kfree l ≫= λ _, mret (- ENOMEM)
      | Some a =>
          upd_dev (λ d, with_dev d (BlockDev cap
            (Some (a, replicate (Z.to_nat (Z.shiftl cap 9)) None)))) ≫= λ _,
          q ← on_blk blk_mq_init_sq_queue;
          match q with
          | inl _ => mfault ErrPtr                  (* queue->queuedata = .. *)
          | inr (q, t) =>
              upd_dev (λ d, with_tags (with_queue d (Some q)) (Some t)) ≫= λ _, mq_add_disk
          end
      end
  end.

Definition myblock_driver_exit : M st unit :=
  d ← get_dev;
  (match dd_disk d with
   | Some g => blk_do (del_gendisk g) ≫= λ _, blk_do (put_disk g)
   | None => mret tt
   end) ≫= λ _,
  (match dd_queue d with
   | Some q => blk_do (blk_cleanup_queue q)
   | None => mret tt
   end) ≫= λ _,
  (match bdata (dd_dev d) with Some (a, _) => d_kfree a | None => mret tt end) ≫= λ _,
  unregister_mine ≫= λ _,
  d_kfree (dd_loc d).

End mq.

(** ** rd.c *)

(** The queue of the 2.6 block layer. *)
Class BlkQueue (B : Type) `{BlkLayer B} := {
  blk_alloc_queue : B → option loc * B;
  blk_alloc_queue_some_law : ∀ b q b', blk_alloc_queue b = (Some q, b') →
    (q ∉ bl_live b) ∧ bl_live b' = {[q]} ∪ bl_live b ∧ bl_majors b' = bl_majors b;
  blk_alloc_queue_none_law : ∀ b b', blk_alloc_queue b = (None, b') →
    bl_live b' = bl_live b ∧ bl_majors b' = bl_majors b
}.

(** [root_device] and [vdisk]; private_data is [&vdisk], read back as the
    first field of a [struct root_device_t]: the disk's bytes. *)
Record rd_st (H B : Type) := RdSt {
  rd_heap : H;                              (* vmalloc *)
  rd_blk : B;
  rd_vdisk : option (loc * list cell);
  rd_queue : option loc;
  rd_gd : option loc
}.
Arguments RdSt {H B}.
Arguments rd_heap {H B}.
Arguments rd_blk {H B}.
Arguments rd_vdisk {H B}.
Arguments rd_queue {H B}.
Arguments rd_gd {H B}.

Section rd.
Context {H B : Type} `{KernelHeap H} `{BlkQueue B}.
Abbreviation st := (rd_st H B).

Definition RD_MAJOR := 250.

Definition device_open : Z := 0.
Definition device_release : Z := 0.
Definition device_ioctl (cmd arg : Z) : Z := - EIO.

(** Nothing is tested: neither vmalloc nor register_blkdev nor the two
    allocations of the block layer, whose results are used at once. *)
Definition device_init : M st Z := λ s,
  let '(v, h) := kmalloc Rd.DEVICE_SIZE (rd_heap s) in
  let '(_, b) := register_blkdev RD_MAJOR (rd_blk s) in
  let '(g, b) := alloc_disk b in
  let '(q, b) := blk_alloc_queue b in
  let data := (λ l, (l, replicate (Z.to_nat Rd.DEVICE_SIZE) None)) <$> v in
  match q, g with
  | Some _, Some g' => Ret (0, RdSt h (add_disk g' b) data q g)
  | _, _ => Fault NullDeref
  end.

(** vfree(NULL) does nothing. *)
Definition device_exit : M st unit := λ s,
  match rd_gd s with
  | None => Fault NullDeref
  | Some g =>
      let b := unregister_blkdev RD_MAJOR (put_disk g (del_gendisk g (rd_blk s))) in
      let h := match rd_vdisk s with Some (l, _) => kfree l (rd_heap s) | None => rd_heap s end in
      Ret (tt, RdSt h b (rd_vdisk s) (rd_queue s) (rd_gd s))
  end.

(** A request on the loaded driver. *)
Definition rd_make_request (rq : request) : M st (Z * list (list cell)) := λ s,
  match rd_vdisk s with
  | Some (l, data) =>
      match Rd.device_make_request rq data with
      | Ret (r, (data', segs)) => Ret ((r, segs), RdSt (rd_heap s) (rd_blk s) (Some (l, data'))
                                                    (rd_queue s) (rd_gd s))
      | Fault f => Fault f
      end
  | None =>
      match Rd.device_make_request rq [] with
      | Ret (r, (_, segs)) => Ret ((r, segs), s)
      | Fault _ => Fault NullDeref
      end
  end.

End rd.

(** ** Theorems *)

#[local] Arguments Z.to_nat : simpl never.
#[local] Arguments replicate : simpl never.

Section mq_thms.
Context {H B : Type} `{KernelHeap H} `{BlkLayer B}.
Abbreviation st := (drv_st H B).
Implicit Types s : st.

(** Same blocks, same objects of the block layer but for [extra], same major
    numbers. *)
Definition given_back (extra : gset loc) (s s' : st) : Prop :=
  live (drv_heap s') = live (drv_heap s) ∧ bl_live (drv_blk s') = extra ∪ bl_live (drv_blk s) ∧
  bl_majors (drv_blk s') = bl_majors (drv_blk s).

Lemma register_unregister b r b' : (∀ m, m ∈ bl_majors b → 0 < m) →
  register_blkdev 0 b = (r, b') →
  bl_live b' = bl_live b ∧ bl_majors b' ∖ {[r]} = bl_majors b.
Proof.
  intros P E. destruct (register_dyn_law _ _ _ E) as (L & _ & Nz & Ok & Er). split; [done|].
  destruct (decide (0 < r)) as [Hr|Hr].
  - destruct (Ok Hr) as [F ->]. set_solver.
  - rewrite Er by lia. assert (r ∉ bl_majors b) by (intros K; specialize (P _ K); lia). set_solver.
Qed.

(** Loading mq-blkdev.c: out of memory it fails with nothing left
    behind; when it succeeds, unloading it gives back every block, the queue,
    the disk and the major number, but not the tag set, which stays allocated;
    and an error of blk_mq_init_sq_queue or alloc_disk is not seen: the error
    pointer or the null pointer is dereferenced. *)
Theorem mq_load_unload_leaks_tags size s : drv_major s = 0 →
  (∀ m, m ∈ bl_majors (drv_blk s) → 0 < m) →
  match myblock_driver_init size s with
  | Ret (r, s') =>
      (r = - ENOMEM ∧ given_back ∅ s s') ∨
      (r = 0 ∧ ∃ t, (t ∉ bl_live (drv_blk s)) ∧
        wp myblock_driver_exit s' (λ _ s'', given_back {[t]} s s''))
  | Fault f =>
      (f = ErrPtr ∧ ∃ b e b', blk_mq_init_sq_queue b = (inl e, b')) ∨
      (f = NullDeref ∧ ∃ b b', alloc_disk b = (None, b'))
  end.
Proof.
  intros Ej Pos. unfold myblock_driver_init, mbind, M_bind, mget, on_blk. rewrite Ej.
  destruct (register_blkdev 0 (drv_blk s)) as [m b1] eqn:Er.
  destruct (register_unregister _ _ _ Pos Er) as [L1 M1].
  unfold mmodify, d_kmalloc, unregister_mine, d_kfree. simpl.
  destruct (kmalloc size (drv_heap s)) as [[l|] h1] eqn:E1; simpl.
  2: { left. split; [done|]. destruct (unregister_law m b1) as [UL UM].
       unfold given_back. simpl. rewrite UL, UM, (kmalloc_none_law _ _ _ E1), L1, M1. set_solver. }
  destruct (kmalloc_some_law _ _ _ _ E1) as [F1 K1].
  destruct (kmalloc (Z.shiftl (Z.shiftr (112 * PAGE_SIZE) 9) 9) h1) as [[a|] h2] eqn:E2; simpl.
  2: { pose proof (kmalloc_none_law _ _ _ E2) as K2.
       rewrite bool_decide_eq_true_2 by (rewrite K2, K1; set_solver). simpl. left. split; [done|].
       destruct (unregister_law m b1) as [UL UM]. unfold given_back. simpl.
       rewrite UL, UM, kfree_law, K2, K1, L1, M1. set_solver. }
  destruct (kmalloc_some_law _ _ _ _ E2) as [F2 K2].
  destruct (blk_mq_init_sq_queue b1) as [[e|[q t]] b2] eqn:E3; simpl; [left; eauto|].
  destruct (init_queue_ok_law _ _ _ _ E3) as (Fq & Ft & Nqt & L2 & M2).
  unfold mq_add_disk, mbind, M_bind, on_blk. simpl.
  destruct (alloc_disk b2) as [[g|] b3] eqn:E4; simpl; [|right; eauto].
  destruct (alloc_disk_some_law _ _ _ E4) as (Fg & L3 & M3).
  right. split; [done|]. exists t. split; [by rewrite <- L1|].
  unfold wp, myblock_driver_exit, mbind, M_bind, get_dev, mget, blk_do, mmodify, unregister_mine, d_kfree.
  simpl. rewrite bool_decide_eq_true_2 by (rewrite K2; set_solver). simpl.
  rewrite bool_decide_eq_true_2 by (rewrite kfree_law, K2, K1; set_solver). simpl.
  set (b4 := add_disk g b3). destruct (add_disk_law g b3) as [L4 M4].
  destruct (del_gendisk_law g b4) as [L5 M5]. set (b5 := del_gendisk g b4) in *.
  destruct (put_disk_law g b5) as [L6 M6]. set (b6 := put_disk g b5) in *.
  destruct (cleanup_queue_law q b6) as [L7 M7]. set (b7 := blk_cleanup_queue q b6) in *.
  destruct (unregister_law m b7) as [L8 M8].
  unfold given_back. simpl. rewrite !kfree_law, K2, K1, L8, M8, L7, M7, L6, M6, L5, M5.
  unfold b4. rewrite L4, M4, L3, M3, M2, M1.
  rewrite L2 in Fg. split_and!; [|rewrite L2, L1; rewrite L1 in *|done]; set_solver.
Qed.

End mq_thms.

Section rd_thms.
Context {H B : Type} `{KernelHeap H} `{BlkQueue B}.
Abbreviation st := (rd_st H B).
Implicit Types s : st.

(** A request of at least one byte that passes the bound. *)
Definition rd_fits (rq : request) : Prop :=
  (rq_dir rq = READ ∨ rq_dir rq = WRITE) ∧ 0 <= rq_pos rq ∧
  rq_pos rq * 512 + seg_total (rq_segs rq) <= Rd.DEVICE_SIZE ∧ 0 < seg_total (rq_segs rq).

Lemma segments_nowhere dir off segs : dir = READ ∨ dir = WRITE → 0 <= off →
  0 < seg_total segs → ∃ f, Rd.segments dir off [] segs = Fault f.
Proof.
  intros Hd. revert off. induction segs as [|b r IH]; intros off Ho Ht; [by unfold seg_total in Ht|].
  cbn [Rd.segments]. unfold Rd.segment.
  destruct (decide (length b = 0%nat)) as [Eb|Nb].
  - apply nil_length_inv in Eb as ->. destruct (decide (off = 0)) as [->|No].
    + destruct (IH 0) as [f E]; [lia|by unfold seg_total in *|].
      destruct Hd as [-> | ->]; simpl in *; change (0 + Z.of_nat 0) with 0; rewrite E; eauto.
    + rewrite (proj2 (Z.leb_gt (off + Z.of_nat (length [])) (Z.of_nat (length (@nil cell)))))
        by (simpl; lia).
      rewrite andb_false_r. destruct Hd as [-> | ->]; simpl; eauto.
  - rewrite (proj2 (Z.leb_gt (off + Z.of_nat (length b)) (Z.of_nat (length (@nil cell)))))
      by (simpl; lia).
    rewrite andb_false_r. destruct Hd as [-> | ->]; simpl; eauto.
Qed.

(** Rd.c tests no allocation: a missing disk or queue is dereferenced at
    once and missing memory by the first request that fits; a complete load is
    undone by unloading except for the queue, which stays allocated. *)
Theorem rd_load_unload_leaks_queue s :
  match device_init s with
  | Ret (r, s') =>
      r = 0 ∧
      (rd_vdisk s' = None → ∀ rq, rd_fits rq → rd_make_request rq s' = Fault NullDeref) ∧
      ((register_blkdev RD_MAJOR (rd_blk s)).1 = 0 →
        ∃ q s'', (q ∉ bl_live (rd_blk s)) ∧ device_exit s' = Ret (tt, s'') ∧
          live (rd_heap s'') = live (rd_heap s) ∧
          bl_live (rd_blk s'') = {[q]} ∪ bl_live (rd_blk s) ∧
          bl_majors (rd_blk s'') = bl_majors (rd_blk s))
  | Fault f => f = NullDeref ∧
      ∃ b, (alloc_disk b).1 = None ∨ (blk_alloc_queue b).1 = None
  end.
Proof.
  unfold device_init. destruct (kmalloc Rd.DEVICE_SIZE (rd_heap s)) as [v h] eqn:Ev.
  destruct (register_blkdev RD_MAJOR (rd_blk s)) as [m b1] eqn:Er.
  destruct (register_fixed_law RD_MAJOR (rd_blk s) m b1 ltac:(done) Er) as (L1 & _ & Ok & _).
  destruct (alloc_disk b1) as [[g|] b2] eqn:Eg.
  2: { destruct (blk_alloc_queue b2) as [[q|] b3]; (split; [done|exists b1; left; by rewrite Eg]). }
  destruct (blk_alloc_queue b2) as [[q|] b3] eqn:Eq.
  2: { split; [done|exists b2; right; by rewrite Eq]. }
  split; [done|]. simpl. split.
  - intros Nv rq (Hd & Hp & Ht & Hb). unfold rd_make_request. simpl. rewrite Nv.
    unfold Rd.device_make_request, Rd.DEVICE_SECTOR_SIZE. fold (seg_total (rq_segs rq)).
    unfold Rd.DEVICE_SIZE in *.
    rewrite (u64_id (rq_pos rq * 512)), u64_id, s64_id by (unfold LLONG_MAX; lia).
    rewrite (proj2 (Z.ltb_ge 4194304 _)) by lia.
    destruct (segments_nowhere (rq_dir rq) (rq_pos rq * 512) (rq_segs rq)) as [f ->]; [done|lia|lia|done].
  - intros ->. destruct (Ok eq_refl) as [Fm M1].
    destruct (alloc_disk_some_law _ _ _ Eg) as (Fg & L2 & M2).
    destruct (blk_alloc_queue_some_law _ _ _ Eq) as (Fq & L3 & M3).
    eexists q, _. split; [set_solver|]. split; [reflexivity|]. simpl.
    set (b4 := add_disk g b3). destruct (add_disk_law g b3) as [L4 M4].
    destruct (del_gendisk_law g b4) as [L5 M5]. set (b5 := del_gendisk g b4) in *.
    destruct (put_disk_law g b5) as [L6 M6]. set (b6 := put_disk g b5) in *.
    destruct (unregister_law RD_MAJOR b6) as [L7 M7].
    rewrite L7, M7, L6, M6, L5, M5. unfold b4. rewrite L4, M4, L3, M3, M2, M1.
    rewrite L2 in Fq. split_and!; [|rewrite L2, L1; rewrite L1 in Fg, Fq; clear -Fg Fq; set_solver
                                  |clear -Fm; set_solver].
    destruct v as [l|]; simpl.
    + destruct (kmalloc_some_law _ _ _ _ Ev) as [Fl Hl]. rewrite kfree_law, Hl. set_solver.
    + by rewrite (kmalloc_none_law _ _ _ Ev).
Qed.

End rd_thms.

(** ** Witnesses *)

Section examples.
#[local] Existing Instance blk_sim_layer.

#[local] Instance blk_sim_queue : BlkQueue blk_sim.
Proof.
  refine {| blk_alloc_queue := alloc_disk |}.
  - intros b q b' E. exact (alloc_disk_some_law b q b' E).
  - intros b b' E. exact (alloc_disk_none_law b b' E).
Defined.

(** A load that goes well, one without queue and one without disk. *)
Definition legacy_load (fail : list bool) : outcome Z :=
  match myblock_driver_init 100 (DrvSt bump_init (BlkSim ∅ 1 ∅ fail) None 0) with
  | Ret (r, _) => Ret r
  | Fault f => Fault f
  end.
Example legacy_loads :
  legacy_load [] = Ret 0 ∧ legacy_load [true] = Fault ErrPtr ∧ legacy_load [false; true] = Fault NullDeref.
Proof. by vm_compute. Qed.

Lemma mq_load_unload_leaks_tags_witness :
  match myblock_driver_init 100 blk0 with
  | Ret (r, s') => (r = - ENOMEM ∧ given_back ∅ blk0 s') ∨
      (r = 0 ∧ ∃ t, (t ∉ bl_live (drv_blk blk0)) ∧
        wp myblock_driver_exit s' (λ _ s'', given_back {[t]} blk0 s''))
  | Fault f => (f = ErrPtr ∧ ∃ b e b', blk_mq_init_sq_queue (B:=blk_sim) b = (inl e, b')) ∨
      (f = NullDeref ∧ ∃ b b', alloc_disk (B:=blk_sim) b = (None, b'))
  end.
Proof.
  apply (mq_load_unload_leaks_tags 100 blk0); [reflexivity|].
  intros m Hm. by apply not_elem_of_empty in Hm.
Defined.

End examples.
