(* ===== verification/ScullInit.v ===== *)
(** Loading and unloading the scull module: the init and cleanup functions of
    src/ldd/scull/main.c, pipe.c and access.c, and the
    sequence operations behind /proc/scullseq.

    The registry of character devices is the interface of ChrReg.v.  The module
    is built without SCULL_DEBUG, so the /proc entries are not created; their
    printers are in ScullProc. *)
From Stdlib Require Import ZArith Lia.
From stdpp Require Import base list gmap.
From S2P Require Import Prelude Kernel ChrReg Scull ScullPipe ScullAccess ScullIoctl Scullp.

Definition SCULL_MAJOR := 0.
Definition SCULL_NR_DEVS := 4.
Definition SCULL_P_NR_DEVS := 4.
Definition SCULL_N_ADEVS := 4.

Class ScullSizes := { sizeof_scull_dev : Z; sizeof_scull_pipe : Z }.

(** ** The scull module *)

(** Its global variables; [m_cdevs] are the cdevs whose kobject holds a
    reference. *)
Record mod_st (H R : Type) := ModSt {
  m_params : scull_params;
  m_nr_devs : Z;                                   (* scull_nr_devs *)
  m_p_nr_devs : Z;                                 (* scull_p_nr_devs *)
  m_minor : Z;
  m_major : Z;
  m_devices : option (loc * list scull_dev);       (* scull_devices *)
  m_p_devices : option (loc * list scull_pipe);    (* scull_p_devices *)
  m_p_devno : Z;
  m_a_firstdev : Z;
  m_adevs : list scull_dev;                        (* of scull_access_devs *)
  m_c_list : list scull_listitem;
  m_cdevs : gset cdev_id;
  m_heap : H;
  m_reg : R
}.
Arguments ModSt {H R}.
Arguments m_params {H R}.
Arguments m_nr_devs {H R}.
Arguments m_p_nr_devs {H R}.
Arguments m_minor {H R}.
Arguments m_major {H R}.
Arguments m_devices {H R}.
Arguments m_p_devices {H R}.
Arguments m_p_devno {H R}.
Arguments m_a_firstdev {H R}.
Arguments m_adevs {H R}.
Arguments m_c_list {H R}.
Arguments m_cdevs {H R}.
Arguments m_heap {H R}.
Arguments m_reg {H R}.

Section module.
Context {H R : Type} `{KernelHeap H} `{ChrDevs R} `{ScullSizes}.
Abbreviation st := (mod_st H R).

(** The variables of main.c, pipe.c and access.c, the registry, the heap. *)
Definition set_main (major : Z) (d : option (loc * list scull_dev)) (s : st) : st :=
  ModSt (m_params s) (m_nr_devs s) (m_p_nr_devs s) (m_minor s) major d (m_p_devices s)
    (m_p_devno s) (m_a_firstdev s) (m_adevs s) (m_c_list s) (m_cdevs s) (m_heap s) (m_reg s).
Definition set_pipes (devno : Z) (d : option (loc * list scull_pipe)) (s : st) : st :=
  ModSt (m_params s) (m_nr_devs s) (m_p_nr_devs s) (m_minor s) (m_major s) (m_devices s) d
    devno (m_a_firstdev s) (m_adevs s) (m_c_list s) (m_cdevs s) (m_heap s) (m_reg s).
Definition set_access (first : Z) (d : list scull_dev) (l : list scull_listitem) (s : st) : st :=
  ModSt (m_params s) (m_nr_devs s) (m_p_nr_devs s) (m_minor s) (m_major s) (m_devices s)
    (m_p_devices s) (m_p_devno s) first d l (m_cdevs s) (m_heap s) (m_reg s).
Definition set_kernel (c : gset cdev_id) (h : H) (r : R) (s : st) : st :=
  ModSt (m_params s) (m_nr_devs s) (m_p_nr_devs s) (m_minor s) (m_major s) (m_devices s)
    (m_p_devices s) (m_p_devno s) (m_a_firstdev s) (m_adevs s) (m_c_list s) c h r.

Definition m_kmalloc (n : Z) : M st (option loc) := λ s,
  let '(r, h) := kmalloc (u64 n) (m_heap s) in Ret (r, set_kernel (m_cdevs s) h (m_reg s) s).
Definition m_kfree (l : loc) : M st unit := λ s,
  if bool_decide (l ∈ live (m_heap s))
  then Ret (tt, set_kernel (m_cdevs s) (kfree l (m_heap s)) (m_reg s) s)
  else Fault BadFree.

(** A call of the registry. *)
Definition m_call {A} (f : R → A * R) : M st A := λ s,
  let '(a, r) := f (m_reg s) in Ret (a, set_kernel (m_cdevs s) (m_heap s) r s).
Definition m_unregister (dev n : Z) : M st unit :=
  m_call (λ r, (tt, unregister_chrdev_region dev n r)).

(** cdev_init gives the kobject its reference, kobject_put takes it back: a
    kobject without one is a misuse the kernel warns about. *)
Definition m_cdev_init (c : cdev_id) : M st unit :=
  mmodify (λ s, set_kernel ({[c]} ∪ m_cdevs s) (m_heap s) (m_reg s) s).
Definition m_kobject_put (c : cdev_id) : M st unit := λ s,
  if bool_decide (c ∈ m_cdevs s)
  then Ret (tt, set_kernel (m_cdevs s ∖ {[c]}) (m_heap s) (m_reg s) s)
  else Fault BadFree.
Definition m_cdev_del (c : cdev_id) : M st unit :=
  m_call (λ r, (tt, cdev_unmap c r)) ≫= λ _, m_kobject_put c.

(** scull_trim on the device [d]: what it leaves of it. *)
Definition m_trim (d : scull_dev) : M st scull_dev := λ s,
  match scull_trim (ScullSt (m_params s) d (m_heap s) () 0) with
  | Ret (_, s') => Ret (dev s', set_kernel (m_cdevs s) (heap s') (m_reg s) s)
  | Fault f => Fault f
  end.

(** *** main.c *)

(** An error of cdev_add is only reported. *)
Definition scull_setup_cdev (index : nat) : M st unit :=
  s ← mget;
  let devno := MKDEV (m_major s) (m_minor s + Z.of_nat index) in
  m_cdev_init (CScull index) ≫= λ _,
  m_call (cdev_add (CScull index) devno 1) ≫= λ _, mret tt.

(** *** pipe.c *)

Definition scull_p_setup_cdev (index : nat) : M st unit :=
  s ← mget;
  m_cdev_init (CPipe index) ≫= λ _,
  m_call (cdev_add (CPipe index) (m_p_devno s + Z.of_nat index) 1) ≫= λ _, mret tt.

Definition scull_p_init (firstdev : Z) : M st Z :=
  s ← mget;
  let n := m_p_nr_devs s in
  result ← m_call (register_chrdev_region firstdev n);
  if result <? 0 then mret 0 else
  mmodify (λ s, set_pipes firstdev (m_p_devices s) s) ≫= λ _,
  p ← m_kmalloc (n * sizeof_scull_pipe);
  match p with
  | None =>
      mmodify (λ s, set_pipes (m_p_devno s) None s) ≫= λ _,
      m_unregister firstdev n ≫= λ _, mret 0
  | Some l =>
      mmodify (λ s, set_pipes (m_p_devno s) (Some (l, replicate (Z.to_nat n) pipe0)) s) ≫= λ _,
      mfor 0 (Z.to_nat n) scull_p_setup_cdev ≫= λ _, mret n
  end.

Definition scull_p_cleanup : M st unit :=
  s ← mget;
  match m_p_devices s with
  | None => mret tt
  | Some (l, devs) =>
      mfor 0 (Z.to_nat (m_p_nr_devs s)) (λ i,
        m_cdev_del (CPipe i) ≫= λ _,
        match devs !! i with
        | None => mfault OutOfBounds
        | Some p => match buffer p with Some (b, _) => m_kfree b | None => mret tt end
        end) ≫= λ _,
      m_kfree l ≫= λ _,
      m_unregister (m_p_devno s) (m_p_nr_devs s) ≫= λ _,
      mmodify (λ s, set_pipes (m_p_devno s) None s)
  end.

(** *** access.c *)

Definition with_geometry (p : scull_params) (d : scull_dev) : scull_dev :=
  ScullDev (d_data d) (scull_quantum p) (scull_qset p) (d_size d) (d_access_key d) false.

(** The i-th of scull_access_devs. *)
Definition scull_access_setup (devno : Z) (i : nat) : M st unit :=
  mmodify (λ s, set_access (m_a_firstdev s)
    (alter (with_geometry (m_params s)) i (m_adevs s)) (m_c_list s) s) ≫= λ _,
  m_cdev_init (CAccess i) ≫= λ _,
  err ← m_call (cdev_add (CAccess i) devno 1);
  if negb (err =? 0) then m_kobject_put (CAccess i) else mret tt.

Definition scull_access_init (firstdev : Z) : M st Z :=
  result ← m_call (register_chrdev_region firstdev SCULL_N_ADEVS);
  if result <? 0 then mret 0 else
  mmodify (λ s, set_access firstdev (m_adevs s) (m_c_list s) s) ≫= λ _,
  mfor 0 (Z.to_nat SCULL_N_ADEVS)
    (λ i, scull_access_setup (firstdev + Z.of_nat i) i) ≫= λ _,
  mret SCULL_N_ADEVS.

Definition scull_access_cleanup : M st unit :=
  mfor 0 (Z.to_nat SCULL_N_ADEVS) (λ i,
    m_cdev_del (CAccess i) ≫= λ _,
    s ← mget;
    match m_adevs s !! i with
    | None => mfault OutOfBounds
    | Some d =>
        d' ← m_trim d;
        mmodify (λ s, set_access (m_a_firstdev s) (<[i:=d']> (m_adevs s)) (m_c_list s) s)
    end) ≫= λ _,
  s ← mget;
  mforeach (m_c_list s) (λ lptr,
    mmodify (λ s, set_access (m_a_firstdev s) (m_adevs s) (tail (m_c_list s)) s) ≫= λ _,
    m_trim (li_dev lptr) ≫= λ _, m_kfree (li_loc lptr)) ≫= λ _,
  s ← mget;
  m_unregister (m_a_firstdev s) SCULL_N_ADEVS.

(** *** The module *)

(** The trimmed device structures go with the array that holds them. *)
Definition scull_cleanup_module : M st unit :=
  s ← mget;
  let devno := MKDEV (m_major s) (m_minor s) in
  (match m_devices s with
   | None => mret tt
   | Some (l, devs) =>
       mfor 0 (Z.to_nat (m_nr_devs s)) (λ i,
         match devs !! i with
         | None => mfault OutOfBounds
         | Some d => m_trim d ≫= λ _, m_cdev_del (CScull i)
         end) ≫= λ _,
       m_kfree l
   end) ≫= λ _,
  m_unregister devno (m_nr_devs s) ≫= λ _,
  scull_p_cleanup ≫= λ _,
  scull_access_cleanup.

(** The device numbers asked for: the result, and the first number. *)
Definition scull_get_region : M st (Z * Z) :=
  s ← mget;
  if negb (m_major s =? 0) then
    let dev := MKDEV (m_major s) (m_minor s) in
    r ← m_call (register_chrdev_region dev (m_nr_devs s));
    mret (r, dev)
  else
    r ← m_call (alloc_chrdev_region (m_minor s) (m_nr_devs s));
    match r with
    | inl err => mmodify (λ s, set_main (MAJOR 0) (m_devices s) s) ≫= λ _, mret (err, 0)
    | inr dev => mmodify (λ s, set_main (MAJOR dev) (m_devices s) s) ≫= λ _, mret (0, dev)
    end.

Definition scull_init_module : M st Z :=
  '(result, _) ← scull_get_region;
  if result <? 0 then mret result else
  s ← mget;
  let n := m_nr_devs s in
  p ← m_kmalloc (n * sizeof_scull_dev);
  match p with
  | None =>
      mmodify (λ s, set_main (m_major s) None s) ≫= λ _,
      scull_cleanup_module ≫= λ _, mret (- ENOMEM)
  | Some l =>
      mmodify (λ s, set_main (m_major s)
        (Some (l, replicate (Z.to_nat n) (with_geometry (m_params s) zero_dev))) s) ≫= λ _,
      mfor 0 (Z.to_nat n) scull_setup_cdev ≫= λ _,
      s ← mget;
      let dev := MKDEV (m_major s) (m_minor s + n) in
      k ← scull_p_init dev;
      scull_access_init (dev + k) ≫= λ _,
      mret 0
  end.

(** The sequence operations: the position is the device number. *)
Definition scull_seq_start (pos : Z) (s : st) : option nat :=
  if pos >=? m_nr_devs s then None else Some (Z.to_nat pos).
Definition scull_seq_next (pos : Z) (s : st) : option nat * Z :=
  let pos := pos + 1 in
  (if pos >=? m_nr_devs s then None else Some (Z.to_nat pos), pos).

End module.
