(* ===== verification/ScullInitThms.v ===== *)
(** Theorems on loading and unloading the scull module: unloading releases
    exactly what the module holds, loading and then unloading leaves no trace,
    and the two failures the cleanup does not survive. *)
From Stdlib Require Import ZArith Lia.
From stdpp Require Import base list gmap.
From S2P Require Import Prelude Kernel Scull ScullSpec ScullPipe ScullAccess ChrReg ScullInit.

(** ** What the module holds *)

Definition buf_locs (p : scull_pipe) : list loc :=
  match buffer p with Some (l, _) => [l] | None => [] end.
Definition item_locs (x : scull_listitem) : list loc := dev_locs (li_dev x) ++ [li_loc x].

Lemma bind_seq_lookup {A B} (f : A → list B) (l : list A) i :
  (seq i (length l) ≫= λ k, match l !! (k - i)%nat with Some x => f x | None => [] end) = l ≫= f.
Proof.
  revert i. induction l as [|x l IH]; intros i; [done|]. simpl. rewrite Nat.sub_diag. simpl. f_equal.
  etrans; [|apply (IH (S i))]. apply Forall_bind_ext.
  apply Forall_forall. intros k Hk. apply elem_of_seq in Hk.
  replace (k - i)%nat with (S (k - S i)) by lia. done.
Qed.

Section thms.
Context {H R : Type} `{KernelHeap H} `{ChrDevs R} `{ScullSizes}.
Abbreviation st := (mod_st H R).
Implicit Types s : st.

Definition main_locs s : list loc :=
  match m_devices s with Some (l, ds) => (ds ≫= dev_locs) ++ [l] | None => [] end.
Definition pipe_locs s : list loc :=
  match m_p_devices s with Some (l, ps) => (ps ≫= buf_locs) ++ [l] | None => [] end.
Definition access_locs s : list loc := (m_adevs s ≫= dev_locs) ++ (m_c_list s ≫= item_locs).
Definition mod_locs s : list loc := main_locs s ++ pipe_locs s ++ access_locs s.

Definition main_cdevs s : list cdev_id :=
  match m_devices s with Some _ => CScull <$> seq 0 (Z.to_nat (m_nr_devs s)) | None => [] end.
Definition pipe_cdevs s : list cdev_id :=
  match m_p_devices s with Some _ => CPipe <$> seq 0 (Z.to_nat (m_p_nr_devs s)) | None => [] end.
Definition access_cdevs : list cdev_id := CAccess <$> seq 0 4.
Definition mod_cdevs s : list cdev_id := main_cdevs s ++ pipe_cdevs s ++ access_cdevs.

Definition main_range s : gset Z := dev_range (MKDEV (m_major s) (m_minor s)) (m_nr_devs s).
Definition pipe_range s : gset Z :=
  match m_p_devices s with Some _ => dev_range (m_p_devno s) (m_p_nr_devs s) | None => ∅ end.
Definition access_range s : gset Z := dev_range (m_a_firstdev s) SCULL_N_ADEVS.
Definition mod_range s : gset Z := main_range s ∪ pipe_range s ∪ access_range s.

(** The module in use: its devices are well formed and own distinct blocks,
    and its cdevs are initialised. *)
Record loaded s : Prop := Loaded {
  lo_main : match m_devices s with
    | Some (_, ds) => length ds = Z.to_nat (m_nr_devs s) ∧ Forall dev_wf ds | None => True end;
  lo_pipes : match m_p_devices s with
    | Some (_, ps) => length ps = Z.to_nat (m_p_nr_devs s) | None => True end;
  lo_access : length (m_adevs s) = 4%nat ∧ Forall dev_wf (m_adevs s);
  lo_list : Forall (λ x, dev_wf (li_dev x)) (m_c_list s);
  lo_nodup : NoDup (mod_locs s);
  lo_owns : ∀ l, l ∈ mod_locs s → l ∈ live (m_heap s);
  lo_cdevs : ∀ c, c ∈ mod_cdevs s → c ∈ m_cdevs s
}.

(** ** Releasing *)

Record released (ls : list loc) (cs : list cdev_id) (ds : gset Z) s s' : Prop := Released {
  re_live : live (m_heap s') = live (m_heap s) ∖ list_to_set ls;
  re_cdevs : m_cdevs s' = m_cdevs s ∖ list_to_set cs;
  re_reg : reg_cdevs (m_reg s') = reg_cdevs (m_reg s) ∖ list_to_set cs;
  re_devs : reg_devs (m_reg s') = reg_devs (m_reg s) ∖ ds
}.

(** Run from a state of [I], [m] releases distinct blocks [ls] and cdevs [cs]
    that are there, and ends in a state of [J]. *)
Definition releases ls cs ds (I : st → Prop) (m : M st unit) (J : st → Prop) : Prop :=
  ∀ s, I s → NoDup ls → NoDup cs → (∀ l, l ∈ ls → l ∈ live (m_heap s)) →
  (∀ c, c ∈ cs → c ∈ m_cdevs s) → wp m s (λ _ s', J s' ∧ released ls cs ds s s').

Lemma released_trans ls ls' cs cs' ds ds' s s1 s2 :
  released ls cs ds s s1 → released ls' cs' ds' s1 s2 →
  released (ls ++ ls') (cs ++ cs') (ds ∪ ds') s s2.
Proof.
  intros [E1 E2 E3 E4] [F1 F2 F3 F4].
  split; rewrite ?list_to_set_app_L, <- ?difference_difference_l_L; congruence.
Qed.

Lemma releases_seq ls ls' cs cs' ds ds' I J K (m m' : M st unit) :
  releases ls cs ds I m J → releases ls' cs' ds' J m' K →
  releases (ls ++ ls') (cs ++ cs') (ds ∪ ds') I (m ≫= λ _, m') K.
Proof.
  intros Hm Hm' s HI [N1 [D1 N1']]%NoDup_app [N2 [D2 N2']]%NoDup_app Ho Hc. wp_step.
  eapply wp_mono; [|apply Hm; try done; intros x Hx; [apply Ho|apply Hc]; apply elem_of_app; by left].
  intros _ s1 [HJ R1]. eapply wp_mono; [|apply Hm'; try done].
  - intros _ s2 [HK R2]. split; [done|]. by eapply released_trans.
  - intros l Hl. rewrite (re_live _ _ _ _ _ R1). apply elem_of_difference. split.
    + apply Ho, elem_of_app. by right.
    + rewrite elem_of_list_to_set. intros Hl'. exact (D1 l Hl' Hl).
  - intros c Hx. rewrite (re_cdevs _ _ _ _ _ R1). apply elem_of_difference. split.
    + apply Hc, elem_of_app. by right.
    + rewrite elem_of_list_to_set. intros Hx'. exact (D2 c Hx' Hx).
Qed.

Lemma released_refl s : released [] [] ∅ s s.
Proof. split; simpl; by rewrite difference_empty_L. Qed.

Lemma releases_ret I : releases [] [] ∅ I (mret tt) I.
Proof. intros s HI _ _ _ _. wp_step. split; [done|]. apply released_refl. Qed.

Lemma releases_eq ls ls' cs cs' ds ds' I J m :
  ls = ls' → cs = cs' → ds = ds' → releases ls cs ds I m J → releases ls' cs' ds' I m J.
Proof. by intros -> -> ->. Qed.

Lemma releases_for i n body (ls : nat → list loc) (cs : nat → list cdev_id) (J : nat → st → Prop) :
  (∀ k, (i ≤ k < i + n)%nat → releases (ls k) (cs k) ∅ (J k) (body k) (J (S k))) →
  releases (seq i n ≫= ls) (seq i n ≫= cs) ∅ (J i) (mfor i n body) (J (i + n)%nat).
Proof.
  revert i. induction n as [|n IH]; intros i Hb.
  { rewrite Nat.add_0_r. apply releases_ret. }
  simpl. eapply releases_eq; [done|done|apply (union_empty_r_L ∅)|].
  eapply releases_seq; [apply Hb; lia|]. rewrite Nat.add_succ_r. apply IH. intros k Hk. apply Hb. lia.
Qed.

Lemma releases_foreach {A} (l : list A) body (ls : A → list loc) (J : st → Prop) :
  (∀ x, x ∈ l → releases (ls x) [] ∅ J (body x) J) →
  releases (l ≫= ls) [] ∅ J (mforeach l body) J.
Proof.
  induction l as [|x l IH]; intros Hb; [apply releases_ret|].
  simpl. eapply releases_eq; [done|apply (app_nil_r [])|apply (union_empty_r_L ∅)|].
  eapply releases_seq; [apply Hb; constructor|]. apply IH. intros y Hy. apply Hb. by constructor.
Qed.

(** The calls. *)
Lemma releases_kfree l (I : st → Prop) :
  (∀ s c h r, I s → I (set_kernel c h r s)) → releases [l] [] ∅ I (m_kfree l) I.
Proof.
  intros HI s Hs _ _ Ho _. unfold wp, m_kfree.
  rewrite bool_decide_eq_true_2 by (apply Ho; by constructor). split; [auto|].
  split; simpl; rewrite ?difference_empty_L; try done.
  rewrite kfree_law. by rewrite union_empty_r_L.
Qed.

Lemma releases_cdev_del c (I : st → Prop) :
  (∀ s c h r, I s → I (set_kernel c h r s)) → releases [] [c] ∅ I (m_cdev_del c) I.
Proof.
  intros HI s Hs _ _ _ Hc. unfold m_cdev_del. wp_step. unfold wp, m_call, m_kobject_put. simpl.
  rewrite bool_decide_eq_true_2 by (apply Hc; by constructor). split; [auto|].
  destruct (cdev_unmap_law c (m_reg s)) as [E1 E2].
  split; simpl; rewrite ?difference_empty_L, ?union_empty_r_L; done.
Qed.

Lemma releases_unregister dev n (I : st → Prop) :
  (∀ s c h r, I s → I (set_kernel c h r s)) → releases [] [] (dev_range dev n) I (m_unregister dev n) I.
Proof.
  intros HI s Hs _ _ _ _. unfold wp, m_unregister, m_call. simpl. split; [auto|].
  destruct (unregister_region_law dev n (m_reg s)) as [E1 E2].
  split; simpl; rewrite ?difference_empty_L; done.
Qed.

Lemma trim_wp_mod s d : dev_wf d → (∀ l, l ∈ dev_locs d → l ∈ live (m_heap s)) →
  wp (m_trim d) s (λ d' s', ∃ h, s' = set_kernel (m_cdevs s) h (m_reg s) s ∧
    live h = live (m_heap s) ∖ list_to_set (dev_locs d)).
Proof.
  intros W O. unfold m_trim, wp.
  destruct (wp_elim _ _ _ (trim_wp (ScullSt (m_params s) d (m_heap s) () 0) W O))
    as (r & s' & E & -> & Hl & Es).
  rewrite E. eexists. split; [done|]. exact Hl.
Qed.

Lemma releases_trim d (k : scull_dev → M st unit) ls cs ds (I J : st → Prop) : dev_wf d →
  (∀ s c h r, I s → I (set_kernel c h r s)) → (∀ d', releases ls cs ds I (k d') J) →
  releases (dev_locs d ++ ls) cs ds I (m_trim d ≫= k) J.
Proof.
  intros W HI Hk s Hs [N1 [D1 N1']]%NoDup_app N2 Ho Hc. wp_step.
  eapply wp_mono; [|apply trim_wp_mod; [done|]].
  2: { intros l Hl. apply Ho, elem_of_app. by left. }
  intros d' s1 (h & -> & Hl). eapply wp_mono; [|apply Hk; auto].
  - intros _ s2 [HJ R2]. split; [done|].
    eapply (released_trans _ _ [] _ ∅) in R2.
    + rewrite union_empty_l_L in R2. exact R2.
    + split; simpl; rewrite ?difference_empty_L; done.
  - intros l Hx. simpl. rewrite Hl. apply elem_of_difference. split; [apply Ho, elem_of_app; by right|].
    rewrite elem_of_list_to_set. intros Hx'. exact (D1 l Hx' Hx).
Qed.

Lemma releases_get ls cs ds (I J : st → Prop) (k : st → M st unit) :
  (∀ s, I s → releases ls cs ds (λ s', s' = s) (k s) J) → releases ls cs ds I (mget ≫= k) J.
Proof. intros Hk s HI N1 N2 Ho Hc. wp_step. wp_step. by apply (Hk s HI s). Qed.

Lemma releases_modify (f : st → st) (I J : st → Prop) :
  (∀ s, I s → J (f s)) → (∀ s, m_heap (f s) = m_heap s ∧ m_cdevs (f s) = m_cdevs s ∧
    m_reg (f s) = m_reg s) → releases [] [] ∅ I (mmodify f) J.
Proof.
  intros Hf He s HI _ _ _ _. wp_step. destruct (He s) as (E1 & E2 & E3). split; [auto|].
  split; simpl; rewrite ?difference_empty_L; congruence.
Qed.

Lemma releases_weaken ls cs ds (I I' J J' : st → Prop) m :
  (∀ s, I' s → I s) → (∀ s, J s → J' s) → releases ls cs ds I m J → releases ls cs ds I' m J'.
Proof.
  intros HI HJ Hm s Hs N1 N2 Ho Hc. eapply wp_mono; [|by apply Hm; auto].
  intros _ s' [? ?]. auto.
Qed.

(** *** The parts of the module *)

(** The same variables, whatever happened to the kernel's objects. *)
Definition frame s0 s : Prop := ∃ c h r, s = set_kernel c h r s0.
(** The same variables of access.c. *)
Definition aframe s0 s : Prop :=
  m_adevs s = m_adevs s0 ∧ m_c_list s = m_c_list s0 ∧ m_a_firstdev s = m_a_firstdev s0.

Lemma frame_kernel s0 s c h r : frame s0 s → frame s0 (set_kernel c h r s).
Proof. intros (c' & h' & r' & ->). by exists c, h, r. Qed.
Lemma frame_refl s : frame s s.
Proof. exists (m_cdevs s), (m_heap s), (m_reg s). by destruct s. Qed.
Lemma aframe_kernel s0 s c h r : aframe s0 s → aframe s0 (set_kernel c h r s).
Proof. done. Qed.

Lemma bind_singleton {A B} (f : A → B) l : (l ≫= λ x, [f x]) = f <$> l.
Proof. induction l as [|x l IH]; [done|]. simpl. by f_equal. Qed.

Lemma releases_main s0 : loaded s0 →
  releases (main_locs s0) (main_cdevs s0) ∅ (frame s0)
    (match m_devices s0 with
     | None => mret tt
     | Some (l, devs) =>
         mfor 0 (Z.to_nat (m_nr_devs s0)) (λ i,
           match devs !! i with
           | None => mfault OutOfBounds
           | Some d => m_trim d ≫= λ _, m_cdev_del (CScull i)
           end) ≫= λ _, m_kfree l
     end) (frame s0).
Proof.
  intros W. pose proof (lo_main _ W) as Wm. unfold main_locs, main_cdevs.
  destruct (m_devices s0) as [[l ds]|]; [|apply releases_ret]. destruct Wm as [Hn Hf].
  eapply releases_eq; [| |apply (union_empty_r_L ∅)|].
  3: eapply releases_seq; [|apply releases_kfree, frame_kernel].
  3: apply (releases_for _ _ _ (λ k, match ds !! (k - 0)%nat with Some d => dev_locs d | None => [] end)
       (λ k, [CScull k]) (λ _, frame s0)).
  - by rewrite <- Hn, bind_seq_lookup.
  - by rewrite app_nil_r, bind_singleton.
  - intros k Hk. rewrite Nat.sub_0_r. destruct (ds !! k) as [d|] eqn:Ed.
    2: { apply lookup_ge_None in Ed. lia. }
    eapply releases_eq; [apply app_nil_r|done|done|].
    apply releases_trim; [by eapply Forall_lookup_1|apply frame_kernel|].
    intros _. apply releases_cdev_del, frame_kernel.
Qed.

Lemma releases_pipes s0 : loaded s0 →
  releases (pipe_locs s0) (pipe_cdevs s0) (pipe_range s0) (frame s0) scull_p_cleanup (aframe s0).
Proof.
  intros W. pose proof (lo_pipes _ W) as Wm. unfold scull_p_cleanup. apply releases_get.
  intros s (c & h & r & ->). apply (releases_weaken _ _ _ (frame s0) _ (aframe s0)); [|done|].
  { intros s ->. by exists c, h, r. }
  unfold pipe_locs, pipe_cdevs, pipe_range. cbn [m_p_devices m_p_nr_devs m_p_devno set_kernel].
  destruct (m_p_devices s0) as [[l ps]|].
  2: { eapply releases_weaken; [|done|apply releases_ret]. by intros s (? & ? & ? & ->). }
  eapply releases_eq; cycle 3.
  { eapply releases_seq; [|eapply releases_seq; [apply releases_kfree, frame_kernel|]].
    - apply (releases_for _ _ _ (λ k, match ps !! (k - 0)%nat with Some p => buf_locs p | None => [] end)
        (λ k, [CPipe k]) (λ _, frame s0)).
      intros k Hk. rewrite Nat.sub_0_r. destruct (ps !! k) as [p|] eqn:Ep.
      2: { apply lookup_ge_None in Ep. lia. }
      eapply releases_eq; [apply (app_nil_l (buf_locs p))|apply app_nil_r|apply (union_empty_r_L ∅)|].
      eapply releases_seq; [apply releases_cdev_del, frame_kernel|].
      unfold buf_locs. destruct (buffer p) as [[b m]|]; [apply releases_kfree, frame_kernel|apply releases_ret].
    - eapply releases_seq; [apply releases_unregister, frame_kernel|].
      apply (releases_modify _ _ (aframe s0)); [|done]. by intros s (? & ? & ? & ->). }
  - rewrite <- Wm, bind_seq_lookup. by simpl.
  - by rewrite bind_singleton, app_nil_r.
  - by rewrite !union_empty_l_L, union_empty_r_L.
Qed.

Lemma releases_access s0 : loaded s0 →
  releases (access_locs s0) access_cdevs (access_range s0) (aframe s0) scull_access_cleanup (λ _, True).
Proof.
  intros W. destruct (lo_access _ W) as [Hn Hf]. pose proof (lo_list _ W) as Hl.
  unfold scull_access_cleanup, access_locs, access_range.
  set (J := λ k s, (∀ j, (k ≤ j)%nat → m_adevs s !! j = m_adevs s0 !! j) ∧
    m_c_list s = m_c_list s0 ∧ m_a_firstdev s = m_a_firstdev s0).
  eapply releases_eq; cycle 3.
  { eapply releases_seq.
    - eapply (releases_weaken _ _ _ (J 0%nat) _ (J 4%nat)); [intros s (E & ? & ?); split; [intros j _; by rewrite E|done]|done|].
      apply (releases_for 0 4 _ (λ k, match m_adevs s0 !! (k - 0)%nat with Some d => dev_locs d | None => [] end)
        (λ k, [CAccess k]) J).
      intros k Hk. rewrite Nat.sub_0_r.
      eapply releases_eq; [apply app_nil_l|apply app_nil_r|apply (union_empty_r_L ∅)|].
      eapply releases_seq; [by apply (releases_cdev_del _ (J k))|].
      apply releases_get. intros s HJ. rewrite (proj1 HJ k) by lia.
      destruct (m_adevs s0 !! k) as [d|] eqn:Ed.
      2: { apply lookup_ge_None in Ed. lia. }
      eapply releases_eq; [apply app_nil_r|done|done|].
      eapply (releases_weaken _ _ _ (J k)); [by intros ? ->|done|].
      apply releases_trim; [by eapply Forall_lookup_1|done|].
      intros d'. apply releases_modify; [|done]. intros s1 [HA HB]. split; [|done].
      intros j Hj. simpl. rewrite list_lookup_insert_ne by lia. apply HA. lia.
    - apply (releases_get _ _ _ _ (λ _, True)). intros s (_ & E1 & E2). rewrite E1.
      set (K := λ s, m_a_firstdev s = m_a_firstdev s0).
      eapply (releases_weaken _ _ _ K); [by intros ? ->|done|].
      eapply releases_seq.
      + apply (releases_foreach _ _ item_locs K). intros x Hx.
        eapply releases_eq; [apply app_nil_l|apply (app_nil_r [])|apply (union_empty_r_L ∅)|].
        eapply releases_seq; [by apply (releases_modify _ K K)|].
        apply releases_trim; [|done|]. { eapply Forall_forall in Hl; done. }
        intros _. by apply releases_kfree.
      + apply (releases_get _ _ _ _ (λ _, True)). intros s1 E3. rewrite E3.
        eapply (releases_weaken _ _ _ (λ _, True)); [done|done|]. by apply releases_unregister. }
  - rewrite (app_nil_r (_ ≫= item_locs)), <- Hn, bind_seq_lookup. done.
  - by rewrite bind_singleton.
  - by rewrite !union_empty_l_L.
Qed.

Lemma releases_cleanup s0 : loaded s0 →
  releases (mod_locs s0) (mod_cdevs s0) (mod_range s0) (λ s, s = s0) scull_cleanup_module (λ _, True).
Proof.
  intros W. unfold scull_cleanup_module. apply releases_get. intros s ->.
  eapply releases_eq; cycle 3.
  { eapply releases_seq; [|eapply releases_seq; [|eapply releases_seq]].
    - eapply releases_weaken; [|done|apply (releases_main s0 W)]. intros s ->. apply frame_refl.
    - apply releases_unregister, frame_kernel.
    - by apply releases_pipes.
    - by apply releases_access. }
  - done.
  - done.
  - unfold mod_range, main_range. rewrite union_empty_l_L. by rewrite union_assoc_L.
Qed.

(** ** Acquiring *)

(** The cdevs [cs] were initialised and offered to the registry. *)
Definition plugged (cs : list cdev_id) s s' : Prop :=
  ∃ r, s' = set_kernel (list_to_set cs ∪ m_cdevs s) (m_heap s) r s ∧
    reg_devs r = reg_devs (m_reg s) ∧ reg_cdevs (m_reg s) ⊆ reg_cdevs r ∧
    reg_cdevs r ⊆ list_to_set cs ∪ reg_cdevs (m_reg s).

Lemma plugged_refl s : plugged [] s s.
Proof.
  exists (m_reg s). split_and!; [|done|done|set_solver].
  destruct s. unfold set_kernel. simpl. f_equal. set_solver.
Qed.
Lemma plugged_trans cs cs' s s1 s2 : plugged cs s s1 → plugged cs' s1 s2 → plugged (cs ++ cs') s s2.
Proof.
  intros (r1 & -> & E1 & E2 & E3) (r2 & -> & F1 & F2 & F3). simpl in *. exists r2.
  rewrite list_to_set_app_L. split_and!; [|congruence|set_solver..].
  unfold set_kernel. simpl. f_equal. set_solver.
Qed.

Lemma plug_wp c dev n s :
  wp (m_cdev_init c ≫= λ _, m_call (cdev_add c dev n) ≫= λ _, mret tt) s (λ _ s', plugged [c] s s').
Proof.
  unfold m_cdev_init. wp_steps. unfold wp, m_call. simpl.
  destruct (cdev_add c dev n (m_reg s)) as [z r] eqn:E. apply cdev_add_between in E as (E1 & E2 & E3).
  exists r. rewrite list_to_set_cons, list_to_set_nil, union_empty_r_L. done.
Qed.

Lemma plug_for (c : nat → cdev_id) (body : nat → M st unit) i n s :
  (∀ k s, wp (body k) s (λ _ s', plugged [c k] s s')) →
  wp (mfor i n body) s (λ _ s', plugged (c <$> seq i n) s s').
Proof.
  intros Hb. revert i s. induction n as [|n IH]; intros i s; simpl; [apply plugged_refl|].
  wp_step. eapply wp_mono; [|apply Hb]. intros ? s1 H1'. eapply wp_mono; [|apply IH].
  intros ? s2 H2'. exact (plugged_trans [c i] _ _ _ _ H1' H2').
Qed.

(** A fresh block, and the rest unchanged. *)
Lemma m_kmalloc_wp n s :
  wp (m_kmalloc n) s (λ p s', ∃ h, s' = set_kernel (m_cdevs s) h (m_reg s) s ∧
    p = (kmalloc (u64 n) (m_heap s)).1 ∧
    match p with
    | Some l => (l ∉ live (m_heap s)) ∧ live h = {[l]} ∪ live (m_heap s)
    | None => live h = live (m_heap s)
    end).
Proof.
  unfold wp, m_kmalloc. destruct (kmalloc (u64 n) (m_heap s)) as [[l|] h] eqn:E; exists h.
  - by apply kmalloc_some_law in E.
  - by apply kmalloc_none_law in E.
Qed.

(** The device numbers: an error leaves everything as it was. *)
Lemma get_region_wp s : wp scull_get_region s (λ '(r, _) s', ∃ g,
    s' = set_kernel (m_cdevs s) (m_heap s) g (set_main (m_major s') (m_devices s) s) ∧
    reg_cdevs g = reg_cdevs (m_reg s) ∧
    (r < 0 → reg_devs g = reg_devs (m_reg s)) ∧
    (0 <= r → r = 0 ∧ main_range s' ## reg_devs (m_reg s) ∧
      reg_devs g = main_range s' ∪ reg_devs (m_reg s))).
Proof.
  unfold scull_get_region. wp_steps. destruct (m_major s =? 0) eqn:Em; simpl.
  - unfold wp, m_call, mbind, M_bind. simpl.
    destruct (alloc_chrdev_region (m_minor s) (m_nr_devs s) (m_reg s)) as [[z|dev] g] eqn:E; simpl; exists g.
    + apply alloc_region_err_law in E as (Hz & E1 & E2). split; [done|]. split_and!; try done; lia.
    + apply alloc_region_ok_law in E as (Ed & _ & E1 & E2 & E3). split; [done|].
      unfold main_range. simpl. rewrite <- Ed. split_and!; try done; lia.
  - unfold wp, m_call, mbind, M_bind. simpl.
    destruct (register_chrdev_region _ (m_nr_devs s) (m_reg s)) as [z g] eqn:E; simpl; exists g.
    apply register_region_law in E as (Hz & E1 & E2 & E3). split; [by destruct s|].
    split_and!; try done. intros Hr. assert (z = 0) as -> by lia. destruct E2; done.
Qed.

(** Fresh blocks [ls], fresh device numbers [ds], and at most the cdevs [cs]. *)
Record gained (ls : list loc) (cs : list cdev_id) (ds : gset Z) s s' : Prop := Gained {
  ga_live : live (m_heap s') = list_to_set ls ∪ live (m_heap s);
  ga_fresh : NoDup ls ∧ ∀ l, l ∈ ls → l ∉ live (m_heap s);
  ga_reg : reg_cdevs (m_reg s) ⊆ reg_cdevs (m_reg s') ∧
    reg_cdevs (m_reg s') ⊆ list_to_set cs ∪ reg_cdevs (m_reg s);
  ga_devs : ds ## reg_devs (m_reg s) ∧ reg_devs (m_reg s') = ds ∪ reg_devs (m_reg s);
  ga_cdevs : m_cdevs s' ⊆ list_to_set cs ∪ m_cdevs s;
  ga_keeps : ∀ c, c ∈ m_cdevs s → c ∉ access_cdevs → c ∈ m_cdevs s'
}.

Lemma gained_trans ls ls' cs cs' ds ds' s s1 s2 :
  gained ls cs ds s s1 → gained ls' cs' ds' s1 s2 →
  gained (ls ++ ls') (cs ++ cs') (ds ∪ ds') s s2.
Proof.
  intros [L1 [N1 F1] [R1 R1'] [D1 D1'] C1 K1] [L2 [N2 F2] [R2 R2'] [D2 D2'] C2 K2].
  rewrite L1 in L2, F2. rewrite D1' in D2, D2'. split; rewrite ?list_to_set_app_L.
  - rewrite L2, union_assoc_L. by rewrite (union_comm_L (list_to_set ls')).
  - split.
    + apply NoDup_app. split_and!; [done| |done]. intros x Hx Hx'. apply (F2 x Hx').
      apply elem_of_union_l. by apply elem_of_list_to_set.
    + intros l [Hl|Hl]%elem_of_app; [auto|]. intros Hx. apply (F2 l Hl). by apply elem_of_union_r.
  - clear -R1 R1' R2 R2'. set_solver.
  - clear -D1 D2 D2'. split; [set_solver|]. rewrite D2', union_assoc_L. by rewrite (union_comm_L ds').
  - clear -C1 C2. set_solver.
  - auto.
Qed.

Lemma gained_plugged cs s s' : plugged cs s s' → gained [] cs ∅ s s'.
Proof.
  intros (r & -> & E1 & E2 & E3). split; simpl; rewrite ?union_empty_l_L; try done.
  - split; [constructor|]. by intros l Hl%not_elem_of_nil.
  - intros c Hc _. by apply elem_of_union_r.
Qed.

Lemma gained_none s s' : live (m_heap s') = live (m_heap s) → m_cdevs s' = m_cdevs s →
  reg_cdevs (m_reg s') = reg_cdevs (m_reg s) → reg_devs (m_reg s') = reg_devs (m_reg s) →
  gained [] [] ∅ s s'.
Proof.
  intros E1 E2 E3 E4. split; simpl; rewrite ?E1, ?E2, ?E3, ?E4, ?union_empty_l_L; try done.
  - split; [constructor|]. by intros l Hl%not_elem_of_nil.
Qed.

Lemma pipe0_locs n : replicate n pipe0 ≫= buf_locs = [].
Proof. by induction n. Qed.

(** What scull_p_init leaves: nothing, or the pipes. *)
Definition pipes_up s s' : Prop :=
  frame (set_pipes (m_p_devno s') (m_p_devices s') s) s' ∧
  gained (pipe_locs s') (pipe_cdevs s') (pipe_range s') s s' ∧
  (∀ c, c ∈ pipe_cdevs s' → c ∈ m_cdevs s') ∧
  match m_p_devices s' with
  | Some (_, ps) => ps = replicate (Z.to_nat (m_p_nr_devs s)) pipe0 | None => True end.

Lemma pipes_up_none s s' : frame (set_pipes (m_p_devno s') None s) s' →
  live (m_heap s') = live (m_heap s) → m_cdevs s' = m_cdevs s →
  reg_cdevs (m_reg s') = reg_cdevs (m_reg s) → reg_devs (m_reg s') = reg_devs (m_reg s) →
  pipes_up s s'.
Proof.
  intros Hf E1 E2 E3 E4. assert (E0 : m_p_devices s' = None) by by destruct Hf as (? & ? & ? & ->).
  unfold pipes_up, pipe_locs, pipe_cdevs, pipe_range. rewrite E0.
  split_and!; [done|by apply gained_none| |done]. intros c Hc. by apply not_elem_of_nil in Hc.
Qed.

Lemma p_init_wp first s : m_p_devices s = None →
  wp (scull_p_init first) s (λ _ s', pipes_up s s').
Proof.
  intros Hnone. unfold scull_p_init. wp_steps. unfold wp at 1, m_call at 1.
  destruct (register_chrdev_region first (m_p_nr_devs s) (m_reg s)) as [z g] eqn:E.
  apply register_region_law in E as (Hz & E1 & E2 & E3).
  destruct (Z.ltb_spec z 0) as [Hlt|Hge].
  { wp_step. apply pipes_up_none; auto. exists (m_cdevs s), (m_heap s), g.
    unfold set_kernel, set_pipes. simpl. by rewrite Hnone. }
  destruct E2 as [E2 E2']; [lia|]. wp_step. wp_step.
  wp_step. eapply wp_mono; [|apply m_kmalloc_wp]. intros [l|] s1 (h & -> & _ & Hl); simpl in Hl.
  - destruct Hl as [Hl1 Hl2]. wp_step. wp_step. set (s1 := set_pipes _ _ _).
    wp_step. eapply wp_mono; [|apply (plug_for CPipe)].
    2: { intros k s2. unfold scull_p_setup_cdev. wp_step. wp_step. apply plug_wp. }
    intros ? s2 Hp. wp_step. destruct (gained_plugged _ _ _ Hp) as [L1 _ [R1 R1'] [_ D1] C1 K1].
    destruct Hp as (r & Es2 & _).
    assert (Ed : m_p_devices s2 = Some (l, replicate (Z.to_nat (m_p_nr_devs s)) pipe0)) by by rewrite Es2.
    assert (En : m_p_nr_devs s2 = m_p_nr_devs s ∧ m_p_devno s2 = first) by by rewrite Es2.
    destruct En as [En Ef]. unfold pipes_up, pipe_locs, pipe_cdevs, pipe_range.
    rewrite Ed, En, Ef, pipe0_locs. split_and!; [|split|..|done].
    + rewrite Es2. by do 3 eexists.
    + rewrite L1. simpl. rewrite Hl2. rewrite union_empty_l_L. by rewrite union_empty_r_L.
    + split; [apply NoDup_singleton|]. by intros x ->%list_elem_of_singleton.
    + simpl in R1, R1'. by rewrite E1 in R1, R1'.
    + split; [done|]. rewrite D1. simpl. rewrite E2'. by rewrite union_empty_l_L.
    + done.
    + exact K1.
    + intros c Hc. rewrite Es2. simpl. apply elem_of_union_l. by apply elem_of_list_to_set.
  - wp_step. wp_step. wp_step. unfold wp at 1, m_unregister, m_call at 1. wp_step.
    destruct (unregister_region_law first (m_p_nr_devs s) g) as [U1 U2].
    apply pipes_up_none; simpl; try congruence.
    + by do 3 eexists.
    + rewrite U1, E2'. by apply union_difference_back.
Qed.

(** The loop of scull_access_init, [k] devices done. *)
Definition access_part (k : nat) s0 s : Prop :=
  ∃ c r ds, s = set_kernel c (m_heap s0) r (set_access (m_a_firstdev s0) ds (m_c_list s0) s0) ∧
    (∀ j, ds !! j = (if decide (j < k)%nat then with_geometry (m_params s0) else id) <$> m_adevs s0 !! j) ∧
    reg_devs r = reg_devs (m_reg s0) ∧ reg_cdevs (m_reg s0) ⊆ reg_cdevs r ∧
    reg_cdevs r ⊆ list_to_set access_cdevs ∪ reg_cdevs (m_reg s0) ∧
    c ⊆ list_to_set access_cdevs ∪ m_cdevs s0 ∧
    (∀ x, x ∈ m_cdevs s0 → x ∉ access_cdevs → x ∈ c).

Lemma access_cdevs_in k : (k < 4)%nat → CAccess k ∈ (list_to_set access_cdevs : gset cdev_id).
Proof.
  intros Hk. apply elem_of_list_to_set. apply (list_elem_of_fmap_2 CAccess), elem_of_seq. lia.
Qed.

Lemma access_setup_wp devno k s0 s : (k < 4)%nat → access_part k s0 s →
  wp (scull_access_setup devno k) s (λ _ s', access_part (S k) s0 s').
Proof.
  intros Hk (c & r & ds & -> & El & E1 & E2 & E3 & E4 & E5).
  pose proof (access_cdevs_in k Hk) as Ha.
  assert (El' : ∀ j, alter (with_geometry (m_params s0)) k ds !! j =
    (if decide (j < S k)%nat then with_geometry (m_params s0) else id) <$> m_adevs s0 !! j).
  { intros j. destruct (decide (j = k)) as [->|Hn].
    - rewrite list_lookup_alter_eq, El. destruct (decide (k < k)%nat); [lia|]. destruct (decide (k < S k)%nat); [|lia]. by destruct (m_adevs s0 !! k).
    - rewrite list_lookup_alter_ne, El by done. f_equal. destruct (decide (j < k)%nat), (decide (j < S k)%nat); try done; lia. }
  unfold scull_access_setup, m_cdev_init. do 4 wp_step. wp_step. unfold wp at 1, m_call. simpl.
  destruct (cdev_add (CAccess k) devno 1 r) as [z r'] eqn:E. apply cdev_add_between in E as (F1 & F2 & F3).
  destruct (z =? 0); simpl.
  - wp_step. do 3 eexists. split; [done|]. split; [exact El'|].
    clear -Ha E1 E2 E3 E4 E5 F1 F2 F3. split_and!; [congruence|set_solver..].
  - unfold wp, m_kobject_put. simpl. rewrite bool_decide_eq_true_2 by (apply elem_of_union_l; by apply elem_of_singleton).
    do 3 eexists. split; [done|]. split; [exact El'|].
    clear -Ha E1 E2 E3 E4 E5 F1 F2 F3. split_and!; [congruence|set_solver..|].
    intros x Hx Hn. apply elem_of_difference. split; [apply elem_of_union_r; auto|].
    intros ->%elem_of_singleton. apply Hn. by apply elem_of_list_to_set in Ha.
Qed.

(** scull_access_init: refused, or the four devices set up. *)
Definition access_up s s' : Prop :=
  frame (set_access (m_a_firstdev s') (with_geometry (m_params s) <$> m_adevs s) (m_c_list s) s) s' ∧
  gained [] access_cdevs (access_range s') s s'.

Lemma access_init_wp first s : length (m_adevs s) = 4%nat →
  wp (scull_access_init first) s (λ _ s',
    (frame s s' ∧ gained [] [] ∅ s s' ∧ m_cdevs s' = m_cdevs s) ∨ access_up s s').
Proof.
  intros Hn. unfold scull_access_init. wp_step. unfold wp at 1, m_call.
  destruct (register_chrdev_region first SCULL_N_ADEVS (m_reg s)) as [z g] eqn:E.
  apply register_region_law in E as (Hz & E1 & E2 & E3).
  destruct (Z.ltb_spec z 0) as [Hlt|Hge].
  { wp_step. left. split_and!; [by do 3 eexists| |done]. apply gained_none; auto. }
  destruct E2 as [E2 E2']; [lia|]. wp_step. wp_step. set (s0 := set_access _ _ _ _).
  assert (H0' : access_part 0 s0 s0).
  { exists (m_cdevs s), g, (m_adevs s). split_and!; simpl; try done; try apply union_subseteq_r.
    intros j. by destruct (m_adevs s !! j). }
  wp_step. change (mfor 0 (Z.to_nat SCULL_N_ADEVS)) with (mfor 0 4 (S := st)). cbn [mfor].
  do 4 (wp_step; eapply wp_mono; [|by apply (access_setup_wp _ _ s0); [lia|eassumption]]; clear H0'; intros ? ? H0').
  wp_step. wp_step. right. destruct H0' as (c & r & ds & -> & El & F1 & F2 & F3 & F4 & F5).
  assert (ds = with_geometry (m_params s) <$> m_adevs s) as ->.
  { apply list_eq. intros j. rewrite El, list_lookup_fmap. simpl.
    destruct (decide _); [done|]. rewrite lookup_ge_None_2 by (rewrite Hn; lia). done. }
  split; [by do 3 eexists|]. simpl in *. split; simpl.
  - by rewrite union_empty_l_L.
  - split; [constructor|]. by intros l Hl%not_elem_of_nil.
  - by rewrite <- E1.
  - split; [done|]. by rewrite F1.
  - done.
  - done.
Qed.

(** ** Loading *)

(** Before the module is loaded: the initial values of its variables. *)
Record unloaded s : Prop := Unloaded {
  un_geom : geom_ok (scull_quantum (m_params s)) (scull_qset (m_params s));
  un_main : m_devices s = None;
  un_pipes : m_p_devices s = None;
  un_adevs : m_adevs s = replicate 4 zero_dev;
  un_list : m_c_list s = [];
  un_cdevs : m_cdevs s = ∅;
  un_reg : ∀ i, (CScull i ∉ reg_cdevs (m_reg s)) ∧ (CPipe i ∉ reg_cdevs (m_reg s)) ∧
    (CAccess i ∉ reg_cdevs (m_reg s))
}.

Lemma fresh_dev_ok p : geom_ok (scull_quantum p) (scull_qset p) → dev_wf (with_geometry p zero_dev).
Proof. intros G. split; simpl; [done|unfold LLONG_MAX; lia|constructor|constructor]. Qed.

(** Loaded over [s]: the module is ready, and what the kernel gave for it is
    exactly what it holds; [ok] when the access devices were set up. *)
Record brought_up s s' : Prop := BroughtUp {
  bu_loaded : (∀ i, (i < 4)%nat → CAccess i ∈ m_cdevs s') → loaded s';
  bu_gained : (∃ i, CAccess i ∈ m_cdevs s') → gained (mod_locs s') (mod_cdevs s') (mod_range s') s s'
}.

Lemma zero_locs p n : replicate n (with_geometry p zero_dev) ≫= dev_locs = [].
Proof. by induction n. Qed.

(** The devices of main.c are there. *)
Definition main_up s s' : Prop :=
  frame (set_main (m_major s') (m_devices s') s) s' ∧
  gained (main_locs s') (main_cdevs s') (main_range s') s s' ∧
  (∀ c, c ∈ main_cdevs s' → c ∈ m_cdevs s') ∧
  ∃ l, m_devices s' = Some (l, replicate (Z.to_nat (m_nr_devs s)) (with_geometry (m_params s) zero_dev)).

Lemma main_up_intro s s1 s2 s3 h l g :
  s1 = set_kernel (m_cdevs s) (m_heap s) g (set_main (m_major s1) (m_devices s) s) →
  reg_cdevs g = reg_cdevs (m_reg s) →
  (main_range s1 ## reg_devs (m_reg s)) → reg_devs g = main_range s1 ∪ reg_devs (m_reg s) →
  (l ∉ live (m_heap s)) → live h = {[l]} ∪ live (m_heap s) →
  s2 = set_main (m_major s1)
    (Some (l, replicate (Z.to_nat (m_nr_devs s)) (with_geometry (m_params s) zero_dev)))
    (set_kernel (m_cdevs s) h g s1) →
  plugged (CScull <$> seq 0 (Z.to_nat (m_nr_devs s))) s2 s3 → main_up s s3.
Proof.
  intros Es1 E1 E2 E3 F1 F2 Es2 Hp. destruct (gained_plugged _ _ _ Hp) as [L1 _ [R1 R1'] [_ D1] C1 K1].
  destruct Hp as (r & Es3 & _).
  assert (Ed : m_devices s3 = Some (l, replicate (Z.to_nat (m_nr_devs s)) (with_geometry (m_params s) zero_dev)))
    by by rewrite Es3, Es2.
  assert (En : m_nr_devs s3 = m_nr_devs s) by by rewrite Es3, Es2, Es1.
  assert (Er : main_range s3 = main_range s1).
  { unfold main_range. rewrite En, Es3, Es2. simpl. rewrite Es1. done. }
  unfold main_up, main_locs, main_cdevs. rewrite Er, Ed, En, zero_locs.
  rewrite Es2 in L1, R1, R1', D1, C1, K1. simpl in L1, R1, R1', D1, C1, K1.
  split_and!; [|split|..|by eexists].
  - rewrite Es3, Es2, Es1. by do 3 eexists.
  - rewrite L1, F2. simpl. rewrite union_empty_l_L. by rewrite union_empty_r_L.
  - split; [apply NoDup_singleton|]. by intros x ->%list_elem_of_singleton.
  - by rewrite <- E1.
  - split; [done|]. rewrite D1, E3. by rewrite union_empty_l_L.
  - done.
  - done.
  - intros c Hc. rewrite Es3. simpl. apply elem_of_union_l. by apply elem_of_list_to_set.
Qed.

Lemma replicate_wf p n : geom_ok (scull_quantum p) (scull_qset p) →
  Forall dev_wf (replicate n (with_geometry p zero_dev)).
Proof. intros G. apply Forall_replicate. by apply fresh_dev_ok. Qed.

Lemma mod_cdevs_split s c : c ∈ mod_cdevs s ↔ c ∈ main_cdevs s ∨ c ∈ pipe_cdevs s ∨ c ∈ access_cdevs.
Proof. unfold mod_cdevs. by rewrite !elem_of_app. Qed.

Lemma not_access c : (∀ i, c ≠ CAccess i) → c ∉ access_cdevs.
Proof. intros Hc (i & -> & _)%list_elem_of_fmap. by apply (Hc i). Qed.

Lemma main_not_access s c : c ∈ main_cdevs s → c ∉ access_cdevs.
Proof.
  unfold main_cdevs. destruct (m_devices s); [|by intros ?%not_elem_of_nil].
  intros (i & -> & _)%list_elem_of_fmap. by apply not_access.
Qed.
Lemma pipe_not_access s c : c ∈ pipe_cdevs s → c ∉ access_cdevs.
Proof.
  unfold pipe_cdevs. destruct (m_p_devices s); [|by intros ?%not_elem_of_nil].
  intros (i & -> & _)%list_elem_of_fmap. by apply not_access.
Qed.

Lemma gained_cdevs_in ls cs ds s s' c : gained ls cs ds s s' → c ∈ m_cdevs s' →
  c ∈ cs ∨ c ∈ m_cdevs s.
Proof.
  intros G Hc. apply (ga_cdevs _ _ _ _ _ G), elem_of_union in Hc as [Hc|Hc]; [left|by right].
  by apply elem_of_list_to_set in Hc.
Qed.

(** The access devices were refused: none of their cdevs is initialised. *)
Lemma refused_no_access s s3 s4 s5 i : unloaded s → main_up s s3 → pipes_up s3 s4 →
  m_cdevs s5 = m_cdevs s4 → CAccess i ∉ m_cdevs s5.
Proof.
  intros W (_ & G3 & _) (_ & G4 & _) -> Hi.
  destruct (gained_cdevs_in _ _ _ _ _ _ G4 Hi) as [Hp|H3].
  { apply (pipe_not_access s4 (CAccess i) Hp). unfold pipe_cdevs in Hp.
    destruct (m_p_devices s4); [|by apply not_elem_of_nil in Hp]. by apply list_elem_of_fmap in Hp as (j & ? & _). }
  destruct (gained_cdevs_in _ _ _ _ _ _ G3 H3) as [Hp|H0'].
  { unfold main_cdevs in Hp. destruct (m_devices s3); [|by apply not_elem_of_nil in Hp].
    by apply list_elem_of_fmap in Hp as (j & ? & _). }
  rewrite (un_cdevs _ W) in H0'. by apply not_elem_of_empty in H0'.
Qed.

Lemma access_up_brought s s3 s4 s5 : unloaded s → main_up s s3 → pipes_up s3 s4 → access_up s4 s5 →
  brought_up s s5.
Proof.
  intros W (F3 & G3 & C3 & l & D3) (F4 & G4 & C4 & D4) (F5 & G5).
  destruct F3 as (c3 & h3 & r3 & Es3). destruct F4 as (c4 & h4 & r4 & Es4).
  destruct F5 as (c5 & h5 & r5 & Es5).
  assert (Ma : m_devices s5 = m_devices s3 ∧ m_nr_devs s5 = m_nr_devs s3 ∧ m_major s5 = m_major s3 ∧
    m_minor s5 = m_minor s3 ∧ m_nr_devs s3 = m_nr_devs s) by (rewrite Es5, Es4; simpl; by rewrite Es3).
  assert (Pi : m_p_devices s5 = m_p_devices s4 ∧ m_p_nr_devs s5 = m_p_nr_devs s4 ∧
    m_p_devno s5 = m_p_devno s4 ∧ m_p_nr_devs s4 = m_p_nr_devs s3) by (rewrite Es5; simpl; by rewrite Es4).
  assert (Ac : m_adevs s5 = replicate 4 (with_geometry (m_params s) zero_dev) ∧ m_c_list s5 = []).
  { rewrite Es5. simpl. rewrite Es4. simpl. rewrite Es3. simpl.
    rewrite (un_adevs _ W), (un_list _ W). done. }
  destruct Ma as (Ma1 & Ma2 & Ma3 & Ma4 & Ma5). destruct Pi as (Pi1 & Pi2 & Pi3 & Pi4).
  destruct Ac as [Ac1 Ac2].
  assert (EL : mod_locs s5 = main_locs s3 ++ pipe_locs s4 ++ []).
  { unfold mod_locs, access_locs. rewrite Ac1, Ac2, zero_locs.
    unfold main_locs, pipe_locs. by rewrite Ma1, Pi1. }
  assert (EC : mod_cdevs s5 = main_cdevs s3 ++ pipe_cdevs s4 ++ access_cdevs).
  { unfold mod_cdevs, main_cdevs, pipe_cdevs. by rewrite Ma1, Pi1, Ma2, Pi2. }
  assert (ED : mod_range s5 = main_range s3 ∪ (pipe_range s4 ∪ access_range s5)).
  { unfold mod_range, main_range, pipe_range. rewrite Pi1, Ma2, Pi2, Ma3, Ma4, Pi3. by rewrite union_assoc_L. }
  assert (G : gained (mod_locs s5) (mod_cdevs s5) (mod_range s5) s s5).
  { rewrite EL, EC, ED. eapply gained_trans; [exact G3|]. by eapply gained_trans. }
  split; [|done]. intros Hacc. split.
  - rewrite Ma1, D3. split; [by rewrite length_replicate, Ma2, Ma5|]. apply replicate_wf, W.
  - rewrite Pi1. destruct (m_p_devices s4) as [[lp ps]|]; [|done]. by rewrite D4, length_replicate, Pi2, Pi4.
  - rewrite Ac1. split; [done|]. apply replicate_wf, W.
  - rewrite Ac2. constructor.
  - apply G.
  - intros x Hx. rewrite (ga_live _ _ _ _ _ G). apply elem_of_union_l. by apply elem_of_list_to_set.
  - intros c Hc. rewrite EC, !elem_of_app in Hc. destruct Hc as [Hc|[Hc|Hc]].
    + apply (ga_keeps _ _ _ _ _ G5); [|by eapply main_not_access].
      apply (ga_keeps _ _ _ _ _ G4); [by apply C3|by eapply main_not_access].
    + apply (ga_keeps _ _ _ _ _ G5); [by apply C4|by eapply pipe_not_access].
    + apply list_elem_of_fmap in Hc as (i & -> & Hi%elem_of_seq). apply Hacc. lia.
Qed.

Lemma init_wp s l : unloaded s →
  (kmalloc (u64 (m_nr_devs s * sizeof_scull_dev)) (m_heap s)).1 = Some l →
  wp scull_init_module s (λ r s', (r < 0 ∧ gained [] [] ∅ s s') ∨ (r = 0 ∧ brought_up s s')).
Proof.
  intros W Hk. unfold scull_init_module. wp_step.
  eapply wp_mono; [|apply get_region_wp]. intros [r dev] s1 (g & Es1 & E1 & E2 & E3).
  destruct (Z.ltb_spec r 0) as [Hlt|Hge].
  { wp_step. left. split; [done|]. apply gained_none; rewrite Es1; auto. }
  destruct (E3 Hge) as (_ & E4 & E5). clear E2 E3.
  assert (Hs1 : m_nr_devs s1 = m_nr_devs s ∧ m_params s1 = m_params s ∧ m_heap s1 = m_heap s ∧
    m_cdevs s1 = m_cdevs s ∧ m_reg s1 = g) by by rewrite Es1.
  destruct Hs1 as (Hn & Hpa & Hh & Hc & Hg). do 3 wp_step.
  eapply wp_mono; [|apply m_kmalloc_wp]. intros p s2 (h & -> & Ep & Hl).
  assert (p = Some l) as -> by (by rewrite Ep, Hn, Hh). clear Ep.
  rewrite Hh in Hl. destruct Hl as [Hl1 Hl2].
  wp_step. wp_step. wp_step. eapply wp_mono; [|apply (plug_for CScull)].
  2: { intros k s3. unfold scull_setup_cdev. wp_step. wp_step. apply plug_wp. }
  intros ? s3 Hp. rewrite Hn in Hp.
  assert (U3 : main_up s s3).
  { refine (main_up_intro s s1 _ s3 h l g Es1 E1 E4 E5 Hl1 Hl2 _ Hp).
    cbn [m_major m_params set_kernel]. by rewrite Hpa, Hc, Hg. }
  clear Hp. do 3 wp_step.
  assert (F3 : m_p_devices s3 = None ∧ length (m_adevs s3) = 4%nat).
  { destruct U3 as ((? & ? & ? & ->) & _). simpl. by rewrite (un_pipes _ W), (un_adevs _ W). }
  eapply wp_mono; [|apply p_init_wp, F3]. intros k s4 U4. wp_step.
  eapply wp_mono; [|apply access_init_wp].
  2: { destruct U4 as ((? & ? & ? & ->) & _). apply F3. }
  intros ? s5 [(_ & _ & Hc5)|U5]; wp_step; right; (split; [done|]).
  - pose proof (λ i, refused_no_access s s3 s4 s5 i W U3 U4 Hc5) as Hno. split.
    + intros Ha. destruct (Hno 0%nat). apply Ha. lia.
    + intros [i Hi]. by destruct (Hno i).
  - exact (access_up_brought s s3 s4 s5 W U3 U4 U5).
Qed.

Lemma mod_cdevs_nodup s : NoDup (mod_cdevs s).
Proof.
  unfold mod_cdevs. repeat (apply NoDup_app; split_and!).
  - unfold main_cdevs. destruct (m_devices s); [|constructor]. apply NoDup_fmap; [|apply NoDup_seq].
    by intros ? ? [=].
  - intros c Hm [Hp|Ha]%elem_of_app; [|by eapply main_not_access].
    unfold main_cdevs, pipe_cdevs in *. destruct (m_devices s), (m_p_devices s);
      try by apply not_elem_of_nil in Hm || apply not_elem_of_nil in Hp.
    apply list_elem_of_fmap in Hm as (? & -> & _). by apply list_elem_of_fmap in Hp as (? & ? & _).
  - unfold pipe_cdevs. destruct (m_p_devices s); [|constructor]. apply NoDup_fmap; [|apply NoDup_seq].
    by intros ? ? [=].
  - intros c Hp. by eapply pipe_not_access.
  - apply NoDup_fmap; [by intros ? ? [=]|apply NoDup_seq].
Qed.

Lemma cleanup_wp s : loaded s → wp scull_cleanup_module s (λ _ s',
  released (mod_locs s) (mod_cdevs s) (mod_range s) s s').
Proof.
  intros W. eapply wp_mono; [|apply (releases_cleanup s W s eq_refl)].
  - by intros _ s' [_ ?].
  - apply W.
  - apply mod_cdevs_nodup.
  - apply W.
  - apply W.
Qed.

Lemma mod_cdevs_unregistered s s' c : unloaded s → c ∈ mod_cdevs s' → c ∉ reg_cdevs (m_reg s).
Proof.
  intros W. rewrite mod_cdevs_split. unfold main_cdevs, pipe_cdevs, access_cdevs.
  destruct (m_devices s'), (m_p_devices s'); rewrite ?elem_of_nil;
    intros [Hc|[Hc|Hc]]; try done;
    apply list_elem_of_fmap in Hc as (i & -> & _); apply (un_reg _ W i).
Qed.

(** Taking back exactly what was gained. *)
Lemma diff_union_back {A} `{Countable A} (X Y Z : gset A) :
  (∀ x, x ∈ X → x ∉ Y) → Y ⊆ Z → Z ⊆ X ∪ Y → Z ∖ X = Y.
Proof.
  intros Hd H1' H2'. apply set_eq. intros x. rewrite elem_of_difference. split.
  - intros [Hz Hx]. apply H2', elem_of_union in Hz as [?|?]; done.
  - intros Hy. split; [by apply H1'|]. intros Hx. by apply (Hd x).
Qed.

Lemma released_gained s s1 s2 ls cs ds : gained ls cs ds s s1 → released ls cs ds s1 s2 →
  (∀ c, c ∈ cs → c ∉ reg_cdevs (m_reg s)) → (∀ c, c ∈ cs → c ∉ m_cdevs s) →
  live (m_heap s2) = live (m_heap s) ∧ reg_devs (m_reg s2) = reg_devs (m_reg s) ∧
  reg_cdevs (m_reg s2) = reg_cdevs (m_reg s) ∧ m_cdevs s2 ⊆ m_cdevs s.
Proof.
  intros G [L C R' D] Hr Hc. rewrite L, C, R', D. destruct (ga_devs _ _ _ _ _ G) as [G1 G2]. split_and!.
  - rewrite (ga_live _ _ _ _ _ G). apply diff_union_back; [|apply union_subseteq_r|done].
    intros x Hx. apply (ga_fresh _ _ _ _ _ G). by apply elem_of_list_to_set in Hx.
  - rewrite G2. by apply union_difference_back.
  - apply diff_union_back; [|apply G|apply G]. intros x Hx. apply Hr. by apply elem_of_list_to_set in Hx.
  - intros x [Hx Hn]%elem_of_difference. apply (ga_cdevs _ _ _ _ _ G), elem_of_union in Hx as [?|?]; done.
Qed.

(** Unloading the scull module in any state it may be used in, with data
    in its devices and pipes and clones on its list, frees exactly the blocks
    the module owns, drops every cdev and gives back the three ranges of
    device numbers; nothing is freed twice. *)
Theorem scull_cleanup_releases_all s : loaded s →
  ∃ s', scull_cleanup_module s = Ret (tt, s') ∧
    live (m_heap s') = live (m_heap s) ∖ list_to_set (mod_locs s) ∧
    reg_cdevs (m_reg s') = reg_cdevs (m_reg s) ∖ list_to_set (mod_cdevs s) ∧
    reg_devs (m_reg s') = reg_devs (m_reg s) ∖ mod_range s.
Proof.
  intros W. destruct (wp_elim _ _ _ (cleanup_wp s W)) as ([] & s' & Hrun & [L C Rg D]).
  exists s'. by split_and!.
Qed.

(** Unloading restores what loading found. *)
Lemma unload_restores s s1 : unloaded s → brought_up s s1 → (∀ i, (i < 4)%nat → CAccess i ∈ m_cdevs s1) →
  ∃ s2, scull_cleanup_module s1 = Ret (tt, s2) ∧ live (m_heap s2) = live (m_heap s) ∧
    reg_devs (m_reg s2) = reg_devs (m_reg s) ∧ reg_cdevs (m_reg s2) = reg_cdevs (m_reg s).
Proof.
  intros W B Ha. destruct (wp_elim _ _ _ (cleanup_wp s1 (bu_loaded _ _ B Ha))) as ([] & s2 & Hrun2 & Rl).
  exists s2. split; [done|].
  destruct (released_gained s s1 s2 _ _ _ (bu_gained _ _ B (ex_intro _ 0%nat (Ha 0%nat (Nat.lt_0_succ _)))) Rl)
    as (E1 & E2 & E3 & _); [|rewrite (un_cdevs _ W); intros c _; apply not_elem_of_empty|done].
  intros c Hc. by eapply mod_cdevs_unregistered.
Qed.

(** C9: scull_init_module with enough memory for the devices either fails and
    leaves no trace, or succeeds; and once every access device was set up,
    unloading restores the heap, the device numbers and the registry to what
    they were before loading. *)
Theorem scull_load_unload_no_leak s l : unloaded s →
  (kmalloc (u64 (m_nr_devs s * sizeof_scull_dev)) (m_heap s)).1 = Some l →
  ∃ r s1, scull_init_module s = Ret (r, s1) ∧
    (r < 0 → live (m_heap s1) = live (m_heap s) ∧ reg_devs (m_reg s1) = reg_devs (m_reg s)) ∧
    (0 <= r → r = 0 ∧ ((∀ i, (i < 4)%nat → CAccess i ∈ m_cdevs s1) →
      ∃ s2, scull_cleanup_module s1 = Ret (tt, s2) ∧ live (m_heap s2) = live (m_heap s) ∧
        reg_devs (m_reg s2) = reg_devs (m_reg s) ∧ reg_cdevs (m_reg s2) = reg_cdevs (m_reg s))).
Proof.
  intros W Hk. destruct (wp_elim _ _ _ (init_wp s l W Hk)) as (r & s1 & Hrun & [[Hr G]|[-> B]]).
  - exists r, s1. split; [done|]. split; [|lia]. intros _. destruct (ga_devs _ _ _ _ _ G) as [_ D].
    rewrite (ga_live _ _ _ _ _ G), D. simpl. by rewrite !union_empty_l_L.
  - exists 0, s1. split; [done|]. split; [lia|]. intros _. split; [done|]. intros Ha.
    by apply unload_restores.
Qed.

Lemma access_cleanup_faults s : CAccess 0 ∉ m_cdevs s → scull_access_cleanup s = Fault BadFree.
Proof.
  intros Hc. unfold scull_access_cleanup. do 3 apply bind_fault.
  unfold m_cdev_del. erewrite bind_run by done. unfold m_kobject_put. simpl.
  by rewrite bool_decide_eq_false_2.
Qed.

Lemma cleanup_faults s : m_devices s = None → m_p_devices s = None → m_cdevs s = ∅ →
  scull_cleanup_module s = Fault BadFree.
Proof.
  intros Hd Hp Hc. unfold scull_cleanup_module. erewrite bind_run by done. rewrite Hd.
  erewrite bind_run by done. erewrite bind_run by done.
  unfold scull_p_cleanup. erewrite bind_run.
  2: { erewrite bind_run by done. cbn [m_p_devices set_kernel]. by rewrite Hp. }
  apply access_cleanup_faults. simpl. rewrite Hc. apply not_elem_of_empty.
Qed.

(** When the devices cannot be allocated the failure path goes wrong: the
    cleanup deletes the cdev of the first access device, which was never
    initialised. *)
Theorem scull_init_nomem_faults s dev s1 : unloaded s →
  scull_get_region s = Ret ((0, dev), s1) →
  (kmalloc (u64 (m_nr_devs s * sizeof_scull_dev)) (m_heap s)).1 = None →
  scull_init_module s = Fault BadFree.
Proof.
  intros W Hg Hk. pose proof (wp_run _ _ _ _ _ (get_region_wp s) Hg) as (g & Es1 & _).
  assert (Hs1 : m_nr_devs s1 = m_nr_devs s ∧ m_heap s1 = m_heap s ∧ m_p_devices s1 = None ∧ m_cdevs s1 = ∅).
  { rewrite Es1. simpl. by rewrite (un_pipes _ W), (un_cdevs _ W). }
  destruct Hs1 as (Hn & Hh & Hp & Hc). clear Es1.
  unfold scull_init_module. erewrite bind_run by exact Hg. cbv beta iota. simpl.
  erewrite bind_run by done. unfold m_kmalloc, mbind at 1, M_bind at 1. rewrite Hn, Hh.
  destruct (kmalloc _ (m_heap s)) as [[l|] h] eqn:Ek; [done|].
  erewrite bind_run by done. apply bind_fault. by apply cleanup_faults.
Qed.

End thms.

#[local] Existing Instance creg_chrdevs.
#[local] Instance demo_sizes : ScullSizes := {| sizeof_scull_dev := 200; sizeof_scull_pipe := 300 |}.

(** The module before loading, on a heap with the given allocation failures
    and with some device numbers taken. *)
Definition fresh_module (oom : list bool) (taken : gset Z) : mod_st bump creg :=
  ModSt (ScullParams SCULL_QUANTUM SCULL_QSET SCULL_P_BUFFER) SCULL_NR_DEVS SCULL_P_NR_DEVS 0 SCULL_MAJOR
    None None 0 0 (replicate 4 zero_dev) [] ∅ (Bump ∅ 1 oom) (CReg taken ∅).

Lemma fresh_unloaded oom taken : unloaded (fresh_module oom taken).
Proof.
  by split.
Qed.

(** In use: two bytes in the first device, a pipe with its buffer, and a clone
    of scullpriv with a byte of its own. *)
Definition small_dev (n a q : loc) (b : byte) : scull_dev :=
  ScullDev [QsetNode n (Some (DataArr a [Some (QuantumBlk q [Some b; Some b])]))] 2 1 2 0 false.
Definition empty_dev : scull_dev := ScullDev [] 2 1 0 0 false.
Definition demo_pipe : scull_pipe := ScullPipe (Some (8%positive, replicate 4 None)) 4 4 0 0 1 1 [] false.
Definition demo_loaded : mod_st bump creg :=
  ModSt (ScullParams 2 1 4) 2 1 0 250
    (Some (1%positive, [small_dev 2 3 4 x41; empty_dev])) (Some (5%positive, [demo_pipe]))
    (MKDEV 250 2) (MKDEV 250 3) (replicate 4 empty_dev)
    [ListItem 6 77 (small_dev 7 9 10 x42)]
    (list_to_set ((CScull <$> seq 0 2) ++ [CPipe 0] ++ (CAccess <$> seq 0 4)))
    (Bump (list_to_set (Pos.of_nat <$> seq 1 10)) 11 []) (CReg (dev_range (MKDEV 250 0) 7) ∅).

Lemma small_dev_wf n a q b : NoDup [q; a; n] → dev_wf (small_dev n a q b).
Proof.
  intros N. split; simpl; [done|done| |done]. repeat constructor.
Qed.

Lemma demo_is_loaded : loaded demo_loaded.
Proof.
  assert (dev_wf empty_dev) by (split; [done|done|constructor|constructor]).
  assert (∀ n a q b, NoDup [q; a; n] → dev_wf (small_dev n a q b)) by apply small_dev_wf.
  split.
  - split; [done|]. constructor; [|by repeat constructor]. apply small_dev_wf. by apply (bool_decide_unpack _).
  - done.
  - split; [done|]. by repeat constructor.
  - constructor; [|constructor]. apply small_dev_wf. by apply (bool_decide_unpack _).
  - apply (bool_decide_unpack _). by vm_compute.
  - apply Forall_forall. apply (bool_decide_unpack _). by vm_compute.
  - apply Forall_forall. apply (bool_decide_unpack _). by vm_compute.
Qed.

Lemma scull_cleanup_releases_all_witness :
  ∃ s', scull_cleanup_module demo_loaded = Ret (tt, s') ∧
    live (m_heap s') = live (m_heap demo_loaded) ∖ list_to_set (mod_locs demo_loaded) ∧
    reg_cdevs (m_reg s') = reg_cdevs (m_reg demo_loaded) ∖ list_to_set (mod_cdevs demo_loaded) ∧
    reg_devs (m_reg s') = reg_devs (m_reg demo_loaded) ∖ mod_range demo_loaded.
Proof. apply (scull_cleanup_releases_all demo_loaded). apply demo_is_loaded. Defined.

Lemma scull_load_unload_no_leak_witness :
  let s := fresh_module [] ∅ in
  ∃ r s1, scull_init_module s = Ret (r, s1) ∧
    (r < 0 → live (m_heap s1) = live (m_heap s) ∧ reg_devs (m_reg s1) = reg_devs (m_reg s)) ∧
    (0 <= r → r = 0 ∧ ((∀ i, (i < 4)%nat → CAccess i ∈ m_cdevs s1) →
      ∃ s2, scull_cleanup_module s1 = Ret (tt, s2) ∧ live (m_heap s2) = live (m_heap s) ∧
        reg_devs (m_reg s2) = reg_devs (m_reg s) ∧ reg_cdevs (m_reg s2) = reg_cdevs (m_reg s))).
Proof.
  apply (scull_load_unload_no_leak (fresh_module [] ∅) 1%positive); [apply fresh_unloaded|].
  by vm_compute.
Defined.

(** The access devices of that run are set up, so its conclusion applies. *)
Example demo_access_up :
  match scull_init_module (fresh_module [] ∅) with
  | Ret (_, s) => bool_decide (list_to_set (CAccess <$> seq 0 4) ⊆ m_cdevs s)
  | Fault _ => false
  end = true.
Proof. by vm_compute. Qed.

Lemma scull_init_nomem_faults_witness :
  scull_init_module (fresh_module [true] ∅) = Fault BadFree.
Proof.
  refine (scull_init_nomem_faults (fresh_module [true] ∅) (MKDEV 250 0) _ (fresh_unloaded _ _) _ _).
  - vm_compute. reflexivity.
  - by vm_compute.
Defined.

(** Someone else holds the numbers of the access devices: loading succeeds,
    unloading goes wrong. *)
Example scull_access_refused_cleanup_faults :
  match scull_init_module (fresh_module [] (dev_range (MKDEV 250 8) 4)) with
  | Ret (r, s) => r = 0 ∧ scull_cleanup_module s = Fault BadFree
  | Fault _ => False
  end.
Proof. vm_compute. done. Qed.
