(* ===== verification/ScullNodes.v ===== *)
(** What the device nodes of scull lead to: the file_operations tables of
    main.c, pipe.c and access.c, the numbers the init functions give to the
    devices, and the nodes that the scripts scull_load and scull.init make.

    The kernel finds the cdev of a device number in a map that cdev_add fills;
    the map is an interface on top of the registry of ChrReg.v. *)
From Stdlib Require Import ZArith Lia.
From stdpp Require Import base list gmap.
From S2P Require Import Prelude Kernel ChrReg Scull ScullPipe ScullAccess ScullInit ScullInitThms.

(** ** The methods of the devices *)

Inductive method :=
  | Scull_llseek | No_llseek
  | Scull_read | Scull_p_read
  | Scull_write | Scull_p_write
  | Scull_ioctl | Scull_p_poll | Scull_p_fasync
  | Scull_open | Scull_p_open | Scull_s_open | Scull_u_open | Scull_w_open | Scull_c_open
  | Scull_release | Scull_p_release | Scull_s_release | Scull_u_release | Scull_w_release
  | Scull_c_release.

Record file_operations := Fops {
  fo_llseek : method;
  fo_read : method;
  fo_write : method;
  fo_poll : option method;
  fo_ioctl : method;
  fo_open : method;
  fo_release : method;
  fo_fasync : option method
}.

Definition scull_fops : file_operations :=
  Fops Scull_llseek Scull_read Scull_write None Scull_ioctl Scull_open Scull_release None.
Definition scull_pipe_fops : file_operations :=
  Fops No_llseek Scull_p_read Scull_p_write (Some Scull_p_poll) Scull_ioctl Scull_p_open
    Scull_p_release (Some Scull_p_fasync).
Definition scull_sngl_fops : file_operations :=
  Fops Scull_llseek Scull_read Scull_write None Scull_ioctl Scull_s_open Scull_s_release None.
Definition scull_user_fops : file_operations :=
  Fops Scull_llseek Scull_read Scull_write None Scull_ioctl Scull_u_open Scull_u_release None.
Definition scull_wusr_fops : file_operations :=
  Fops Scull_llseek Scull_read Scull_write None Scull_ioctl Scull_w_open Scull_w_release None.
Definition scull_priv_fops : file_operations :=
  Fops Scull_llseek Scull_read Scull_write None Scull_ioctl Scull_c_open Scull_c_release None.

(** The devices of access.c: the cdev of each and its methods. *)
Definition scull_access_devs : list (cdev_id * file_operations) :=
  [(CAccess 0, scull_sngl_fops); (CAccess 1, scull_user_fops);
   (CAccess 2, scull_wusr_fops); (CAccess 3, scull_priv_fops)].

(** The table that each setup function gives to cdev_init. *)
Definition cdev_ops (c : cdev_id) : option file_operations :=
  match c with
  | CScull _ => Some scull_fops
  | CPipe _ => Some scull_pipe_fops
  | CAccess i => snd <$> scull_access_devs !! i
  | _ => None
  end.

(** ** The scripts

    A node, its minor number and the method that has to open it. *)

Definition scull_load_nodes : list (Z * method) :=
  [(0, Scull_open); (1, Scull_open); (2, Scull_open); (3, Scull_open);
   (4, Scull_p_open); (5, Scull_p_open); (6, Scull_p_open); (7, Scull_p_open);
   (8, Scull_s_open); (9, Scull_u_open); (10, Scull_w_open); (11, Scull_c_open)].
Definition scull_init_nodes : list (Z * method) :=
  [(0, Scull_open); (1, Scull_open); (2, Scull_open); (3, Scull_open);
   (16, Scull_c_open);
   (32, Scull_p_open); (33, Scull_p_open); (34, Scull_p_open); (35, Scull_p_open);
   (48, Scull_s_open); (64, Scull_u_open); (80, Scull_w_open)].

(** ** The map of device numbers *)

(** [cdev_at r x]: the cdev that opening a node of number [x] reaches. *)
Class CdevMap (R : Type) `{ChrDevs R} := {
  cdev_at : R → Z → option cdev_id;
  register_at_law : ∀ dev n r x, cdev_at (register_chrdev_region dev n r).2 x = cdev_at r x;
  alloc_at_law : ∀ minor n r x, cdev_at (alloc_chrdev_region minor n r).2 x = cdev_at r x;
  unregister_at_law : ∀ dev n r x, cdev_at (unregister_chrdev_region dev n r) x = cdev_at r x;
  cdev_add_at_law : ∀ c dev n r z r', cdev_add c dev n r = (z, r') →
    (∀ x, x ∈ dev_range dev n → cdev_at r x = None) →
    (z < 0 → ∀ x, cdev_at r' x = cdev_at r x) ∧
    (z = 0 → ∀ x, cdev_at r' x = if decide (x ∈ dev_range dev n) then Some c else cdev_at r x)
}.

(** What chrdev_open does with a node: the method it calls. *)
Definition node_open `{CdevMap R} (r : R) (dev : Z) : option method :=
  c ← cdev_at r dev; fo_open <$> cdev_ops c.

(** Reserved numbers only lead to devices. *)
Definition reg_wf `{CdevMap R} (r : R) : Prop := ∀ x, is_Some (cdev_at r x) → x ∈ reg_devs r.

Lemma mkdev_eq ma mi : 0 <= mi < 1048576 → MKDEV ma mi = ma * 1048576 + mi.
Proof.
  intros Hm. unfold MKDEV.
  assert (D : Z.land (Z.shiftl ma 20) mi = 0).
  { apply Z.bits_inj'. intros i Hi. rewrite Z.land_spec, Z.bits_0.
    destruct (Z.ltb_spec i 20).
    - by rewrite Z.shiftl_spec_low.
    - rewrite (Z.bits_above_log2 mi i), andb_false_r; [done|lia|].
      destruct (decide (mi = 0)) as [->|]; [simpl; lia|].
      apply Z.log2_lt_pow2; [lia|]. assert (2 ^ 20 <= 2 ^ i) by (apply Z.pow_le_mono_r; lia). lia. }
  rewrite <- Z.lxor_lor, <- Z.add_nocarry_lxor, Z.shiftl_mul_pow2 by done. lia.
Qed.

Lemma mkdev_add ma mi i : 0 <= mi → 0 <= i → mi + i < 1048576 → MKDEV ma (mi + i) = MKDEV ma mi + i.
Proof. intros. rewrite !mkdev_eq by lia. lia. Qed.

(** ** Laying out a table of numbers *)

Section nodes.
Context {H R : Type} `{KernelHeap H} `{CdevMap R} `{ScullSizes}.
Abbreviation st := (mod_st H R).
Implicit Types (s : st) (r : R) (T : list (Z * cdev_id)).

(** The variables of the module that the layout depends on. *)
Definition vars s := (m_major s, m_minor s, m_nr_devs s, m_p_nr_devs s, m_p_devno s, m_p_devices s).

(** One attempt to lead [x] to [c]. *)
Definition tried (c : cdev_id) (x : Z) r r' : Prop :=
  reg_devs r' = reg_devs r ∧
  ((reg_cdevs r' = reg_cdevs r ∧ ∀ y, cdev_at r' y = cdev_at r y) ∨
   (reg_cdevs r' = {[c]} ∪ reg_cdevs r ∧ ∀ y, cdev_at r' y = if decide (y = x) then Some c else cdev_at r y)).

(** From [r] to [r'] all of [T] was tried: the registered cdevs of [T] are where
    [T] puts them, and nothing else changed. *)
Record laid T r r' : Prop := Laid {
  la_in : ∀ x c, (x, c) ∈ T → cdev_at r' x = if decide (c ∈ reg_cdevs r') then Some c else None;
  la_out : ∀ x, x ∉ T.*1 → cdev_at r' x = cdev_at r x;
  la_cdevs : ∀ c, c ∉ T.*2 → (c ∈ reg_cdevs r' ↔ c ∈ reg_cdevs r);
  la_nums : ∀ x, x ∈ T.*1 → x ∈ reg_devs r';
  la_devs : reg_devs r ⊆ reg_devs r'
}.

Lemma laid_tried T r r1 r2 x c : laid T r r1 → tried c x r1 r2 →
  x ∉ T.*1 → c ∉ T.*2 → c ∉ reg_cdevs r → cdev_at r x = None → x ∈ reg_devs r1 →
  laid (T ++ [(x, c)]) r r2.
Proof.
  intros [L1 L2 L3 L4 L5] [D Tr] Hx Hc Fc Fx Rx.
  assert (Nc : c ∉ reg_cdevs r1) by by rewrite L3.
  assert (Ot : ∀ y d, (y, d) ∈ T → y ≠ x ∧ d ≠ c).
  { intros y d Hy. split; intros ->; [apply Hx|apply Hc]; apply list_elem_of_fmap; by exists (y, d) || exists (x, d) || exists (y, c). }
  split.
  - intros y d [Hy|Hy%list_elem_of_singleton]%elem_of_app; [|injection Hy as -> ->].
    + destruct (Ot y d Hy) as [Hn Hm]. destruct Tr as [[Ec Ea]|[Ec Ea]]; rewrite Ea, Ec; [by apply L1|].
      rewrite decide_False by done. rewrite (L1 y d Hy). do 2 case_decide; set_solver.
    + destruct Tr as [[Ec Ea]|[Ec Ea]]; rewrite Ea, Ec.
      * rewrite decide_False by done. by rewrite L2.
      * rewrite decide_True by done. rewrite decide_True; [done|]. set_solver.
  - intros y Hy. rewrite fmap_app, elem_of_app in Hy. simpl in Hy. rewrite list_elem_of_singleton in Hy.
    destruct Tr as [[Ec Ea]|[Ec Ea]]; rewrite Ea; [apply L2; tauto|]. rewrite decide_False by tauto. apply L2. tauto.
  - intros d Hd. rewrite fmap_app, elem_of_app in Hd. simpl in Hd. rewrite list_elem_of_singleton in Hd.
    destruct Tr as [[Ec Ea]|[Ec Ea]]; rewrite Ec; [apply L3; tauto|]. rewrite elem_of_union, elem_of_singleton, L3 by tauto. tauto.
  - intros y. rewrite fmap_app, elem_of_app, D. simpl. rewrite list_elem_of_singleton. intros [?| ->]; auto.
  - by rewrite D.
Qed.

Lemma laid_nil r : laid [] r r.
Proof. split; [by intros ? ? ?%not_elem_of_nil|done|done|by intros ? ?%not_elem_of_nil|done]. Qed.

(** Regions come and go without moving a cdev. *)
Lemma laid_region T r r1 r2 : laid T r r1 → reg_cdevs r2 = reg_cdevs r1 →
  (∀ x, cdev_at r2 x = cdev_at r1 x) → reg_devs r1 ⊆ reg_devs r2 → laid T r r2.
Proof.
  intros [L1 L2 L3 L4 L5] Ec Ea Hd. split.
  - intros x c. rewrite Ea, Ec. apply L1.
  - intros x. rewrite Ea. apply L2.
  - intros c. rewrite Ec. apply L3.
  - intros x Hx. by apply Hd, L4.
  - set_solver.
Qed.

Lemma cdev_add_tried c x r z r' : cdev_at r x = None → cdev_add c x 1 r = (z, r') → tried c x r r'.
Proof.
  intros Fx E. pose proof (cdev_add_law _ _ _ _ _ _ E) as (Hz & D & Ok & Er).
  assert (R1 : ∀ y, y ∈ dev_range x 1 ↔ y = x).
  { intros y. unfold dev_range. rewrite elem_of_list_to_set, elem_of_seqZ. lia. }
  destruct (cdev_add_at_law _ _ _ _ _ _ E) as [A1 A2]; [by intros y ->%R1|].
  split; [done|]. destruct (Z.eq_dec z 0) as [->|]; [right|left; split; [apply Er|apply A1]; lia].
  split; [by apply Ok|]. intros y. rewrite A2 by done. pose proof (R1 y). by repeat case_decide; naive_solver.
Qed.

Lemma add_tried c x s (Q : Z → st → Prop) : cdev_at (m_reg s) x = None →
  (∀ z r', tried c x (m_reg s) r' → Q z (set_kernel (m_cdevs s) (m_heap s) r' s)) →
  wp (m_call (cdev_add c x 1)) s Q.
Proof.
  intros Fx HQ. unfold wp, m_call. destruct (cdev_add c x 1 (m_reg s)) as [z r'] eqn:E.
  apply HQ. by eapply cdev_add_tried.
Qed.

(** A call of the registry that moves no cdev. *)
Lemma register_at dev n r z g x : register_chrdev_region dev n r = (z, g) → cdev_at g x = cdev_at r x.
Proof. intros E. rewrite <- (register_at_law dev n r). by rewrite E. Qed.

(** The numbers [base], [base + 1], ... for the cdevs [F 0], [F 1], ... *)
Definition family (base : Z) (F : nat → cdev_id) (n : nat) : list (Z * cdev_id) :=
  (λ k, (base + Z.of_nat k, F k)) <$> seq 0 n.

Lemma family_nums base F n x : x ∈ (family base F n).*1 ↔ base <= x < base + Z.of_nat n.
Proof.
  unfold family. rewrite <- list_fmap_compose, list_elem_of_fmap. split.
  - intros (k & -> & Hk%elem_of_seq). simpl. lia.
  - intros Hx. exists (Z.to_nat (x - base)). simpl. rewrite elem_of_seq. lia.
Qed.
Lemma family_cdevs base F n c : c ∈ (family base F n).*2 → ∃ k, c = F k.
Proof. unfold family. rewrite <- list_fmap_compose, list_elem_of_fmap. intros (k & -> & _). by exists k. Qed.
Lemma family_snoc base F n : family base F (S n) = family base F n ++ [(base + Z.of_nat n, F n)].
Proof. unfold family. by rewrite seq_S, fmap_app. Qed.

Lemma lay_family T r base F n body v s :
  (∀ k s, (k < n)%nat → vars s = v → cdev_at (m_reg s) (base + Z.of_nat k) = None →
    wp (body k) s (λ _ s', vars s' = v ∧ tried (F k) (base + Z.of_nat k) (m_reg s) (m_reg s'))) →
  (∀ k l, F k = F l → k = l) → (∀ k, (F k ∉ T.*2) ∧ (F k ∉ reg_cdevs r)) →
  (∀ x, base <= x < base + Z.of_nat n → (x ∉ T.*1) ∧ cdev_at r x = None ∧ x ∈ reg_devs (m_reg s)) →
  vars s = v → laid T r (m_reg s) →
  wp (mfor 0 n body) s (λ _ s', vars s' = v ∧ reg_devs (m_reg s') = reg_devs (m_reg s) ∧
    laid (T ++ family base F n) r (m_reg s')).
Proof.
  intros Hb Inj Hc Hx Ev La.
  apply (mfor_wp (λ k s', vars s' = v ∧ reg_devs (m_reg s') = reg_devs (m_reg s) ∧
    laid (T ++ family base F k) r (m_reg s')) 0 n body s).
  { by rewrite app_nil_r. }
  intros k s1 Hk (V1 & D1 & L1). destruct (Hx (base + Z.of_nat k)) as (Nx & Fx & Rx); [lia|]. destruct (Hc k) as [Nc Fc].
  assert (Mx : base + Z.of_nat k ∉ (T ++ family base F k).*1).
  { rewrite fmap_app, elem_of_app, family_nums. intros [?|?]; [done|lia]. }
  eapply wp_mono; [|apply Hb; [lia|done|by rewrite (la_out _ _ _ L1)]].
  intros _ s2 [V2 T2]. split; [done|]. split; [by rewrite (proj1 T2)|].
  rewrite family_snoc, app_assoc. eapply laid_tried; try done; [|by rewrite D1].
  rewrite fmap_app, elem_of_app. intros [?|Hf]; [done|].
  unfold family in Hf. rewrite <- list_fmap_compose, list_elem_of_fmap in Hf.
  destruct Hf as (l & E%Inj & Hl%elem_of_seq). lia.
Qed.

(** A region that was free leads nowhere yet. *)
Lemma fresh_numbers T r r1 r2 dev n x : reg_wf r → laid T r r1 → dev_range dev n ## reg_devs r1 →
  reg_devs r2 = dev_range dev n ∪ reg_devs r1 → dev <= x < dev + n →
  (x ∉ T.*1) ∧ cdev_at r x = None ∧ x ∈ reg_devs r2.
Proof.
  intros W [L1 L2 L3 L4 L5] Dj Ed Hx.
  assert (Ix : x ∈ dev_range dev n) by (unfold dev_range; rewrite elem_of_list_to_set, elem_of_seqZ; lia).
  split_and!; [intros Hn; set_solver| |set_solver].
  destruct (cdev_at r x) as [c|] eqn:E; [|done]. assert (x ∈ reg_devs r) by (apply W; eauto). set_solver.
Qed.

(** The pipes: the number of pipes the function returns is the number of
    devices it laid out, none when their memory or numbers are missing. *)
Definition pipe_count s : Z := match m_p_devices s with Some _ => m_p_nr_devs s | None => 0 end.
Definition counts s := (m_major s, m_minor s, m_nr_devs s, m_p_nr_devs s).

Lemma p_init_lays T r first s : m_p_devices s = None → 0 <= m_p_nr_devs s → reg_wf r → laid T r (m_reg s) →
  (∀ k, (CPipe k ∉ T.*2) ∧ (CPipe k ∉ reg_cdevs r)) →
  wp (scull_p_init first) s (λ k s', k = pipe_count s' ∧ counts s' = counts s ∧
    laid (T ++ family first CPipe (Z.to_nat k)) r (m_reg s')).
Proof.
  intros Hnone Hp W La Fc. unfold scull_p_init. wp_steps. unfold wp at 1, m_call at 1.
  destruct (register_chrdev_region first (m_p_nr_devs s) (m_reg s)) as [z g] eqn:E.
  pose proof (λ x, register_at _ _ _ _ _ x E) as Ea.
  apply register_region_law in E as (Hz & E1 & E2 & E3).
  destruct (Z.ltb_spec z 0) as [Hlt|Hge].
  { wp_step. unfold pipe_count. simpl. rewrite Hnone, app_nil_r. split_and!; [done|done|].
    eapply laid_region; [done..|]. by rewrite E3. }
  destruct E2 as [Dj Ed]; [lia|]. assert (Lg : laid T r g) by (eapply laid_region; [done..|]; rewrite Ed; set_solver).
  wp_step. wp_step. wp_step. eapply wp_mono; [|apply m_kmalloc_wp]. intros [l|] s1 (h & -> & _ & _).
  - wp_step. wp_step. set (s1 := set_pipes _ _ _). wp_step.
    eapply wp_mono; [|apply (lay_family T r first CPipe (Z.to_nat (m_p_nr_devs s)) scull_p_setup_cdev (vars s1) s1)]; try done.
    + intros _ s2 (V & D & L). wp_step. unfold vars in V. injection V as V1 V2 V3 V4 V5 V6.
      unfold pipe_count, counts. rewrite V1, V2, V3, V4, V6. by split_and!.
    + intros k s2 _ V Fx. unfold scull_p_setup_cdev. wp_step. wp_step. unfold m_cdev_init. wp_step. wp_step. wp_step.
      assert (m_p_devno s2 = first) as -> by (by injection V). apply add_tried; [done|]. intros z' r' Tr. wp_step. done.
    + by intros ? ? [= ?].
    + intros x Hx. apply (fresh_numbers T r (m_reg s) g first (m_p_nr_devs s)); [done..|lia].
  - wp_step. wp_step. wp_step. unfold wp at 1, m_unregister, m_call at 1. wp_step.
    destruct (unregister_region_law first (m_p_nr_devs s) g) as [U1 U2].
    unfold pipe_count. simpl. rewrite app_nil_r. split_and!; [done|done|].
    eapply (laid_region T r (m_reg s)); [done|by rewrite U2|by intros x; rewrite unregister_at_law|].
    rewrite U1, Ed. by rewrite union_difference_back.
Qed.

(** The access devices: all are tried, unless their numbers are refused. *)
Lemma access_init_lays T r first s : reg_wf r → laid T r (m_reg s) →
  (∀ k, (CAccess k ∉ T.*2) ∧ (CAccess k ∉ reg_cdevs r)) →
  wp (scull_access_init first) s (λ _ s', vars s' = vars s ∧
    (laid T r (m_reg s') ∨ laid (T ++ family first CAccess 4) r (m_reg s'))).
Proof.
  intros W La Fc. unfold scull_access_init. wp_step. unfold wp at 1, m_call at 1.
  destruct (register_chrdev_region first SCULL_N_ADEVS (m_reg s)) as [z g] eqn:E.
  pose proof (λ x, register_at _ _ _ _ _ x E) as Ea.
  apply register_region_law in E as (Hz & E1 & E2 & E3).
  destruct (Z.ltb_spec z 0) as [Hlt|Hge].
  { wp_step. split; [done|]. left. simpl. eapply laid_region; [done..|]. by rewrite E3. }
  destruct E2 as [Dj Ed]; [lia|]. assert (Lg : laid T r g) by (eapply laid_region; [done..|]; rewrite Ed; set_solver).
  wp_step. wp_step. set (s1 := set_access _ _ _ _). wp_step.
  eapply wp_mono; [|apply (lay_family T r first CAccess 4 (λ i, scull_access_setup (first + Z.of_nat i) i) (vars s1) s1)]; try done.
  - intros _ s2 (V & D & L). wp_step. split; [by rewrite V|]. by right.
  - intros k s2 _ V Fx. unfold scull_access_setup. wp_step. wp_step. wp_step. unfold m_cdev_init. wp_step. wp_step.
    apply add_tried; [done|]. intros z' r' Tr. destruct (negb (z' =? 0)); [|wp_step; done].
    unfold wp, m_kobject_put. simpl. by rewrite bool_decide_eq_true_2 by set_solver.
  - by intros ? ? [= ?].
  - intros x Hx. apply (fresh_numbers T r (m_reg s) g first SCULL_N_ADEVS); [done..|unfold SCULL_N_ADEVS; lia].
Qed.

(** ** Loading *)

(** The numbers of the loaded module, one family after the other. *)
Definition base s : Z := MKDEV (m_major s) (m_minor s).
Definition main_family s := family (base s) CScull (Z.to_nat (m_nr_devs s)).
Definition pipe_family s := family (base s + m_nr_devs s) CPipe (Z.to_nat (pipe_count s)).
Definition access_family s := family (base s + m_nr_devs s + pipe_count s) CAccess 4.

Lemma get_region_lays s : reg_wf (m_reg s) → wp scull_get_region s (λ '(r, _) s',
  pipe_count s' = pipe_count s ∧ m_minor s' = m_minor s ∧ m_nr_devs s' = m_nr_devs s ∧
  m_p_nr_devs s' = m_p_nr_devs s ∧ m_p_devices s' = m_p_devices s ∧ m_heap s' = m_heap s ∧
  (r < 0 ∨ (laid [] (m_reg s) (m_reg s') ∧ ∀ x, base s' <= x < base s' + m_nr_devs s →
    cdev_at (m_reg s) x = None ∧ x ∈ reg_devs (m_reg s')))).
Proof.
  intros W.
  assert (At : wp scull_get_region s (λ _ s', ∀ x, cdev_at (m_reg s') x = cdev_at (m_reg s) x)).
  { unfold scull_get_region. wp_step. wp_step. destruct (negb (m_major s =? 0)).
    - unfold wp, m_call, mbind, M_bind. simpl. destruct (register_chrdev_region _ _ _) as [z g] eqn:E.
      intros x. simpl. by eapply register_at.
    - unfold wp, m_call, mbind, M_bind. simpl. destruct (alloc_chrdev_region (m_minor s) (m_nr_devs s) (m_reg s)) as [z g] eqn:E.
      assert (∀ x, cdev_at g x = cdev_at (m_reg s) x) by (intros x; rewrite <- (alloc_at_law (m_minor s) (m_nr_devs s) (m_reg s)); by rewrite E).
      by destruct z. }
  eapply wp_mono; [|apply (wp_and _ _ _ _ At (get_region_wp s))]. intros [r dev] s' [Ea (g & Es & E1 & E2 & E3)].
  assert (Rg : m_reg s' = g) by by rewrite Es. subst g.
  split_and!; try (rewrite Es; done). destruct (Z.ltb_spec r 0) as [|Hge]; [by left|right].
  destruct (E3 Hge) as (_ & Dj & Ed). split.
  - eapply laid_region; [apply laid_nil|done..|]. rewrite Ed. set_solver.
  - intros x Hx. assert (Hn : m_nr_devs s' = m_nr_devs s) by by rewrite Es.
    unfold main_range in *. rewrite Hn in *. fold (base s') in *.
    destruct (fresh_numbers [] (m_reg s) (m_reg s) (m_reg s') (base s') (m_nr_devs s) x) as (_ & ? & ?);
      [done|apply laid_nil|done..].
Qed.

(** The whole table: when the function succeeds the bare devices come first, the
    pipes that are there next, the access devices last or not at all. *)
Lemma init_lays s l : unloaded s → reg_wf (m_reg s) →
  (kmalloc (u64 (m_nr_devs s * sizeof_scull_dev)) (m_heap s)).1 = Some l →
  0 <= m_minor s → 0 <= m_nr_devs s → 0 <= m_p_nr_devs s → m_minor s + m_nr_devs s < 1048576 →
  wp scull_init_module s (λ z s', z < 0 ∨
    (m_minor s' = m_minor s ∧ m_nr_devs s' = m_nr_devs s ∧ m_p_nr_devs s' = m_p_nr_devs s ∧
     (laid (main_family s' ++ pipe_family s') (m_reg s) (m_reg s') ∨
      laid ((main_family s' ++ pipe_family s') ++ access_family s') (m_reg s) (m_reg s')))).
Proof.
  intros U W Hk Hm Hn Hp Hlim. unfold scull_init_module. wp_step.
  eapply wp_mono; [|apply (get_region_lays s W)]. intros [z dev] s1 (Pc & M1 & N1 & P1 & D1 & Eh & Hr).
  destruct (Z.ltb_spec z 0) as [Hlt|Hge]; [wp_step; by left|]. destruct Hr as [?|[La Fr]]; [lia|].
  do 3 wp_step. eapply wp_mono; [|apply m_kmalloc_wp]. intros p s2 (h & -> & Ep & _).
  assert (p = Some l) as -> by (by rewrite Ep, N1, Eh). clear Ep.
  wp_step. wp_step. set (s2 := set_main _ _ _). wp_step. rewrite N1.
  assert (Fs : ∀ i, (CScull i ∉ reg_cdevs (m_reg s)) ∧ (CPipe i ∉ reg_cdevs (m_reg s)) ∧ (CAccess i ∉ reg_cdevs (m_reg s))) by apply U.
  eapply wp_mono; [|apply (lay_family [] (m_reg s) (base s1) CScull (Z.to_nat (m_nr_devs s)) scull_setup_cdev (vars s2) s2)]; try done.
  2: { intros k s3 Hk' V Fx. unfold scull_setup_cdev. do 2 wp_step. unfold m_cdev_init. do 3 wp_step.
       assert (Ev : MKDEV (m_major s3) (m_minor s3 + Z.of_nat k) = base s1 + Z.of_nat k).
       { injection V as V1 V2 _ _ _ _. rewrite V1, V2. simpl. apply mkdev_add; lia. }
       rewrite Ev. apply add_tried; [done|]. intros z' r' Tr. by wp_step. }
  2: { by intros ? ? [= ?]. }
  2: { intros k. split; [apply not_elem_of_nil|apply Fs]. }
  2: { intros x Hx. split; [apply not_elem_of_nil|]. simpl. apply Fr. lia. }
  intros _ s3 (V3 & _ & L3). cbn [app] in L3. injection V3 as V1 V2 V3 V4 V5 V6. simpl in V1, V2, V3, V4, V6.
  do 3 wp_step. rewrite V1, V2, mkdev_add by lia. fold (base s1).
  eapply wp_mono; [|eapply (p_init_lays _ (m_reg s)); [|lia|done|exact L3|]].
  2: { rewrite V6, D1. apply U. }
  2: { intros k. split; [|apply Fs]. intros [i [=]]%family_cdevs. }
  intros k s4 (-> & C4 & L4). injection C4 as C1 C2 C3 C4'. wp_step.
  eapply wp_mono; [|eapply (access_init_lays _ (m_reg s) _ s4 W L4)].
  2: { intros k. split; [|apply Fs]. rewrite fmap_app, elem_of_app. intros [[i [=]]%family_cdevs|[i [=]]%family_cdevs]. }
  intros _ s5 (V5' & L5). injection V5' as W1 W2 W3 W4 W5 W6. wp_step. right.
  assert (Eb : base s5 = base s1) by (unfold base; congruence).
  assert (Ep : pipe_count s5 = pipe_count s4) by (unfold pipe_count; by rewrite W4, W6).
  unfold main_family, pipe_family, access_family. rewrite Eb, Ep, W3, C3, V3, N1.
  split_and!; [congruence..|]. exact L5.
Qed.


Lemma family_in b F n k : (k < n)%nat → (b + Z.of_nat k, F k) ∈ family b F n.
Proof. intros Hk. apply list_elem_of_fmap. exists k. rewrite elem_of_seq. split; [done|lia]. Qed.

(** Opening number [x] in a table in which it stands for the registered [c]. *)
Lemma laid_open T r r' x c : laid T r r' → (x, c) ∈ T → c ∈ reg_cdevs r' →
  node_open r' x = fo_open <$> cdev_ops c.
Proof. intros L Hx Hc. unfold node_open. rewrite (la_in _ _ _ L _ _ Hx), decide_True by done. done. Qed.

(** What opening the minor [x] of the major number [ma] does. *)
Definition opens (ma : Z) r (x : Z) : option method := node_open r (MKDEV ma x).

(** C10: once the module is loaded with its default numbers of devices and every
    device was added, the nodes that scull_load makes open the devices their
    names say, through the open method of each family, provided that the pipes
    came up.  When they did not, which scull_init_module does not report, the
    access devices take the numbers of the pipes: the four pipe nodes open the
    access devices, the nodes of the access devices what they opened before.
    Of the nodes of scull.init only the bare devices are nodes of the module. *)
Theorem scull_load_reaches_devices s l : unloaded s → reg_wf (m_reg s) →
  (kmalloc (u64 (m_nr_devs s * sizeof_scull_dev)) (m_heap s)).1 = Some l →
  m_minor s = 0 → m_nr_devs s = SCULL_NR_DEVS → m_p_nr_devs s = SCULL_P_NR_DEVS →
  ∃ z s', scull_init_module s = Ret (z, s') ∧ (0 <= z →
    (∀ i, (i < 4)%nat → CScull i ∈ reg_cdevs (m_reg s') ∧ CAccess i ∈ reg_cdevs (m_reg s') ∧
      (m_p_devices s' ≠ None → CPipe i ∈ reg_cdevs (m_reg s'))) →
    (m_p_devices s' ≠ None → Forall (λ '(x, f), opens (m_major s') (m_reg s') x = Some f) scull_load_nodes) ∧
    (m_p_devices s' = None →
      opens (m_major s') (m_reg s') <$> [4; 5; 6; 7] = Some <$> [Scull_s_open; Scull_u_open; Scull_w_open; Scull_c_open] ∧
      Forall (λ x, opens (m_major s') (m_reg s') x = opens (m_major s') (m_reg s) x) [8; 9; 10; 11]) ∧
    Forall (λ '(x, f), if 4 <=? x then opens (m_major s') (m_reg s') x = opens (m_major s') (m_reg s) x else opens (m_major s') (m_reg s') x = Some f) scull_init_nodes).
Proof.
  intros U W Hk Hm Hn Hp. unfold SCULL_NR_DEVS, SCULL_P_NR_DEVS in *.
  destruct (wp_elim _ _ _ (init_lays s l U W Hk ltac:(lia) ltac:(lia) ltac:(lia) ltac:(lia))) as (z & s' & E & Hz).
  exists z, s'. split; [done|]. intros Hge Hall. set (ma := m_major s').
  destruct Hz as [?|(M & N & P & La)]; [lia|].
  assert (La' : laid ((main_family s' ++ pipe_family s') ++ access_family s') (m_reg s) (m_reg s')).
  { destruct La as [La|La]; [|done]. exfalso. destruct (Hall 0%nat ltac:(lia)) as (_ & Ha & _).
    destruct (un_reg _ U 0%nat) as (_ & _ & Fa).
    apply Fa. apply (la_cdevs _ _ _ La); [|done].
    rewrite fmap_app, elem_of_app. intros [[i [=]]%family_cdevs|[i [=]]%family_cdevs]. }
  clear La. unfold main_family, pipe_family, access_family in La'. rewrite N, Hn in La'.
  assert (Eb : ∀ x, 0 <= x < 1048576 → MKDEV ma x = base s' + x).
  { intros x Hx. unfold base. fold ma. rewrite M, Hm. apply (mkdev_add ma 0 x); lia. }
  assert (Pr : pipe_count s' = 0 ∨ pipe_count s' = 4) by (unfold pipe_count; destruct (m_p_devices s'); lia).
  assert (Out : ∀ x, 8 + pipe_count s' <= x < 1048576 → opens ma (m_reg s') x = opens ma (m_reg s) x).
  { intros x Hx. unfold opens, node_open. f_equal. rewrite Eb by lia. apply (la_out _ _ _ La').
    rewrite !fmap_app, !elem_of_app, !family_nums. lia. }
  assert (Om : ∀ i, (i < 4)%nat → opens ma (m_reg s') (Z.of_nat i) = Some Scull_open).
  { intros i Hi. unfold opens. rewrite Eb by lia. rewrite (laid_open _ _ _ _ (CScull i) La'); [done| |by apply Hall].
    rewrite !elem_of_app. left; left. by apply (family_in _ _ 4). }
  assert (Oa : ∀ i, (i < 4)%nat → opens ma (m_reg s') (4 + pipe_count s' + Z.of_nat i) = fo_open <$> cdev_ops (CAccess i)).
  { intros i Hi. unfold opens. rewrite Eb, !Z.add_assoc by lia. apply (laid_open _ _ _ _ (CAccess i) La'); [|by apply Hall].
    rewrite !elem_of_app. right. by apply (family_in _ _ 4). }
  split_and!.
  - intros Up. assert (Pc : pipe_count s' = 4) by (unfold pipe_count; destruct (m_p_devices s'); [lia|done]).
    rewrite Pc in *.
    assert (Op : ∀ i, (i < 4)%nat → opens ma (m_reg s') (4 + Z.of_nat i) = Some Scull_p_open).
    { intros i Hi. unfold opens. rewrite Eb, Z.add_assoc by lia. rewrite (laid_open _ _ _ _ (CPipe i) La'); [done| |by apply Hall].
      rewrite !elem_of_app. left; right. by apply (family_in _ _ 4). }
    unfold scull_load_nodes. rewrite !Forall_cons.
    split_and!; [apply (Om 0%nat)|apply (Om 1%nat)|apply (Om 2%nat)|apply (Om 3%nat)|apply (Op 0%nat)|apply (Op 1%nat)|apply (Op 2%nat)|apply (Op 3%nat)
      |apply (Oa 0%nat)|apply (Oa 1%nat)|apply (Oa 2%nat)|apply (Oa 3%nat)|by constructor]; lia.
  - intros Dn. assert (Pc : pipe_count s' = 0) by (unfold pipe_count; by rewrite Dn). rewrite Pc in *.
    split; [|rewrite !Forall_cons; split_and!; [..|by constructor]; apply Out; lia].
    simpl. repeat f_equal; [apply (Oa 0%nat)|apply (Oa 1%nat)|apply (Oa 2%nat)|apply (Oa 3%nat)]; lia.
  - unfold scull_init_nodes. rewrite !Forall_cons.
    split_and!; [apply (Om 0%nat)|apply (Om 1%nat)|apply (Om 2%nat)|apply (Om 3%nat)|..|by constructor]; try lia; apply Out; lia.
Qed.


End nodes.

(** ** A registry with its map *)

Definition nreg : Type := creg * gmap Z cdev_id.

Definition nreg_add (c : cdev_id) (dev n : Z) (r : nreg) : Z * nreg :=
  (0, (CReg (cr_devs r.1) ({[c]} ∪ cr_cdevs r.1), foldr (λ x, <[x := c]>) r.2 (seqZ dev n))).

Lemma foldr_insert_lookup (c : cdev_id) (l : list Z) (m : gmap Z cdev_id) x :
  foldr (λ y, <[y := c]>) m l !! x = if decide (x ∈ l) then Some c else m !! x.
Proof.
  induction l as [|y l IH]; [by rewrite decide_False by apply not_elem_of_nil|]. simpl.
  destruct (decide (x = y)) as [->|Hn].
  - rewrite lookup_insert_eq, decide_True; [done|by constructor].
  - rewrite lookup_insert_ne, IH by done. repeat case_decide; set_solver.
Qed.

#[local] Program Instance nreg_chrdevs : ChrDevs nreg := {
  reg_devs r := cr_devs r.1;
  reg_cdevs r := cr_cdevs r.1;
  register_chrdev_region dev n r := let '(z, g) := creg_register dev n r.1 in (z, (g, r.2));
  alloc_chrdev_region minor n r := let '(z, g) := creg_alloc minor n r.1 in (z, (g, r.2));
  unregister_chrdev_region dev n r := (CReg (cr_devs r.1 ∖ dev_range dev n) (cr_cdevs r.1), r.2);
  cdev_add := nreg_add;
  cdev_unmap c r := (CReg (cr_devs r.1) (cr_cdevs r.1 ∖ {[c]}), filter (λ p, p.2 ≠ c) r.2)
}.
Next Obligation.
  intros dev n r z r' E. simpl in E. destruct (creg_register dev n r.1) as [z' g] eqn:E'. injection E as <- <-.
  exact (register_region_law (ChrDevs := creg_chrdevs) _ _ _ _ _ E').
Qed.
Next Obligation.
  intros minor n r dev r' E. simpl in E. destruct (creg_alloc minor n r.1) as [z' g] eqn:E'. injection E as -> <-.
  exact (alloc_region_ok_law (ChrDevs := creg_chrdevs) _ _ _ _ _ E').
Qed.
Next Obligation.
  intros minor n r z r' E. simpl in E. destruct (creg_alloc minor n r.1) as [z' g] eqn:E'. injection E as -> <-.
  exact (alloc_region_err_law (ChrDevs := creg_chrdevs) _ _ _ _ _ E').
Qed.
Next Obligation. done. Qed.
Next Obligation. intros c dev n r z r' E. injection E as <- <-. split_and!; try done; lia. Qed.
Next Obligation. done. Qed.

#[local] Program Instance nreg_map : CdevMap nreg := { cdev_at r x := r.2 !! x }.
Next Obligation. intros dev n r x. simpl. by destruct (creg_register dev n r.1). Qed.
Next Obligation. intros minor n r x. simpl. by destruct (creg_alloc minor n r.1). Qed.
Next Obligation. done. Qed.
Next Obligation.
  intros c dev n r z r' E _. injection E as <- <-. split; [lia|]. intros _ x. simpl. rewrite foldr_insert_lookup.
  unfold dev_range. repeat case_decide; set_solver.
Qed.

#[local] Instance node_sizes : ScullSizes := {| sizeof_scull_dev := 200; sizeof_scull_pipe := 300 |}.
#[local] Existing Instance creg_chrdevs.

(** The module before loading; [oom] says which allocations fail. *)
Definition node_module (oom : list bool) : mod_st bump nreg :=
  let s := fresh_module oom ∅ in
  ModSt (m_params s) (m_nr_devs s) (m_p_nr_devs s) (m_minor s) (m_major s) None None 0 0 (m_adevs s) [] ∅
    (m_heap s) (m_reg s, ∅).

Lemma node_unloaded oom : unloaded (node_module oom) ∧ reg_wf (m_reg (node_module oom)).
Proof. split; [by split|]. intros x [c E]. simpl in E. by rewrite lookup_empty in E. Qed.

(** The load succeeds with every device added, [up] says whether with pipes. *)
Definition loads (oom : list bool) (up : bool) : bool :=
  match scull_init_module (node_module oom) with
  | Ret (z, s) =>
      bool_decide (z = 0) && Bool.eqb up (bool_decide (is_Some (m_p_devices s))) &&
      bool_decide (list_to_set ((CScull <$> seq 0 4) ++ (CAccess <$> seq 0 4) ++
        (if up then CPipe <$> seq 0 4 else [])) ⊆ reg_cdevs (m_reg s))
  | Fault _ => false
  end.

Lemma loads_elim oom up z s : loads oom up = true → scull_init_module (node_module oom) = Ret (z, s) →
  z = 0 ∧ (m_p_devices s ≠ None ↔ up = true) ∧
  ∀ i, (i < 4)%nat → CScull i ∈ reg_cdevs (m_reg s) ∧ CAccess i ∈ reg_cdevs (m_reg s) ∧
    (m_p_devices s ≠ None → CPipe i ∈ reg_cdevs (m_reg s)).
Proof.
  unfold loads. intros L E. rewrite E in L. apply andb_prop in L as [[->%bool_decide_eq_true Eu]%andb_prop Hs%bool_decide_eq_true].
  apply eqb_prop in Eu. assert (Hu : m_p_devices s ≠ None ↔ up = true).
  { rewrite Eu, bool_decide_eq_true. apply not_eq_None_Some. }
  split; [done|]. split; [done|]. intros i Hi.
  split_and!; [..|intros ->%Hu]; apply Hs; rewrite elem_of_list_to_set, !elem_of_app, !list_elem_of_fmap.
  - left. exists i. rewrite elem_of_seq. split; [done|lia].
  - right; left. exists i. rewrite elem_of_seq. split; [done|lia].
  - right; right. exists i. rewrite elem_of_seq. split; [done|lia].
Qed.

(** With the pipes every node is right; without memory for them the fifth minor
    opens scullsingle and the ninth nothing. *)
Lemma scull_load_reaches_devices_witness :
  (∃ s', scull_init_module (node_module []) = Ret (0, s') ∧
    Forall (λ '(x, f), opens (m_major s') (m_reg s') x = Some f) scull_load_nodes) ∧
  (∃ s', scull_init_module (node_module [false; true]) = Ret (0, s') ∧
    opens (m_major s') (m_reg s') 4 = Some Scull_s_open ∧ opens (m_major s') (m_reg s') 8 = None).
Proof.
  split; [destruct (node_unloaded []) as [U W]|destruct (node_unloaded [false; true]) as [U W]].
  - destruct (scull_load_reaches_devices (node_module []) 1%positive U W) as (z & s' & E & T); [done..|].
    destruct (loads_elim [] true z s') as (-> & Hu & Hc); [by vm_compute|done|].
    exists s'. split; [done|]. apply T; [done..|]. by apply Hu.
  - destruct (scull_load_reaches_devices (node_module [false; true]) 1%positive U W) as (z & s' & E & T); [done..|].
    destruct (loads_elim [false; true] false z s') as (-> & Hu & Hc); [by vm_compute|done|].
    exists s'. split; [done|]. destruct T as (_ & Dn & _); [done..|].
    destruct Dn as [Eo F]; [clear -Hu; destruct (m_p_devices s'); naive_solver|].
    clear E. split; [by injection Eo|]. apply (Forall_cons_1 _ _ _ F).
Defined.
