(* ===== verification/ScullpInit.v ===== *)
(** Loading and unloading scullp: scullp_setup_cdev, scullp_init and
    scullp_cleanup of src/ldd/scullp/main.c, over the registry of ChrReg.v.
    The module is built without SCULLP_DEBUG, so no /proc entry is made. *)
From Stdlib Require Import ZArith Lia.
From stdpp Require Import base list gmap.
From S2P Require Import Prelude Kernel ChrReg Scull ScullIoctl Scullp ScullSpec ScullpThms ScullInit ScullInitThms.

Definition SCULLP_MAJOR := 0.
Definition SCULLP_DEVS := 4.

Record pmod_st (H R : Type) := PModSt {
  pm_params : scullp_params;
  pm_nr : Z;                                       (* scullp_devs *)
  pm_major : Z;                                    (* scullp_major *)
  pm_devices : option (loc * list scullp_dev);     (* scullp_devices *)
  pm_cdevs : gset cdev_id;
  pm_heap : H;
  pm_reg : R
}.
Arguments PModSt {H R}.
Arguments pm_params {H R}.
Arguments pm_nr {H R}.
Arguments pm_major {H R}.
Arguments pm_devices {H R}.
Arguments pm_cdevs {H R}.
Arguments pm_heap {H R}.
Arguments pm_reg {H R}.

Section module.
Context {H R : Type} `{PageAlloc H} `{ChrDevs R} `{ScullpSizes}.
Abbreviation st := (pmod_st H R).

Definition pset_main (major : Z) (d : option (loc * list scullp_dev)) (s : st) : st :=
  PModSt (pm_params s) (pm_nr s) major d (pm_cdevs s) (pm_heap s) (pm_reg s).
Definition pset_kernel (c : gset cdev_id) (h : H) (r : R) (s : st) : st :=
  PModSt (pm_params s) (pm_nr s) (pm_major s) (pm_devices s) c h r.

Definition pm_call {A} (f : R → A * R) : M st A := λ s,
  let '(a, r) := f (pm_reg s) in Ret (a, pset_kernel (pm_cdevs s) (pm_heap s) r s).
Definition pm_kmalloc (n : Z) : M st (option loc) := λ s,
  let '(r, h) := kmalloc (u64 n) (pm_heap s) in Ret (r, pset_kernel (pm_cdevs s) h (pm_reg s) s).
Definition pm_kfree (l : loc) : M st unit := λ s,
  if bool_decide (l ∈ live (pm_heap s))
  then Ret (tt, pset_kernel (pm_cdevs s) (kfree l (pm_heap s)) (pm_reg s) s)
  else Fault BadFree.
Definition pm_cdev_init (c : cdev_id) : M st unit :=
  mmodify (λ s, pset_kernel ({[c]} ∪ pm_cdevs s) (pm_heap s) (pm_reg s) s).
(** The registry's part and the reference. *)
Definition pm_cdev_del (c : cdev_id) : M st unit := λ s,
  if bool_decide (c ∈ pm_cdevs s)
  then Ret (tt, pset_kernel (pm_cdevs s ∖ {[c]}) (pm_heap s) (cdev_unmap c (pm_reg s)) s)
  else Fault BadFree.

(** scullp_trim on a device of the array, with its result. *)
Definition pm_trim (d : scullp_dev) : M st (Z * scullp_dev) := λ s,
  match scullp_trim (ScullpSt (pm_params s) d (pm_heap s) () 0) with
  | Ret (r, s') => Ret ((r, sp_dev s'), pset_kernel (pm_cdevs s) (sp_heap s') (pm_reg s) s)
  | Fault f => Fault f
  end.

(** An error of cdev_add is only reported. *)
Definition scullp_setup_cdev (index : nat) : M st unit :=
  s ← mget;
  pm_cdev_init (CScullp index) ≫= λ _,
  pm_call (cdev_add (CScullp index) (MKDEV (pm_major s) (Z.of_nat index)) 1) ≫= λ _, mret tt.

(** A zeroed device with the parameters of the module. *)
Definition fresh_pdev (p : scullp_params) : scullp_dev :=
  ScullpDev None [] 0 (scullp_order p) (scullp_qset p) 0 false.

Definition scullp_get_region : M st (Z * Z) :=
  s ← mget;
  if negb (pm_major s =? 0) then
    let dev := MKDEV (pm_major s) 0 in
    r ← pm_call (register_chrdev_region dev (pm_nr s)); mret (r, dev)
  else
    r ← pm_call (alloc_chrdev_region 0 (pm_nr s));
    match r with
    | inl err => mmodify (λ s, pset_main (MAJOR 0) (pm_devices s) s) ≫= λ _, mret (err, 0)
    | inr dev => mmodify (λ s, pset_main (MAJOR dev) (pm_devices s) s) ≫= λ _, mret (0, dev)
    end.

Definition scullp_init : M st Z :=
  '(result, dev) ← scullp_get_region;
  if result <? 0 then mret result else
  s ← mget;
  let n := pm_nr s in
  p ← pm_kmalloc (n * sizeof_scullp_dev);
  match p with
  | None =>
      mmodify (λ s, pset_main (pm_major s) None s) ≫= λ _,
      pm_call (λ r, (tt, unregister_chrdev_region dev n r)) ≫= λ _, mret (- ENOMEM)
  | Some l =>
      mmodify (λ s, pset_main (pm_major s)
        (Some (l, replicate (Z.to_nat n) (fresh_pdev (pm_params s)))) s) ≫= λ _,
      mfor 0 (Z.to_nat n) scullp_setup_cdev ≫= λ _,
      mret 0
  end.

(** scullp_trim refuses a mapped device; its result is not looked at. *)
Definition scullp_cleanup : M st unit :=
  s ← mget;
  mfor 0 (Z.to_nat (pm_nr s)) (λ i,
    match pm_devices s ≫= λ x, x.2 !! i with
    | None => mfault OutOfBounds
    | Some d => pm_cdev_del (CScullp i) ≫= λ _, pm_trim d ≫= λ _, mret tt
    end) ≫= λ _,
  (match pm_devices s with Some (l, _) => pm_kfree l | None => mret tt end) ≫= λ _,
  pm_call (λ r, (tt, unregister_chrdev_region (MKDEV (pm_major s) 0) (pm_nr s) r)).

End module.

(** ** Theorems *)

Section thms.
Context {H R : Type} `{PageAlloc H} `{ChrDevs R} `{ScullpSizes}.
Abbreviation st := (pmod_st H R).
Implicit Types s : st.

Definition pm_ids (n : nat) : list cdev_id := CScullp <$> seq 0 n.
#[local] Arguments pm_ids : simpl never.
(** The blocks scullp_cleanup can free: those of the devices not mapped. *)
Definition loose_locs (devs : list scullp_dev) : list loc :=
  devs ≫= λ d, if p_vmas d =? 0 then p_locs d else [].

Record pm_loaded s (l : loc) (devs : list scullp_dev) : Prop := PmLoaded {
  pl_devices : pm_devices s = Some (l, devs);
  pl_nr : pm_nr s = Z.of_nat (length devs);
  pl_wf : Forall p_wf devs;
  pl_nodup : NoDup (l :: devs ≫= p_locs);
  pl_live : ∀ x, x ∈ l :: devs ≫= p_locs → x ∈ live (pm_heap s);
  (* nobody else has a page of a device that is not mapped *)
  pl_counts : ∀ d x, d ∈ devs → p_vmas d = 0 → x ∈ p_pages d → page_count x (pm_heap s) = 1;
  pl_cdevs : ∀ i, (i < length devs)%nat → CScullp i ∈ pm_cdevs s
}.

Lemma pm_trim_wp d s : p_wf d → (∀ x, x ∈ p_locs d → x ∈ live (pm_heap s)) →
  wp (pm_trim d) s (λ r s', ∃ h', s' = pset_kernel (pm_cdevs s) h' (pm_reg s) s ∧
    freed (if p_vmas d =? 0 then p_locs d else []) (if p_vmas d =? 0 then p_pages d else []) (pm_heap s) h').
Proof.
  intros W O. unfold pm_trim, wp.
  pose proof (p_trim_wp (ScullpSt (pm_params s) d (pm_heap s) () 0) W O) as T. unfold wp in T.
  destruct (scullp_trim _) as [[r s']|f]; [|done]. simpl in T. exists (sp_heap s'). split; [done|].
  destruct (p_vmas d =? 0); [apply T|]. destruct T as [_ ->]. apply freed_nil.
Qed.

(** State of the cleanup loop with [k] devices done. *)
Definition cleaned (k : nat) s0 (devs : list scullp_dev) s : Prop :=
  ∃ h r, s = pset_kernel (pm_cdevs s0 ∖ list_to_set (pm_ids k)) h r s0 ∧
    live h = live (pm_heap s0) ∖ list_to_set (loose_locs (take k devs)) ∧
    (∀ x, x ∉ loose_locs (take k devs) → page_count x h = page_count x (pm_heap s0)) ∧
    reg_devs r = reg_devs (pm_reg s0) ∧
    reg_cdevs r = reg_cdevs (pm_reg s0) ∖ list_to_set (pm_ids k).

Lemma pm_ids_S k : (list_to_set (pm_ids (S k)) : gset cdev_id) = list_to_set (pm_ids k) ∪ {[CScullp k]}.
Proof.
  unfold pm_ids. rewrite seq_S, fmap_app, list_to_set_app_L. simpl.
  by rewrite (right_id_L ∅ (∪)).
Qed.

Lemma pm_ids_in k i : CScullp i ∈ (list_to_set (pm_ids k) : gset cdev_id) ↔ (i < k)%nat.
Proof.
  unfold pm_ids. rewrite elem_of_list_to_set, list_elem_of_fmap. split.
  - intros (j & [= ->] & Hj%elem_of_seq). lia.
  - intros. exists i. split; [done|]. apply elem_of_seq. lia.
Qed.

Lemma loose_locs_S devs k d : devs !! k = Some d →
  loose_locs (take (S k) devs) = loose_locs (take k devs) ++ (if p_vmas d =? 0 then p_locs d else []).
Proof.
  intros E. unfold loose_locs. rewrite (take_S_r _ _ _ E), bind_app. simpl. by rewrite app_nil_r.
Qed.

Lemma loose_sub devs x : x ∈ loose_locs devs → x ∈ devs ≫= p_locs.
Proof.
  unfold loose_locs. rewrite !list_elem_of_bind. intros (d & Hx & Hd). exists d.
  destruct (p_vmas d =? 0); [done|]. by apply not_elem_of_nil in Hx.
Qed.

(** The blocks of a device are not those of the devices before it. *)
Lemma later_locs devs k d x : NoDup (devs ≫= p_locs) → devs !! k = Some d → x ∈ p_locs d →
  x ∉ loose_locs (take k devs).
Proof.
  intros ND E Hx Hl%loose_sub. rewrite <- (take_drop_middle _ _ _ E), bind_app in ND.
  apply NoDup_app in ND as (_ & D & _). apply (D x Hl). simpl.
  apply elem_of_app. by left.
Qed.

Lemma cleaned_step k s0 l devs d s : pm_loaded s0 l devs → devs !! k = Some d →
  cleaned k s0 devs s →
  wp (pm_cdev_del (CScullp k) ≫= λ _, pm_trim d ≫= λ _, mret tt) s (λ _ s', cleaned (S k) s0 devs s').
Proof.
  intros L E (h & r & -> & Eh & Cn & Er & Ec). wp_step. unfold wp at 1, pm_cdev_del. simpl.
  assert (Hk : (k < length devs)%nat) by by apply lookup_lt_is_Some_1; eexists.
  rewrite bool_decide_eq_true_2.
  2: { apply elem_of_difference. split; [by apply (pl_cdevs _ _ _ L)|]. rewrite pm_ids_in. lia. }
  destruct (cdev_unmap_law (CScullp k) r) as [U1 U2].
  wp_step. eapply wp_mono; [|apply pm_trim_wp].
  - intros _ s' (h' & -> & [_ _ Fc Fa]). wp_step. exists h', (cdev_unmap (CScullp k) r). split_and!.
    + unfold pset_kernel. rewrite pm_ids_S. cbn [pm_cdevs pm_params pm_nr pm_major pm_devices]. f_equal.
      apply difference_difference_l_L.
    + rewrite Fa; simpl; [rewrite Eh, (loose_locs_S _ _ _ E), list_to_set_app_L; apply difference_difference_l_L|].
      intros x Hx. destruct (Z.eqb_spec (p_vmas d) 0) as [Ev|]; [|by apply not_elem_of_nil in Hx].
      rewrite Cn; [apply (pl_counts _ _ _ L d x); [by eapply list_elem_of_lookup_2|done|done]|].
      pose proof (pl_nodup _ _ _ L) as [_ ND]%NoDup_cons. apply (later_locs _ _ d); [done|done|by apply pages_locs].
    + intros x. rewrite (loose_locs_S _ _ _ E), not_elem_of_app. intros [N1 N2].
      rewrite Fc by done. simpl. by apply Cn.
    + simpl. congruence.
    + rewrite pm_ids_S. simpl. rewrite U2, Ec. apply difference_difference_l_L.
  - by apply (Forall_lookup_1 _ _ _ _ (pl_wf _ _ _ L) E).
  - intros x Hx. simpl. rewrite Eh. apply elem_of_difference.
    pose proof (pl_nodup _ _ _ L) as [_ ND]%NoDup_cons. split.
    + apply (pl_live _ _ _ L), list_elem_of_further, list_elem_of_bind. exists d.
      split; [done|]. by eapply list_elem_of_lookup_2.
    + rewrite elem_of_list_to_set. by eapply later_locs.
Qed.

Lemma cleaned_for s0 l devs n k s : pm_loaded s0 l devs → (k + n = length devs)%nat →
  cleaned k s0 devs s →
  wp (mfor k n (λ i, match pm_devices s0 ≫= λ x, x.2 !! i with
    | None => mfault OutOfBounds
    | Some d => pm_cdev_del (CScullp i) ≫= λ _, pm_trim d ≫= λ _, mret tt
    end)) s (λ _ s', cleaned (length devs) s0 devs s').
Proof.
  intros L. revert k s. induction n as [|n IH]; intros k s Hk C; simpl.
  - wp_step. by replace (length devs) with k by lia.
  - destruct (lookup_lt_is_Some_2 devs k) as [d E]; [lia|].
    rewrite (pl_devices _ _ _ L) at 1. simpl. rewrite E. apply wp_bind.
    eapply wp_mono; [|by eapply cleaned_step]. intros ? s1 C1. apply IH; [lia|done].
Qed.

(** What unloading takes away. *)
Definition pm_released s (l : loc) (devs : list scullp_dev) s' : Prop :=
  live (pm_heap s') = live (pm_heap s) ∖ ({[l]} ∪ list_to_set (loose_locs devs)) ∧
  reg_devs (pm_reg s') = reg_devs (pm_reg s) ∖ dev_range (MKDEV (pm_major s) 0) (pm_nr s) ∧
  reg_cdevs (pm_reg s') = reg_cdevs (pm_reg s) ∖ list_to_set (pm_ids (length devs)) ∧
  pm_cdevs s' = pm_cdevs s ∖ list_to_set (pm_ids (length devs)).

Lemma pm_cleanup_wp s l devs : pm_loaded s l devs →
  wp scullp_cleanup s (λ _ s', pm_released s l devs s').
Proof.
  intros L. unfold scullp_cleanup. wp_step. wp_step. wp_step.
  rewrite (pl_nr _ _ _ L), Nat2Z.id.
  eapply wp_mono; [|apply (cleaned_for s l devs _ 0 s L eq_refl)].
  2: { exists (pm_heap s), (pm_reg s). unfold pm_ids. simpl. unfold pset_kernel.
       rewrite !difference_empty_L. split_and!; [by destruct s|done..]. }
  intros _ s1 (h & r & -> & Eh & _ & Er & Ec). rewrite (pl_devices _ _ _ L), firstn_all in *.
  wp_step. unfold wp at 1, pm_kfree. simpl. rewrite bool_decide_eq_true_2.
  2: { rewrite Eh. apply elem_of_difference. split; [apply (pl_live _ _ _ L), list_elem_of_here|].
       rewrite elem_of_list_to_set. intros Hl%loose_sub.
       pose proof (pl_nodup _ _ _ L) as [N _]%NoDup_cons. done. }
  unfold wp, pm_call. simpl.
  destruct (unregister_region_law (MKDEV (pm_major s) 0) (Z.of_nat (length devs)) r) as [U1 U2].
  unfold pm_released. simpl. rewrite kfree_law, Eh, U1, U2, Er, Ec, (pl_nr _ _ _ L).
  split_and!; [|done..]. rewrite difference_difference_l_L. f_equal. apply (comm_L (∪)).
Qed.

(** Loading: [k] devices registered. *)
Definition plugged_p (k : nat) s0 s : Prop :=
  ∃ r, s = pset_kernel (pm_cdevs s0 ∪ list_to_set (pm_ids k)) (pm_heap s0) r s0 ∧
    reg_devs r = reg_devs (pm_reg s0) ∧
    reg_cdevs (pm_reg s0) ⊆ reg_cdevs r ⊆ reg_cdevs (pm_reg s0) ∪ list_to_set (pm_ids k).

Lemma plugged_0 s : plugged_p 0 s s.
Proof.
  exists (pm_reg s). unfold pm_ids. cbn [seq fmap list_fmap list_to_set]. rewrite !(right_id_L ∅ (∪)). split_and!; [by destruct s|done..].
Qed.

Lemma plugged_step k s0 s : plugged_p k s0 s →
  wp (scullp_setup_cdev k) s (λ _ s', plugged_p (S k) s0 s').
Proof.
  intros (r & -> & E1 & E2 & E3). unfold scullp_setup_cdev, pm_cdev_init.
  wp_step. wp_step. wp_step. wp_step. wp_step. unfold wp at 1, pm_call. simpl.
  destruct (cdev_add (CScullp k) _ _ r) as [z r'] eqn:E.
  destruct (cdev_add_law _ _ _ _ _ _ E) as (Hz & D & C & N). wp_step.
  exists r'. rewrite pm_ids_S. split_and!.
  - unfold pset_kernel. simpl. f_equal. clear. set_solver.
  - by rewrite D.
  - destruct (decide (z = 0)) as [->|]; [rewrite C by done|rewrite N by lia];
      [by apply union_subseteq_r'|done].
  - destruct (decide (z = 0)) as [->|]; [rewrite C by done|rewrite N by lia];
      intros c; rewrite ?elem_of_union; intros Hc;
      [destruct Hc as [Hc|Hc]; [auto|]|]; apply E3 in Hc; rewrite elem_of_union in Hc; tauto.
Qed.

Lemma plugged_for n k s0 s : plugged_p k s0 s →
  wp (mfor k n scullp_setup_cdev) s (λ _ s', plugged_p (k + n) s0 s').
Proof.
  revert k s. induction n as [|n IH]; intros k s P; simpl.
  - wp_step. by rewrite Nat.add_0_r.
  - apply wp_bind. eapply wp_mono; [|by apply plugged_step]. intros ? s1 P1.
    rewrite <- Nat.add_succ_comm. by apply IH.
Qed.

(** The module before loading: none of its cdevs is in use. *)
Definition pm_unloaded s : Prop :=
  pm_devices s = None ∧ (∀ i, (CScullp i ∉ pm_cdevs s) ∧ CScullp i ∉ reg_cdevs (pm_reg s)) ∧
  0 <= pm_nr s ∧ 0 < scullp_qset (pm_params s) <= INT_MAX.

Definition pm_restored s s' : Prop :=
  live (pm_heap s') = live (pm_heap s) ∧ reg_devs (pm_reg s') = reg_devs (pm_reg s) ∧
  reg_cdevs (pm_reg s') = reg_cdevs (pm_reg s) ∧ pm_cdevs s' = pm_cdevs s.

Lemma scullp_region_wp s :
  wp scullp_get_region s (λ '(z, dev) s', ∃ g major,
    s' = pset_main major (pm_devices s) (pset_kernel (pm_cdevs s) (pm_heap s) g s) ∧
    reg_cdevs g = reg_cdevs (pm_reg s) ∧
    (z < 0 → reg_devs g = reg_devs (pm_reg s)) ∧
    (0 <= z → z = 0 ∧ dev = MKDEV major 0 ∧ dev_range dev (pm_nr s) ## reg_devs (pm_reg s) ∧
       reg_devs g = dev_range dev (pm_nr s) ∪ reg_devs (pm_reg s))).
Proof.
  unfold scullp_get_region. wp_step. wp_step. destruct (pm_major s =? 0) eqn:Ej; simpl.
  - wp_step. unfold wp at 1, pm_call.
    destruct (alloc_chrdev_region 0 (pm_nr s) (pm_reg s)) as [[e|dev] g] eqn:E; simpl;
      do 2 (wp_step; try wp_step); eexists g, _; (split; [reflexivity|]).
    + apply alloc_region_err_law in E as (Hz & E1 & E2). split_and!; [done..|]. lia.
    + apply alloc_region_ok_law in E as (D & _ & E1 & E2 & E3). split_and!; [done|lia|].
      intros _. split_and!; done.
  - wp_step. unfold wp at 1, pm_call.
    destruct (register_chrdev_region _ (pm_nr s) (pm_reg s)) as [z g] eqn:E. wp_step.
    apply register_region_law in E as (Hz & E1 & E2 & E3). exists g, (pm_major s).
    split_and!; [by destruct s|done|done|]. intros Hz'. assert (z = 0) as -> by lia.
    destruct E2 as [E2 E2']; [done|]. done.
Qed.

Lemma fresh_pdev_pages n p d x : d ∈ replicate n (fresh_pdev p) → x ∉ p_pages d.
Proof. intros ->%elem_of_replicate_inv Hx. by apply not_elem_of_nil in Hx. Qed.

Lemma fresh_pdev_ok n p : 0 < scullp_qset p <= INT_MAX →
  Forall p_wf (replicate n (fresh_pdev p)) ∧ replicate n (fresh_pdev p) ≫= p_locs = [].
Proof.
  intros Hq. split.
  - apply Forall_replicate. split; simpl; [done|lia| |done|apply NoDup_nil_2].
    by apply Forall_singleton.
  - induction n; simpl; [done|]. done.
Qed.

(** Loaded from [s]: the array is the only new block. *)
Definition pm_gained s (l : loc) s' : Prop :=
  pm_loaded s' l (replicate (Z.to_nat (pm_nr s)) (fresh_pdev (pm_params s))) ∧
  live (pm_heap s') = {[l]} ∪ live (pm_heap s) ∧ (l ∉ live (pm_heap s)) ∧
  (let range := dev_range (MKDEV (pm_major s') 0) (pm_nr s') in
   range ## reg_devs (pm_reg s) ∧ reg_devs (pm_reg s') = range ∪ reg_devs (pm_reg s)) ∧
  (let ids := list_to_set (pm_ids (Z.to_nat (pm_nr s))) in
   pm_cdevs s' = pm_cdevs s ∪ ids ∧
   reg_cdevs (pm_reg s) ⊆ reg_cdevs (pm_reg s') ⊆ reg_cdevs (pm_reg s) ∪ ids).

Lemma pm_init_wp s : pm_unloaded s →
  wp scullp_init s (λ r s', (r < 0 ∧ pm_restored s s') ∨ (r = 0 ∧ ∃ l, pm_gained s l s')).
Proof.
  intros (Dn & Cn & Hn & Hq). unfold scullp_init. wp_step.
  eapply wp_mono; [|apply scullp_region_wp]. intros [z dev] s1 (g & major & -> & Ec & Eneg & Eok).
  destruct (Z.ltb_spec z 0) as [Hz|Hz].
  { wp_step. left. split; [done|]. split_and!; simpl; auto. }
  destruct (Eok Hz) as (-> & -> & Dj & Dg). wp_step. wp_step. wp_step.
  unfold wp at 1, pm_kmalloc. simpl.
  destruct (kmalloc _ (pm_heap s)) as [[l|] h] eqn:Em.
  - destruct (kmalloc_some_law _ _ _ _ Em) as [Fl El].
    destruct (fresh_pdev_ok (Z.to_nat (pm_nr s)) (pm_params s) Hq) as [Fw Fn].
    wp_step. wp_step. wp_step. eapply wp_mono; [|apply plugged_for].
    2: apply plugged_0.
    intros ? s2 (r & -> & P1 & P2 & P3). wp_step. right. split; [done|]. exists l.
    rewrite Nat.add_0_l in *. unfold pm_gained. simpl in *. rewrite P1, Dg, <- Ec.
    split; [|done]. split; simpl; [done| |done|..].
    + rewrite length_replicate. lia.
    + rewrite Fn. apply NoDup_singleton.
    + rewrite Fn. intros x ->%list_elem_of_singleton. rewrite El. set_solver.
    + intros d x Hd _ Hx. by destruct (fresh_pdev_pages _ _ _ _ Hd Hx).
    + rewrite length_replicate. intros i Hi. apply elem_of_union_r. by apply pm_ids_in.
  - pose proof (kmalloc_none_law _ _ _ Em) as El.
    do 2 wp_step. wp_step. unfold wp at 1, pm_call. simpl. wp_step. left. split; [unfold ENOMEM; lia|].
    destruct (unregister_region_law (MKDEV major 0) (pm_nr s) g) as [U1 U2].
    split_and!; simpl; [done| |congruence|done]. rewrite U1, Dg. by apply union_difference_back.
Qed.

(** Loading scullp either fails with an error and leaves nothing behind,
    the device numbers included when memory runs out, or puts every device in
    place with the module's parameters, even when some cdev could not be added;
    unloading then gives back the array, the device numbers and the cdevs. *)
Theorem scullp_load_unload s : pm_unloaded s →
  wp scullp_init s (λ r s',
    (r < 0 ∧ pm_restored s s') ∨
    (r = 0 ∧ (∃ l, pm_loaded s' l (replicate (Z.to_nat (pm_nr s)) (fresh_pdev (pm_params s)))) ∧
       wp scullp_cleanup s' (λ _ s'', pm_restored s s''))).
Proof.
  intros U. eapply wp_mono; [|by apply pm_init_wp]. intros r s' [L|(-> & l & G)]; [by left|right].
  destruct G as (L & El & Fl & (Dj & Ed) & Ec & C1 & C2). split; [done|]. split; [eauto|].
  eapply wp_mono; [|by apply pm_cleanup_wp]. intros ? s'' (R1 & R2 & R3 & R4).
  destruct U as (_ & Cn & Hn & Hq). destruct (fresh_pdev_ok (Z.to_nat (pm_nr s)) (pm_params s) Hq) as [_ Fn].
  rewrite length_replicate in R3, R4.
  assert (Lo : loose_locs (replicate (Z.to_nat (pm_nr s)) (fresh_pdev (pm_params s))) = []).
  { clear. unfold loose_locs. induction (Z.to_nat (pm_nr s)) as [|n IH]; [done|]. exact IH. }
  assert (Ids : ∀ c, c ∈ (list_to_set (pm_ids (Z.to_nat (pm_nr s))) : gset cdev_id) →
    (c ∉ pm_cdevs s) ∧ c ∉ reg_cdevs (pm_reg s)).
  { intros c. rewrite elem_of_list_to_set. unfold pm_ids. rewrite list_elem_of_fmap.
    intros (i & -> & _). apply Cn. }
  unfold pm_restored. rewrite R1, R2, R3, R4, Ed, Ec, El, Lo. split_and!.
  - simpl. clear -Fl. set_solver.
  - by apply union_difference_back.
  - apply set_eq. intros c. rewrite elem_of_difference. split.
    + intros [Hc Nc]. apply C2, elem_of_union in Hc as [|]; done.
    + intros Hc. split; [by apply C1|]. intros Hi. by destruct (Ids c Hi).
  - apply set_eq. intros c. rewrite elem_of_difference, elem_of_union. split; [tauto|].
    intros Hc. split; [by left|]. intros Hi. by destruct (Ids c Hi).
Qed.

End thms.

(** ** Witness *)

Section example.
#[local] Existing Instance creg_chrdevs.
#[local] Instance demo_psizes : ScullpSizes := {| sizeof_scullp_dev := 200 |}.

Definition pmod0 (oom : list bool) : pmod_st paged creg :=
  PModSt (ScullpParams 0 500) SCULLP_DEVS SCULLP_MAJOR None ∅ (Paged (Bump ∅ 1 oom) ∅) (CReg ∅ ∅).

Lemma pmod0_unloaded oom : pm_unloaded (pmod0 oom).
Proof.
  split_and!; simpl; try (unfold INT_MAX, SCULLP_DEVS; lia); [done|].
  intros i. split; apply not_elem_of_empty.
Qed.

Example pmod0_loads :
  (match scullp_init (pmod0 []) with Ret (r, _) => r | _ => -1 end) = 0 ∧
  (match scullp_init (pmod0 [true]) with Ret (r, _) => r | _ => -1 end) = - ENOMEM.
Proof. by vm_compute. Qed.

Lemma scullp_load_unload_witness :
  wp scullp_init (pmod0 []) (λ r s',
    (r < 0 ∧ pm_restored (pmod0 []) s') ∨
    (r = 0 ∧ (∃ l, pm_loaded s' l (replicate 4 (fresh_pdev (ScullpParams 0 500)))) ∧
       wp scullp_cleanup s' (λ _ s'', pm_restored (pmod0 []) s''))).
Proof. exact (scullp_load_unload (pmod0 []) (pmod0_unloaded [])). Defined.

End example.
