(* ===== verification/ScullProc.v ===== *)
(** The /proc printers of the scull drivers, compiled in under SCULL_DEBUG and
    SCULLP_USE_PROC: scull_read_procmem and scull_seq_show
    (src/ldd/scull/main.c), scull_read_p_mem (pipe.c) and scullp_read_procmem
    (src/ldd/scullp/main.c), with their theorems.

    A printed line is the tuple of its arguments; the text a seq_file has taken
    is the list of the lines.  seq_printf is kernel code: it takes a line when
    the buffer has room and marks the buffer full otherwise, upon which the
    kernel throws the text away and starts again with a larger one. *)
From Stdlib Require Import ZArith Lia.
From stdpp Require Import base list gmap.
From S2P Require Import Prelude Kernel ChrReg Scull ScullSpec ScullPipe ScullInit ScullInitThms Scullp ScullpThms.

(** ** seq_file *)

Inductive line :=
  | LDevice (i : nat) (qset quantum size : Z)
  | LItem (item : option loc) (data : option loc)    (* None: the device itself; NULL *)
  | LQuantum (j : nat) (p : loc)
  | LBufferSize (n : Z)
  | LPipe (i : nat)
  | LBuffer (b : option loc) (end_ size : Z)
  | LPointers (rp wp : Z)
  | LCounts (readers writers : Z).

Record seq_file := SeqFile { sq_text : list line; sq_count : Z; sq_size : Z }.

(** The rendered length of a line. *)
Class LineLen := { line_len : line → Z; line_len_law : ∀ l, 0 < line_len l }.

Definition seq_put `{LineLen} (q : seq_file) (l : line) : seq_file :=
  if (sq_count q <? sq_size q) && (sq_count q + line_len l <? sq_size q)
  then SeqFile (sq_text q ++ [l]) (sq_count q + line_len l) (sq_size q)
  else SeqFile (sq_text q) (sq_size q) (sq_size q).

(** ** Devices with a mutex *)

Class Locked (D : Type) := { is_locked : D → bool; set_locked : D → bool → D;
  locked_law : ∀ d, is_locked d = false → set_locked (set_locked d true) false = d;
  set_locked_law : ∀ d b, is_locked (set_locked d b) = b }.
#[export] Instance scull_locked : Locked scull_dev.
Proof. refine {| is_locked := d_locked; set_locked := with_locked |}; [by intros [] ?; simplify_eq/=|done]. Defined.
#[export] Instance pipe_locked : Locked scull_pipe.
Proof. refine {| is_locked := p_locked; set_locked := pipe_lock |}; [by intros [] ?; simplify_eq/=|done]. Defined.
#[export] Instance scullp_locked : Locked scullp_dev.
Proof. refine {| is_locked := p_mutex; set_locked := with_pmutex |}; [by intros [] ?; simplify_eq/=|done]. Defined.

(** The devices of a driver, the blocks that are allocated, the seq_file. *)
Record proc_st (D : Type) := ProcSt { pr_devs : list D; pr_live : gset loc; pr_seq : seq_file }.
Arguments ProcSt {D}.
Arguments pr_devs {D}.
Arguments pr_live {D}.
Arguments pr_seq {D}.

Section common.
Context `{LineLen} {D : Type} `{Locked D}.
Abbreviation st := (proc_st D).

Definition set_seq (q : seq_file) (s : st) : st := ProcSt (pr_devs s) (pr_live s) q.
Definition set_device (i : nat) (d : D) (s : st) : st := ProcSt (<[i := d]> (pr_devs s)) (pr_live s) (pr_seq s).
Definition seq_printf (l : line) : M st unit := mmodify (λ s, set_seq (seq_put (pr_seq s) l) s).

Definition get_device (i : nat) : M st D := λ s,
  match pr_devs s !! i with Some d => Ret (d, s) | None => Fault OutOfBounds end.
(** mutex_lock_interruptible: true when a signal came first. *)
Definition dev_lock (intr : bool) (i : nat) : M st bool :=
  d ← get_device i;
  if intr then mret true
  else if is_locked d then mfault SelfDeadlock
  else mmodify (set_device i (set_locked d true)) ≫= λ _, mret false.
Definition dev_unlock (i : nat) : M st unit :=
  d ← get_device i;
  if is_locked d then mmodify (set_device i (set_locked d false)) else mfault BadUnlock.

(** An access through a pointer to an allocated block. *)
Definition touch (l : loc) : M st unit := λ s,
  if bool_decide (l ∈ pr_live s) then Ret (tt, s) else Fault OutOfBounds.
Definition touch_opt (l : option loc) : M st unit := match l with Some l => touch l | None => mret tt end.
Definition seq_count : M st Z := λ s, Ret (sq_count (pr_seq s), s).

(** for (i = 0; i < n && s->count <= limit; i++), left by a return of [body]. *)
Fixpoint for_devices (limit : Z) (body : nat → M st Z) (i n : nat) : M st Z :=
  match n with
  | O => mret 0
  | S n' =>
      c ← seq_count;
      if c <=? limit then
        r ← body i;
        if negb (r =? 0) then mret r else for_devices limit body (S i) n'
      else mret 0
  end.

End common.

(** ** scull *)

Section scull.
Context `{LineLen}.
Abbreviation st := (proc_st scull_dev).

Definition print_quantum (a : data_arr) (j : nat) : M st unit :=
  touch (a_loc a) ≫= λ _,
  match a_slots a !! j with
  | None => mfault OutOfBounds
  | Some None => mret tt
  | Some (Some q) => seq_printf (LQuantum j (q_loc q))
  end.

(** One item of the list and, when it is the last one, its quanta. *)
Definition print_item (qset : Z) (n : scull_qset_node) (last : bool) : M st unit :=
  touch (qs_loc n) ≫= λ _,
  seq_printf (LItem (Some (qs_loc n)) (a_loc <$> qs_data n)) ≫= λ _,
  match qs_data n with
  | Some a => if last then mfor 0 (Z.to_nat qset) (print_quantum a) else mret tt
  | None => mret tt
  end.

Definition is_last {A} (r : list A) : bool := match r with [] => true | _ => false end.

(** scull_read_procmem, whose int [limit] is compared with a size_t.  [qs] is
    the pointer read from [d->data]; it is followed only in the loop over the
    items, where it may no longer be that of the device: it then points to a
    block that was freed. *)
Fixpoint procmem_items (limit qset : Z) (qs : list scull_qset_node) : M st unit :=
  match qs with
  | [] => mret tt
  | n :: r =>
      c ← seq_count;
      if c <=? limit then print_item qset n (is_last r) ≫= λ _, procmem_items limit qset r
      else mret tt
  end.
Definition nodes_at (d : scull_dev) (qs : loc) : M st (list scull_qset_node) :=
  match d_data d with
  | n :: r => if decide (qs_loc n = qs) then mret (n :: r) else mfault OutOfBounds
  | [] => mfault OutOfBounds
  end.
Definition procmem_list (limit : Z) (d : scull_dev) (qs : option loc) : M st unit :=
  c ← seq_count;
  match qs with
  | Some l => if c <=? limit then ns ← nodes_at d l; procmem_items limit (d_qset d) ns else mret tt
  | None => mret tt
  end.

(** [intr] tells whether a signal comes while device [i] is waited for,
    [other] is what the rest of the system does between the reading of
    [d->data] and the locking of the device. *)
Definition procmem_device (limit : Z) (intr : bool) (other : st → st) (i : nat) : M st Z :=
  d ← get_device i;
  let qs := qs_loc <$> head (d_data d) in
  mmodify other ≫= λ _,
  sig ← dev_lock intr i;
  if (sig : bool) then mret (- ERESTARTSYS) else
  d ← get_device i;
  seq_printf (LDevice i (d_qset d) (d_quantum d) (d_size d)) ≫= λ _,
  procmem_list limit d qs ≫= λ _,
  dev_unlock i ≫= λ _, mret 0.
Definition scull_read_procmem (scull_nr_devs : nat) (intr : nat → bool) (other : nat → st → st) : M st Z :=
  s ← mget;
  let limit := u64 (s32 (sq_size (pr_seq s) - 80)) in
  for_devices limit (λ i, procmem_device limit (intr i) (other i) i) 0 scull_nr_devs.

(** scull_seq_show, on the device with number [i]. *)
Fixpoint show_items (qset : Z) (d : list scull_qset_node) : M st unit :=
  match d with
  | [] => mret tt
  | n :: r => print_item qset n (is_last r) ≫= λ _, show_items qset r
  end.
Definition scull_seq_show (intr : bool) (i : nat) : M st Z :=
  sig ← dev_lock intr i;
  if (sig : bool) then mret (- ERESTARTSYS) else
  d ← get_device i;
  seq_printf (LDevice i (d_qset d) (d_quantum d) (d_size d)) ≫= λ _,
  show_items (d_qset d) (d_data d) ≫= λ _,
  dev_unlock i ≫= λ _, mret 0.

(** The kernel's traversal of a sequence file with room for all of it:
    start, then show and next as long as there is an element.  [fuel] is the
    number of elements at most. *)
Context {Hp R : Type} `{KernelHeap Hp} `{ChrDevs R}.
Fixpoint seq_traverse (m : mod_st Hp R) (intr : nat → bool) (fuel : nat) (v : option nat) (pos : Z) : M st Z :=
  match v, fuel with
  | None, _ | _, O => mret 0
  | Some i, S f =>
      r ← scull_seq_show (intr i) i;
      if negb (r =? 0) then mret r else
      let '(v', pos') := scull_seq_next pos m in seq_traverse m intr f v' pos'
  end.
Definition scullseq_text (m : mod_st Hp R) (intr : nat → bool) : M st Z :=
  seq_traverse m intr (Z.to_nat (m_nr_devs m)) (scull_seq_start 0 m) 0.

End scull.

(** ** scullpipe *)

Section pipe.
Context `{LineLen}.
Abbreviation st := (proc_st scull_pipe).

Definition LIMIT := PAGE_SIZE - 200.

Definition p_mem_device (intr : bool) (i : nat) : M st Z :=
  sig ← dev_lock intr i;
  if (sig : bool) then mret (- ERESTARTSYS) else
  p ← get_device i;
  seq_printf (LPipe i) ≫= λ _,
  seq_printf (LBuffer (fst <$> buffer p) (p_end p) (buffersize p)) ≫= λ _,
  seq_printf (LPointers (p_rp p) (p_wp p)) ≫= λ _,
  seq_printf (LCounts (nreaders p) (nwriters p)) ≫= λ _,
  dev_unlock i ≫= λ _, mret 0.
Definition scull_read_p_mem (scull_p_buffer : Z) (scull_p_nr_devs : nat) (intr : nat → bool) : M st Z :=
  seq_printf (LBufferSize scull_p_buffer) ≫= λ _,
  for_devices LIMIT (λ i, p_mem_device (intr i) i) 0 scull_p_nr_devs.

End pipe.

(** ** scullp *)

Section scullp.
Context `{LineLen}.
Abbreviation st := (proc_st scullp_dev).

(** The loop over the pages of an item; true when the limit was passed. *)
Fixpoint print_pages (limit : Z) (a : data_arr) (j n : nat) : M st bool :=
  match n with
  | O => mret false
  | S n' =>
      touch (a_loc a) ≫= λ _,
      (match a_slots a !! j with
       | None => mfault OutOfBounds
       | Some None => mret tt
       | Some (Some q) => seq_printf (LQuantum j (q_loc q))
       end) ≫= λ _,
      c ← seq_count;
      if limit <? c then mret true else print_pages limit a (S j) n'
  end.

Fixpoint scullp_items (limit qset : Z) (d : list p_item) : M st unit :=
  match d with
  | [] => mret tt
  | x :: r =>
      touch_opt (pi_loc x) ≫= λ _,
      seq_printf (LItem (pi_loc x) (a_loc <$> pi_data x)) ≫= λ _,
      c ← seq_count;
      if limit <? c then mret tt else
      out ← (match pi_data x, is_last r with
             | Some a, true => print_pages limit a 0 (Z.to_nat qset)
             | _, _ => mret false
             end);
      if (out : bool) then mret tt else scullp_items limit qset r
  end.

Definition scullp_procmem_device (limit : Z) (intr : bool) (i : nat) : M st Z :=
  sig ← dev_lock intr i;
  if (sig : bool) then mret (- ERESTARTSYS) else
  d ← get_device i;
  seq_printf (LDevice i (p_qset d) (p_order d) (s64 (p_size d))) ≫= λ _,
  scullp_items limit (p_qset d) (p_items d) ≫= λ _,
  dev_unlock i ≫= λ _, mret 0.
Fixpoint scullp_procmem_loop (limit : Z) (intr : nat → bool) (i n : nat) : M st Z :=
  match n with
  | O => mret 0
  | S n' =>
      r ← scullp_procmem_device limit (intr i) i;
      if negb (r =? 0) then mret r else
      c ← seq_count;
      if limit <? c then mret 0 else scullp_procmem_loop limit intr (S i) n'
  end.
Definition scullp_read_procmem (scullp_devs : nat) (intr : nat → bool) : M st Z :=
  s ← mget;
  scullp_procmem_loop (u64 (s32 (sq_size (pr_seq s) - 80))) intr 0 scullp_devs.

End scullp.

(** ** Theorems *)

#[local] Arguments Z.to_nat : simpl never.

Section seq_facts.
Context `{LineLen}.
Implicit Types (q : seq_file) (ls : list line).

Definition seq_ok q : Prop := sq_count q <= sq_size q.
Lemma seq_put_ok q l : seq_ok q → seq_ok (seq_put q l).
Proof.
  unfold seq_ok, seq_put. intros Hq. destruct (Z.ltb_spec (sq_count q) (sq_size q)),
    (Z.ltb_spec (sq_count q + line_len l) (sq_size q)); simpl; lia.
Qed.
Lemma seq_put_count q l : seq_ok q → sq_count q <= sq_count (seq_put q l).
Proof.
  unfold seq_ok, seq_put. intros Hq. pose proof (line_len_law l). destruct (Z.ltb_spec (sq_count q) (sq_size q)),
    (Z.ltb_spec (sq_count q + line_len l) (sq_size q)); simpl; lia.
Qed.
Lemma seq_puts_ok q ls : seq_ok q → seq_ok (foldl seq_put q ls).
Proof. revert q. induction ls as [|l ls IH]; intros q Hq; simpl; [done|]. by apply IH, seq_put_ok. Qed.
Lemma seq_puts_count q ls : seq_ok q → sq_count q <= sq_count (foldl seq_put q ls).
Proof.
  revert q. induction ls as [|l ls IH]; intros q Hq; simpl; [lia|].
  etrans; [by apply (seq_put_count q l)|]. by apply IH, seq_put_ok.
Qed.
Lemma seq_puts_size q ls : sq_size (foldl seq_put q ls) = sq_size q.
Proof. revert q. induction ls as [|l ls IH]; intros q; simpl; [done|]. rewrite IH. unfold seq_put. by destruct (_ && _). Qed.

(** The text is a prefix of what was printed, all of it unless the buffer is
    full. *)
Lemma seq_puts_text q ls : seq_ok q → ∃ ls', ls' `prefix_of` ls ∧ sq_text (foldl seq_put q ls) = sq_text q ++ ls' ∧
  (sq_count (foldl seq_put q ls) < sq_size q → ls' = ls).
Proof.
  revert q. induction ls as [|l ls IH]; intros q Hq; simpl.
  { exists []. by rewrite app_nil_r. }
  destruct (IH (seq_put q l)) as (ls' & P & Et & Full); [by apply seq_put_ok|]. rewrite Et.
  assert (Esz : sq_size (seq_put q l) = sq_size q) by (unfold seq_put; by destruct (_ && _)). rewrite Esz in Full.
  unfold seq_put in *. destruct (_ && _) eqn:E.
  - exists (l :: ls'). split; [by apply prefix_cons|]. simpl. rewrite <- app_assoc. split; [done|].
    intros Hc. by rewrite Full.
  - (* full: nothing more is taken *)
    set (q' := SeqFile (sq_text q) (sq_size q) (sq_size q)) in *.
    assert (Stuck : ∀ k, foldl seq_put q' k = q').
    { induction k as [|x k IHk]; [done|]. simpl. rewrite <- IHk at 2. f_equal. unfold seq_put, q'. simpl.
      by rewrite Z.ltb_irrefl. }
    rewrite Stuck in *. simpl in *. exists []. split; [apply prefix_nil|]. split; [|lia].
    f_equal. apply (app_inv_head (sq_text q)). by rewrite <- Et, app_nil_r.
Qed.
End seq_facts.

Section run.
Context `{LineLen} {D : Type} `{Locked D}.
Abbreviation st := (proc_st D).
Implicit Types s : st.

(** What printing [ls] makes of a state. *)
Definition print (ls : list line) s : st := set_seq (foldl seq_put (pr_seq s) ls) s.
Lemma print_nil s : print [] s = s.
Proof. by destruct s. Qed.
Lemma print_app l k s : print k (print l s) = print (l ++ k) s.
Proof. unfold print, set_seq. simpl. by rewrite foldl_app. Qed.

Lemma seq_printf_wp l s : wp (seq_printf l) s (λ _ s', s' = print [l] s).
Proof. done. Qed.
Lemma touch_wp l s : l ∈ pr_live s → wp (touch l) s (λ _ s', s' = s).
Proof. intros Hl. unfold wp, touch. by rewrite bool_decide_eq_true_2. Qed.

Lemma dev_lock_wp (intr : bool) i d s : pr_devs s !! i = Some d → is_locked d = false →
  wp (dev_lock intr i) s (λ sig s', sig = intr ∧ s' = if intr then s else set_device i (set_locked d true) s).
Proof. intros E U. unfold dev_lock, get_device, wp, mbind, M_bind. rewrite E. destruct intr; [done|]. by rewrite U. Qed.
Lemma get_locked_wp i d ls s Q : (i < length (pr_devs s))%nat →
  Q d (print ls (set_device i d s)) → wp (get_device i) (print ls (set_device i d s)) Q.
Proof. intros Hi HQ. unfold get_device, wp. simpl. by rewrite list_lookup_insert_eq. Qed.
Lemma dev_unlock_wp i d ls s : pr_devs s !! i = Some d → is_locked d = false →
  wp (dev_unlock i ≫= λ _, mret 0) (print ls (set_device i (set_locked d true) s)) (λ r s', r = 0 ∧ s' = print ls s).
Proof.
  intros E U. apply wp_bind. unfold dev_unlock. apply wp_bind, get_locked_wp; [by eapply lookup_lt_Some|].
  rewrite set_locked_law. apply wp_modify, wp_ret. split; [done|].
  unfold print, set_seq, set_device. simpl. by rewrite list_insert_insert_eq, locked_law, list_insert_id by done.
Qed.

(** *** How far a printer gets

    [ls] is what was printed of [all] by code that stops only above [limit]. *)

Definition upto (limit : Z) (q : seq_file) (all ls : list line) : Prop :=
  ls `prefix_of` all ∧ (sq_count (foldl seq_put q ls) <= limit → ls = all).

Lemma upto_all limit q ls : upto limit q ls ls.
Proof. done. Qed.
Lemma upto_stop limit q a b la : limit < sq_count (foldl seq_put q la) → la `prefix_of` a → upto limit q (a ++ b) la.
Proof. intros Hc P. split; [by apply prefix_app_r|lia]. Qed.
Lemma upto_app limit q a b lb : upto limit (foldl seq_put q a) b lb → upto limit q (a ++ b) (a ++ lb).
Proof. intros [P Full]. split; [by apply prefix_app|]. rewrite foldl_app. intros Hc. by rewrite Full. Qed.
Lemma upto_cut limit q a la c : upto limit q a la → limit < sq_count (foldl seq_put q la) → upto limit q (a ++ c) la.
Proof. intros [P _] Hc. by apply upto_stop. Qed.

(** [m] prints lines of [all], and stops early only above [limit]. *)
Definition prints (limit : Z) (m : M st unit) (all : list line) : Prop :=
  ∀ s, seq_ok (pr_seq s) → wp m s (λ _ s', ∃ ls, upto limit (pr_seq s) all ls ∧ s' = print ls s).

(** The lines of the devices from number [i] on. *)
Fixpoint device_lines (f : nat → D → list line) (i : nat) (ds : list D) : list line :=
  match ds with [] => [] | d :: r => f i d ++ device_lines f (S i) r end.

Definition device_prints (limit : Z) (f : nat → D → list line) (intr : nat → bool) (body : nat → M st Z) (s : st) : Prop :=
  ∀ i d ls, pr_devs s !! i = Some d → seq_ok (pr_seq s) →
  wp (body i) (print ls s) (λ r s', if intr i then r = - ERESTARTSYS ∧ s' = print ls s
    else r = 0 ∧ ∃ ls', upto limit (pr_seq (print ls s)) (f i d) ls' ∧ s' = print (ls ++ ls') s).

(** What a printer of all devices does: it returns 0, having printed all the
    lines unless the limit was passed, or a signal interrupts it; the devices
    are as before, their mutexes released. *)
Definition printed (limit : Z) (intr : nat → bool) (all : list line) (s : st) (r : Z) (s' : st) : Prop :=
  ∃ ls, s' = print ls s ∧ ls `prefix_of` all ∧
  (r = 0 ∧ (sq_count (pr_seq s') <= limit → ls = all) ∨ r = - ERESTARTSYS ∧ ∃ i, intr i = true).

Lemma printed_step limit intr all b s k r s' : seq_ok (pr_seq s) →
  printed limit intr b (print k s) r s' → all = k ++ b → printed limit intr all s r s'.
Proof.
  intros Ok (ls & -> & P & Hr) ->. exists (k ++ ls). rewrite print_app. split_and!; [done|by apply prefix_app|].
  destruct Hr as [[-> Full]|Hr]; [left|by right]. split; [done|]. intros Hc. rewrite Full; [done|by rewrite print_app].
Qed.
Lemma printed_cut limit intr a b s : upto limit (pr_seq s) a b → limit < sq_count (pr_seq (print b s)) →
  ∀ c, printed limit intr (a ++ c) s 0 (print b s).
Proof. intros [P _] Hc c. exists b. split_and!; [done|by apply prefix_app_r|]. left. split; [done|lia]. Qed.

Lemma print_ok ls s : seq_ok (pr_seq s) → seq_ok (pr_seq (print ls s)).
Proof. apply seq_puts_ok. Qed.

Lemma for_devices_wp limit f intr body i n s : seq_ok (pr_seq s) → device_prints limit f intr body s →
  n = (length (pr_devs s) - i)%nat → ∀ ls,
  wp (for_devices limit body i n) (print ls s) (printed limit intr (device_lines f i (drop i (pr_devs s))) (print ls s)).
Proof.
  intros Ok B. revert i. induction n as [|n IH]; intros i Hn ls.
  { apply wp_ret. exists []. rewrite print_nil. rewrite drop_ge by lia. split_and!; [done..|by left]. }
  assert (∃ d, pr_devs s !! i = Some d) as [d E] by (apply lookup_lt_is_Some; lia).
  rewrite (drop_S _ d) by done. cbn [device_lines for_devices]. unfold seq_count. apply wp_bind. unfold wp at 1.
  destruct (Z.leb_spec (sq_count (pr_seq (print ls s))) limit) as [Hc|Hc].
  - apply wp_bind. eapply wp_mono; [|by eapply B]. intros r s'. destruct (intr i) eqn:Hi.
    + intros [-> ->]. apply wp_ret. exists []. rewrite print_nil. split_and!; [done|apply prefix_nil|]. right. eauto.
    + intros [-> (ls' & U & ->)]. cbn [negb Z.eqb]. rewrite <- print_app in *. 
      destruct (Z.leb_spec (sq_count (pr_seq (print ls' (print ls s)))) limit) as [Hc'|Hc'].
      * destruct U as [_ Full]. rewrite Full in * by done.
        eapply wp_mono; [|rewrite print_app; apply IH; lia]. intros r s' P. rewrite <- print_app in P.
        eapply printed_step; [by apply print_ok|exact P|done].
      * destruct n as [|n]; [|cbn [for_devices]; unfold seq_count; apply wp_bind; unfold wp at 1;
          rewrite (proj2 (Z.leb_gt _ _)) by done]; apply wp_ret; by apply printed_cut.
  - apply wp_ret. exists []. rewrite print_nil. split_and!; [done|apply prefix_nil|]. left. split; [done|lia].
Qed.

(** A text that fits below the limit is printed entirely. *)
Lemma printed_fits limit (all : list line) s r s' : seq_ok (pr_seq s) →
  printed limit (λ _, false) all s r s' → sq_count (pr_seq (print all s)) <= limit → r = 0 ∧ s' = print all s.
Proof.
  intros Ok (ls & -> & [k ->] & Hr) Hc. destruct Hr as [[-> Full]|[_ [? ?]]]; [|done]. split; [done|].
  rewrite Full at 1; [done|]. etrans; [|exact Hc]. rewrite <- print_app.
  apply (seq_puts_count (pr_seq (print ls s))), (print_ok ls s Ok).
Qed.
Lemma printed_text (all : list line) s : seq_ok (pr_seq s) → sq_count (pr_seq (print all s)) < sq_size (pr_seq s) →
  sq_text (pr_seq (print all s)) = sq_text (pr_seq s) ++ all.
Proof. intros Ok Hc. destruct (seq_puts_text (pr_seq s) all Ok) as (t & _ & Et & Full). by rewrite Full in Et. Qed.

End run.

(** *** Lines of the items *)

Definition quantum_lines (slots : list (option quantum_blk)) (j : nat) : list line :=
  match slots !! j with Some (Some q) => [LQuantum j (q_loc q)] | _ => [] end.
Definition quanta_lines (a : option data_arr) (qset : Z) (last : bool) : list line :=
  match a with
  | Some a => if last then seq 0 (Z.to_nat qset) ≫= quantum_lines (a_slots a) else []
  | None => []
  end.
Fixpoint items_lines (qset : Z) (ns : list scull_qset_node) : list line :=
  match ns with
  | [] => []
  | n :: r => LItem (Some (qs_loc n)) (a_loc <$> qs_data n) :: quanta_lines (qs_data n) qset (is_last r) ++ items_lines qset r
  end.
Definition scull_lines (i : nat) (d : scull_dev) : list line :=
  LDevice i (d_qset d) (d_quantum d) (d_size d) :: items_lines (d_qset d) (d_data d).

Section scull_thms.
Context `{LineLen}.
Abbreviation st := (proc_st scull_dev).
Implicit Types s : st.

Lemma print_quantum_wp a j s : a_loc a ∈ pr_live s → (j < length (a_slots a))%nat →
  wp (print_quantum a j) s (λ _ s', s' = print (quantum_lines (a_slots a) j) s).
Proof.
  intros Hl Hj. unfold print_quantum. apply wp_bind. eapply wp_mono; [|by apply touch_wp]. intros [] ? ->.
  unfold quantum_lines. destruct (lookup_lt_is_Some_2 _ _ Hj) as [[q|] ->]; [done|]. by rewrite print_nil.
Qed.

Lemma print_item_wp Q qset n last s : node_ok Q qset n → (∀ l, l ∈ node_locs n → l ∈ pr_live s) →
  wp (print_item qset n last) s (λ _ s',
    s' = print (LItem (Some (qs_loc n)) (a_loc <$> qs_data n) :: quanta_lines (qs_data n) qset last) s).
Proof.
  intros W O. unfold print_item. apply wp_bind.
  eapply wp_mono; [|apply touch_wp, O; unfold node_locs; set_solver]. intros [] ? ->.
  apply wp_bind. eapply wp_mono; [|apply seq_printf_wp]. intros [] ? ->.
  unfold node_ok, node_locs in *. destruct (qs_data n) as [a|]; [|done]. destruct last; [|done].
  destruct W as [El _]. cbn [quanta_lines].
  eapply wp_mono; [|apply (mfor_wp (λ j s', s' = print (LItem (Some (qs_loc n)) (a_loc <$> Some a) ::
     (seq 0 j ≫= quantum_lines (a_slots a))) s)); [done|]].
  - by intros ? s' ->.
  - intros k s' Hk ->. eapply wp_mono; [|apply print_quantum_wp; [apply O; unfold arr_locs; set_solver|lia]].
    intros [] ? ->. rewrite print_app, seq_S, bind_app. simpl. by rewrite app_nil_r.
Qed.

Definition nodes_ready (Q qset : Z) (ns : list scull_qset_node) (s : st) : Prop :=
  Forall (node_ok Q qset) ns ∧ ∀ l, l ∈ ns ≫= node_locs → l ∈ pr_live s.
Lemma nodes_ready_cons Q qset n ns s : nodes_ready Q qset (n :: ns) s →
  node_ok Q qset n ∧ (∀ l, l ∈ node_locs n → l ∈ pr_live s) ∧ nodes_ready Q qset ns s.
Proof. intros [W O]. inversion_clear W. simpl in O. unfold nodes_ready. split_and!; try done; intros l Hl; apply O; set_solver. Qed.

(** The loop of scull_seq_show prints all the items, that of
    scull_read_procmem as many as the limit allows. *)
Lemma show_items_wp Q qset ns s : nodes_ready Q qset ns s →
  wp (show_items qset ns) s (λ _ s', s' = print (items_lines qset ns) s).
Proof.
  revert s. induction ns as [|n ns IH]; intros s R; [by rewrite print_nil|].
  apply nodes_ready_cons in R as (W & O & R). cbn [show_items]. apply wp_bind.
  eapply wp_mono; [|by eapply print_item_wp]. intros ? s' ->. 
  eapply wp_mono; [|by apply IH]. intros ? s'' ->. cbn [items_lines]. by rewrite print_app.
Qed.
Lemma procmem_items_wp Q limit qset ns s : seq_ok (pr_seq s) → nodes_ready Q qset ns s →
  wp (procmem_items limit qset ns) s (λ _ s', ∃ ls, upto limit (pr_seq s) (items_lines qset ns) ls ∧ s' = print ls s).
Proof.
  revert s. induction ns as [|n ns IH]; intros s Ok R.
  { apply wp_ret. exists []. by rewrite print_nil. }
  apply nodes_ready_cons in R as (W & O & R). cbn [procmem_items]. unfold seq_count. apply wp_bind. unfold wp at 1.
  case_match eqn:E; apply Z.leb_le in E || apply Z.leb_gt in E.
  - apply wp_bind. eapply wp_mono; [|by eapply print_item_wp]. intros ? s' ->.
    eapply wp_mono; [|apply IH; [by apply print_ok|done]]. intros ? s'' (ls & U & ->).
    eexists. split; [|apply print_app]. cbn [items_lines]. by apply (upto_app _ _ (_ :: _)).
  - apply wp_ret. exists []. rewrite print_nil. split; [|done]. by apply (upto_stop _ _ []).
Qed.

(** A device as the printers want it: well-formed, its blocks allocated. *)
Definition dev_ready (s : st) (d : scull_dev) : Prop :=
  dev_wf d ∧ d_locked d = false ∧ ∀ l, l ∈ dev_locs d → l ∈ pr_live s.
Lemma dev_ready_nodes s d : dev_ready s d → nodes_ready (d_quantum d) (d_qset d) (d_data d) s.
Proof. intros ([? ? ? ?] & _ & O). by split. Qed.

Lemma procmem_device_wp limit (intr : bool) i d s : pr_devs s !! i = Some d → seq_ok (pr_seq s) → dev_ready s d →
  wp (procmem_device limit intr id i) s (λ r s', if intr then r = - ERESTARTSYS ∧ s' = s
    else r = 0 ∧ ∃ ls, upto limit (pr_seq s) (scull_lines i d) ls ∧ s' = print ls s).
Proof.
  intros E Ok R. unfold procmem_device. apply wp_bind. unfold get_device at 1. unfold wp at 1. rewrite E.
  wp_step. wp_step. apply wp_bind. eapply wp_mono; [|apply dev_lock_wp; [done|apply R]].
  intros sig s' [-> ->]. destruct intr; [done|]. unfold id.
  set (s1 := set_device i (set_locked d true) s).
  apply wp_bind. rewrite <- (print_nil s1). apply get_locked_wp; [by eapply lookup_lt_Some|].
  apply wp_bind. eapply wp_mono; [|apply seq_printf_wp]. intros ? s' ->. rewrite print_app. simpl app.
  apply wp_bind. set (h := LDevice _ _ _ _).
  assert (wp (procmem_list limit (set_locked d true) (qs_loc <$> head (d_data d))) (print [h] s1) (λ _ s', ∃ ls,
    upto limit (pr_seq s) (scull_lines i d) ls ∧ s' = print ls s1)) as Hl.
  { unfold procmem_list, seq_count. apply wp_bind. unfold wp at 1.
    destruct (d_data d) as [|n ns] eqn:Ed; simpl.
    { exists [h]. unfold scull_lines. rewrite Ed. by split. }
    case_match eqn:Ec; apply Z.leb_le in Ec || apply Z.leb_gt in Ec.
    - unfold nodes_at. simpl. rewrite Ed, decide_True by done. apply wp_bind, wp_ret.
      apply dev_ready_nodes in R. rewrite Ed in R.
      eapply wp_mono; [|eapply (procmem_items_wp (d_quantum d)); [by apply (print_ok [h] s1)|exact R]].
      intros ? s' (ls & U & ->). exists (h :: ls). split; [|by rewrite print_app].
      unfold scull_lines. rewrite Ed. by apply (upto_app _ _ [h]).
    - exists [h]. split; [|done]. apply (upto_stop _ _ [h]); [done|reflexivity]. }
  eapply wp_mono; [|exact Hl]. intros ? s' (ls & U & ->).
  eapply wp_mono; [|apply dev_unlock_wp; [done|apply R]]. intros r s' [-> ->]. eauto.
Qed.

Lemma scull_seq_show_wp i d s : pr_devs s !! i = Some d → dev_ready s d →
  wp (scull_seq_show false i) s (λ r s', r = 0 ∧ s' = print (scull_lines i d) s).
Proof.
  intros E R. unfold scull_seq_show. apply wp_bind. eapply wp_mono; [|apply dev_lock_wp; [done|apply R]].
  intros sig s' [-> ->]. set (s1 := set_device i (set_locked d true) s).
  apply wp_bind. rewrite <- (print_nil s1). apply get_locked_wp; [by eapply lookup_lt_Some|].
  apply wp_bind. eapply wp_mono; [|apply seq_printf_wp]. intros [] s' ->. rewrite print_app.
  apply wp_bind. eapply wp_mono; [|apply (show_items_wp (d_quantum d)); exact (dev_ready_nodes _ _ R)].
  intros [] s' ->. rewrite print_app. by apply dev_unlock_wp; [|apply R].
Qed.

Context {Hp R : Type} `{KernelHeap Hp} `{ChrDevs R}.
Implicit Types m : mod_st Hp R.
Abbreviation all_ready s := (∀ i d, pr_devs s !! i = Some d → dev_ready s d).

Lemma seq_traverse_wp m s i : all_ready s → m_nr_devs m = Z.of_nat (length (pr_devs s)) →
  ∀ n ls, n = (length (pr_devs s) - i)%nat →
  wp (seq_traverse m (λ _, false) n (scull_seq_start (Z.of_nat i) m) (Z.of_nat i)) (print ls s)
    (λ r s', r = 0 ∧ s' = print (ls ++ device_lines scull_lines i (drop i (pr_devs s))) s).
Proof.
  intros R0 Em n. revert i. induction n as [|n IH]; intros i ls Hn; unfold scull_seq_start; rewrite Em, Z.geb_leb;
    (destruct (Z.leb_spec (Z.of_nat (length (pr_devs s))) (Z.of_nat i)); [|try lia]).
  1,2: apply wp_ret; rewrite drop_ge by lia; simpl; by rewrite app_nil_r.
  rewrite Nat2Z.id. assert (∃ d, pr_devs s !! i = Some d) as [d E] by (apply lookup_lt_is_Some; lia).
  cbn [seq_traverse]. apply wp_bind. eapply wp_mono; [|apply scull_seq_show_wp; [done|exact (R0 _ _ E)]].
  intros r s' [-> ->]. cbn [negb Z.eqb]. unfold scull_seq_next.
  replace (Z.of_nat i + 1) with (Z.of_nat (S i)) by lia. rewrite print_app.
  rewrite (drop_S _ d) by done. cbn [device_lines]. rewrite app_assoc. apply IH. lia.
Qed.

Definition scull_limit s : Z := u64 (s32 (sq_size (pr_seq s) - 80)).

Lemma procmem_printed s intr : seq_ok (pr_seq s) → all_ready s →
  wp (scull_read_procmem (length (pr_devs s)) intr (λ _, id)) s
    (printed (scull_limit s) intr (device_lines scull_lines 0 (pr_devs s)) s).
Proof.
  intros Ok R0. unfold scull_read_procmem. wp_step. wp_step.
  pose proof (for_devices_wp (scull_limit s) scull_lines intr
    (λ i, procmem_device (scull_limit s) (intr i) id i) 0 (length (pr_devs s)) s Ok) as W.
  rewrite <- (print_nil s) at 3 4. rewrite <- (drop_0 (pr_devs s)) at 2. apply W; [|lia].
  intros i d ls E _. eapply wp_mono; [|apply procmem_device_wp; [exact E|by apply print_ok|exact (R0 _ _ E)]].
  intros r s'. destruct (intr i); [done|]. intros [-> (ls' & U & ->)]. split; [done|].
  exists ls'. split; [done|]. by rewrite print_app.
Qed.

(** Scull_read_procmem (/proc/scullmem), whatever the size of the page it
    prints into and whenever a signal comes: it either returns 0, having
    printed the devices up to where the limit was passed, or -ERESTARTSYS when
    a signal came while a device was waited for.  What it printed is a prefix
    of the lines of the devices, and it leaves the devices as they were with
    their mutexes released.  The text handed to the reader is a prefix too. *)
Theorem scull_read_procmem_prefix s intr : seq_ok (pr_seq s) → all_ready s →
  wp (scull_read_procmem (length (pr_devs s)) intr (λ _, id)) s (λ r s',
    printed (scull_limit s) intr (device_lines scull_lines 0 (pr_devs s)) s r s' ∧
    pr_devs s' = pr_devs s ∧
    ∃ t, t `prefix_of` device_lines scull_lines 0 (pr_devs s) ∧ sq_text (pr_seq s') = sq_text (pr_seq s) ++ t).
Proof.
  intros Ok R0. eapply wp_mono; [|by apply procmem_printed].
  intros r s' P. pose proof P as (ls & Es & Pre & _). subst s'. split_and!; [done|done|].
  destruct (seq_puts_text (pr_seq s) ls Ok) as (t & Pt & Et & _). exists t. split; [by etrans|done].
Qed.

(** C36: the two readers of the bare devices, /proc/scullmem
    (scull_read_procmem) and /proc/scullseq (scull_seq_start, _next and
    _show), print the same text, the lines of all devices, when it fits below
    the limit of the former and no signal comes. *)
Theorem scullmem_eq_scullseq m s : seq_ok (pr_seq s) → all_ready s →
  m_nr_devs m = Z.of_nat (length (pr_devs s)) →
  let all := device_lines scull_lines 0 (pr_devs s) in
  sq_count (pr_seq (print all s)) <= scull_limit s → scull_limit s < sq_size (pr_seq s) →
  ∃ s', scull_read_procmem (length (pr_devs s)) (λ _, false) (λ _, id) s = Ret (0, s') ∧
        scullseq_text m (λ _, false) s = Ret (0, s') ∧
        sq_text (pr_seq s') = sq_text (pr_seq s) ++ all ∧ pr_devs s' = pr_devs s.
Proof.
  intros Ok R0 Em all Hc Hl. exists (print all s).
  pose proof (seq_traverse_wp m s 0 R0 Em (length (pr_devs s)) [] ltac:(lia)) as Ws.
  apply wp_elim in Ws as (r & s' & Es & -> & ->). rewrite print_nil in Es.
  pose proof (procmem_printed s (λ _, false) Ok R0) as W. apply wp_elim in W as (r & s' & Ep & P).
  apply printed_fits in P as [-> ->]; [|done..].
  split_and!; [done| |apply printed_text; [done|lia]|done].
  unfold scullseq_text. by rewrite Em, Nat2Z.id.
Qed.
End scull_thms.

Section race.
Context `{LineLen}.
Implicit Types s : proc_st scull_dev.

(** Scull_read_procmem reads [d->data] before it takes the device's mutex.
    When another process truncates the device in between (scull_trim, under
    the mutex), the printer follows the stale pointer into a freed block. *)
Theorem scull_read_procmem_race s n intr other d d' ds ds' :
  pr_devs s = d :: ds → d_data d ≠ [] → sq_count (pr_seq s) <= scull_limit s → intr O = false →
  let s1 := other O s in
  pr_devs s1 = d' :: ds' → d_data d' = [] → d_locked d' = false →
  sq_count (seq_put (pr_seq s1) (LDevice 0 (d_qset d') (d_quantum d') (d_size d'))) <= scull_limit s →
  scull_read_procmem (S n) intr other s = Fault OutOfBounds.
Proof.
  intros E D Hc Hi s1 E1 D1 U Hc1. unfold scull_read_procmem, mget, mbind, M_bind. fold (scull_limit s).
  cbn [for_devices]. unfold seq_count, mbind, M_bind. rewrite (proj2 (Z.leb_le _ _) Hc).
  unfold procmem_device, dev_lock, get_device, mmodify, mbind, M_bind. rewrite E. simpl.
  fold s1. rewrite Hi, E1. simpl. rewrite U. simpl. rewrite E1. simpl.
  unfold procmem_list, seq_count, mbind, M_bind. destruct (d_data d) as [|x r]; [done|]. simpl.
  rewrite (proj2 (Z.leb_le _ _) Hc1). unfold nodes_at. simpl. by rewrite D1.
Qed.
End race.

(** *** The pipes *)

Definition pipe_lines (i : nat) (p : scull_pipe) : list line :=
  [LPipe i; LBuffer (fst <$> buffer p) (p_end p) (buffersize p); LPointers (p_rp p) (p_wp p); LCounts (nreaders p) (nwriters p)].

Section pipe_thms.
Context `{LineLen}.
Implicit Types s : proc_st scull_pipe.

Lemma p_mem_device_wp intr i p s : pr_devs s !! i = Some p → p_locked p = false →
  wp (p_mem_device intr i) s (λ r s', if intr then r = - ERESTARTSYS ∧ s' = s
    else r = 0 ∧ s' = print (pipe_lines i p) s).
Proof.
  intros E U. unfold p_mem_device. apply wp_bind. eapply wp_mono; [|by apply dev_lock_wp].
  intros sig s' [-> ->]. destruct intr; [done|]. set (s1 := set_device i (set_locked p true) s).
  apply wp_bind. rewrite <- (print_nil s1). apply get_locked_wp; [by eapply lookup_lt_Some|].
  do 4 (apply wp_bind; eapply wp_mono; [|apply seq_printf_wp]; intros [] s' ->; rewrite print_app).
  by apply dev_unlock_wp.
Qed.

(** Scull_read_p_mem (/proc/scullpipe) prints the configured buffer size
    and four lines per pipe, up to its limit of a page less 200 bytes or to
    the first signal, and releases every mutex it takes. *)
Theorem scull_read_p_mem_prefix s scull_p_buffer intr : seq_ok (pr_seq s) → Forall (λ p, p_locked p = false) (pr_devs s) →
  wp (scull_read_p_mem scull_p_buffer (length (pr_devs s)) intr) s
    (printed LIMIT intr (LBufferSize scull_p_buffer :: device_lines pipe_lines 0 (pr_devs s)) s).
Proof.
  intros Ok U. unfold scull_read_p_mem. apply wp_bind. eapply wp_mono; [|apply seq_printf_wp]. intros [] s' ->.
  eapply wp_mono; [|apply (for_devices_wp LIMIT pipe_lines intr); [done| |lia]].
  - intros r s' P. eapply printed_step; [done|exact P|]. by rewrite drop_0.
  - intros i p ls E _. eapply wp_mono; [|apply (p_mem_device_wp _ _ p); [exact E|]].
    2: exact (Forall_lookup_1 _ _ _ _ U E).
    intros r s'. destruct (intr i); [done|]. intros [-> ->]. split; [done|]. eexists. split; [apply upto_all|].
    by rewrite print_app.
Qed.
End pipe_thms.

(** *** scullp *)

Fixpoint p_items_lines (qset : Z) (d : list p_item) : list line :=
  match d with
  | [] => []
  | x :: r => LItem (pi_loc x) (a_loc <$> pi_data x) :: quanta_lines (pi_data x) qset (is_last r) ++ p_items_lines qset r
  end.
Definition scullp_lines (i : nat) (d : scullp_dev) : list line :=
  LDevice i (p_qset d) (p_order d) (s64 (p_size d)) :: p_items_lines (p_qset d) (p_items d).

Section scullp_thms.
Context `{LineLen}.
Implicit Types s : proc_st scullp_dev.

Lemma print_pages_wp limit a n s : seq_ok (pr_seq s) → a_loc a ∈ pr_live s → ∀ j, (j + n ≤ length (a_slots a))%nat →
  wp (print_pages limit a j n) s (λ out s', ∃ ls, s' = print ls s ∧
    ls `prefix_of` (seq j n ≫= quantum_lines (a_slots a)) ∧
    if out then limit < sq_count (pr_seq s') else ls = seq j n ≫= quantum_lines (a_slots a)).
Proof.
  intros Ok Hl. revert s Ok Hl. induction n as [|n IH]; intros s Ok Hl j Hj.
  { apply wp_ret. exists []. by rewrite print_nil. }
  cbn [print_pages seq]. apply wp_bind. eapply wp_mono; [|by apply touch_wp]. intros [] s' ->.
  apply wp_bind. change ((j :: seq (S j) n) ≫= quantum_lines (a_slots a)) with
    (quantum_lines (a_slots a) j ++ (seq (S j) n ≫= quantum_lines (a_slots a))).
  set (l0 := quantum_lines (a_slots a) j). set (r0 := seq (S j) n ≫= quantum_lines (a_slots a)).
  eapply (wp_mono _ _ (λ _ s', s' = print l0 s)).
  2:{ unfold l0, quantum_lines. destruct (lookup_lt_is_Some_2 (a_slots a) j) as [[q|] ->]; [lia|done|].
      apply wp_ret. by rewrite print_nil. }
  intros [] s' ->. unfold seq_count. apply wp_bind. unfold wp at 1.
  case_match eqn:E; apply Z.ltb_lt in E || apply Z.ltb_ge in E.
  { apply wp_ret. exists l0. split_and!; [done|by apply prefix_app_r|done]. }
  eapply wp_mono; [|apply IH; [by apply print_ok|done|lia]].
  intros out s' (ls & -> & P & Ho). exists (l0 ++ ls). rewrite print_app in *. split_and!; [done|by apply prefix_app|].
  destruct out; [done|]. by f_equal.
Qed.

Definition p_items_ready (qset : Z) (d : list p_item) s : Prop :=
  Forall (item_ok qset) d ∧ ∀ l, l ∈ d ≫= item_locs → l ∈ pr_live s.

Lemma scullp_items_wp limit qset d s : seq_ok (pr_seq s) → p_items_ready qset d s →
  wp (scullp_items limit qset d) s (λ _ s', ∃ ls, upto limit (pr_seq s) (p_items_lines qset d) ls ∧ s' = print ls s).
Proof.
  revert s. induction d as [|x r IH]; intros s Ok [W O].
  { apply wp_ret. exists []. by rewrite print_nil. }
  inversion_clear W as [|? ? W0 W']. simpl in O. cbn [scullp_items p_items_lines]. apply wp_bind.
  eapply (wp_mono _ _ (λ _ s', s' = s)).
  2:{ unfold touch_opt. destruct (pi_loc x) as [l|] eqn:El; [|done].
      apply touch_wp, O, elem_of_app. left. unfold item_locs. rewrite El. set_solver. }
  intros [] s' ->. apply wp_bind. eapply wp_mono; [|apply seq_printf_wp]. intros [] s' ->.
  set (h := LItem _ _). unfold seq_count. apply wp_bind. unfold wp at 1.
  case_match eqn:E; apply Z.ltb_lt in E || apply Z.ltb_ge in E.
  { apply wp_ret. exists [h]. split; [|done]. apply (upto_stop _ _ [h]); [done|reflexivity]. }
  set (q0 := quanta_lines _ _ _). apply wp_bind.
  eapply (wp_mono _ _ (λ (out : bool) s', ∃ ls, s' = print ls (print [h] s) ∧ ls `prefix_of` q0 ∧
    if out then limit < sq_count (pr_seq s') else ls = q0)).
  2:{ unfold q0, quanta_lines. destruct (pi_data x) as [a|] eqn:Ea; [destruct (is_last r)|].
      2,3: apply wp_ret; exists []; by rewrite print_nil.
      unfold item_ok in W0. rewrite Ea in W0. destruct W0 as [Len _].
      apply print_pages_wp; [by apply print_ok| |lia].
      simpl. apply O, elem_of_app. left. unfold item_locs, arr_locs. rewrite Ea. set_solver. }
  intros out s' (ls & -> & P & Ho). destruct out.
  { apply wp_ret. exists (h :: ls). rewrite print_app. split; [|done]. rewrite print_app in Ho.
    apply (upto_stop _ _ (h :: q0)); [done|by apply prefix_cons]. }
  subst ls. eapply wp_mono; [|apply IH; [by apply print_ok, print_ok|]].
  2:{ split; [done|]. intros l Hl. simpl. apply O, elem_of_app. by right. }
  intros [] s' (ls & U & ->). exists (h :: q0 ++ ls). rewrite !print_app. split; [|done].
  rewrite print_app in U. by apply (upto_app _ _ (h :: q0)).
Qed.

Definition pdev_ready s (d : scullp_dev) : Prop := p_wf d ∧ p_mutex d = false ∧ ∀ l, l ∈ p_locs d → l ∈ pr_live s.

Lemma scullp_procmem_device_wp limit intr i d s : pr_devs s !! i = Some d → seq_ok (pr_seq s) → pdev_ready s d →
  wp (scullp_procmem_device limit intr i) s (λ r s', if intr then r = - ERESTARTSYS ∧ s' = s
    else r = 0 ∧ ∃ ls, upto limit (pr_seq s) (scullp_lines i d) ls ∧ s' = print ls s).
Proof.
  intros E Ok (W & U & O). unfold scullp_procmem_device. apply wp_bind. eapply wp_mono; [|by apply dev_lock_wp].
  intros sig s' [-> ->]. destruct intr; [done|]. set (s1 := set_device i (set_locked d true) s).
  apply wp_bind. rewrite <- (print_nil s1). apply get_locked_wp; [by eapply lookup_lt_Some|].
  apply wp_bind. eapply wp_mono; [|apply seq_printf_wp]. intros [] s' ->. rewrite print_app. simpl app.
  set (h := LDevice _ _ _ _). apply wp_bind. eapply wp_mono; [|apply scullp_items_wp].
  - intros [] s' (ls & L & ->). rewrite print_app. eapply wp_mono; [|by apply dev_unlock_wp]. intros r s' [-> ->].
    split; [done|]. eexists. split; [|done]. by apply (upto_app _ _ [h]).
  - by apply (print_ok [h] s1).
  - split; [apply W|exact O].
Qed.

Lemma scullp_loop_wp limit intr i n s : seq_ok (pr_seq s) → (∀ j d, pr_devs s !! j = Some d → pdev_ready s d) →
  n = (length (pr_devs s) - i)%nat → ∀ ls,
  wp (scullp_procmem_loop limit intr i n) (print ls s)
    (printed limit intr (device_lines scullp_lines i (drop i (pr_devs s))) (print ls s)).
Proof.
  intros Ok R. revert i. induction n as [|n IH]; intros i Hn ls.
  { apply wp_ret. exists []. rewrite print_nil. rewrite drop_ge by lia. split_and!; [done..|by left]. }
  assert (∃ d, pr_devs s !! i = Some d) as [d E] by (apply lookup_lt_is_Some; lia).
  rewrite (drop_S _ d) by done. cbn [device_lines scullp_procmem_loop]. apply wp_bind.
  eapply wp_mono; [|apply scullp_procmem_device_wp; [exact E|by apply print_ok|exact (R _ _ E)]].
  intros r s'. destruct (intr i) eqn:Hi.
  - intros [-> ->]. apply wp_ret. exists []. rewrite print_nil. split_and!; [done|apply prefix_nil|]. right. eauto.
  - intros [-> (ls' & U & ->)]. cbn [negb Z.eqb]. unfold seq_count. apply wp_bind. unfold wp at 1.
    case_match eqn:Hc; apply Z.ltb_lt in Hc || apply Z.ltb_ge in Hc.
    + apply wp_ret. by apply printed_cut.
    + destruct U as [_ Full]. rewrite Full in * by done. rewrite print_app.
      eapply wp_mono; [|apply IH; lia]. intros r s' P. rewrite <- print_app in P.
      eapply printed_step; [by apply print_ok|exact P|done].
Qed.

(** Scullp_read_procmem (/proc/scullpmem) prints a prefix of the lines of
    the devices, all of them unless the limit is passed or a signal comes, and
    releases every mutex it takes on every path, the gotos out of the nested
    loops included. *)
Theorem scullp_read_procmem_prefix s intr : seq_ok (pr_seq s) → (∀ j d, pr_devs s !! j = Some d → pdev_ready s d) →
  wp (scullp_read_procmem (length (pr_devs s)) intr) s
    (printed (u64 (s32 (sq_size (pr_seq s) - 80))) intr (device_lines scullp_lines 0 (pr_devs s)) s).
Proof.
  intros Ok R. unfold scullp_read_procmem. wp_step. wp_step.
  pose proof (scullp_loop_wp (u64 (s32 (sq_size (pr_seq s) - 80))) intr 0 (length (pr_devs s)) s Ok R) as W.
  specialize (W ltac:(lia) []). by rewrite print_nil, drop_0 in W.
Qed.
End scullp_thms.

(** ** Runs of the printers *)

#[local] Program Instance demo_len : LineLen := {| line_len := λ _, 30 |}.
Next Obligation. done. Qed.

Definition page : seq_file := SeqFile [] 0 PAGE_SIZE.
(** A device with one item of two quanta, the first allocated. *)
Definition demo_node : scull_qset_node :=
  QsetNode 10%positive (Some (DataArr 11%positive [Some (QuantumBlk 12%positive [None; None; None; None]); None])).
Definition demo_dev : scull_dev := ScullDev [demo_node] 4 2 3 0 false.
Definition empty_dev : scull_dev := ScullDev [] 4 2 0 0 false.
Definition demo_proc (devs : list scull_dev) (q : seq_file) : proc_st scull_dev :=
  ProcSt devs {[10%positive; 11%positive; 12%positive]} q.
Definition two_devs : proc_st scull_dev := demo_proc [demo_dev; empty_dev] page.

Lemma demo_ready i d : pr_devs two_devs !! i = Some d → dev_ready two_devs d.
Proof.
  destruct i as [|[|i]]; simpl; intros [= <-].
  - split_and!; [|done|simpl; set_solver]. split; [done|done| |simpl; repeat constructor; set_solver].
    repeat constructor.
  - split_and!; [|done|simpl; set_solver]. split; [done|done|constructor|constructor].
Qed.

Example procmem_two_devices :
  ∃ s', scull_read_procmem 2 (λ _, false) (λ _, id) two_devs = Ret (0, s') ∧
  sq_text (pr_seq s') = [LDevice 0 2 4 3; LItem (Some 10%positive) (Some 11%positive); LQuantum 0 12%positive; LDevice 1 2 4 0].
Proof. eexists. split; vm_compute; reflexivity. Qed.

Lemma scull_read_procmem_prefix_witness :
  wp (scull_read_procmem 2 (λ i, Nat.eqb i 1) (λ _, id)) two_devs (λ r s',
    printed (scull_limit two_devs) (λ i, Nat.eqb i 1) (device_lines scull_lines 0 [demo_dev; empty_dev]) two_devs r s' ∧
    pr_devs s' = [demo_dev; empty_dev] ∧
    ∃ t, t `prefix_of` device_lines scull_lines 0 [demo_dev; empty_dev] ∧ sq_text (pr_seq s') = [] ++ t).
Proof. apply (scull_read_procmem_prefix two_devs (λ i, Nat.eqb i 1)); [by vm_compute|apply demo_ready]. Defined.

Lemma scullmem_eq_scullseq_witness :
  let s := demo_proc [demo_dev; empty_dev; empty_dev; empty_dev] page in
  ∃ s', scull_read_procmem 4 (λ _, false) (λ _, id) s = Ret (0, s') ∧
        scullseq_text (fresh_module [] ∅) (λ _, false) s = Ret (0, s') ∧
        sq_text (pr_seq s') = [] ++ device_lines scull_lines 0 [demo_dev; empty_dev; empty_dev; empty_dev] ∧
        pr_devs s' = [demo_dev; empty_dev; empty_dev; empty_dev].
Proof.
  apply (scullmem_eq_scullseq (fresh_module [] ∅) (demo_proc [demo_dev; empty_dev; empty_dev; empty_dev] page));
    [by vm_compute| |done|by vm_compute|by vm_compute].
  intros i d. destruct i as [|[|[|[|i]]]]; simpl; intros [= <-]; first exact (demo_ready 0 demo_dev eq_refl);
    exact (demo_ready 1 empty_dev eq_refl).
Defined.

Lemma scull_read_procmem_race_witness :
  let truncate := λ (_ : nat) s, demo_proc [empty_dev; empty_dev] (pr_seq s) in
  scull_read_procmem 2 (λ _, false) truncate two_devs = Fault OutOfBounds.
Proof.
  apply (scull_read_procmem_race two_devs 1 _ _ demo_dev empty_dev [empty_dev] [empty_dev]); try done; by vm_compute.
Defined.

(** The limit is not looked at in the loop over the quanta: a last item with
    many of them is printed past it (main.c:92 says "Don't print more than
    this"). *)
Example procmem_passes_limit :
  let d := ScullDev [QsetNode 10%positive (Some (DataArr 11%positive (replicate 5 (Some (QuantumBlk 12%positive [None])))))] 1 5 5 0 false in
  let s := demo_proc [d] (SeqFile [] 0 230) in
  ∃ s', scull_read_procmem 1 (λ _, false) (λ _, id) s = Ret (0, s') ∧
        scull_limit s = 150 ∧ sq_count (pr_seq s') = 210.
Proof. eexists. split_and!; vm_compute; reflexivity. Qed.

Definition demo_pipes : proc_st scull_pipe := ProcSt [pipe0; pipe0] ∅ page.
Lemma scull_read_p_mem_prefix_witness :
  wp (scull_read_p_mem 4000 2 (λ _, false)) demo_pipes
    (printed LIMIT (λ _, false) (LBufferSize 4000 :: device_lines pipe_lines 0 [pipe0; pipe0]) demo_pipes).
Proof. apply (scull_read_p_mem_prefix demo_pipes); [by vm_compute|repeat constructor]. Defined.

Definition demo_pdev : scullp_dev :=
  ScullpDev (Some (DataArr 11%positive [Some (QuantumBlk 12%positive (replicate (Z.to_nat PAGE_SIZE) None)); None])) [] 0 0 2 5 false.
Definition demo_pages : proc_st scullp_dev := ProcSt [demo_pdev] {[11%positive; 12%positive]} page.
Lemma demo_pdev_ready j d : pr_devs demo_pages !! j = Some d → pdev_ready demo_pages d.
Proof.
  destruct j as [|j]; simpl; intros [= <-]. split_and!; [|done|simpl; set_solver].
  split; [done|done| |constructor|simpl; repeat constructor; set_solver].
  repeat constructor; simpl; by rewrite ?length_replicate.
Qed.

Lemma scullp_read_procmem_prefix_witness :
  wp (scullp_read_procmem 1 (λ _, false)) demo_pages
    (printed 4016 (λ _, false) (device_lines scullp_lines 0 [demo_pdev]) demo_pages).
Proof. apply (scullp_read_procmem_prefix demo_pages); [by vm_compute|apply demo_pdev_ready]. Defined.
