(* ===== verification/ScullAsync.v ===== *)
(** Asynchronous I/O of the scull drivers
    (src/ldd/scull-shared/scull-async.c): the completion of an asynchronous
    request is put off to a delayed work item, and what becomes of it. *)
From Stdlib Require Import ZArith Lia.
From stdpp Require Import base list gmap.
From S2P Require Import Prelude Kernel.

(** The kernel's control blocks [K] and iterators [I] of an I/O request, and
    the file system's own read and write paths on a file [F]. *)
Class FileIter (F K I : Type) := {
  is_sync_kiocb : K → bool;
  iov_iter_rw_WRITE : I → bool;
  generic_file_read_iter : K → I → F → Z * F;
  generic_file_write_iter : K → I → F → Z * F
}.

Section async.
Context {H F K I : Type} `{KernelHeap H} `{FileIter F K I}.

(** struct async_work; [None] is a member of the fresh block nobody wrote. *)
Record async_work := AsyncWork { aw_iocb : option K; aw_tofrom : option I }.

(** [as_mem] holds the contents of the blocks, [as_queue] the delayed works in
    the order they will run. *)
Record async_st := AsyncSt { as_heap : H; as_mem : gmap loc async_work; as_queue : list loc; as_file : F }.
Abbreviation st := async_st.
Implicit Types s : st.

Definition on_file (io : F → Z * F) : M st Z := λ s,
  let '(r, f) := io (as_file s) in Ret (r, AsyncSt (as_heap s) (as_mem s) (as_queue s) f).
Definition as_kmalloc (n : Z) : M st (option loc) := λ s,
  let '(r, h) := kmalloc n (as_heap s) in
  Ret (r, AsyncSt h (match r with Some l => <[l := AsyncWork None None]> (as_mem s) | None => as_mem s end) (as_queue s) (as_file s)).
Definition as_kfree (l : loc) : M st unit := λ s,
  if decide (l ∈ live (as_heap s)) then Ret (tt, AsyncSt (kfree l (as_heap s)) (delete l (as_mem s)) (as_queue s) (as_file s))
  else Fault BadFree.
Definition as_load (l : loc) : M st async_work := λ s,
  match as_mem s !! l with Some w => Ret (w, s) | None => Fault OutOfBounds end.
Definition as_store (l : loc) (w : async_work) : M st unit :=
  mmodify (λ s, AsyncSt (as_heap s) (<[l := w]> (as_mem s)) (as_queue s) (as_file s)).
Definition schedule_delayed_work (l : loc) : M st unit :=
  mmodify (λ s, AsyncSt (as_heap s) (as_mem s) (as_queue s ++ [l]) (as_file s)).
(** The value of a member, read as a pointer. *)
Definition set_ptr {A} (p : option A) : M st A := match p with Some a => mret a | None => mfault ErrPtr end.

Definition sizeof_async_work := 104.

Definition scull_do_deferred_op (stuff : loc) : M st unit :=
  w ← as_load stuff;
  tofrom ← set_ptr (aw_tofrom w);
  iocb ← set_ptr (aw_iocb w);
  (if iov_iter_rw_WRITE tofrom then on_file (generic_file_write_iter iocb tofrom)
   else on_file (generic_file_read_iter iocb tofrom)) ≫= λ _,
  as_kfree stuff.

(** [result] is what the local variable of that name holds, which the code
    never writes. *)
Definition scull_defer_op (result : Z) (iocb : K) (tofrom : I) : M st Z :=
  p ← as_kmalloc sizeof_async_work;
  match p with
  | None => mret result
  | Some stuff =>
      w ← as_load stuff;
      as_store stuff (AsyncWork (Some iocb) (aw_tofrom w)) ≫= λ _,
      schedule_delayed_work stuff ≫= λ _,
      mret (- EIOCBQUEUED)
  end.

Definition scull_read_iter (result : Z) (iocb : K) (to : I) : M st Z :=
  if is_sync_kiocb iocb then on_file (generic_file_read_iter iocb to) else scull_defer_op result iocb to.
Definition scull_write_iter (result : Z) (iocb : K) (from : I) : M st Z :=
  if is_sync_kiocb iocb then on_file (generic_file_write_iter iocb from) else scull_defer_op result iocb from.

(** The kernel's worker: the delayed works whose time has come, in order. *)
Fixpoint run_works (n : nat) : M st unit :=
  match n with
  | O => mret tt
  | S n' =>
      s ← mget;
      match as_queue s with
      | [] => mret tt
      | l :: r => mput (AsyncSt (as_heap s) (as_mem s) r (as_file s)) ≫= λ _, scull_do_deferred_op l ≫= λ _, run_works n'
      end
  end.

(** ** Theorems *)

(** Work that has both members set does the request and frees its block. *)
Lemma deferred_op_complete s l iocb tofrom : as_mem s !! l = Some (AsyncWork (Some iocb) (Some tofrom)) → l ∈ live (as_heap s) →
  wp (scull_do_deferred_op l) s (λ _ s',
    as_file s' = (if iov_iter_rw_WRITE tofrom then generic_file_write_iter iocb tofrom (as_file s)
                  else generic_file_read_iter iocb tofrom (as_file s)).2 ∧
    live (as_heap s') = live (as_heap s) ∖ {[l]}).
Proof.
  intros E Hl. unfold scull_do_deferred_op, as_load, wp, mbind, M_bind. rewrite E. simpl.
  destruct (iov_iter_rw_WRITE tofrom); unfold on_file; [destruct (generic_file_write_iter _ _ _) as [r f]|
    destruct (generic_file_read_iter _ _ _) as [r f]]; unfold as_kfree; simpl; rewrite decide_True by done;
    simpl; by rewrite kfree_law.
Qed.

Lemma defer_op_queues result iocb tofrom s l h : kmalloc sizeof_async_work (as_heap s) = (Some l, h) →
  scull_defer_op result iocb tofrom s =
    Ret (- EIOCBQUEUED, AsyncSt h (<[l := AsyncWork (Some iocb) None]> (as_mem s)) (as_queue s ++ [l]) (as_file s)).
Proof.
  intros E. unfold scull_defer_op, as_kmalloc, as_load, as_store, schedule_delayed_work, mmodify, mbind, M_bind.
  rewrite E. simpl. rewrite lookup_insert_eq. simpl. by rewrite insert_insert_eq.
Qed.

(** An asynchronous read or write of a scull file is accepted with
    -EIOCBQUEUED when there is memory, without doing any of it; when the
    delayed work runs, it follows the iterator that scull_defer_op never stored
    in it.  The synchronous path is the file system's own. *)
Theorem scull_async_iter_faults result iocb tofrom s :
  (is_sync_kiocb iocb = true →
     scull_read_iter result iocb tofrom s = on_file (generic_file_read_iter iocb tofrom) s ∧
     scull_write_iter result iocb tofrom s = on_file (generic_file_write_iter iocb tofrom) s) ∧
  (is_sync_kiocb iocb = false → ∀ op, op = scull_read_iter ∨ op = scull_write_iter →
     match kmalloc sizeof_async_work (as_heap s) with
     | (None, h) => ∃ s', op result iocb tofrom s = Ret (result, s') ∧ live (as_heap s') = live (as_heap s) ∧ as_queue s' = as_queue s
     | (Some l, h) => ∃ s', op result iocb tofrom s = Ret (- EIOCBQUEUED, s') ∧
         as_file s' = as_file s ∧ as_queue s' = as_queue s ++ [l] ∧ scull_do_deferred_op l s' = Fault ErrPtr
     end).
Proof.
  split; [by intros Es; unfold scull_read_iter, scull_write_iter; rewrite Es|].
  intros Es op Hop. replace (op result iocb tofrom s) with (scull_defer_op result iocb tofrom s) by
    (destruct Hop as [-> | ->]; unfold scull_read_iter, scull_write_iter; by rewrite Es).
  destruct (kmalloc _ _) as [[l|] h] eqn:E.
  - rewrite (defer_op_queues _ _ _ _ _ _ E). eexists. split_and!; [done..|].
    unfold scull_do_deferred_op, as_load, mbind, M_bind. simpl. by rewrite lookup_insert_eq.
  - unfold scull_defer_op, as_kmalloc, mbind, M_bind. rewrite E. eexists. split_and!; [done| |done].
    by apply kmalloc_none_law in E.
Qed.

(** A request that was queued stops the kernel's worker: whatever works
    were queued before it completed, the worker never gets past it. *)
Theorem async_request_stops_worker result iocb tofrom s l h : is_sync_kiocb iocb = false → as_queue s = [] →
  kmalloc sizeof_async_work (as_heap s) = (Some l, h) →
  ∃ s', scull_write_iter result iocb tofrom s = Ret (- EIOCBQUEUED, s') ∧ ∀ n, run_works (S n) s' = Fault ErrPtr.
Proof.
  intros Es Eq E. unfold scull_write_iter. rewrite Es, (defer_op_queues _ _ _ _ _ _ E), Eq. eexists. split; [done|].
  intros n. unfold run_works, mget, mput, scull_do_deferred_op, as_load, mbind, M_bind. simpl. by rewrite lookup_insert_eq.
Qed.
End async.
Arguments async_st : clear implicits.

(** ** Runs

    A file of bytes; a request is synchronous or not, and reads or appends. *)
#[local] Instance demo_iter : FileIter (list Z) bool (bool * Z) := {|
  is_sync_kiocb := id;
  iov_iter_rw_WRITE := fst;
  generic_file_read_iter := λ _ i f, (i.2, drop (Z.to_nat i.2) f);
  generic_file_write_iter := λ _ i f, (1, f ++ [i.2])
|}.
Definition demo_async (oom : list bool) : async_st bump (list Z) bool (bool * Z) := AsyncSt (Bump ∅ 1%positive oom) ∅ [] [7].

Lemma async_request_stops_worker_witness :
  ∃ s', scull_write_iter 42 false (true, 8) (demo_async []) = Ret (- EIOCBQUEUED, s') ∧ ∀ n, run_works (S n) s' = Fault ErrPtr.
Proof. by eapply (async_request_stops_worker 42 false (true, 8) (demo_async [])). Defined.

(** Without memory the caller is told whatever the stack held, here that 42
    bytes were written. *)
Example async_no_memory :
  ∃ s', scull_write_iter 42 false (true, 8) (demo_async [true]) = Ret (42, s') ∧ as_file s' = [7].
Proof. eexists. by split. Qed.
Example sync_writes : ∃ s', scull_write_iter 42 true (true, 8) (demo_async []) = Ret (1, s') ∧ as_file s' = [7; 8].
Proof. eexists. by split. Qed.
