(* ===== verification/DList.v ===== *)
(** The doubly linked list of src/m_modules/ds/list.h, the program linked.c
    that uses it, and the interface of such lists for the modules that use the
    kernel's own linux/list.h.

    The store maps a node to its two pointers; NULL is [None].  The abstract
    value of a list is the sequence of its nodes after the head, [is_list]. *)
From Stdlib Require Import ZArith Lia.
From stdpp Require Import base list gmap.
From S2P Require Import Prelude Kernel.

(** ** struct list_head and its operations *)

Record list_head := ListHead { next : option loc; prev : option loc }.
Abbreviation nodes := (gmap loc list_head).

(** A pointer dereferenced. *)
Definition deref {S A} (get : S → gmap loc A) (p : option loc) : M S (loc * A) := λ s,
  match p with
  | None => Fault NullDeref
  | Some l => match get s !! l with Some x => Ret ((l, x), s) | None => Fault OutOfBounds end
  end.

(** [p->next = v], [p->prev = v]. *)
Definition set_next (p v : option loc) : M nodes unit :=
  '(l, x) ← deref id p; mmodify (<[l := ListHead v (prev x)]>).
Definition set_prev (p v : option loc) : M nodes unit :=
  '(l, x) ← deref id p; mmodify (<[l := ListHead (next x) v]>).

Definition __list_add (new prev next : option loc) : M nodes unit :=
  set_prev next new ≫= λ _,
  set_next new next ≫= λ _,
  set_prev new prev ≫= λ _,
  set_next prev new.

Definition list_add (new head : loc) : M nodes unit :=
  '(_, h) ← deref id (Some head);
  __list_add (Some new) (Some head) (next h).

Definition __list_del (prev next : option loc) : M nodes unit :=
  set_prev next prev ≫= λ _,
  set_next prev next.

Definition list_del (entry : loc) : M nodes unit :=
  '(_, e) ← deref id (Some entry);
  __list_del (prev e) (next e) ≫= λ _,
  set_next (Some entry) None ≫= λ _,
  set_prev (Some entry) None.

(** for_each_item: from the last item backwards; [fuel] bounds the number of
    items visited, [None] is a walk that is still going on. *)
Fixpoint for_each_from (fuel : nat) (head : loc) (p : option loc) : M nodes (option (list loc)) :=
  match fuel with
  | O => mret None
  | S fuel' =>
      if bool_decide (p = Some head) then mret (Some []) else
      '(l, x) ← deref id p;
      r ← for_each_from fuel' head (prev x);
      mret (cons l <$> r)
  end.
Definition for_each_item (fuel : nat) (head : loc) : M nodes (option (list loc)) :=
  '(_, h) ← deref id (Some head);
  for_each_from fuel head (prev h).

(** ** The abstract value *)

Definition nxt (m : nodes) (a : loc) : option loc := m !! a ≫= next.
Definition prv (m : nodes) (a : loc) : option loc := m !! a ≫= prev.

(** [b] follows [a]. *)
Definition link (m : nodes) (a b : loc) : Prop := nxt m a = Some b ∧ prv m b = Some a.

Fixpoint chain (m : nodes) (a : loc) (xs : list loc) (b : loc) : Prop :=
  match xs with
  | [] => link m a b
  | x :: r => link m a x ∧ chain m x r b
  end.

Definition is_list (m : nodes) (h : loc) (xs : list loc) : Prop :=
  chain m h xs h ∧ NoDup (h :: xs).

Lemma chain_app m a xs y ys b : chain m a (xs ++ y :: ys) b ↔ chain m a xs y ∧ chain m y ys b.
Proof. revert a. induction xs as [|x xs IH]; intros a; simpl; [done|]. rewrite IH. tauto. Qed.

Lemma nxt_in m a b : nxt m a = Some b → is_Some (m !! a).
Proof. unfold nxt. destruct (m !! a); [eauto|done]. Qed.
Lemma prv_in m a b : prv m a = Some b → is_Some (m !! a).
Proof. unfold prv. destruct (m !! a); [eauto|done]. Qed.

(** Writing a pointer of one node. *)
Lemma deref_wp {S A} (get : S → gmap loc A) (s : S) l x (Q : loc * A → S → Prop) :
  get s !! l = Some x → Q (l, x) s → wp (deref get (Some l)) s Q.
Proof. intros E HQ. unfold wp, deref. by rewrite E. Qed.

(** [m'] is [m] with the next, or the previous, pointer of [l] set to [v]. *)
Definition upd_next (l : loc) (v : option loc) (m m' : nodes) : Prop :=
  (∀ a, nxt m' a = if decide (a = l) then v else nxt m a) ∧ (∀ a, prv m' a = prv m a) ∧
  (∀ a, a ≠ l → m' !! a = m !! a) ∧ is_Some (m' !! l).
Definition upd_prev (l : loc) (v : option loc) (m m' : nodes) : Prop :=
  (∀ a, prv m' a = if decide (a = l) then v else prv m a) ∧ (∀ a, nxt m' a = nxt m a) ∧
  (∀ a, a ≠ l → m' !! a = m !! a) ∧ is_Some (m' !! l).

Lemma set_next_wp (m : nodes) l v : is_Some (m !! l) →
  wp (set_next (Some l) v) m (λ _ m', upd_next l v m m').
Proof.
  intros [x E]. unfold set_next. wp_step. apply (deref_wp id m l x); [done|]. wp_step.
  unfold upd_next, nxt, prv. split_and!.
  - intros a. case_decide as Ha; [subst; by rewrite lookup_insert_eq|by rewrite lookup_insert_ne].
  - intros a. destruct (decide (a = l)) as [->|Ha]; [by rewrite lookup_insert_eq, E|by rewrite lookup_insert_ne].
  - intros a Ha. by rewrite lookup_insert_ne.
  - rewrite lookup_insert_eq. by eexists.
Qed.
Lemma set_prev_wp (m : nodes) l v : is_Some (m !! l) →
  wp (set_prev (Some l) v) m (λ _ m', upd_prev l v m m').
Proof.
  intros [x E]. unfold set_prev. wp_step. apply (deref_wp id m l x); [done|]. wp_step.
  unfold upd_prev, nxt, prv. split_and!.
  - intros a. case_decide as Ha; [subst; by rewrite lookup_insert_eq|by rewrite lookup_insert_ne].
  - intros a. destruct (decide (a = l)) as [->|Ha]; [by rewrite lookup_insert_eq, E|by rewrite lookup_insert_ne].
  - intros a Ha. by rewrite lookup_insert_ne.
  - rewrite lookup_insert_eq. by eexists.
Qed.

Lemma nxt_prv_eq (m m' : nodes) a : m' !! a = m !! a → nxt m' a = nxt m a ∧ prv m' a = prv m a.
Proof. unfold nxt, prv. by intros ->. Qed.

(** A chain only depends on the pointers between its nodes. *)
Lemma chain_ext m m' a xs b :
  (∀ c, c ∈ a :: xs → nxt m' c = nxt m c) → (∀ c, c ∈ xs ++ [b] → prv m' c = prv m c) →
  chain m a xs b → chain m' a xs b.
Proof.
  revert a. induction xs as [|x xs IH]; intros a Hn Hp; simpl; unfold link.
  - intros [? ?]. rewrite Hn, Hp by set_solver. done.
  - intros [[? ?] Hc]. rewrite Hn, Hp by set_solver. split; [done|].
    apply IH; [| |done]; intros c Hc'; [apply Hn|apply Hp]; set_solver.
Qed.

Lemma chain_next m a xs b : chain m a xs b → nxt m a = Some (default b (head xs)).
Proof. destruct xs; simpl; unfold link; tauto. Qed.
Lemma chain_prev m a xs b : chain m a xs b → prv m b = Some (default a (last xs)).
Proof.
  destruct xs as [|y xs _] using rev_ind; simpl; [unfold link; tauto|].
  rewrite chain_app, last_snoc. simpl. unfold link. tauto.
Qed.
Lemma chain_in m a xs b c : chain m a xs b → c ∈ a :: xs ++ [b] → is_Some (m !! c).
Proof.
  revert a. induction xs as [|x xs IH]; intros a Hc Hin; simpl in *.
  - destruct Hc as [H1 H2]. apply elem_of_cons in Hin as [->|Hin]; [by eapply nxt_in|].
    apply list_elem_of_singleton in Hin as ->. by eapply prv_in.
  - destruct Hc as [[H1 H2] Hc]. apply elem_of_cons in Hin as [->|Hin]; [by eapply nxt_in|]. eauto.
Qed.
Lemma is_list_in m h xs c : is_list m h xs → c ∈ h :: xs → is_Some (m !! c).
Proof. intros [Hc _] Hin. eapply chain_in; [done|]. set_solver. Qed.

(** ** The operations refine those of sequences *)

(** Two nodes of a pair that follow one another get [new] between them. *)
Lemma list_add_between_wp (m : nodes) new p n : link m p n → new ≠ p → new ≠ n → is_Some (m !! new) →
  wp (__list_add (Some new) (Some p) (Some n)) m (λ _ m',
    (∀ a, nxt m' a = if decide (a = p) then Some new else if decide (a = new) then Some n else nxt m a) ∧
    (∀ a, prv m' a = if decide (a = new) then Some p else if decide (a = n) then Some new else prv m a) ∧
    ∀ a, a ≠ p → a ≠ n → a ≠ new → m' !! a = m !! a).
Proof.
  intros [L1 L2] N1 N2 Hin. unfold __list_add. wp_step.
  assert (some_eq : ∀ (m m' : nodes) a, m' !! a = m !! a → is_Some (m !! a) → is_Some (m' !! a))
    by (intros ??? ->; done).
  eapply wp_mono; [|apply set_prev_wp; by eapply prv_in]. intros _ m1 (A1 & A2 & A3 & A4).
  wp_step. eapply wp_mono; [|apply set_next_wp; by eapply some_eq; [apply A3|]].
  intros _ m2 (B1 & B2 & B3 & B4). wp_step.
  assert (S2 : is_Some (m2 !! new)).
  { eapply nxt_in. rewrite B1. by rewrite decide_True. }
  eapply wp_mono; [|by apply set_prev_wp]. intros _ m3 (C1 & C2 & C3 & C4).
  assert (S3 : is_Some (m3 !! p)).
  { eapply some_eq; [by apply C3|]. eapply some_eq; [by apply B3|]. eapply nxt_in. by rewrite A2. }
  eapply wp_mono; [|by apply set_next_wp]. intros _ m4 (D1 & D2 & D3 & D4). split_and!.
  - intros a. rewrite D1, C2, B1, A2. done.
  - intros a. rewrite D2, C1, B2, A1. done.
  - intros a Ha Hb Hc. by rewrite D3, C3, B3, A3.
Qed.

(** What list_add does to a list and leaves of the store. *)
Lemma list_add_wp (m : nodes) h xs new : is_list m h xs → new ∉ h :: xs → is_Some (m !! new) →
  wp (list_add new h) m (λ _ m', is_list m' h (new :: xs) ∧
    ∀ a, a ∉ h :: new :: xs → m' !! a = m !! a).
Proof.
  intros Hl Hn Hin. pose proof Hl as [Hc Hd]. apply not_elem_of_cons in Hn as [Nh Nx].
  destruct (is_list_in m h xs h Hl) as [x E]; [by constructor|].
  unfold list_add. wp_step. apply (deref_wp id m h x); [done|].
  pose proof (chain_next _ _ _ _ Hc) as Hnx. unfold nxt in Hnx. rewrite E in Hnx. simpl in Hnx.
  rewrite Hnx. set (n := default h (head xs)) in *.
  assert (Ln : link m h n) by (destruct xs; [exact Hc|apply Hc]).
  assert (Nn : new ≠ n). { subst n. destruct xs; simpl; [done|]. set_solver. }
  eapply wp_mono; [|by apply list_add_between_wp]. intros _ m' (A & B & C). split; [split|].
  - split; [split|].
    + rewrite A. by rewrite decide_True.
    + rewrite B. by rewrite decide_True.
    + assert (Lnn : link m' new n).
      { split; [rewrite A, decide_False, decide_True by done; done|].
        rewrite B, decide_False, decide_True by done. done. }
      destruct xs as [|y ys]; [exact Lnn|]. split; [exact Lnn|]. destruct Hc as [_ Hc].
      apply NoDup_cons in Hd as [Hh Hd]. apply NoDup_cons in Hd as [Hy _].
      apply (chain_ext m); [..|exact Hc].
      * intros c Hc'. rewrite A, !decide_False by set_solver. done.
      * intros c [Hc'| ->%list_elem_of_singleton]%elem_of_app; rewrite B.
        -- rewrite !decide_False; [done| |set_solver]. subst n. simpl. set_solver.
        -- rewrite !decide_False; [done| |done]. subst n. simpl. set_solver.
  - apply NoDup_cons in Hd as [Hh Hd]. repeat constructor; set_solver.
  - intros a Ha. apply C; [set_solver| |set_solver]. subst n. destruct xs; set_solver.
Qed.

Lemma last_cons_default (x a : loc) r : default a (last (x :: r)) = default x (last r).
Proof. by rewrite last_cons; destruct (last r). Qed.

(** The end of a chain moved to another node. *)
Lemma chain_retarget m m' a xs x n : chain m a xs x → NoDup (a :: xs) →
  (∀ c, c ∈ a :: xs → c ≠ default a (last xs) → nxt m' c = nxt m c) →
  nxt m' (default a (last xs)) = Some n → (∀ c, c ∈ xs → prv m' c = prv m c) →
  prv m' n = Some (default a (last xs)) → chain m' a xs n.
Proof.
  revert a. induction xs as [|y xs IH]; intros a Hc Hd Hn H1 Hp H2; [by split|].
  rewrite last_cons_default in *. destruct Hc as [[L1 L2] Hc].
  apply NoDup_cons in Hd as [Ha Hd]. split; [split|].
  - rewrite Hn; [done|set_solver|]. intros E. apply Ha. rewrite E.
    destruct (last xs) as [z|] eqn:El; simpl; [|set_solver].
    apply last_Some_elem_of in El. set_solver.
  - rewrite Hp; [done|set_solver].
  - apply IH; [done|done| |done| |done]; intros c Hc'; [apply Hn|apply Hp]; set_solver.
Qed.

(** Unlinking what lies between two nodes. *)
Lemma list_del_between_wp (m : nodes) p n : is_Some (m !! p) → is_Some (m !! n) →
  wp (__list_del (Some p) (Some n)) m (λ _ m',
    (∀ a, nxt m' a = if decide (a = p) then Some n else nxt m a) ∧
    (∀ a, prv m' a = if decide (a = n) then Some p else prv m a) ∧
    ∀ a, a ≠ p → a ≠ n → m' !! a = m !! a).
Proof.
  intros Hp Hn. unfold __list_del. wp_step.
  eapply wp_mono; [|by apply set_prev_wp]. intros _ m1 (A1 & A2 & A3 & A4).
  assert (S1 : is_Some (m1 !! p)).
  { destruct (decide (p = n)) as [->|N]; [|by rewrite A3]. eapply prv_in. by rewrite A1, decide_True. }
  eapply wp_mono; [|by apply set_next_wp]. intros _ m2 (B1 & B2 & B3 & B4). split_and!.
  - intros a. by rewrite B1, A2.
  - intros a. by rewrite B2, A1.
  - intros a Ha Hb. by rewrite B3, A3.
Qed.

Lemma elem_of_default_last (a : loc) xs : default a (last xs) ∈ a :: xs.
Proof.
  destruct (last xs) as [z|] eqn:E; simpl; [|by constructor].
  apply last_Some_elem_of in E. by constructor.
Qed.
Lemma elem_of_default_head (b : loc) ys : default b (head ys) ∈ ys ++ [b].
Proof. destruct ys; set_solver. Qed.

Lemma chain_delete m m' h xs x ys : is_list m h (xs ++ x :: ys) →
  let p := default h (last xs) in let n := default h (head ys) in
  (∀ a, a ≠ x → nxt m' a = if decide (a = p) then Some n else nxt m a) →
  (∀ a, a ≠ x → prv m' a = if decide (a = n) then Some p else prv m a) →
  is_list m' h (xs ++ ys).
Proof.
  intros [Hc Hd] p n A B. apply chain_app in Hc as [Hx Hy].
  pose proof (elem_of_default_last h xs) as Hp.
  rewrite app_comm_cons in Hd. pose proof Hd as Hd'.
  apply NoDup_app in Hd' as (Dx & Dxy & Dy). apply NoDup_cons in Dy as [Nx Dy].
  assert (Hxs : x ∉ h :: xs) by (intros Hi; apply (Dxy x Hi); by constructor).
  assert (Hys : ∀ c, c ∈ h :: xs → c ∉ ys) by (intros c Hi Hj; apply (Dxy c Hi); by constructor).
  assert (Hh : h ∉ xs) by (by apply NoDup_cons in Dx as [? _]).
  assert (Hn : ∀ c, c ∈ xs → c ≠ n).
  { intros c Hi E. pose proof (elem_of_default_head h ys) as Hj. fold n in Hj. rewrite <- E in Hj.
    apply elem_of_app in Hj as [?|Eh%list_elem_of_singleton]; [|by rewrite Eh in Hi].
    apply (Hys c); [by apply list_elem_of_further|done]. }
  assert (Hpx : p ≠ x) by (intros E; apply Hxs; by rewrite <- E).
  assert (Hnx : n ≠ x).
  { intros E. pose proof (elem_of_default_head h ys) as Hj. fold n in Hj. rewrite E in Hj.
    apply elem_of_app in Hj as [?| ->%list_elem_of_singleton]; [done|]. apply Hxs. by constructor. }
  assert (Hch : chain m' h xs n).
  { apply (chain_retarget m m' h xs x); [done|done|..]; fold p.
    - intros c Hi Hne. rewrite A, decide_False; [done|done|by intros ->].
    - by rewrite A, decide_True.
    - intros c Hi. rewrite B, decide_False; [done|by apply Hn|]. intros ->. apply Hxs. by constructor.
    - by rewrite B, decide_True. }
  split.
  - destruct ys as [|z zs]; [by rewrite app_nil_r|]. apply chain_app. split; [exact Hch|].
    destruct Hy as [_ Hy]. subst n. simpl in *.
    assert (Hz : z ∉ zs) by (by apply NoDup_cons in Dy as [? _]).
    apply (chain_ext m); [..|exact Hy].
    + intros c Hi. rewrite A, decide_False; [done| |by intros ->].
      intros ->. by apply (Hys p Hp).
    + intros c [Hi| ->%list_elem_of_singleton]%elem_of_app.
      * rewrite B, decide_False; [done|by intros ->|]. intros ->. apply Nx. by constructor.
      * rewrite B, decide_False; [done| |].
        -- intros ->. apply (Hys z); by constructor.
        -- intros ->. apply Hxs. by constructor.
  - rewrite app_comm_cons. apply NoDup_app. split_and!; [done|done|done].
Qed.

Lemma list_del_wp (m : nodes) h xs x ys : is_list m h (xs ++ x :: ys) →
  wp (list_del x) m (λ _ m', is_list m' h (xs ++ ys) ∧ m' !! x = Some (ListHead None None) ∧
    ∀ a, a ∉ h :: xs ++ x :: ys → m' !! a = m !! a).
Proof.
  intros Hl. pose proof Hl as [Hc Hd]. apply chain_app in Hc as [Hx Hy].
  set (p := default h (last xs)). set (n := default h (head ys)).
  pose proof (chain_prev _ _ _ _ Hx) as Ep. pose proof (chain_next _ _ _ _ Hy) as En.
  fold p in Ep. fold n in En. unfold prv, nxt in Ep, En.
  destruct (m !! x) as [e|] eqn:Ee; [|done]. simpl in Ep, En.
  pose proof (elem_of_default_last h xs) as Hp. pose proof (elem_of_default_head h ys) as Hn.
  fold p in Hp. fold n in Hn.
  assert (Hpin : p ∈ h :: xs ++ x :: ys) by set_solver.
  assert (Hnin : n ∈ h :: xs ++ x :: ys) by set_solver.
  assert (Nx : p ≠ x ∧ n ≠ x).
  { rewrite app_comm_cons in Hd. apply NoDup_app in Hd as (_ & D1 & D2). apply NoDup_cons in D2 as [D2 _].
    specialize (D1 x). split; intros E; rewrite E in *; set_solver. }
  destruct Nx as [Np Nn].
  unfold list_del. wp_step. apply (deref_wp id m x e); [done|]. wp_step. rewrite Ep, En.
  eapply wp_mono; [|apply list_del_between_wp; by eapply is_list_in].
  intros _ m1 (A & B & C). wp_step.
  eapply wp_mono; [|apply set_next_wp; rewrite C by done; by eexists].
  intros _ m2 (A2 & B2 & C2 & D2). eapply wp_mono; [|apply set_prev_wp].
  2: { eapply prv_in. rewrite B2, B. rewrite decide_False by done. unfold prv. by rewrite Ee. }
  intros _ m3 (A3 & B3 & C3 & D3). split_and!.
  - apply (chain_delete m m3 h xs x ys Hl); fold p n; intros a Ha.
    + by rewrite B3, A2, decide_False, A.
    + by rewrite A3, decide_False, B2, B.
  - assert (E1 : nxt m3 x = None) by (by rewrite B3, A2, decide_True).
    assert (E2 : prv m3 x = None) by (by rewrite A3, decide_True).
    unfold nxt, prv in *. destruct D3 as [y Ey]. rewrite Ey in *. simpl in *. destruct y; simpl in *. by subst.
  - intros a Ha. rewrite C3, C2, C; set_solver.
Qed.

(** The walk of for_each_item visits the items from the last to the first. *)
Lemma for_each_from_wp (m : nodes) h xs x fuel : chain m h xs x → NoDup (h :: xs) →
  (length xs < fuel)%nat → wp (for_each_from fuel h (prv m x)) m (λ r m', r = Some (reverse xs) ∧ m' = m).
Proof.
  revert x fuel. induction xs as [|y xs IH] using rev_ind; intros x [|fuel] Hc Hd Hf; try (simpl in Hf; lia).
  - destruct Hc as [_ Hp]. rewrite Hp. simpl. rewrite bool_decide_eq_true_2 by done. by wp_step.
  - apply chain_app in Hc as [Hc [Hn Hp]]. rewrite Hp. cbn [for_each_from].
    rewrite app_comm_cons in Hd. apply NoDup_app in Hd as (Hd & Hdis & _).
    rewrite bool_decide_eq_false_2.
    2: { intros [= ->]. apply (Hdis h); by constructor. }
    destruct (nxt_in _ _ _ Hn) as [e Ee]. wp_step. apply (deref_wp id m y e); [done|]. wp_step.
    replace (prev e) with (prv m y) by (unfold prv; by rewrite Ee).
    eapply wp_mono; [|apply IH; [done|done|]].
    + intros r m' [-> ->]. wp_step. by rewrite reverse_snoc.
    + rewrite length_app in Hf. simpl in Hf. lia.
Qed.

Lemma for_each_item_wp (m : nodes) h xs fuel : is_list m h xs → (length xs < fuel)%nat →
  wp (for_each_item fuel h) m (λ r m', r = Some (reverse xs) ∧ m' = m).
Proof.
  intros [Hc Hd] Hf. destruct (chain_in _ _ _ _ h Hc) as [e Ee]; [by constructor|].
  unfold for_each_item. wp_step. apply (deref_wp id m h e); [done|].
  replace (prev e) with (prv m h) by (unfold prv; by rewrite Ee). by apply for_each_from_wp.
Qed.

(** C26: list_add, list_del and for_each_item on well-formed lists:
    list_add puts a new node first, list_del takes any node out and clears
    its pointers, the walk visits the list backwards and needs one step more
    than there are items, and nothing else in the store changes. *)
Theorem list_h_refines (m : nodes) h xs : is_list m h xs →
  (∀ new, new ∉ h :: xs → is_Some (m !! new) →
    ∃ m', list_add new h m = Ret (tt, m') ∧ is_list m' h (new :: xs) ∧
      ∀ a, a ∉ h :: new :: xs → m' !! a = m !! a) ∧
  (∀ ys x zs, xs = ys ++ x :: zs →
    ∃ m', list_del x m = Ret (tt, m') ∧ is_list m' h (ys ++ zs) ∧
      m' !! x = Some (ListHead None None) ∧ ∀ a, a ∉ h :: xs → m' !! a = m !! a) ∧
  ∀ fuel, (length xs < fuel)%nat → for_each_item fuel h m = Ret (Some (reverse xs), m).
Proof.
  intros Hl. split_and!.
  - intros new Hn Hi. destruct (wp_elim _ _ _ (list_add_wp m h xs new Hl Hn Hi)) as ([] & m' & ? & ? & ?). eauto.
  - intros ys x zs ->. destruct (wp_elim _ _ _ (list_del_wp m h ys x zs Hl)) as ([] & m' & ? & ? & ? & ?). eauto 10.
  - intros fuel Hf. destruct (wp_elim _ _ _ (for_each_item_wp m h xs fuel Hl Hf)) as (r & m' & ? & -> & ->). done.
Qed.

Definition demo_nodes : nodes :=
  {[ 1%positive := ListHead (Some 3%positive) (Some 2%positive);
     3%positive := ListHead (Some 2%positive) (Some 1%positive);
     2%positive := ListHead (Some 1%positive) (Some 3%positive);
     4%positive := ListHead None None ]}.

Lemma demo_nodes_list : is_list demo_nodes 1 [3; 2]%positive.
Proof. split; [repeat split|]. apply (bool_decide_unpack _). by vm_compute. Qed.

Lemma list_h_refines_witness :
  (∃ m', list_add 4 1 demo_nodes = Ret (tt, m') ∧ is_list m' 1 [4; 3; 2]%positive) ∧
  (∃ m', list_del 3 demo_nodes = Ret (tt, m') ∧ is_list m' 1 [2]%positive) ∧
  for_each_item 3 1 demo_nodes = Ret (Some [2; 3]%positive, demo_nodes).
Proof.
  destruct (list_h_refines demo_nodes 1 [3; 2]%positive demo_nodes_list) as (A & B & C). split_and!.
  - destruct (A 4%positive) as (m' & E & L & _); [|by eexists|by exists m'].
    apply (bool_decide_unpack _). by vm_compute.
  - destruct (B [] 3%positive [2%positive] eq_refl) as (m' & E & L & _). by exists m'.
  - apply (C 3%nat). simpl. lia.
Defined.
