(* ===== verification/ListMods.v ===== *)
(** The users of linked lists: the program src/m_modules/ds/linked.c on ds/list.h,
    and the modules ds/list.c and proc/list_proc.c on the kernel's linux/list.h.

    linux/list.h is not in the repository: the modules are written against the
    class [KList] of such lists, which ds/list.h implements ([dlist_klist]). *)
From Stdlib Require Import ZArith Lia.
From stdpp Require Import base list gmap.
From S2P Require Import Prelude Kernel DList.

(** ** linux/list.h *)

(** [kl_rep s h xs]: the list headed by [h] holds the nodes [xs]; [kl_next s h
    x] is the node after [x], [None] at the end. *)
Class KList (S : Type) := {
  kl_rep : S → loc → list loc → Prop;
  kl_node : S → loc → Prop;                 (* memory for a node *)
  kl_init : loc → M S unit;                 (* INIT_LIST_HEAD *)
  kl_add : loc → loc → M S unit;
  kl_add_tail : loc → loc → M S unit;
  kl_del : loc → M S unit;
  kl_del_init : loc → M S unit;
  kl_next : S → loc → loc → option loc;
  kl_free : loc → S → S;                    (* the node's memory is gone *)
  kl_rep_nodup : ∀ s h xs, kl_rep s h xs → NoDup (h :: xs);
  kl_init_law : ∀ s l, wp (kl_init l) s (λ _ s', kl_rep s' l [] ∧ kl_node s' l ∧
    (∀ x, kl_node s x → kl_node s' x) ∧ ∀ h xs, kl_rep s h xs → l ∉ h :: xs → kl_rep s' h xs);
  kl_add_law : ∀ s h xs new, kl_rep s h xs → new ∉ h :: xs → kl_node s new →
    wp (kl_add new h) s (λ _ s', kl_rep s' h (new :: xs) ∧ ∀ x, kl_node s x → kl_node s' x);
  kl_add_tail_law : ∀ s h xs new, kl_rep s h xs → new ∉ h :: xs → kl_node s new →
    wp (kl_add_tail new h) s (λ _ s', kl_rep s' h (xs ++ [new]) ∧ ∀ x, kl_node s x → kl_node s' x);
  kl_del_law : ∀ s h xs x ys, kl_rep s h (xs ++ x :: ys) →
    wp (kl_del x) s (λ _ s', kl_rep s' h (xs ++ ys) ∧ ∀ y, kl_node s y → kl_node s' y);
  kl_del_init_law : ∀ s h xs, kl_rep s h xs → wp (kl_del_init h) s (λ _ s', kl_rep s' h []);
  kl_next_law : ∀ s h xs i x, kl_rep s h xs → (h :: xs) !! i = Some x →
    kl_next s h x = xs !! i;
  kl_free_law : ∀ s h xs x, kl_rep s h xs → x ∉ h :: xs → kl_rep (kl_free x s) h xs
}.

(** list_for_each: the nodes after [p]; [fuel] bounds their number. *)
Fixpoint kl_from {S} `{KList S} (fuel : nat) (s : S) (h p : loc) : option (list loc) :=
  match fuel with
  | O => None
  | Datatypes.S fuel' =>
      match kl_next s h p with
      | None => Some []
      | Some x => cons x <$> kl_from fuel' s h x
      end
  end.

Lemma kl_from_rep {S} `{KList S} s h xs i p fuel : kl_rep s h xs → (h :: xs) !! i = Some p →
  (length xs - i < fuel)%nat → kl_from fuel s h p = Some (drop i xs).
Proof.
  intros Hr. revert i p. induction fuel as [|fuel IH]; intros i p Hp Hf; [lia|].
  cbn [kl_from]. rewrite (kl_next_law _ _ _ _ _ Hr Hp).
  destruct (xs !! i) as [x|] eqn:Ex.
  - rewrite (IH (Datatypes.S i) x); [|done|apply lookup_lt_Some in Ex; lia].
    simpl. by rewrite (drop_S xs x i).
  - apply lookup_ge_None in Ex. by rewrite drop_ge.
Qed.

(** *** ds/list.h as such a list *)

Definition dl_init (l : loc) : M nodes unit := mmodify (<[l := ListHead (Some l) (Some l)]>).
Definition dl_add_tail (new head : loc) : M nodes unit :=
  '(_, h) ← deref id (Some head);
  __list_add (Some new) (prev h) (Some head).
Definition dl_del_init (entry : loc) : M nodes unit :=
  '(_, e) ← deref id (Some entry);
  __list_del (prev e) (next e) ≫= λ _, dl_init entry.
Definition dl_next (m : nodes) (h x : loc) : option loc :=
  n ← nxt m x; if bool_decide (n = h) then None else Some n.

Lemma is_list_frame (m m' : nodes) h xs : is_list m h xs → (∀ a, a ∈ h :: xs → m' !! a = m !! a) →
  is_list m' h xs.
Proof.
  intros [Hc Hd] He. split; [|done]. apply (chain_ext m); [..|done].
  - intros c Hc'. by apply (nxt_prv_eq m m'), He.
  - intros c Hc'. apply (nxt_prv_eq m m'), He. set_solver.
Qed.

Lemma chain_nth m a xs b i x : chain m a xs b → (a :: xs) !! i = Some x →
  nxt m x = Some (default b (xs !! i)).
Proof.
  revert a i. induction xs as [|y xs IH]; intros a [|i] Hc Hi; simpl in *; try done.
  - injection Hi as <-. apply Hc.
  - injection Hi as <-. apply Hc.
  - destruct Hc as [_ Hc]. by eapply IH.
Qed.

Lemma dl_add_tail_wp (m : nodes) h xs new : is_list m h xs → new ∉ h :: xs → is_Some (m !! new) →
  wp (dl_add_tail new h) m (λ _ m', is_list m' h (xs ++ [new]) ∧
    ∀ a, a ∉ h :: xs ++ [new] → m' !! a = m !! a).
Proof.
  intros Hl Hn Hin. pose proof Hl as [Hc Hd]. apply not_elem_of_cons in Hn as [Nh Nx].
  destruct (is_list_in m h xs h Hl) as [x E]; [by constructor|].
  unfold dl_add_tail. wp_step. apply (deref_wp id m h x); [done|].
  pose proof (chain_prev _ _ _ _ Hc) as Hp. unfold prv in Hp. rewrite E in Hp. simpl in Hp. rewrite Hp.
  pose proof (elem_of_default_last h xs) as Hpin. set (p := default h (last xs)) in *.
  assert (Lp : link m p h).
  { subst p. destruct xs as [|y ys _] using rev_ind; [exact Hc|]. rewrite last_snoc.
    apply chain_app in Hc as [_ Hc]. exact Hc. }
  assert (Np : new ≠ p) by (intros F; rewrite <- F in Hpin; set_solver).
  eapply wp_mono; [|by apply list_add_between_wp]. intros _ m' (A & B & C).
  apply NoDup_cons in Hd as [Hh Hd]. split; [split|].
  - apply chain_app. split.
    + apply (chain_retarget m m' h xs h); [done|by constructor|..]; fold p.
      * intros c Hc' Hne. rewrite A, !decide_False; [done|set_solver|done].
      * by rewrite A, decide_True.
      * intros c Hc'. rewrite B, !decide_False; [done|by intros ->|by intros ->].
      * by rewrite B, decide_True.
    + split; [by rewrite A, decide_False, decide_True by done|].
      by rewrite B, decide_False, decide_True by done.
  - rewrite app_comm_cons. apply NoDup_app. split_and!; [by constructor| |by apply NoDup_singleton].
    intros c Hc' ->%list_elem_of_singleton. set_solver.
  - intros a Ha. apply C; [|set_solver|set_solver]. intros ->. apply Ha. set_solver.
Qed.

Lemma dl_init_wp (m : nodes) l : is_list (<[l := ListHead (Some l) (Some l)]> m) l [].
Proof.
  split; [|by apply NoDup_singleton]. split; unfold nxt, prv; by rewrite lookup_insert_eq.
Qed.

(** The nodes of a list stay nodes through an update of some of them. *)
Lemma some_outside (m m' : nodes) (ys : list loc) h xs : is_list m' h xs → (∀ a, a ∈ ys → a ∈ h :: xs) →
  (∀ a, a ∉ ys → m' !! a = m !! a) → ∀ x, is_Some (m !! x) → is_Some (m' !! x).
Proof.
  intros Hl Hi He x Hx. destruct (decide (x ∈ ys)) as [Hy|Hy]; [|by rewrite He].
  eapply is_list_in; [done|auto].
Qed.

#[export] Program Instance dlist_klist : KList nodes := {
  kl_rep := is_list;
  kl_node m l := is_Some (m !! l);
  kl_init := dl_init;
  kl_add := list_add;
  kl_add_tail := dl_add_tail;
  kl_del := list_del;
  kl_del_init := dl_del_init;
  kl_next := dl_next;
  kl_free l m := delete l m
}.
Next Obligation. by intros m h xs [_ ?]. Qed.
Next Obligation.
  intros m l. unfold dl_init. wp_step. split_and!.
  - apply dl_init_wp.
  - rewrite lookup_insert_eq. by eexists.
  - intros x Hx. destruct (decide (x = l)) as [->|]; [rewrite lookup_insert_eq; by eexists|].
    by rewrite lookup_insert_ne.
  - intros h xs Hl Hn. apply (is_list_frame m); [done|]. intros a Ha.
    rewrite lookup_insert_ne; [done|]. by intros ->.
Qed.
Next Obligation.
  intros m h xs new Hl Hn Hi. eapply wp_mono; [|by apply list_add_wp]. intros _ m' [Hl' He].
  split; [done|]. by eapply some_outside; [exact Hl'| |exact He].
Qed.
Next Obligation.
  intros m h xs new Hl Hn Hi. eapply wp_mono; [|by apply dl_add_tail_wp]. intros _ m' [Hl' He].
  split; [done|]. by eapply some_outside; [exact Hl'| |exact He].
Qed.
Next Obligation.
  intros m h xs x ys Hl. eapply wp_mono; [|by apply list_del_wp]. intros _ m' (Hl' & Ex & He).
  split; [done|]. intros y Hy. destruct (decide (y = x)) as [->|Hne]; [rewrite Ex; by eexists|].
  destruct (decide (y ∈ h :: xs ++ x :: ys)) as [Hin|Hin]; [|by rewrite He].
  eapply is_list_in; [done|]. set_solver.
Qed.
Next Obligation.
  intros m h xs Hl. pose proof Hl as [Hc Hd].
  destruct (is_list_in m h xs h Hl) as [e E]; [by constructor|].
  unfold dl_del_init. wp_step. apply (deref_wp id m h e); [done|]. wp_step.
  pose proof (chain_prev _ _ _ _ Hc) as Ep. pose proof (chain_next _ _ _ _ Hc) as En.
  unfold prv, nxt in Ep, En. rewrite E in Ep, En. simpl in Ep, En. rewrite Ep, En.
  eapply wp_mono; [|apply list_del_between_wp; eapply is_list_in; try exact Hl].
  - intros _ m' _. unfold dl_init. wp_step. apply dl_init_wp.
  - apply elem_of_default_last.
  - pose proof (elem_of_default_head h xs). set_solver.
Qed.
Next Obligation.
  intros m h xs i x [Hc Hd] Hi. unfold dl_next. rewrite (chain_nth _ _ _ _ _ _ Hc Hi). simpl.
  destruct (xs !! i) as [y|] eqn:Ey; simpl; [|by rewrite bool_decide_eq_true_2].
  rewrite bool_decide_eq_false_2; [done|]. intros ->. apply NoDup_cons in Hd as [Hh _].
  apply Hh. by eapply list_elem_of_lookup_2.
Qed.
Next Obligation.
  intros m h xs x Hl Hn. apply (is_list_frame m); [done|]. intros a Ha.
  rewrite lookup_delete_ne; [done|]. by intros ->.
Qed.

(** ** linked.c *)

Module Linked.

(** A struct item at [l]: its node in [lk_nodes], its number in [lk_num]. *)
Record lk_st (H : Type) := LkSt {
  lk_heap : H;
  lk_nodes : nodes;
  lk_num : gmap loc Z;
  lk_out : list Z                          (* the numbers printed *)
}.
Arguments LkSt {H}.
Arguments lk_heap {H}.
Arguments lk_nodes {H}.
Arguments lk_num {H}.
Arguments lk_out {H}.

Section ops.
Context {H : Type} `{KernelHeap H}.
Abbreviation st := (lk_st H).

Definition sizeof_item := 24.

Definition on_list {A} (m : M nodes A) : M st A := λ s,
  match m (lk_nodes s) with
  | Ret (a, n) => Ret (a, LkSt (lk_heap s) n (lk_num s) (lk_out s))
  | Fault f => Fault f
  end.

Definition malloc (n : Z) : M st (option loc) := λ s,
  let '(r, h) := kmalloc n (lk_heap s) in Ret (r, LkSt h (lk_nodes s) (lk_num s) (lk_out s)).
(** [memset(item, 0, sizeof(struct item))] *)
Definition memset_item (p : option loc) : M st loc := λ s,
  match p with
  | None => Fault NullDeref
  | Some l => Ret (l, LkSt (lk_heap s) (<[l := ListHead None None]> (lk_nodes s))
                       (<[l := 0]> (lk_num s)) (lk_out s))
  end.
Definition set_number (l : loc) (v : Z) : M st unit := mmodify (λ s,
  LkSt (lk_heap s) (lk_nodes s) (<[l := v]> (lk_num s)) (lk_out s)).
Definition print_number (l : loc) : M st unit := λ s,
  match lk_num s !! l with
  | Some v => Ret (tt, LkSt (lk_heap s) (lk_nodes s) (lk_num s) (lk_out s ++ [v]))
  | None => Fault OutOfBounds
  end.
Definition free (l : loc) : M st unit := λ s,
  if bool_decide (l ∈ live (lk_heap s)) then
    Ret (tt, LkSt (kfree l (lk_heap s)) (delete l (lk_nodes s)) (delete l (lk_num s)) (lk_out s))
  else Fault BadFree.

(** main, with [head] the address of the static list head; [fuel] bounds the
    walk, and running out of it is a fault. *)
Definition main (fuel : nat) (head : loc) : M st Z :=
  p1 ← malloc sizeof_item;
  p2 ← malloc sizeof_item;
  p3 ← malloc sizeof_item;
  item1 ← memset_item p1;
  item2 ← memset_item p2;
  item3 ← memset_item p3;
  set_number item1 100 ≫= λ _,
  set_number item2 200 ≫= λ _,
  set_number item3 300 ≫= λ _,
  on_list (list_add item1 head) ≫= λ _,
  on_list (list_add item2 head) ≫= λ _,
  on_list (list_add item3 head) ≫= λ _,
  items ← on_list (for_each_item fuel head);
  match items with
  | None => mfault OutOfBounds
  | Some items =>
      mforeach items print_number ≫= λ _,
      on_list (list_del item1) ≫= λ _,
      on_list (list_del item2) ≫= λ _,
      on_list (list_del item3) ≫= λ _,
      free item1 ≫= λ _,
      free item2 ≫= λ _,
      free item3 ≫= λ _,
      mret 0
  end.

Lemma on_list_wp {A} (m : M nodes A) s (Q : A → st → Prop) :
  wp m (lk_nodes s) (λ a n, Q a (LkSt (lk_heap s) n (lk_num s) (lk_out s))) → wp (on_list m) s Q.
Proof. unfold wp, on_list. by destruct (m (lk_nodes s)) as [[a n]|]. Qed.

(** malloc succeeds: a block that was not in use. *)
Lemma malloc_wp n s (Q : option loc → st → Prop) : (∀ h, (kmalloc n h).1 ≠ None) →
  (∀ l h, (l ∉ live (lk_heap s)) → live h = {[l]} ∪ live (lk_heap s) →
    Q (Some l) (LkSt h (lk_nodes s) (lk_num s) (lk_out s))) → wp (malloc n) s Q.
Proof.
  intros Hok HQ. unfold wp, malloc. specialize (Hok (lk_heap s)).
  destruct (kmalloc n (lk_heap s)) as [[l|] h] eqn:E; [|done].
  apply kmalloc_some_law in E as [? ?]. by apply HQ.
Qed.

Lemma free_wp l s (Q : unit → st → Prop) : l ∈ live (lk_heap s) →
  (∀ h, live h = live (lk_heap s) ∖ {[l]} →
    Q tt (LkSt h (delete l (lk_nodes s)) (delete l (lk_num s)) (lk_out s))) → wp (free l) s Q.
Proof.
  intros Hl HQ. unfold wp, free. rewrite bool_decide_eq_true_2 by done. apply HQ, kfree_law.
Qed.

Lemma memset_wp l s (Q : loc → st → Prop) :
  Q l (LkSt (lk_heap s) (<[l := ListHead None None]> (lk_nodes s)) (<[l := 0]> (lk_num s)) (lk_out s)) →
  wp (memset_item (Some l)) s Q.
Proof. done. Qed.

Lemma add_wp s h xs new (Q : unit → st → Prop) : is_list (lk_nodes s) h xs → new ∉ h :: xs →
  is_Some (lk_nodes s !! new) →
  (∀ n, is_list n h (new :: xs) → (∀ x, x ∉ h :: new :: xs → n !! x = lk_nodes s !! x) →
    Q tt (LkSt (lk_heap s) n (lk_num s) (lk_out s))) → wp (on_list (list_add new h)) s Q.
Proof.
  intros Hl Hn Hi HQ. apply on_list_wp. eapply wp_mono; [|by apply list_add_wp].
  intros [] n [L E]. auto.
Qed.

Lemma del_wp s h xs x ys (Q : unit → st → Prop) : is_list (lk_nodes s) h (xs ++ x :: ys) →
  (∀ n, is_list n h (xs ++ ys) → Q tt (LkSt (lk_heap s) n (lk_num s) (lk_out s))) →
  wp (on_list (list_del x)) s Q.
Proof.
  intros Hl HQ. apply on_list_wp. eapply wp_mono; [|by apply list_del_wp]. intros [] n (L & _). auto.
Qed.

Lemma print_wp s l v (Q : unit → st → Prop) : lk_num s !! l = Some v →
  Q tt (LkSt (lk_heap s) (lk_nodes s) (lk_num s) (lk_out s ++ [v])) → wp (print_number l) s Q.
Proof. intros E HQ. unfold wp, print_number. by rewrite E. Qed.

(** Running linked.c where malloc never fails: it prints 100, 200 and 300,
    leaves the list empty, and frees what it allocated. *)
Theorem linked_main_prints s head fuel : (∀ h, (kmalloc sizeof_item h).1 ≠ None) → (3 < fuel)%nat →
  head ∈ live (lk_heap s) → is_list (lk_nodes s) head [] →
  ∃ s', main fuel head s = Ret (0, s') ∧ lk_out s' = lk_out s ++ [100; 200; 300] ∧
    live (lk_heap s') = live (lk_heap s) ∧ is_list (lk_nodes s') head [].
Proof.
  intros Hok Hf Hh Hl.
  assert (W : wp (main fuel head) s (λ r s', r = 0 ∧ lk_out s' = lk_out s ++ [100; 200; 300] ∧
    live (lk_heap s') = live (lk_heap s) ∧ is_list (lk_nodes s') head [])).
  2: { destruct (wp_elim _ _ _ W) as (r & s' & ? & -> & ?). eauto. }
  unfold main. wp_step. apply malloc_wp; [done|]. intros a ha Na Ea.
  wp_step. apply malloc_wp; [done|]. intros b hb Nb Eb.
  wp_step. apply malloc_wp; [done|]. intros c hc Nc Ec.
  cbn [lk_heap lk_nodes lk_num lk_out] in *. rewrite Ea in Nb, Eb. rewrite Eb in Nc, Ec.
  assert (N : head ≠ a ∧ head ≠ b ∧ head ≠ c ∧ a ≠ b ∧ a ≠ c ∧ b ≠ c)
    by (clear -Hh Na Nb Nc; set_solver).
  destruct N as (Nha & Nhb & Nhc & Nab & Nac & Nbc).
  do 3 (wp_step; apply memset_wp; cbn). do 3 (wp_step; unfold set_number; wp_step; cbn).
  wp_step. apply (add_wp _ head [] a); cbn.
  { apply (is_list_frame (lk_nodes s)); [done|]. intros x ->%list_elem_of_singleton.
    by rewrite !lookup_insert_ne. }
  { by intros ?%list_elem_of_singleton. }
  { rewrite !lookup_insert_ne, lookup_insert_eq by done. by eexists. }
  intros n1 L1 E1. wp_step. apply (add_wp _ head [a] b); cbn; [done|set_solver| |].
  { rewrite E1 by set_solver. rewrite lookup_insert_ne, lookup_insert_eq by done. by eexists. }
  intros n2 L2 E2. wp_step. apply (add_wp _ head [b; a] c); cbn; [done|set_solver| |].
  { rewrite E2, E1 by set_solver. rewrite lookup_insert_eq. by eexists. }
  intros n3 L3 E3. wp_step. apply on_list_wp. eapply wp_mono; [|by apply (for_each_item_wp _ head [c; b; a])].
  intros r n [-> ->]. change (reverse [c; b; a]) with [a; b; c]. cbn [mforeach].
  do 2 wp_step. apply (print_wp _ a 100); [cbn; by simplify_map_eq|cbn].
  wp_step. apply (print_wp _ b 200); [cbn; by simplify_map_eq|cbn].
  wp_step. apply (print_wp _ c 300); [cbn; by simplify_map_eq|cbn]. wp_step.
  apply (del_wp _ head [c; b] a []); [done|cbn]. intros n4 L4.
  wp_step. apply (del_wp _ head [c] b []); [done|cbn]. intros n5 L5.
  wp_step. apply (del_wp _ head [] c []); [done|cbn]. intros n6 L6.
  wp_step. apply free_wp; [cbn; rewrite Ec; clear; set_solver|cbn]. intros g1 F1. rewrite Ec in F1.
  wp_step. apply free_wp; [cbn; rewrite F1; clear -Nab; set_solver|cbn]. intros g2 F2. rewrite F1 in F2.
  wp_step. apply free_wp; [cbn; rewrite F2; clear -Nac Nbc; set_solver|cbn]. intros g3 F3. split_and!.
  - done.
  - by rewrite <- !(assoc_L (++)).
  - rewrite F3, F2. clear -Na Nb Nc. apply set_eq. intros x. set_solver.
  - apply (is_list_frame n6); [done|]. intros x ->%list_elem_of_singleton.
    by rewrite !lookup_delete_ne.
Qed.

End ops.

(** A heap that never runs out: the set of its live blocks. *)
Record arena := Arena { ar_live : gset loc }.
#[local] Program Instance arena_heap : KernelHeap arena := {
  live := ar_live;
  kmalloc n h := (Some (fresh (ar_live h)), Arena ({[fresh (ar_live h)]} ∪ ar_live h));
  kfree l h := Arena (ar_live h ∖ {[l]})
}.
Next Obligation. intros n h l h' [= <- <-]. split; [apply is_fresh|done]. Qed.
Next Obligation. done. Qed.
Next Obligation. done. Qed.

Lemma linked_main_prints_witness :
  let s := LkSt (Arena {[1%positive]}) {[1%positive := ListHead (Some 1%positive) (Some 1%positive)]} ∅ [] in
  ∃ s', main 4 1 s = Ret (0, s') ∧ lk_out s' = [] ++ [100; 200; 300] ∧
    live (lk_heap s') = live (lk_heap s) ∧ is_list (lk_nodes s') 1 [].
Proof.
  intros s. apply (linked_main_prints s 1%positive 4); [done|lia|set_solver|].
  split; [by split|]. apply (bool_decide_unpack _). by vm_compute.
Defined.

End Linked.

(** ** ds/list.c *)

Module ListC.
Section ops.
Context {S : Type} `{KList S}.

(** The static head and items, and what list_init prints. *)
Record list_mod := ListMod { my_list : loc; item1 : loc; item2 : loc; item3 : loc }.
Definition number (g : list_mod) (l : loc) : Z :=
  if decide (l = item1 g) then 10 else if decide (l = item2 g) then 20 else 30.

(** list_for_each_entry(cur, &my_list, list) with its body a printk. *)
Definition phase (fuel : nat) (g : list_mod) : M S (option (list Z)) := λ s,
  Ret (map (number g) <$> kl_from fuel s (my_list g) (my_list g), s).

Definition list_init (fuel : nat) (g : list_mod) : M S (option (list Z) * option (list Z)) :=
  kl_init (my_list g) ≫= λ _,
  kl_add (item1 g) (my_list g) ≫= λ _,
  kl_add (item2 g) (my_list g) ≫= λ _,
  kl_add_tail (item3 g) (my_list g) ≫= λ _,
  out1 ← phase fuel g;
  kl_del (item1 g) ≫= λ _,
  out2 ← phase fuel g;
  mret (out1, out2).

Definition list_exit (g : list_mod) : M S unit := kl_del_init (my_list g).

(** What the two comments of list_init announce: 20, 10, 30, then 20, 30;
    list_exit leaves the head alone. *)
Theorem list_init_prints fuel g s : NoDup [my_list g; item1 g; item2 g; item3 g] → (3 < fuel)%nat →
  kl_node s (item1 g) → kl_node s (item2 g) → kl_node s (item3 g) →
  ∃ s', list_init fuel g s = Ret ((Some [20; 10; 30], Some [20; 30]), s') ∧
    kl_rep s' (my_list g) [item2 g; item3 g] ∧
    ∃ s'', list_exit g s' = Ret (tt, s'') ∧ kl_rep s'' (my_list g) [].
Proof.
  intros Hd Hf K1 K2 K3. apply NoDup_cons in Hd as [D0 Hd].
  apply NoDup_cons in Hd as [D1 Hd]. apply NoDup_cons in Hd as [D2 _].
  assert (N : my_list g ≠ item1 g ∧ my_list g ≠ item2 g ∧ my_list g ≠ item3 g ∧ item1 g ≠ item2 g ∧
    item1 g ≠ item3 g ∧ item2 g ≠ item3 g) by set_solver.
  destruct N as (N1 & N2 & N3 & N12 & N13 & N23).
  assert (W : wp (list_init fuel g) s (λ r s', r = (Some [20; 10; 30], Some [20; 30]) ∧
    kl_rep s' (my_list g) [item2 g; item3 g])).
  2: { destruct (wp_elim _ _ _ W) as (r & s' & ? & -> & R). exists s'. split_and!; [done|done|].
       destruct (wp_elim _ _ _ (kl_del_init_law _ _ _ R)) as ([] & s'' & ? & ?). eauto. }
  unfold list_init. wp_step. eapply wp_mono; [|apply kl_init_law].
  intros _ s1 (R1 & _ & M1 & _). wp_step.
  eapply wp_mono; [|apply (kl_add_law _ _ [] (item1 g) R1); [set_solver|auto]]. intros _ s2 [R2 M2]. wp_step.
  eapply wp_mono; [|apply (kl_add_law _ _ _ (item2 g) R2); [set_solver|auto]]. intros _ s3 [R3 M3]. wp_step.
  eapply wp_mono; [|apply (kl_add_tail_law _ _ _ (item3 g) R3); [set_solver|auto]]. intros _ s4 [R4 M4].
  simpl in R4.
  assert (Hn : ∀ s xs, kl_rep s (my_list g) xs → (length xs < fuel)%nat →
    wp (phase fuel g) s (λ r s', r = Some (number g <$> xs) ∧ s' = s)).
  { intros s0 xs R Hx. unfold wp, phase. rewrite (kl_from_rep s0 _ xs 0 _ fuel R); [done|done|lia]. }
  assert (Hv : number g (item1 g) = 10 ∧ number g (item2 g) = 20 ∧ number g (item3 g) = 30).
  { unfold number. by repeat case_decide. }
  destruct Hv as (V1 & V2 & V3).
  wp_step. eapply wp_mono; [|apply (Hn _ _ R4); simpl; lia]. intros r1 ? [-> ->]. wp_step.
  eapply wp_mono; [|apply (kl_del_law s4 (my_list g) [item2 g] (item1 g) [item3 g] R4)].
  intros _ s5 [R5 _]. wp_step. eapply wp_mono; [|apply (Hn _ _ R5); simpl; lia].
  intros r2 ? [-> ->]. wp_step. simpl. by rewrite V1, V2, V3.
Qed.

End ops.

Lemma list_init_prints_witness :
  let g := ListMod 1 2 3 4 in
  let m : nodes := {[2%positive := ListHead None None; 3%positive := ListHead None None;
                     4%positive := ListHead None None]} in
  ∃ s', list_init 4 g m = Ret ((Some [20; 10; 30], Some [20; 30]), s') ∧ kl_rep s' 1%positive [3; 4]%positive ∧
    ∃ s'', list_exit g s' = Ret (tt, s'') ∧ kl_rep s'' 1%positive [].
Proof.
  intros g m. apply (list_init_prints 4 g m); [|lia|by eexists..].
  apply (bool_decide_unpack _). by vm_compute.
Defined.

End ListC.
