(* ===== verification/ListProc.v ===== *)
(** The module src/m_modules/proc/list_proc.c: a list of pairs shown and
    extended through a file of /proc.

    The list is a [KList], the memory a [KernelHeap]; sscanf and the directory
    entries of /proc are kernel code, the interfaces [Scanf] and [ProcFs]. *)
From Stdlib Require Import ZArith Lia.
From stdpp Require Import base list gmap.
From S2P Require Import Prelude Kernel DList ListMods.

(** sscanf(buf, "%d %d", &a, &b): a variable it did not assign is [None], and
    so is the whole result when the text did not end in the buffer: sscanf is
    for strings, and reads on until the format or the string ends. *)
Class Scanf := {
  sscanf_d_d : list cell → option (option Z * option Z);
  sscanf_end_law : ∀ buf, Some x00 ∈ buf → sscanf_d_d buf ≠ None
}.

(** Entries of /proc: the live ones, and those in the directory of an entry
    (itself included). *)
Class ProcFs (P : Type) := {
  pf_live : P → gset loc;
  pf_tree : P → loc → gset loc;
  proc_mkdir : P → option loc * P;
  proc_create : loc → P → option loc * P;
  remove_tree : loc → P → P;                 (* the entry and what it holds *)
  proc_mkdir_some_law : ∀ p d p', proc_mkdir p = (Some d, p') →
    (d ∉ pf_live p) ∧ pf_live p' = {[d]} ∪ pf_live p ∧ pf_tree p' d = {[d]};
  proc_mkdir_none_law : ∀ p p', proc_mkdir p = (None, p') → pf_live p' = pf_live p;
  proc_create_some_law : ∀ d p f p', proc_create d p = (Some f, p') →
    (f ∉ pf_live p) ∧ pf_live p' = {[f]} ∪ pf_live p ∧ pf_tree p' d = {[f]} ∪ pf_tree p d;
  proc_create_none_law : ∀ d p p', proc_create d p = (None, p') →
    pf_live p' = pf_live p ∧ pf_tree p' d = pf_tree p d;
  remove_tree_law : ∀ d p, pf_live (remove_tree d p) = pf_live p ∖ pf_tree p d
}.

(** struct m_info: [None] is an indeterminate value. *)
Record m_info := MInfo { mi_a : option Z; mi_b : option Z }.

Record lp_st (H S U P : Type) := LpSt {
  lp_heap : H;
  lp_store : S;                      (* where the nodes live *)
  lp_info : gmap loc m_info;
  lp_locked : bool;                  (* m_lock *)
  lp_finished : bool;                (* the static of proc_write *)
  lp_user : U;
  lp_proc : P;
  proc_dir : option loc;
  proc_file : option loc
}.
Arguments LpSt {H S U P}.
Arguments lp_heap {H S U P}.
Arguments lp_store {H S U P}.
Arguments lp_info {H S U P}.
Arguments lp_locked {H S U P}.
Arguments lp_finished {H S U P}.
Arguments lp_user {H S U P}.
Arguments lp_proc {H S U P}.
Arguments proc_dir {H S U P}.
Arguments proc_file {H S U P}.

Section ops.
Context {H S U P : Type} `{KernelHeap H} `{KList S} `{UserMem U} `{Scanf} `{ProcFs P}.
(** The address of the static list head. *)
Context (m_list : loc).
Abbreviation st := (lp_st H S U P).

Definition sizeof_m_info := 24.

Definition set_mem (h : H) (l : S) (i : gmap loc m_info) (s : st) : st :=
  LpSt h l i (lp_locked s) (lp_finished s) (lp_user s) (lp_proc s) (proc_dir s) (proc_file s).
Definition set_flags (k f : bool) (s : st) : st :=
  LpSt (lp_heap s) (lp_store s) (lp_info s) k f (lp_user s) (lp_proc s) (proc_dir s) (proc_file s).
Definition set_proc (p : P) (d f : option loc) (s : st) : st :=
  LpSt (lp_heap s) (lp_store s) (lp_info s) (lp_locked s) (lp_finished s) (lp_user s) p d f.

Definition on_store {A} (m : M S A) : M st A := λ s,
  match m (lp_store s) with
  | Ret (a, l) => Ret (a, set_mem (lp_heap s) l (lp_info s) s)
  | Fault f => Fault f
  end.

Definition mutex_lock : M st unit := λ s,
  if lp_locked s then Fault SelfDeadlock else Ret (tt, set_flags true (lp_finished s) s).
Definition mutex_unlock : M st unit := λ s,
  if lp_locked s then Ret (tt, set_flags false (lp_finished s) s) else Fault BadUnlock.

(** kzalloc of a struct m_info. *)
Definition kzalloc_info : M st (option loc) := λ s,
  let '(r, h) := kmalloc sizeof_m_info (lp_heap s) in
  Ret (r, set_mem h (lp_store s)
            (match r with Some l => <[l := MInfo (Some 0) (Some 0)]> (lp_info s) | None => lp_info s end) s).
Definition kfree_info (l : loc) : M st unit := λ s,
  if bool_decide (l ∈ live (lp_heap s)) then
    Ret (tt, set_mem (kfree l (lp_heap s)) (kl_free l (lp_store s)) (delete l (lp_info s)) s)
  else Fault BadFree.
Definition set_info (l : loc) (i : m_info) : M st unit := mmodify (λ s,
  set_mem (lp_heap s) (lp_store s) (<[l := i]> (lp_info s)) s).

(** *** The list *)

Definition add_data (a b : option Z) : M st Z :=
  info ← kzalloc_info;
  match info with
  | None => mret (- ENOMEM)
  | Some l =>
      on_store (kl_init l) ≫= λ _,
      set_info l (MInfo a b) ≫= λ _,
      mutex_lock ≫= λ _,
      on_store (kl_add l m_list) ≫= λ _,
      mutex_unlock ≫= λ _,
      mret 0
  end.

Definition add_sample_data : M st Z :=
  r ← add_data (Some 10) (Some 20);
  if negb (r =? 0) then mret (- ENOMEM) else
  r ← add_data (Some 30) (Some 40);
  if negb (r =? 0) then mret (- ENOMEM) else
  mret 0.

(** list_for_each_safe with its body; [fuel] bounds the walk. *)
Definition remove_sample_data (fuel : nat) : M st (option Z) :=
  s ← mget;
  match kl_from fuel (lp_store s) m_list m_list with
  | None => mret None
  | Some xs =>
      mforeach xs (λ node, on_store (kl_del node) ≫= λ _, kfree_info node) ≫= λ _,
      mret (Some 0)
  end.

(** *** Reading: the sequence operations *)

(** seq_list_start: the entry at position [pos]. *)
Fixpoint nth_entry (pos : nat) (s : S) (p : loc) : option loc :=
  match kl_next s m_list p with
  | None => None
  | Some x => match pos with O => Some x | Datatypes.S k => nth_entry k s x end
  end.

Definition seq_start (pos : nat) : M st (option loc) :=
  mutex_lock ≫= λ _,
  s ← mget;
  mret (nth_entry pos (lp_store s) m_list).
Definition seq_next (v : loc) : M st (option loc) :=
  s ← mget;
  mret (kl_next (lp_store s) m_list v).
Definition seq_stop : M st unit := mutex_unlock.

(** A line "a + b = sum". *)
Definition sum (i : m_info) : option Z := a ← mi_a i; b ← mi_b i; Some (s32 (a + b)).
Definition seq_show (v : loc) : M st (m_info * option Z) := λ s,
  match lp_info s !! v with
  | Some i => Ret ((i, sum i), s)
  | None => Fault OutOfBounds
  end.

(** seq_read of a whole file: start, show and next until the end, stop. *)
Fixpoint seq_lines (fuel : nat) (v : option loc) : M st (option (list (m_info * option Z))) :=
  match fuel, v with
  | O, _ => mret None
  | _, None => mret (Some [])
  | Datatypes.S fuel', Some x =>
      line ← seq_show x;
      v' ← seq_next x;
      r ← seq_lines fuel' v';
      mret (cons line <$> r)
  end.
Definition seq_read (fuel : nat) : M st (option (list (m_info * option Z))) :=
  v ← seq_start 0;
  r ← seq_lines fuel v;
  seq_stop ≫= λ _,
  mret r.

(** The build with USE_SINGLE_OPEN: one walk of the whole list, without the
    lock. *)
Definition simple_show (fuel : nat) : M st (option (list (m_info * option Z))) :=
  s ← mget;
  seq_lines fuel (kl_next (lp_store s) m_list m_list).

(** *** Writing *)

(** copy_from_user into [char buf[128]], the rest of it left as it was:
    [stack] is what the stack held there. *)
Definition fill_buf (stack : list byte) (data len : Z) : M st (list cell * nat) := λ s,
  if len <=? 128 then
    let '(cs, uncopied) := copy_from_user (lp_user s) data (Z.to_nat len) in
    Ret ((list_inserts 0 cs (Some <$> stack), uncopied), s)
  else Fault OutOfBounds.

(** The buffer is never terminated. *)
Definition proc_write (stack : list byte) (data len : Z) : M st Z :=
  s ← mget;
  if lp_finished s then mmodify (λ s, set_flags (lp_locked s) false s) ≫= λ _, mret 0 else
  mmodify (λ s, set_flags (lp_locked s) true s) ≫= λ _,
  '(buf, uncopied) ← fill_buf stack data len;
  if negb (uncopied =? 0)%nat then mret (- EFAULT) else
  match sscanf_d_d buf with
  | None => mfault OutOfBounds
  | Some (a, b) =>
      r ← add_data a b;
      if negb (r =? 0) then mret (- EFAULT) else mret len
  end.

(** *** The module *)

Definition on_proc {A} (f : P → A * P) : M st A := λ s,
  let '(a, p) := f (lp_proc s) in Ret (a, set_proc p (proc_dir s) (proc_file s) s).

(** proc_remove: NULL is ignored, an entry already removed is freed memory. *)
Definition proc_remove (e : option loc) : M st unit := λ s,
  match e with
  | None => Ret (tt, s)
  | Some l =>
      if bool_decide (l ∈ pf_live (lp_proc s))
      then Ret (tt, set_proc (remove_tree l (lp_proc s)) (proc_dir s) (proc_file s) s)
      else Fault BadFree
  end.

Definition proc_init : M st Z :=
  d ← on_proc proc_mkdir;
  mmodify (λ s, set_proc (lp_proc s) d (proc_file s) s) ≫= λ _,
  match d with
  | None => mret (-1)
  | Some d =>
      f ← on_proc (proc_create d);
      mmodify (λ s, set_proc (lp_proc s) (proc_dir s) f s) ≫= λ _,
      match f with
      | None => on_proc (λ p, (tt, remove_tree d p)) ≫= λ _, mret (-1)
      | Some _ => mret 0
      end
  end.

(** The branch for kernels from 4.0 on; the directory is found by its name. *)
Definition proc_exit : M st unit :=
  s ← mget;
  match proc_dir s with
  | None => mret tt
  | Some d => on_proc (λ p, (tt, remove_tree d p))
  end ≫= λ _,
  proc_remove (proc_file s) ≫= λ _,
  proc_remove (proc_dir s).

Definition proc_dev_init : M st Z :=
  r ← add_sample_data;
  if negb (r =? 0) then mret (- ENOMEM) else proc_init.

Definition proc_dev_exit (fuel : nat) : M st unit :=
  remove_sample_data fuel ≫= λ _,
  proc_exit.

End ops.

(** ** Theorems *)

Section thms.
Context {H S U P : Type} `{KernelHeap H} `{KList S} `{UserMem U} `{Scanf} `{ProcFs P}.
Context (m_list : loc).
Abbreviation st := (lp_st H S U P).
Implicit Types s : st.

(** The list [xs] is in memory, with its pairs, and nobody holds the lock. *)
Record lp_wf s (xs : list loc) : Prop := LpWf {
  lw_rep : kl_rep (lp_store s) m_list xs;
  lw_live : ∀ l, l ∈ m_list :: xs → l ∈ live (lp_heap s);
  lw_info : ∀ l, l ∈ xs → is_Some (lp_info s !! l);
  lw_free : lp_locked s = false
}.

(** What the file shows of the nodes [xs]. *)
Definition line s (l : loc) : m_info * option Z :=
  let i := default (MInfo None None) (lp_info s !! l) in (i, sum i).

(** Only the list, the heap and the lock move. *)
Definition same_env s s' : Prop := lp_user s' = lp_user s ∧ lp_proc s' = lp_proc s ∧
  proc_dir s' = proc_dir s ∧ proc_file s' = proc_file s ∧ lp_finished s' = lp_finished s.

Lemma on_store_wp {A} (m : M S A) s (Q : A → st → Prop) :
  wp m (lp_store s) (λ a l, Q a (set_mem (lp_heap s) l (lp_info s) s)) → wp (on_store m) s Q.
Proof. unfold wp, on_store. by destruct (m (lp_store s)) as [[a l]|]. Qed.

(** add_data adds one pair in front, or reports that memory ran out. *)
Lemma add_data_wp s xs a b : lp_wf s xs → wp (add_data m_list a b) s (λ r s', same_env s s' ∧
  ((r = - ENOMEM ∧ lp_wf s' xs ∧ lp_info s' = lp_info s ∧ live (lp_heap s') = live (lp_heap s)) ∨
   (r = 0 ∧ ∃ l, (l ∉ live (lp_heap s)) ∧ lp_wf s' (l :: xs) ∧
      lp_info s' = <[l := MInfo a b]> (lp_info s) ∧ live (lp_heap s') = {[l]} ∪ live (lp_heap s)))).
Proof.
  intros [Rp Lv In Fr]. unfold add_data. wp_step. unfold wp at 1, kzalloc_info.
  destruct (kmalloc sizeof_m_info (lp_heap s)) as [[l|] h] eqn:E.
  - apply kmalloc_some_law in E as [Hl Hh]. wp_step. apply on_store_wp. simpl.
    assert (Hn : l ∉ m_list :: xs) by (intros Hi; apply Hl; by apply Lv).
    eapply wp_mono; [|apply kl_init_law]. intros _ s1 (_ & Hno & _ & R1).
    specialize (R1 _ _ Rp Hn). wp_step. unfold set_info. wp_step. wp_step.
    unfold wp at 1, mutex_lock. simpl. rewrite Fr. wp_step. apply on_store_wp. simpl.
    eapply wp_mono; [|by apply kl_add_law]. intros _ s2 [R2 _]. wp_step.
    unfold wp at 1, mutex_unlock. simpl. wp_step. split; [done|]. right. split; [done|].
    exists l. split_and!; [done|split|by rewrite insert_insert_eq|done]; simpl.
    + exact R2.
    + intros x Hx. rewrite Hh. apply elem_of_union. apply elem_of_cons in Hx as [->|Hx].
      { right. apply Lv. by constructor. }
      apply elem_of_cons in Hx as [->|Hx]; [left; by apply elem_of_singleton|right].
      apply Lv. by constructor.
    + intros x Hx. rewrite insert_insert_eq. destruct (decide (x = l)) as [->|Hne].
      * rewrite lookup_insert_eq. by eexists.
      * rewrite lookup_insert_ne by done. apply In. by apply elem_of_cons in Hx as [?|?].
    + done.
  - apply kmalloc_none_law in E. wp_step. split; [done|]. left. split_and!; try done.
    split; simpl; try done. intros x Hx. rewrite E. auto.
Qed.

(** Reading walks the list under the lock. *)
Lemma seq_lines_wp s xs i p fuel b f : lp_wf s xs → (m_list :: xs) !! i = Some p → (length xs - i < fuel)%nat →
  wp (seq_lines m_list fuel (kl_next (lp_store s) m_list p)) (set_flags b f s)
    (λ r s', r = Some (map (line s) (drop i xs)) ∧ s' = set_flags b f s).
Proof.
  intros W. revert i p. induction fuel as [|fuel IH]; intros i p Hp Hf; [lia|].
  rewrite (kl_next_law _ _ _ _ _ (lw_rep _ _ W) Hp). cbn [seq_lines].
  destruct (xs !! i) as [x|] eqn:Ex.
  - destruct (lw_info _ _ W x) as [inf Ei]; [by eapply list_elem_of_lookup_2|].
    wp_step. unfold wp at 1, seq_show. cbn [lp_info set_flags]. rewrite Ei. wp_step. unfold seq_next.
    do 3 wp_step. wp_step. cbn [lp_store set_flags].
    apply lookup_lt_Some in Ex as Hlt.
    eapply wp_mono; [|apply (IH (Datatypes.S i) x); [done|lia]]. intros r s' [-> ->]. wp_step.
    assert (El : line s x = (inf, sum inf)) by (unfold line; by rewrite Ei).
    by rewrite (drop_S xs x i), map_cons, El.
  - apply lookup_ge_None in Ex. wp_step. by rewrite drop_ge.
Qed.

Lemma seq_read_wp s xs fuel : lp_wf s xs → (length xs < fuel)%nat →
  wp (seq_read m_list fuel) s (λ r s', r = Some (map (line s) xs) ∧ s' = s).
Proof.
  intros W Hf. unfold seq_read, seq_start. wp_step. wp_step. unfold wp at 1, mutex_lock.
  rewrite (lw_free _ _ W). do 3 wp_step. wp_step.
  replace (nth_entry m_list 0 (lp_store (set_flags true (lp_finished s) s)) m_list)
    with (kl_next (lp_store s) m_list m_list) by (simpl; by destruct (kl_next _ _ _)).
  eapply wp_mono; [|apply (seq_lines_wp s xs 0 m_list fuel true (lp_finished s) W); [done|lia]].
  intros r s' [-> ->]. wp_step. unfold seq_stop, wp at 1, mutex_unlock. simpl. wp_step.
  split; [done|]. pose proof (lw_free _ _ W) as Fr. destruct s; simpl in *. by subst.
Qed.

(** The two builds show the same text of a list at rest; while a writer
    holds the lock, the sequence file waits and the single file walks the list
    under its hands. *)
Theorem simple_show_eq_seq_read s xs f fuel : lp_wf s xs → (length xs < fuel)%nat →
  simple_show m_list fuel s = seq_read m_list fuel s ∧
  seq_read m_list fuel s = Ret (Some (map (line s) xs), s) ∧
  simple_show m_list fuel (set_flags true f s) = Ret (Some (map (line s) xs), set_flags true f s) ∧
  seq_read m_list fuel (set_flags true f s) = Fault SelfDeadlock.
Proof.
  intros W Hf. assert (SH : ∀ b g, simple_show m_list fuel (set_flags b g s) = Ret (Some (map (line s) xs), set_flags b g s)).
  { intros b g. destruct (wp_elim _ _ _ (seq_lines_wp s xs 0 m_list fuel b g W eq_refl ltac:(lia))) as (r & s' & E & -> & ->). exact E. }
  destruct (wp_elim _ _ _ (seq_read_wp s xs fuel W Hf)) as (r & s' & E & -> & ->). rewrite E.
  split_and!; [|done|apply SH|done]. specialize (SH (lp_locked s) (lp_finished s)). by destruct s.
Qed.

Lemma line_insert s s' l i x : lp_info s' = <[l := i]> (lp_info s) → x ≠ l → line s' x = line s x.
Proof. intros E Hne. unfold line. by rewrite E, lookup_insert_ne. Qed.

Lemma lp_wf_fresh s xs l : lp_wf s xs → l ∉ live (lp_heap s) → l ∉ m_list :: xs.
Proof. intros W Hl Hi. apply Hl. by apply (lw_live _ _ W). Qed.

Lemma lp_wf_flags s xs f : lp_wf s xs → lp_wf (set_flags (lp_locked s) f s) xs.
Proof. by intros []. Qed.

Lemma lines_fresh s s' xs l i : lp_wf s xs → l ∉ live (lp_heap s) → lp_info s' = <[l := i]> (lp_info s) →
  map (line s') xs = map (line s) xs.
Proof.
  intros W Hl Ei. apply map_ext_Forall, Forall_forall. intros x Hx.
  apply (line_insert _ _ l i); [done|]. intros ->.
  by apply (lp_wf_fresh _ _ _ W Hl), list_elem_of_further.
Qed.

(** C27: a write to the file, on every path, and what a read shows before and
    after: an accepted pair comes first, in front of what was there; an error
    of memory or of the user's pointer changes nothing shown; the write after
    an accepted or failed one is dropped with result 0; a write of more than
    128 bytes runs over the buffer on the stack; and sscanf may read past its
    end, but only when neither the text nor what the stack held behind it has a
    zero. *)
Theorem list_proc_write_read s xs stack data len fuel : lp_wf s xs → (length xs + 1 < fuel)%nat → 0 <= len →
  length stack = 128%nat →
  seq_read m_list fuel s = Ret (Some (map (line s) xs), s) ∧
  if lp_finished s then
    ∃ s', proc_write m_list stack data len s = Ret (0, s') ∧ lp_finished s' = false ∧
      seq_read m_list fuel s' = Ret (Some (map (line s) xs), s')
  else if 128 <? len then proc_write m_list stack data len s = Fault OutOfBounds
  else
    let '(cs, uncopied) := copy_from_user (lp_user s) data (Z.to_nat len) in
    let buf := cs ++ (Some <$> drop (Z.to_nat len) stack) in
    if (uncopied =? 0)%nat then
      match sscanf_d_d buf with
      | None => proc_write m_list stack data len s = Fault OutOfBounds ∧ Some x00 ∉ buf
      | Some (a, b) => ∃ r s', proc_write m_list stack data len s = Ret (r, s') ∧ lp_finished s' = true ∧
          ((r = - EFAULT ∧ seq_read m_list fuel s' = Ret (Some (map (line s) xs), s')) ∨
           (r = len ∧ seq_read m_list fuel s' =
              Ret (Some ((MInfo a b, sum (MInfo a b)) :: map (line s) xs), s')))
      end
    else ∃ s', proc_write m_list stack data len s = Ret (- EFAULT, s') ∧ lp_finished s' = true ∧
      seq_read m_list fuel s' = Ret (Some (map (line s) xs), s').
Proof.
  intros W Hf Hlen Lst.
  assert (RD : ∀ s xs, lp_wf s xs → (length xs < fuel)%nat → seq_read m_list fuel s = Ret (Some (map (line s) xs), s)).
  { intros s0 ys W0 Hy. destruct (wp_elim _ _ _ (seq_read_wp s0 ys fuel W0 Hy)) as (r & s' & ? & -> & ->). done. }
  split; [apply RD; [done|lia]|]. unfold proc_write, mbind, M_bind, mget.
  destruct (lp_finished s) eqn:Ef.
  { eexists. split; [done|]. split; [done|]. apply (RD (set_flags (lp_locked s) false s) xs); [by apply lp_wf_flags|lia]. }
  unfold mmodify, fill_buf. cbn [lp_user set_flags].
  destruct (Z.ltb_spec 128 len) as [Hb|Hb]; [by rewrite (proj2 (Z.leb_gt len 128) Hb)|].
  rewrite (proj2 (Z.leb_le len 128) Hb).
  destruct (copy_from_user (lp_user s) data (Z.to_nat len)) as [cs uncopied] eqn:Ec.
  assert (Lc : length cs = Z.to_nat len).
  { pose proof (cfu_length_law (lp_user s) data (Z.to_nat len)) as L. by rewrite Ec in L. }
  rewrite inserts_prefix by (rewrite length_fmap; lia). rewrite skipn_map, Lc. cbv zeta.
  set (buf := cs ++ _). set (s1 := set_flags (lp_locked s) true s).
  assert (W1 : lp_wf s1 xs) by by apply lp_wf_flags.
  destruct uncopied as [|k]; cbn [Nat.eqb negb].
  2: { exists s1. split_and!; [done..|]. apply (RD s1 xs W1). lia. }
  destruct (sscanf_d_d buf) as [[a b]|] eqn:Es; [|split; [done|]; intros Hz; by apply (sscanf_end_law buf)].
  destruct (wp_elim _ _ _ (add_data_wp s1 xs a b W1)) as (r & s2 & E2 & (_ & _ & _ & _ & Ff) & Hr).
  rewrite E2. destruct Hr as [(-> & W2 & Ei & _)|(-> & l & Hl & W2 & Ei & _)]; cbn [Z.eqb negb ENOMEM Z.opp].
  - exists (- EFAULT), s2. split_and!; [done|done|]. left. split; [done|].
    rewrite (RD s2 xs W2) by lia. unfold line. by rewrite Ei.
  - exists len, s2. split_and!; [done|done|]. right. split; [done|].
    rewrite (RD s2 (l :: xs) W2) by (simpl; lia). rewrite map_cons.
    rewrite (lines_fresh s1 s2 xs l _ W1 Hl Ei). unfold line at 1. rewrite Ei, lookup_insert_eq. done.
Qed.

(** *** Unloading *)

Lemma remove_loop_wp s xs : lp_wf s xs →
  wp (mforeach xs (λ node, on_store (kl_del node) ≫= λ _, kfree_info node)) s (λ _ s',
    lp_wf s' [] ∧ same_env s s' ∧ live (lp_heap s') = live (lp_heap s) ∖ list_to_set xs).
Proof.
  revert s. induction xs as [|x xs IH]; intros s W; cbn [mforeach].
  { wp_step. split_and!; [done|done|]. simpl. by rewrite difference_empty_L. }
  pose proof (kl_rep_nodup _ _ _ (lw_rep _ _ W)) as Hd. apply NoDup_cons in Hd as [Hh Hd].
  apply NoDup_cons in Hd as [Hx _].
  wp_step. wp_step. apply on_store_wp. eapply wp_mono; [|apply (kl_del_law (lp_store s) m_list [] x xs), (lw_rep _ _ W)].
  intros _ l [R1 _]. unfold wp at 1, kfree_info. cbn [lp_heap set_mem].
  rewrite bool_decide_eq_true_2 by (apply (lw_live _ _ W); set_solver).
  set (s1 := set_mem _ _ _ _). assert (W1 : lp_wf s1 xs).
  { split; simpl.
    - apply kl_free_law; [done|]. set_solver.
    - intros y Hy. rewrite kfree_law. apply elem_of_difference.
      split; [apply (lw_live _ _ W)|]; set_solver.
    - intros y Hy. rewrite lookup_delete_ne by (intros ->; done). apply (lw_info _ _ W). by constructor.
    - apply W. }
  eapply wp_mono; [|by apply IH]. intros _ s2 (W2 & E & L). split_and!; [done|done|].
  rewrite L. simpl. rewrite kfree_law. by rewrite difference_difference_l_L.
Qed.

(** The files of the module: a directory and the entry in it. *)
Lemma proc_init_wp s : wp proc_init s (λ r s', same_env s (set_proc (lp_proc s) (proc_dir s) (proc_file s) s') ∧
  lp_heap s' = lp_heap s ∧ lp_store s' = lp_store s ∧ lp_info s' = lp_info s ∧ lp_locked s' = lp_locked s ∧
  (r = 0 ∨ r = -1) ∧ (r = 0 → ∃ d f, proc_dir s' = Some d ∧ proc_file s' = Some f ∧
    f ∈ pf_tree (lp_proc s') d)).
Proof.
  unfold proc_init. wp_step. unfold wp at 1, on_proc at 1.
  destruct (proc_mkdir (lp_proc s)) as [[d|] p] eqn:E1; wp_step; wp_step.
  - wp_step. unfold wp at 1, on_proc at 1. cbn [lp_proc set_proc].
    destruct (proc_create d p) as [[f|] p'] eqn:E2; wp_step; wp_step.
    + wp_step. cbn. split_and!; try done; [by left|]. intros _. exists d, f.
      apply proc_create_some_law in E2 as (_ & _ & ->). split_and!; [done|done|].
      apply elem_of_union_l. by apply elem_of_singleton.
    + wp_step. unfold wp at 1, on_proc at 1. wp_step. cbn. split_and!; try done. by right.
  - wp_step. cbn. split_and!; try done. by right.
Qed.

(** Unloading the module after it loaded goes wrong: the directory is removed
    with the file in it, and then both entries, freed by that, are handed to
    proc_remove.  The list is released before that, every pair of it. *)
Theorem list_proc_unload_frees_twice s s' fuel : lp_wf s [] → proc_dev_init m_list s = Ret (0, s') →
  (2 < fuel)%nat →
  (∃ s1, remove_sample_data m_list fuel s' = Ret (Some 0, s1) ∧ lp_wf s1 [] ∧
     live (lp_heap s1) = live (lp_heap s)) ∧
  proc_dev_exit m_list fuel s' = Fault BadFree.
Proof.
  intros W Hrun Hf.
  assert (HI : wp (proc_dev_init m_list) s (λ r s', r = 0 → ∃ l1 l2, lp_wf s' [l2; l1] ∧
    live (lp_heap s') ∖ list_to_set [l2; l1] = live (lp_heap s) ∧
    ∃ d f, proc_dir s' = Some d ∧ proc_file s' = Some f ∧ f ∈ pf_tree (lp_proc s') d)).
  { unfold proc_dev_init, add_sample_data. do 2 wp_step.
    eapply wp_mono; [|by apply add_data_wp]. intros r1 s1 [_ [(-> & _)|(-> & l1 & N1 & W1 & _ & L1)]]; cbn; [by wp_steps|].
    wp_step. eapply wp_mono; [|by apply add_data_wp]. intros r2 s2 [_ [(-> & _)|(-> & l2 & N2 & W2 & _ & L2)]];
      cbn; [by wp_steps|].
    eapply wp_mono; [|apply proc_init_wp]. intros r3 s3 (_ & Eh & Es & Ei & El & _ & Hr) H0'.
    exists l1, l2. split_and!.
    - destruct W2. split; congruence || (rewrite ?Eh, ?Es, ?Ei, ?El; done).
    - rewrite Eh, L2, L1. rewrite L1 in N2. clear -N1 N2. apply set_eq. intros x. set_solver.
    - auto. }
  destruct (wp_run _ _ _ _ _ HI Hrun eq_refl) as (l1 & l2 & W' & L & d & f & Ed & Ef & Hin).
  assert (HR : wp (remove_sample_data m_list fuel) s' (λ r s1, r = Some 0 ∧ lp_wf s1 [] ∧
    same_env s' s1 ∧ live (lp_heap s1) = live (lp_heap s))).
  { unfold remove_sample_data. do 2 wp_step.
    rewrite (kl_from_rep _ _ [l2; l1] 0 _ fuel (lw_rep _ _ W')); [|done|simpl; lia].
    wp_step. eapply wp_mono; [|apply remove_loop_wp, W']. intros _ s1 (W1 & E1 & L1). wp_step.
    split_and!; [done|done|done|]. etrans; [exact L1|exact L]. }
  destruct (wp_elim _ _ _ HR) as (r & s1 & Hr & -> & W1 & (_ & E1 & E2 & E3 & _) & L1). split; [by eauto|].
  unfold proc_dev_exit. erewrite bind_run by exact Hr. unfold proc_exit.
  erewrite bind_run by done. rewrite E2, Ed. erewrite bind_run by done.
  apply bind_fault. unfold proc_remove. simpl. rewrite E3, Ef, E1.
  rewrite bool_decide_eq_false_2; [done|]. rewrite remove_tree_law. set_solver.
Qed.

End thms.

(** ** A concrete machine *)

(** Decimal digits of a buffer: the number, if any, and what follows.  No
    signs, and one space between the numbers. *)
Fixpoint digits (acc : option Z) (l : list cell) : option Z * list cell :=
  match l with
  | Some c :: r =>
      let d := Z.of_N (Byte.to_N c) - 48 in
      if (0 <=? d) && (d <=? 9) then digits (Some (10 * default 0 acc + d)) r else (acc, l)
  | _ => (acc, l)
  end.
Definition demo_sscanf (buf : list cell) : option (option Z * option Z) :=
  match digits None buf with
  | (_, []) => None
  | (Some a, Some x20 :: r) =>
      match digits None r with
      | (_, []) => None
      | (b, _) => Some (Some a, b)
      end
  | (a, _) => Some (a, None)
  end.
Lemma digits_end acc l : Some x00 ∈ l → Some x00 ∈ (digits acc l).2.
Proof.
  revert acc. induction l as [|c l IH]; intros acc Hl; [done|]. cbn [digits].
  destruct c as [b|]; [|done]. apply elem_of_cons in Hl as [[= <-]|Hl]; [by left|].
  destruct (_ && _); [by apply IH|by right].
Qed.
#[local] Instance demo_scanf : Scanf.
Proof.
  refine {| sscanf_d_d := demo_sscanf |}. intros buf Hz. unfold demo_sscanf.
  pose proof (digits_end None buf Hz) as D. destruct (digits None buf) as [a [|c r]]; simpl in D.
  { by apply elem_of_nil in D. }
  destruct (decide (c = Some x20)) as [->|Hc].
  - destruct a as [a|]; [|done]. apply elem_of_cons in D as [[=]|D]. pose proof (digits_end None r D) as D'.
    destruct (digits None r) as [b [|c' r']]; simpl in D'; [by apply elem_of_nil in D'|done].
  - destruct a as [a|]; [|done]. destruct c as [b|]; [|done]. destruct b; done.
Defined.

Record pfs := Pfs { pfs_live : gset loc; pfs_tree : loc → gset loc }.
#[local] Program Instance demo_procfs : ProcFs pfs := {
  pf_live := pfs_live;
  pf_tree := pfs_tree;
  proc_mkdir p := let d := fresh (pfs_live p) in
    (Some d, Pfs ({[d]} ∪ pfs_live p) (λ x, if decide (x = d) then {[d]} else pfs_tree p x));
  proc_create d p := let f := fresh (pfs_live p) in
    (Some f, Pfs ({[f]} ∪ pfs_live p) (λ x, if decide (x = d) then {[f]} ∪ pfs_tree p x else pfs_tree p x));
  remove_tree d p := Pfs (pfs_live p ∖ pfs_tree p d) (pfs_tree p)
}.
Next Obligation.
  intros p d p' [= <- <-]. split_and!; [apply is_fresh|done|]. simpl. by rewrite decide_True.
Qed.
Next Obligation. done. Qed.
Next Obligation.
  intros d p f p' [= <- <-]. split_and!; [apply is_fresh|done|]. simpl. by rewrite decide_True.
Qed.
Next Obligation. done. Qed.
Next Obligation. done. Qed.

(** The user has "7 5" and a newline at address 100, and digits at 200. *)
Definition demo_text : umap :=
  umap_store (umap_store ∅ 200 (replicate 128 (Some x31))) 100 [Some x37; Some x20; Some x35; Some x0a].
Definition demo_lp (finished : bool) : lp_st bump nodes umap pfs :=
  LpSt (Bump {[1%positive]} 2 []) {[1%positive := ListHead (Some 1%positive) (Some 1%positive)]} ∅
    false finished demo_text (Pfs ∅ (λ _, ∅)) None None.

Lemma demo_lp_wf f : lp_wf 1 (demo_lp f) [].
Proof.
  split; [|..|done].
  - split; [by split|]. apply (bool_decide_unpack _). by vm_compute.
  - intros l Hl. apply list_elem_of_singleton in Hl. subst. simpl. clear. set_solver.
  - by intros l ?%not_elem_of_nil.
Qed.

Definition demo_stack : list byte := replicate 128 x41.

Example demo_lp_runs :
  match proc_write 1 demo_stack 100 4 (demo_lp false) with
  | Ret (r, s) => r = 4 ∧
      match seq_read 1 3 s with
      | Ret (Some out, _) => out = [(MInfo (Some 7) (Some 5), Some 12)]
      | _ => False
      end
  | Fault _ => False
  end.
Proof. vm_compute. done. Qed.

Lemma list_proc_write_read_witness :
  seq_read 1 3 (demo_lp false) = Ret (Some [], demo_lp false) ∧
  (∃ r s', proc_write 1 demo_stack 100 4 (demo_lp false) = Ret (r, s') ∧ lp_finished s' = true) ∧
  (* 128 bytes, all of them digits *)
  proc_write 1 demo_stack 200 128 (demo_lp false) = Fault OutOfBounds.
Proof.
  destruct (list_proc_write_read 1 (demo_lp false) [] demo_stack 100 4 3 (demo_lp_wf false)) as [A B];
    [simpl; lia|lia|reflexivity|]. split; [exact A|].
  destruct (list_proc_write_read 1 (demo_lp false) [] demo_stack 200 128 3 (demo_lp_wf false)) as [_ C];
    [simpl; lia|lia|reflexivity|]. cbn [lp_finished demo_lp] in B, C.
  change (128 <? 4) with false in B. change (128 <? 128) with false in C. cbv iota in B, C.
  vm_compute (copy_from_user _ _ _) in B. vm_compute (copy_from_user _ _ _) in C. cbv beta iota zeta in B, C.
  vm_compute (sscanf_d_d _) in B. vm_compute (sscanf_d_d _) in C. cbv beta iota in B, C.
  split; [|exact (proj1 C)]. destruct B as (r & s' & E & F & _). exists r, s'. split; [exact E|exact F].
Defined.

Definition demo_lp_loaded : lp_st bump nodes umap pfs :=
  match proc_dev_init 1 (demo_lp false) with Ret (_, s) => s | Fault _ => demo_lp false end.
Lemma list_proc_unload_frees_twice_witness : proc_dev_exit 1 3 demo_lp_loaded = Fault BadFree.
Proof.
  refine (proj2 (list_proc_unload_frees_twice 1 (demo_lp false) demo_lp_loaded 3 (demo_lp_wf false) _ _)).
  - unfold demo_lp_loaded. by vm_compute.
  - lia.
Defined.

Lemma simple_show_eq_seq_read_witness : simple_show 1 3 (demo_lp false) = seq_read 1 3 (demo_lp false) ∧
  simple_show 1 3 (set_flags true false (demo_lp false)) = Ret (Some [], set_flags true false (demo_lp false)).
Proof.
  destruct (simple_show_eq_seq_read 1 (demo_lp false) [] false 3 (demo_lp_wf false)) as (A & _ & C & _); [simpl; lia|].
  split; [exact A|exact C].
Defined.
