(* ===== verification/CharDev.v ===== *)
(** The character devices of src/m_modules/char_dev/chardev.c and ioctl.c.

    Both files load and unload the same way, with two minors and one.
    chardev.c gives every open file a buffer of its own; ioctl.c keeps one
    static structure that its commands copy in and out.  What printk prints is
    not modelled, but the strings it reads for a %s are: one without an end is
    read past its block. *)
From Stdlib Require Import ZArith Lia.
From stdpp Require Import base list gmap.
From S2P Require Import Prelude Kernel ChrReg.

(** ** Loading and unloading *)

(** The statics [chardev_major] and [chardev_class], and the kernel's side. *)
Record chr_st (H R D : Type) := ChrSt {
  c_major : Z;
  c_class : option loc;
  c_cdevs : gset cdev_id;        (* cdevs holding a reference *)
  c_heap : H;
  c_reg : R;
  c_dm : D
}.
Arguments ChrSt {H R D}.
Arguments c_major {H R D}.
Arguments c_class {H R D}.
Arguments c_cdevs {H R D}.
Arguments c_heap {H R D}.
Arguments c_reg {H R D}.
Arguments c_dm {H R D}.

Section load.
Context {H R D : Type} `{KernelHeap H} `{ChrDevs R} `{DevModel D}.
Abbreviation st := (chr_st H R D).

Definition set_chr (major : Z) (cl : option loc) (s : st) : st :=
  ChrSt major cl (c_cdevs s) (c_heap s) (c_reg s) (c_dm s).
Definition set_ckernel (c : gset cdev_id) (r : R) (d : D) (s : st) : st :=
  ChrSt (c_major s) (c_class s) c (c_heap s) r d.

Definition reg_call {A} (f : R → A * R) : M st A := λ s,
  let '(a, r) := f (c_reg s) in Ret (a, set_ckernel (c_cdevs s) r (c_dm s) s).
Definition dm_call {A} (f : D → A * D) : M st A := λ s,
  let '(a, d) := f (c_dm s) in Ret (a, set_ckernel (c_cdevs s) (c_reg s) d s).
Definition dm_do (f : D → D) : M st unit := dm_call (λ d, (tt, f d)).
Definition unregister (dev n : Z) : M st unit :=
  reg_call (λ r, (tt, unregister_chrdev_region dev n r)).
Definition cdev_init (c : cdev_id) : M st unit :=
  mmodify (λ s, set_ckernel ({[c]} ∪ c_cdevs s) (c_reg s) (c_dm s) s).
Definition cdev_del (c : cdev_id) : M st unit := λ s,
  if bool_decide (c ∈ c_cdevs s)
  then Ret (tt, set_ckernel (c_cdevs s ∖ {[c]}) (cdev_unmap c (c_reg s)) (c_dm s) s)
  else Fault BadFree.

Definition MINOR_BASE := 0.

(** [minor_num] is MINOR_NUM of the file.  Errors of device_create are not
    looked at. *)
Definition chr_init (minor_num : Z) : M st Z :=
  r ← reg_call (alloc_chrdev_region MINOR_BASE minor_num);
  match r with
  | inl _ => mret (-1)
  | inr dev =>
      let major := MAJOR dev in
      let dev := MKDEV major MINOR_BASE in
      mmodify (λ s, set_chr major (c_class s) s) ≫= λ _,
      cdev_init (CChar 0) ≫= λ _,
      cdev_err ← reg_call (cdev_add (CChar 0) dev minor_num);
      if negb (cdev_err =? 0) then unregister dev minor_num ≫= λ _, mret (-1) else
      cl ← dm_call class_create;
      match cl with
      | inl _ => cdev_del (CChar 0) ≫= λ _, unregister dev minor_num ≫= λ _, mret (-1)
      | inr c =>
          mmodify (λ s, set_chr (c_major s) (Some c) s) ≫= λ _,
          mfor 0 (Z.to_nat minor_num) (λ minor,
            dm_call (device_create c (MKDEV major (MINOR_BASE + Z.of_nat minor))) ≫= λ _,
            mret tt) ≫= λ _,
          mret 0
      end
  end.

Definition chr_exit (minor_num : Z) : M st unit :=
  s ← mget;
  match c_class s with
  | None => mfault NullDeref
  | Some c =>
      mfor 0 (Z.to_nat minor_num) (λ minor,
        dm_do (device_destroy c (MKDEV (c_major s) (MINOR_BASE + Z.of_nat minor)))) ≫= λ _,
      dm_do (class_destroy c) ≫= λ _,
      cdev_del (CChar 0) ≫= λ _,
      unregister (MKDEV (c_major s) MINOR_BASE) minor_num
  end.

Definition init_chardev : M st Z := chr_init 2.        (* chardev.c *)
Definition exit_chardev : M st unit := chr_exit 2.
Definition chardev_init : M st Z := chr_init 1.        (* ioctl.c *)
Definition chardev_exit : M st unit := chr_exit 1.

End load.

(** ** Strings *)

(** The characters before the terminating zero; [None]: there is no zero. *)
Fixpoint c_str (cs : list cell) : option (list cell) :=
  match cs with
  | [] => None
  | Some x00 :: _ => Some []
  | c :: r => (λ s, c :: s) <$> c_str r
  end.

(** ** chardev.c: the files *)

(** What a block of [n] bytes holds when kmalloc gives it out: whatever was
    left there.  Nothing but its length is known. *)
Class HeapResidue (H : Type) := {
  residue : H → loc → nat → list byte;
  residue_length_law : ∀ h l n, length (residue h l n) = n
}.

Definition BUF_LEN := 1024.

(** Open files by descriptor: their [private_data], a block of BUF_LEN bytes. *)
Record cfile_st (H U : Type) := CFileSt {
  cf_heap : H;
  cf_user : U;
  cf_files : gmap nat (option (loc * list cell))
}.
Arguments CFileSt {H U}.
Arguments cf_heap {H U}.
Arguments cf_user {H U}.
Arguments cf_files {H U}.

Section files.
Context {H U : Type} `{KernelHeap H} `{HeapResidue H} `{UserMem U}.
Abbreviation st := (cfile_st H U).

Definition set_file (f : nat) (p : option (loc * list cell)) (s : st) : st :=
  CFileSt (cf_heap s) (cf_user s) (<[f := p]> (cf_files s)).
Definition private_data (f : nat) : M st (option (loc * list cell)) := λ s,
  Ret (default None (cf_files s !! f), s).

Definition chardev_open (f : nat) : M st Z := λ s,
  let '(p, h) := kmalloc BUF_LEN (cf_heap s) in
  let s := CFileSt h (cf_user s) (cf_files s) in
  match p with
  | None => Ret (- ENOMEM, s)
  | Some l => Ret (0, set_file f (Some (l, Some <$> residue h l (Z.to_nat BUF_LEN))) s)
  end.

Definition cf_kfree (l : loc) : M st unit := λ s,
  if bool_decide (l ∈ live (cf_heap s))
  then Ret (tt, CFileSt (kfree l (cf_heap s)) (cf_user s) (cf_files s))
  else Fault BadFree.

Definition chardev_release (f : nat) : M st Z :=
  p ← private_data f;
  match p with
  | None => mret 0
  | Some (l, _) => cf_kfree l ≫= λ _, mmodify (set_file f None) ≫= λ _, mret 0
  end.

(** copy_from_user(p->buffer, buf, count): [true] when every byte was copied;
    what it stored before it failed stays in the buffer. *)
Definition user_to_data (f : nat) (l : loc) (mem : list cell) (buf count : Z) : M st bool := λ s,
  if Z.of_nat (length mem) <? count then Fault OutOfBounds else
  let '(cs, uncopied) := copy_from_user (cf_user s) buf (Z.to_nat count) in
  Ret ((uncopied =? 0)%nat, set_file f (Some (l, list_inserts 0 cs mem)) s).
Definition data_to_user (mem : list cell) (buf count : Z) : M st bool := λ s,
  if Z.of_nat (length mem) <? count then Fault OutOfBounds else
  let '(u, uncopied) := copy_to_user (cf_user s) buf (take (Z.to_nat count) mem) in
  Ret ((uncopied =? 0)%nat, CFileSt (cf_heap s) u (cf_files s)).

(** printk("%s", mem) reads up to the terminating zero, wherever that is. *)
Definition printk_s (mem : list cell) : M st unit :=
  match c_str mem with
  | Some _ => mret tt
  | None => mfault OutOfBounds
  end.
Definition buffer (f : nat) : M st (loc * list cell) :=
  p ← private_data f;
  match p with
  | Some b => mret b
  | None => mfault NullDeref
  end.

(** [count] is not compared with BUF_LEN; the buffer is printed before and
    after the copy. *)
Definition chardev_write (f : nat) (buf count : Z) : M st Z :=
  '(l, mem) ← buffer f;
  printk_s mem ≫= λ _,
  ok ← user_to_data f l mem buf count;
  if negb ok then mret (- EFAULT) else
  '(_, mem) ← buffer f;
  printk_s mem ≫= λ _,
  mret (s64 count).

Definition chardev_read (f : nat) (buf count : Z) : M st Z :=
  let count := if BUF_LEN <? count then BUF_LEN else count in
  '(l, mem) ← buffer f;
  ok ← data_to_user mem buf count;
  mret (if (ok : bool) then s64 count else - EFAULT).

End files.

(** ** ioctl.c: the structure and its commands *)

(** The bytes of a machine word, low byte first; [None] when one of them was
    never written. *)
Fixpoint le_word (cs : list cell) : option Z :=
  match cs with
  | [] => Some 0
  | c :: r => b ← c; w ← le_word r; Some (Z.of_N (Byte.to_N b) + 256 * w)
  end.
Fixpoint word_le (n : nat) (w : Z) : list cell :=
  match n with
  | O => []
  | Datatypes.S n' => Byte.of_N (Z.to_N (w mod 256)) :: word_le n' (w / 256)
  end.

(** struct ioctl_info: the eight bytes of [size], then [buf]. *)
Record ioctl_info := IoctlInfo { ii_size : list cell; ii_buf : list cell }.
Definition sizeof_info := 136.
Definition INFO_BUF := 128.

Definition info_bytes (i : ioctl_info) : list cell := ii_size i ++ ii_buf i.
Definition info_of (cs : list cell) : ioctl_info := IoctlInfo (take 8 cs) (drop 8 cs).

Definition hello : list cell := Some <$> [x20; x68; x65; x6c; x6c; x6f].   (* " hello" *)

(** sprintf(info.buf, "%s %s", info.buf, "hello"): source and destination are
    the same, which leaves the string where it is and appends; too long a
    string, or none, runs over the end of the structure. *)
Definition append_hello (buf : list cell) : option (list cell) :=
  s ← c_str buf;
  let out := s ++ hello ++ [Some x00] in
  if (length out <=? length buf)%nat then Some (list_inserts 0 out buf) else None.

(** info.size += strlen(" hello") *)
Definition add_size (sz : list cell) (n : Z) : list cell :=
  match le_word sz with
  | Some w => word_le 8 (u64 (w + n))
  | None => replicate 8 None
  end.

Record ioc_st (U : Type) := IocSt { io_info : ioctl_info; io_user : U }.
Arguments IocSt {U}.
Arguments io_info {U}.
Arguments io_user {U}.

Section commands.
Context {U : Type} `{UserMem U} `{IocCodec}.
Abbreviation st := (ioc_st U).

Definition IOCTL_MAGIC := 71.
Definition IOCTL_READ := _IOR IOCTL_MAGIC 0 sizeof_info.
Definition IOCTL_WRITE := _IOW IOCTL_MAGIC 1 sizeof_info.
Definition IOCTL_STATUS := _IO IOCTL_MAGIC 2.
Definition IOCTL_RW := _IOWR IOCTL_MAGIC 3 sizeof_info.

(** [true]: all bytes were copied. *)
Definition info_to_user (arg : Z) : M st bool := λ s,
  let '(u, uncopied) := copy_to_user (io_user s) arg (info_bytes (io_info s)) in
  Ret ((uncopied =? 0)%nat, IocSt (io_info s) u).
Definition info_from_user (arg : Z) : M st bool := λ s,
  let '(cs, uncopied) := copy_from_user (io_user s) arg (Z.to_nat sizeof_info) in
  Ret ((uncopied =? 0)%nat, IocSt (info_of cs) (io_user s)).

Definition chardev_ioctl (cmd arg : Z) : M st Z :=
  if cmd =? IOCTL_READ then
    ok ← info_to_user arg; mret (if (ok : bool) then 0 else - EFAULT)
  else if cmd =? IOCTL_WRITE then
    ok ← info_from_user arg; mret (if (ok : bool) then 0 else - EFAULT)
  else if cmd =? IOCTL_STATUS then mret 0
  else if cmd =? IOCTL_RW then
    ok ← info_from_user arg;
    if negb ok then mret (- EFAULT) else
    s ← mget;
    match append_hello (ii_buf (io_info s)) with
    | None => mfault OutOfBounds
    | Some b =>
        mmodify (λ s, IocSt (IoctlInfo (add_size (ii_size (io_info s)) 6) b) (io_user s)) ≫= λ _,
        ok ← info_to_user arg; mret (if (ok : bool) then 0 else - EFAULT)
    end
  else mret (- EFAULT).

(** The other operations of the file do nothing but answer. *)
Definition ioc_open : Z := 0.
Definition ioc_release : Z := 0.
Definition ioc_read (count : Z) : Z := s64 count.
Definition ioc_write (count : Z) : Z := s64 count.

End commands.
