(* ===== verification/CharDevThms.v ===== *)
(** Theorems on chardev.c and ioctl.c: loading and unloading leave nothing
    behind; every session over the open files of chardev.c is a session of the
    specification in which a file is a list of bytes; the commands of ioctl.c
    carry the structure unchanged and IOCTL_RW appends to its string. *)
From Stdlib Require Import ZArith Lia.
From stdpp Require Import base list gmap.
From S2P Require Import Prelude Kernel ChrReg CharDev.

(** ** Loading and unloading *)

Section load.
Context {H R D : Type} `{KernelHeap H} `{ChrDevs R} `{DevModel D}.
Abbreviation st := (chr_st H R D).
Implicit Types s : st.

Definition chr_restored s s' : Prop :=
  reg_devs (c_reg s') = reg_devs (c_reg s) ∧ reg_cdevs (c_reg s') = reg_cdevs (c_reg s) ∧
  dm_classes (c_dm s') = dm_classes (c_dm s) ∧ dm_nodes (c_dm s') = dm_nodes (c_dm s).

(** Nodes belong to classes that exist, and the driver's cdev is not in use. *)
Definition chr_unloaded s : Prop :=
  (∀ c n, (c, n) ∈ dm_nodes (c_dm s) → c ∈ dm_classes (c_dm s)) ∧ CChar 0 ∉ reg_cdevs (c_reg s).

Definition node_list (c : loc) (major : Z) (k : nat) : list (loc * Z) :=
  (λ i : nat, (c, MKDEV major (MINOR_BASE + Z.of_nat i))) <$> seq 0 k.

Lemma node_list_S c major k : (list_to_set (node_list c major (S k)) : gset (loc * Z)) =
  list_to_set (node_list c major k) ∪ {[(c, MKDEV major (MINOR_BASE + Z.of_nat k))]}.
Proof.
  unfold node_list. rewrite seq_S, fmap_app, list_to_set_app_L. cbn [fmap list_fmap list_to_set].
  by rewrite (right_id_L ∅ (∪)).
Qed.
Lemma node_list_class c major k x n : (x, n) ∈ (list_to_set (node_list c major k) : gset (loc * Z)) → x = c.
Proof.
  rewrite elem_of_list_to_set. unfold node_list. rewrite list_elem_of_fmap. by intros (i & [= -> _] & _).
Qed.

(** The loops change the nodes only. *)
Definition nodes_to s s' (N : gset (loc * Z) → Prop) : Prop :=
  ∃ d, s' = set_ckernel (c_cdevs s) (c_reg s) d s ∧ dm_classes d = dm_classes (c_dm s) ∧ N (dm_nodes d).

Lemma create_loop c major n k s0 s :
  nodes_to s0 s (λ N, dm_nodes (c_dm s0) ⊆ N ⊆ dm_nodes (c_dm s0) ∪ list_to_set (node_list c major k)) →
  wp (mfor k n (λ minor,
    dm_call (device_create c (MKDEV major (MINOR_BASE + Z.of_nat minor))) ≫= λ _, mret tt)) s
    (λ _ s', nodes_to s0 s' (λ N,
      dm_nodes (c_dm s0) ⊆ N ⊆ dm_nodes (c_dm s0) ∪ list_to_set (node_list c major (k + n)))).
Proof.
  revert k s. induction n as [|n IH]; intros k s I; simpl.
  - wp_step. by rewrite Nat.add_0_r.
  - rewrite <- Nat.add_succ_comm. destruct I as (d & -> & Ec & E1 & E2).
    apply wp_bind, wp_bind. unfold wp at 1, dm_call. cbn [c_dm set_ckernel].
    destruct (device_create c _ d) as [z d'] eqn:Ed. wp_step. apply IH. exists d'.
    destruct (device_create_law _ _ _ _ _ Ed) as (L & Ok & Er).
    split; [done|]. split; [congruence|]. rewrite node_list_S.
    destruct (decide (z = 0)) as [->|Nz]; [rewrite Ok by done|rewrite Er by done];
      clear -E1 E2; set_solver.
Qed.

Lemma destroy_loop c major n k s0 s :
  nodes_to s0 s (λ N, N = dm_nodes (c_dm s0) ∖ list_to_set (node_list c major k)) →
  wp (mfor k n (λ minor,
    dm_do (device_destroy c (MKDEV major (MINOR_BASE + Z.of_nat minor))))) s
    (λ _ s', nodes_to s0 s' (λ N, N = dm_nodes (c_dm s0) ∖ list_to_set (node_list c major (k + n)))).
Proof.
  revert k s. induction n as [|n IH]; intros k s I; simpl.
  - wp_step. by rewrite Nat.add_0_r.
  - rewrite <- Nat.add_succ_comm. destruct I as (d & -> & Ec & E1).
    apply wp_bind. unfold wp at 1, dm_do, dm_call. cbn [c_dm set_ckernel]. apply IH.
    eexists. split; [reflexivity|].
    destruct (device_destroy_law c (MKDEV major (MINOR_BASE + Z.of_nat k)) d) as [L1 L2].
    split; [congruence|]. rewrite L2, E1, node_list_S. apply difference_difference_l_L.
Qed.

Lemma chr_exit_wp num s c : c_class s = Some c → CChar 0 ∈ c_cdevs s →
  wp (chr_exit num) s (λ _ s',
    reg_devs (c_reg s') = reg_devs (c_reg s) ∖ dev_range (MKDEV (c_major s) MINOR_BASE) num ∧
    reg_cdevs (c_reg s') = reg_cdevs (c_reg s) ∖ {[CChar 0]} ∧
    dm_classes (c_dm s') = dm_classes (c_dm s) ∖ {[c]} ∧
    dm_nodes (c_dm s') = dm_nodes (c_dm s) ∖ list_to_set (node_list c (c_major s) (Z.to_nat num))).
Proof.
  intros Ec Ek. unfold chr_exit. wp_step. wp_step. rewrite Ec. wp_step.
  eapply wp_mono; [|apply (destroy_loop c (c_major s) (Z.to_nat num) 0 s)].
  2: { exists (c_dm s). split; [by destruct s|]. split; [done|]. symmetry. apply difference_empty_L. }
  intros ? s1 (d & -> & E1 & E2). rewrite Nat.add_0_l in E2.
  wp_step. unfold wp at 1, dm_do, dm_call. cbn [c_dm set_ckernel]. wp_step.
  unfold wp at 1, cdev_del. simpl. rewrite bool_decide_eq_true_2 by done.
  unfold wp, unregister, reg_call. simpl.
  destruct (unregister_region_law (MKDEV (c_major s) MINOR_BASE) num (cdev_unmap (CChar 0) (c_reg s))) as [U1 U2].
  destruct (cdev_unmap_law (CChar 0) (c_reg s)) as [V1 V2]. destruct (class_destroy_law c d) as [W1 W2].
  rewrite U1, U2, V1, V2, W1, W2, E1, E2. done.
Qed.

(** Loading chardev.c (two minors) or ioctl.c (one) either returns -1 and
    leaves the device numbers, the cdevs, the classes and the nodes as they
    were, whichever step failed, or succeeds, and unloading then gives all of
    them back. *)
Theorem chardev_load_unload num s : 0 <= num → chr_unloaded s →
  wp (chr_init num) s (λ r s',
    (r = -1 ∧ chr_restored s s') ∨
    (r = 0 ∧ is_Some (c_class s') ∧ wp (chr_exit num) s' (λ _ s'', chr_restored s s''))).
Proof.
  intros Hn [Nodes Free]. unfold chr_init. wp_step. unfold wp at 1, reg_call.
  destruct (alloc_chrdev_region MINOR_BASE num (c_reg s)) as [[e|dev] g] eqn:Ea.
  { apply alloc_region_err_law in Ea as (_ & E1 & E2). wp_step. left. done. }
  apply alloc_region_ok_law in Ea as (Edev & _ & Ec & Dj & Ed). cbv zeta. rewrite <- Edev.
  wp_step. wp_step. wp_step. unfold cdev_init. wp_step. wp_step. unfold wp at 1, reg_call. simpl.
  destruct (cdev_add (CChar 0) dev num g) as [z g'] eqn:Eadd.
  destruct (cdev_add_law _ _ _ _ _ _ Eadd) as (Hz & D1 & Ok & Er).
  destruct (Z.eqb_spec z 0) as [->|Nz]; simpl.
  2: { wp_step. unfold wp at 1, unregister, reg_call. simpl. wp_step. left. split; [done|].
       destruct (unregister_region_law dev num g') as [U1 U2]. split_and!; simpl; try done.
       - rewrite U1, D1, Ed. by apply union_difference_back.
       - rewrite U2, Er by lia. done. }
  specialize (Ok eq_refl). wp_step. unfold wp at 1, dm_call. simpl.
  assert (Back : reg_cdevs g' ∖ {[CChar 0]} = reg_cdevs (c_reg s)).
  { rewrite Ok, Ec. clear -Free. set_solver. }
  assert (BackD : reg_devs g' ∖ dev_range dev num = reg_devs (c_reg s)).
  { rewrite D1, Ed. by apply union_difference_back. }
  destruct (class_create (c_dm s)) as [[e|c] d] eqn:Ecl.
  { apply class_create_err_law in Ecl as (_ & C1 & C2).
    wp_step. unfold wp at 1, cdev_del. simpl. rewrite bool_decide_eq_true_2 by set_solver.
    wp_step. unfold wp at 1, unregister, reg_call. simpl. wp_step. left. split; [done|].
    destruct (unregister_region_law dev num (cdev_unmap (CChar 0) g')) as [U1 U2].
    destruct (cdev_unmap_law (CChar 0) g') as [V1 V2].
    unfold chr_restored. simpl. rewrite U1, U2, V1, V2. done. }
  apply class_create_ok_law in Ecl as (Cf & C1 & C2).
  wp_step. wp_step. wp_step.
  match goal with |- wp _ ?s2 _ =>
    eapply wp_mono; [|apply (create_loop c (MAJOR dev) (Z.to_nat num) 0 s2 s2)] end.
  2: { eexists. split; [reflexivity|]. simpl. split; [done|]. split; [done|]. by apply union_subseteq_l. }
  intros ? s3 (d' & -> & C3 & N1 & N2). simpl in *. wp_step. right. split; [done|].
  split; [eauto|]. eapply wp_mono; [|apply (chr_exit_wp num _ c)]; [|done|simpl; set_solver].
  simpl. rewrite <- Edev. intros ? s4 (R1 & R2 & R3 & R4). unfold chr_restored.
  rewrite R1, R2, R3, R4. split_and!; [done|done|rewrite C3, C1; clear -Cf; set_solver|].
  apply set_eq. intros [x n]. rewrite elem_of_difference. rewrite <- C2. split.
  - intros [Hx Nx]. apply N2, elem_of_union in Hx as [|]; done.
  - intros Hx. split; [by apply N1|]. intros ->%node_list_class. apply Cf, (Nodes c n). by rewrite <- C2.
Qed.

End load.

(** ** chardev.c: sessions *)

#[local] Arguments Z.to_nat : simpl never.
#[local] Arguments replicate : simpl never.

(** What the VFS lets through: a call on an open file, an open of a free
    descriptor; a closed file is forgotten. *)
Inductive cf_call :=
  | COpen (f : nat)
  | CClose (f : nat)
  | CWrite (f : nat) (buf count : Z)
  | CRead (f : nat) (buf count : Z).
Definition EBADF := 9.

(** The specification: a file is a list of BUF_LEN bytes. *)
Abbreviation cf_spec U := (gmap nat (list cell) * U)%type.

Inductive spec_call {U} `{UserMem U} : cf_call → cf_spec U → Z → cf_spec U → Prop :=
  | sp_open f (A : gmap nat (list cell)) (u : U) bs : A !! f = None → length bs = Z.to_nat BUF_LEN →
      spec_call (COpen f) (A, u) 0 (<[f := Some <$> bs]> A, u)
  | sp_open_nomem f A u : A !! f = None → spec_call (COpen f) (A, u) (- ENOMEM) (A, u)
  | sp_close f A u : is_Some (A !! f) → spec_call (CClose f) (A, u) 0 (delete f A, u)
  | sp_write f buf n A u mem cs k : A !! f = Some mem →
      n <= BUF_LEN → is_Some (c_str mem) → copy_from_user u buf (Z.to_nat n) = (cs, k) →
      (k = 0%nat → is_Some (c_str (cs ++ drop (length cs) mem))) →
      spec_call (CWrite f buf n) (A, u) (if (k =? 0)%nat then n else - EFAULT)
        (<[f := cs ++ drop (length cs) mem]> A, u)
  | sp_read f buf n A u mem u' k : A !! f = Some mem →
      copy_to_user u buf (take (Z.to_nat (Z.min n BUF_LEN)) mem) = (u', k) →
      spec_call (CRead f buf n) (A, u) (if (k =? 0)%nat then Z.min n BUF_LEN else - EFAULT) (A, u')
  | sp_badf c A u : (match c with COpen f => is_Some (A !! f)
                     | CClose f | CWrite f _ _ | CRead f _ _ => A !! f = None end) →
      spec_call c (A, u) (- EBADF) (A, u).

(** A write that leaves the buffer of its file: one that is longer, or one
    before or after which the buffer holds no zero for the message to end at. *)
Definition overruns {U} `{UserMem U} (c : cf_call) (a : cf_spec U) : Prop :=
  match c with
  | CWrite f buf n => ∃ mem, a.1 !! f = Some mem ∧
      (BUF_LEN < n ∨ c_str mem = None ∨
       let '(cs, k) := copy_from_user a.2 buf (Z.to_nat n) in
       k = 0%nat ∧ c_str (cs ++ drop (length cs) mem) = None)
  | _ => False
  end.

(** A session, with the results of its calls. *)
Inductive spec_run {U} `{UserMem U} : list cf_call → cf_spec U → list Z → cf_spec U → Prop :=
  | sr_nil a : spec_run [] a [] a
  | sr_cons c cs a r a' rs a'' : spec_call c a r a' → spec_run cs a' rs a'' →
      spec_run (c :: cs) a (r :: rs) a''.

Section files.
Context {H U : Type} `{KernelHeap H} `{HeapResidue H} `{UserMem U}.
Abbreviation st := (cfile_st H U).
Implicit Types s : st.

Definition is_open (f : nat) s : bool := bool_decide (is_Some (cf_files s !! f)).

Definition vfs_call (c : cf_call) : M st Z :=
  s ← mget;
  match c with
  | COpen f => if is_open f s then mret (- EBADF) else chardev_open f
  | CClose f =>
      if negb (is_open f s) then mret (- EBADF) else
      r ← chardev_release f;
      mmodify (λ s, CFileSt (cf_heap s) (cf_user s) (delete f (cf_files s))) ≫= λ _, mret r
  | CWrite f buf n => if negb (is_open f s) then mret (- EBADF) else chardev_write f buf n
  | CRead f buf n => if negb (is_open f s) then mret (- EBADF) else chardev_read f buf n
  end.

Fixpoint vfs_run (cs : list cf_call) : M st (list Z) :=
  match cs with
  | [] => mret []
  | c :: r => z ← vfs_call c; zs ← vfs_run r; mret (z :: zs)
  end.

(** Counts are lengths. *)
Definition call_ok (c : cf_call) : Prop :=
  match c with
  | COpen _ | CClose _ => True
  | CWrite _ _ n | CRead _ _ n => 0 <= n
  end.

Definition cf_abs s : gmap nat (list cell) := omap (λ p, snd <$> p) (cf_files s).

(** Each open file has a block of its own, on top of those of [base]. *)
Definition cf_inv (base : gset loc) s : Prop :=
  (∀ f p, cf_files s !! f = Some p → ∃ l mem, p = Some (l, mem) ∧ length mem = Z.to_nat BUF_LEN ∧
     l ∈ live (cf_heap s) ∧ l ∉ base) ∧
  (∀ f g l mf mg, cf_files s !! f = Some (Some (l, mf)) → cf_files s !! g = Some (Some (l, mg)) → f = g) ∧
  (∀ l, l ∈ live (cf_heap s) ↔ l ∈ base ∨ ∃ f mem, cf_files s !! f = Some (Some (l, mem))).

Lemma cf_abs_lookup s f : cf_abs s !! f = cf_files s !! f ≫= λ p, snd <$> p.
Proof. unfold cf_abs. apply lookup_omap. Qed.
Lemma cf_abs_some base s f l mem : cf_inv base s → cf_files s !! f = Some (Some (l, mem)) →
  cf_abs s !! f = Some mem.
Proof. intros _ E. by rewrite cf_abs_lookup, E. Qed.
Lemma cf_abs_none base s f : cf_inv base s → cf_abs s !! f = None ↔ cf_files s !! f = None.
Proof.
  intros (I & _). rewrite cf_abs_lookup. destruct (cf_files s !! f) as [p|] eqn:E; simpl; [|done].
  destruct (I f p E) as (l & mem & -> & _). done.
Qed.
Lemma cf_abs_set s f l mem :
  cf_abs (set_file f (Some (l, mem)) s) = <[f := mem]> (cf_abs s).
Proof.
  apply map_eq. intros g. unfold cf_abs, set_file. simpl.
  by rewrite omap_insert_Some with (y := mem).
Qed.

Lemma open_cases base s f : cf_inv base s →
  (is_open f s = false ∧ cf_files s !! f = None ∧ cf_abs s !! f = None) ∨
  (is_open f s = true ∧ ∃ l mem, cf_files s !! f = Some (Some (l, mem)) ∧ cf_abs s !! f = Some mem ∧
     length mem = Z.to_nat BUF_LEN ∧ l ∈ live (cf_heap s) ∧ l ∉ base).
Proof.
  intros I. unfold is_open. destruct (cf_files s !! f) as [p|] eqn:E.
  - right. rewrite bool_decide_eq_true_2 by eauto. split; [done|].
    destruct (proj1 I f p E) as (l & mem & -> & Hl & L & B). exists l, mem.
    split_and!; try done. by eapply cf_abs_some.
  - left. rewrite bool_decide_eq_false_2 by (by intros []). split_and!; [done|done|].
    by apply (cf_abs_none base).
Qed.

(** Replacing the contents of an open file. *)
Lemma cf_inv_set base s f l mem mem' : cf_inv base s → cf_files s !! f = Some (Some (l, mem)) →
  length mem' = length mem → cf_inv base (set_file f (Some (l, mem')) s).
Proof.
  intros (I1 & I2 & I3) E L. destruct (I1 _ _ E) as (l0 & m0 & [= <- <-] & Hm & Hl & Hb).
  assert (Look : ∀ g p, <[f := Some (l, mem')]> (cf_files s) !! g = Some p →
    ∃ p0, cf_files s !! g = Some p0 ∧ fst <$> p0 = fst <$> p ∧
      (p = p0 ∨ g = f ∧ p = Some (l, mem'))).
  { intros g p Hg. apply lookup_insert_Some in Hg as [[<- <-]|[Ne Hg]]; eauto 10. }
  unfold set_file. split_and!; simpl.
  - intros g p Hg. destruct (Look g p Hg) as (p0 & E0 & _ & [->|[-> ->]]); [by eauto|].
    exists l, mem'. split_and!; [done|congruence|done|done].
  - intros g h k mg mh Hg Hh. destruct (Look _ _ Hg) as (p0 & E0 & F0 & _).
    destruct (Look _ _ Hh) as (p1 & E1 & F1 & _). simpl in F0, F1.
    apply fmap_Some in F0 as ([? n0] & -> & [= <-]). apply fmap_Some in F1 as ([? n1] & -> & [= <-]). eauto.
  - intros x. rewrite I3. split; (intros [Hx|(g & m & Hg)]; [by left|right]).
    + destruct (decide (g = f)) as [->|Ne]; [|exists g, m; by rewrite lookup_insert_ne].
      exists f, mem'. rewrite lookup_insert_eq. congruence.
    + destruct (Look _ _ Hg) as (p0 & E0 & F0 & _). simpl in F0.
      apply fmap_Some in F0 as ([? n0] & -> & [= <-]). eauto.
Qed.

Lemma cf_inv_user base s h u : cf_inv base s → live h = live (cf_heap s) →
  cf_inv base (CFileSt h u (cf_files s)).
Proof.
  intros (I1 & I2 & I3) E. split_and!; simpl; [|done|by rewrite E].
  intros f p Hf. rewrite E. by apply I1 in Hf.
Qed.

Lemma cf_open_inv base s f l h mem : length mem = Z.to_nat BUF_LEN → cf_inv base s → base ⊆ live (cf_heap s) → cf_files s !! f = None →
  l ∉ live (cf_heap s) → live h = {[l]} ∪ live (cf_heap s) →
  cf_inv base (set_file f (Some (l, mem)) (CFileSt h (cf_user s) (cf_files s))).
Proof.
  intros Lm (I1 & I2 & I3) Hb E Fl Eh. unfold set_file. simpl.
  assert (Old : ∀ g p, g ≠ f → cf_files s !! g = Some p →
    ∃ l' m', p = Some (l', m') ∧ length m' = Z.to_nat BUF_LEN ∧ l' ≠ l ∧ l' ∈ live (cf_heap s) ∧ l' ∉ base).
  { intros g p Ne Hg. destruct (I1 _ _ Hg) as (l' & m' & -> & ? & Hl & ?). exists l', m'.
    split_and!; try done. intros ->. done. }
  split_and!; simpl.
  - intros g p [[<- <-]|[Ne Hg]]%lookup_insert_Some.
    + eexists _, _. split; [done|]. rewrite Eh. split_and!; [done|set_solver|].
      intros K. by apply Fl, Hb.
    + destruct (Old g p) as (l' & m' & -> & ? & ? & ? & ?); [done|done|]. exists l', m'. rewrite Eh.
      split_and!; try done. set_solver.
  - intros g k x mg mk [[<- [= -> ->]]|[Ne Hg]]%lookup_insert_Some [[<- [= E2]]|[Ne' Hk]]%lookup_insert_Some; try done.
    + destruct (Old _ _ (not_eq_sym Ne') Hk) as (? & ? & [= <- <-] & _ & ? & _). done.
    + subst. destruct (Old _ _ (not_eq_sym Ne) Hg) as (? & ? & [= <- <-] & _ & ? & _). done.
    + eauto.
  - intros x. rewrite Eh, elem_of_union, elem_of_singleton, I3. split.
    + intros [->|[Hx|(g & m & Hg)]]; [right|by left|right].
      * eexists f, _. by rewrite lookup_insert_eq.
      * exists g, m. rewrite lookup_insert_ne; [done|]. intros ->. congruence.
    + intros [Hx|(g & m & [[<- [= <- <-]]|[Ne Hg]]%lookup_insert_Some)]; eauto.
Qed.

Lemma cf_close_inv base s f l mem : cf_inv base s → cf_files s !! f = Some (Some (l, mem)) →
  cf_inv base (CFileSt (kfree l (cf_heap s)) (cf_user s) (delete f (cf_files s))).
Proof.
  intros (I1 & I2 & I3) E. destruct (I1 _ _ E) as (? & ? & [= <- <-] & _ & Hl & Hb).
  split_and!; simpl.
  - intros g p [Ne Hg]%lookup_delete_Some. destruct (I1 _ _ Hg) as (l' & m' & -> & ? & ? & ?).
    exists l', m'. split_and!; try done. rewrite kfree_law. apply elem_of_difference. split; [done|].
    intros ->%elem_of_singleton. by apply Ne, (I2 f g l mem m').
  - intros g k x mg mk [_ Hg]%lookup_delete_Some [_ Hk]%lookup_delete_Some. eauto.
  - intros x. rewrite kfree_law, elem_of_difference, elem_of_singleton, I3. split.
    + intros [[Hx|(g & m & Hg)] Nx]; [by left|right]. exists g, m. apply lookup_delete_Some.
      split; [|done]. intros ->. congruence.
    + intros [Hx|(g & m & [Ne Hg]%lookup_delete_Some)].
      * split; [by left|]. by intros ->.
      * split; [eauto|]. intros ->. by apply Ne, (I2 f g l mem m).
Qed.

(** A write that stays in the buffer, and one that does not. *)
Lemma write_cases s f l mem buf n : cf_files s !! f = Some (Some (l, mem)) → length mem = Z.to_nat BUF_LEN → 0 <= n →
  match chardev_write f buf n s with
  | Ret (r, s') => ∃ cs k, n <= BUF_LEN ∧ is_Some (c_str mem) ∧ copy_from_user (cf_user s) buf (Z.to_nat n) = (cs, k) ∧
      (k = 0%nat → is_Some (c_str (cs ++ drop (length cs) mem))) ∧
      r = (if (k =? 0)%nat then n else - EFAULT) ∧ s' = set_file f (Some (l, cs ++ drop (length cs) mem)) s ∧
      length (cs ++ drop (length cs) mem) = length mem
  | Fault e => e = OutOfBounds ∧ (BUF_LEN < n ∨ c_str mem = None ∨
      let '(cs, k) := copy_from_user (cf_user s) buf (Z.to_nat n) in
      k = 0%nat ∧ c_str (cs ++ drop (length cs) mem) = None)
  end.
Proof.
  intros E Lm Hn. unfold chardev_write, buffer, private_data, printk_s, user_to_data, mbind, M_bind. rewrite E. simpl.
  destruct (c_str mem) as [t|] eqn:Et; [|split; [done|]; by right; left]. simpl. rewrite Lm.
  unfold BUF_LEN in *. rewrite Z2Nat.id by lia. destruct (Z.ltb_spec 1024 n) as [Hb|Hb]; [split; [done|]; by left|].
  destruct (copy_from_user (cf_user s) buf (Z.to_nat n)) as [cs k] eqn:Ec.
  assert (Lc : length cs = Z.to_nat n) by (pose proof (cfu_length_law (cf_user s) buf (Z.to_nat n)) as L; by rewrite Ec in L).
  rewrite inserts_prefix by lia. assert (L : length (cs ++ drop (length cs) mem) = length mem) by (len; lia).
  destruct k as [|k]; simpl.
  - rewrite lookup_insert_eq. simpl. destruct (c_str (cs ++ drop (length cs) mem)) eqn:Ez; simpl.
    + exists cs, 0%nat. rewrite s64_id by (unfold LLONG_MAX; lia). split_and!; try done; eauto; by rewrite L, Lm.
    + split; [done|]. right. right. done.
  - exists cs, (S k). split_and!; try done; eauto; by rewrite L, Lm.
Qed.

Lemma spec_ok base s (c : cf_call) : cf_inv base s → call_ok c →
  match vfs_call c s with
  | Ret (r, s') => spec_call c (cf_abs s, cf_user s) r (cf_abs s', cf_user s') ∧ cf_inv base s'
  | Fault e => e = OutOfBounds ∧ overruns c (cf_abs s, cf_user s)
  end.
Proof.
  intros I Ok. destruct c as [f|f|f buf n|f buf n]; unfold vfs_call; rewrite (bind_run mget _ _ _ _ eq_refl);
    destruct (open_cases base s f I) as [(-> & E & Ea)|(-> & l & mem & E & Ea & Lm & Hl & Hb)]; cbn [negb]; cbv iota;
    try (split; [apply sp_badf; by rewrite ?Ea|done]).
  - unfold chardev_open. destruct (kmalloc BUF_LEN (cf_heap s)) as [[l|] h] eqn:Ek.
    + destruct (kmalloc_some_law _ _ _ _ Ek) as [Fl El]. rewrite cf_abs_set. split.
      * simpl. apply sp_open; [done|apply residue_length_law].
      * apply cf_open_inv; try done; [by rewrite length_fmap, residue_length_law|]. intros x Hx. apply I. by left.
    + split; [by apply sp_open_nomem|]. apply cf_inv_user; [done|]. by apply kmalloc_none_law in Ek.
  - unfold chardev_release, private_data, mbind, M_bind. cbv beta iota. rewrite E.
    cbn. unfold cf_kfree, mbind, M_bind. rewrite bool_decide_eq_true_2 by done. cbn.
    rewrite delete_insert_eq, omap_delete. split; [apply sp_close; eauto|by eapply cf_close_inv].
  - pose proof (write_cases s f l mem buf n E Lm Ok) as C. destruct (chardev_write f buf n s) as [[r s']|e].
    + destruct C as (cs & k & Hn & Hz & Ec & Hz' & -> & -> & L). rewrite cf_abs_set.
      split; [by eapply sp_write|by eapply cf_inv_set].
    + destruct C as [-> C]. split; [done|]. exists mem. done.
  - unfold chardev_read, buffer, private_data, mbind, M_bind. rewrite E. simpl. unfold data_to_user.
    simpl in Ok.
    replace (if BUF_LEN <? n then BUF_LEN else n) with (Z.min n BUF_LEN) by (destruct (Z.ltb_spec BUF_LEN n); lia).
    unfold BUF_LEN in *. rewrite (proj2 (Z.ltb_ge _ _)) by lia.
    destruct (copy_to_user (cf_user s) buf (take (Z.to_nat (Z.min n 1024)) mem)) as [u k] eqn:Ec. simpl.
    split; [|by apply cf_inv_user]. rewrite s64_id by (unfold LLONG_MAX; lia). by eapply sp_read.
Qed.

(** C28: a session over the files of chardev.c either is a session of the
    specification, in which a file is a list of bytes of its own and reads and
    writes start at its first byte, and then every open file has a block of
    its own and no other block was gained or lost; or it faults in a write
    that leaves its buffer: a write longer than the buffer, or one before or
    after which the buffer holds no zero for the message it prints to end at
    (a buffer is born with what its memory held). *)
Theorem chardev_sessions_refine cs s : cf_files s = ∅ → Forall call_ok cs →
  match vfs_run cs s with
  | Ret (rs, s') =>
      spec_run cs (∅, cf_user s) rs (cf_abs s', cf_user s') ∧
      cf_inv (live (cf_heap s)) s' ∧ (cf_files s' = ∅ → live (cf_heap s') = live (cf_heap s))
  | Fault e => e = OutOfBounds ∧ ∃ before c after rs a, cs = before ++ c :: after ∧
      spec_run before (∅, cf_user s) rs a ∧ overruns c a
  end.
Proof.
  intros E Ok. assert (I : cf_inv (live (cf_heap s)) s).
  { split_and!; rewrite E; [done|done|]. intros l. split; [by left|].
    intros [Hl|(f & m & Hf)]; [done|]. by rewrite lookup_empty in Hf. }
  replace (∅ : gmap nat (list cell)) with (cf_abs s) by (unfold cf_abs; by rewrite E, omap_empty).
  revert I. generalize (live (cf_heap s)) as base. clear E. intros base.
  revert s. induction Ok as [|c cs Hc _ IH]; intros s I; simpl.
  { split; [constructor|]. split; [done|]. intros E'. apply set_eq. intros l. rewrite (proj2 (proj2 I)), E'.
    split; [|by left]. intros [Hl|(f & m & Hf)]; [done|]. by rewrite lookup_empty in Hf. }
  pose proof (spec_ok base s c I Hc) as C. unfold mbind, M_bind. destruct (vfs_call c s) as [[r s1]|e].
  - destruct C as [S1 I1]. specialize (IH s1 I1). destruct (vfs_run cs s1) as [[rs s2]|e]; simpl.
    + destruct IH as (S2 & I2 & L2). split; [by econstructor|done].
    + destruct IH as (-> & before & c' & after & rs & a & -> & Sp & Ov). split; [done|].
      exists (c :: before), c', after, (r :: rs), a. split; [done|]. split; [by econstructor|done].
  - destruct C as [-> Ov]. split; [done|]. exists [], c, cs, [], (cf_abs s, cf_user s).
    split; [done|]. split; [constructor|done].
Qed.

End files.

(** ** ioctl.c *)

Lemma le_word_word_le n w : le_word (word_le n w) = Some (w mod 256 ^ Z.of_nat n).
Proof.
  revert w. induction n as [|n IH]; intros w; [by rewrite Z.mod_1_r|].
  cbn [word_le le_word]. pose proof (Z.mod_pos_bound w 256 ltac:(lia)) as B.
  destruct (Byte.of_N (Z.to_N (w mod 256))) as [b|] eqn:Eb.
  - apply Byte.to_of_N_iff in Eb. simpl. rewrite IH. simpl. f_equal.
    rewrite Eb, Z2N.id by lia. rewrite Nat2Z.inj_succ, Z.pow_succ_r by lia.
    rewrite Z.rem_mul_r by lia. done.
  - apply Byte.of_N_None_iff in Eb. lia.
Qed.

Lemma c_str_prefix cs s : c_str cs = Some s → take (length s) cs = s ∧ (length s < length cs)%nat.
Proof.
  revert s. induction cs as [|c cs IH]; intros s E; [done|]. simpl in E.
  assert (D : s = [] ∨ ∃ s', s = c :: s' ∧ c_str cs = Some s').
  { destruct (c_str cs) as [s'|]; (destruct c as [b|]; [destruct b|]); simpl in E; simplify_eq; eauto. }
  destruct D as [->|(s' & -> & E')]; simpl; [split; [done|lia]|].
  destruct (IH s' E') as [-> ?]. split; [done|lia].
Qed.

Lemma c_str_end cs : is_Some (c_str cs) ↔ Some x00 ∈ cs.
Proof.
  induction cs as [|c cs IH]; [split; [by intros []|by intros ?%elem_of_nil]|].
  rewrite elem_of_cons, <- IH. simpl.
  destruct c as [b|]; [destruct b|]; destruct (c_str cs) as [s|]; simpl; split; try (by intros []); eauto;
    try (intros _; by left); try (intros [[=]|[]]; done); try (intros _; right; by eexists).
Qed.

Lemma c_str_app s t : c_str s = None → c_str (s ++ Some x00 :: t) = Some s.
Proof.
  induction s as [|c s IH]; [done|]. intros E. simpl in *.
  destruct c as [b|]; [destruct b|]; try done; by (rewrite IH; [done|]; destruct (c_str s)).
Qed.
Lemma c_str_none_app s t : c_str s = None → c_str t = None → c_str (s ++ t) = None.
Proof.
  induction s as [|c s IH]; [done|]. intros E Et. simpl in *.
  destruct c as [b|]; [destruct b|]; try done; by (rewrite IH; [done| |done]; destruct (c_str s)).
Qed.
Lemma c_str_nozero cs s : c_str cs = Some s → c_str s = None.
Proof.
  revert s. induction cs as [|c cs IH]; intros s E; [done|]. simpl in E.
  destruct c as [b|]; [destruct b|]; destruct (c_str cs) as [s'|]; simpl in *; simplify_eq; simpl; try done;
    by rewrite (IH s').
Qed.

Section commands.
Context {U : Type} `{UserMem U} `{IocCodec}.
Abbreviation st := (ioc_st U).
Implicit Types s : st.

Definition info_wf (i : ioctl_info) : Prop := length (ii_size i) = 8%nat ∧ length (ii_buf i) = 128%nat.

Lemma cmds_differ : IOCTL_READ ≠ IOCTL_WRITE ∧ IOCTL_READ ≠ IOCTL_STATUS ∧ IOCTL_READ ≠ IOCTL_RW ∧
  IOCTL_WRITE ≠ IOCTL_STATUS ∧ IOCTL_WRITE ≠ IOCTL_RW ∧ IOCTL_STATUS ≠ IOCTL_RW.
Proof.
  split_and!; intros E; apply ioc_inj in E as (E1 & _ & E3 & _);
    first [by vm_compute in E1, E3 | vm_compute; by split].
Qed.

Lemma info_bytes_of cs : length cs = Z.to_nat sizeof_info → info_wf (info_of cs) ∧ info_bytes (info_of cs) = cs.
Proof.
  intros L. unfold info_wf, info_bytes, info_of. simpl. rewrite take_drop, length_take, length_drop, L. done.
Qed.

Lemma from_user_ok s arg cs : copy_from_user (io_user s) arg (Z.to_nat sizeof_info) = (cs, 0%nat) →
  info_from_user arg s = Ret (true, IocSt (info_of cs) (io_user s)) ∧
  length cs = Z.to_nat sizeof_info ∧ cs = user_bytes (io_user s) arg (Z.to_nat sizeof_info).
Proof.
  intros E. unfold info_from_user. rewrite E. split_and!; [done| |by eapply cfu_ok_law].
  pose proof (cfu_length_law (io_user s) arg (Z.to_nat sizeof_info)) as L. by rewrite E in L.
Qed.

(** What IOCTL_WRITE takes from one address IOCTL_READ brings back, byte
    for byte, at another; the commands answer -EFAULT when a copy fails and
    for every other command word, which change nothing but IOCTL_RW. *)
Theorem ioctl_write_read_roundtrip s src dst cs u' :
  copy_from_user (io_user s) src (Z.to_nat sizeof_info) = (cs, 0%nat) →
  copy_to_user (io_user s) dst cs = (u', 0%nat) →
  (∃ s1 s2, chardev_ioctl IOCTL_WRITE src s = Ret (0, s1) ∧ chardev_ioctl IOCTL_READ dst s1 = Ret (0, s2) ∧
    io_info s2 = io_info s1 ∧ info_wf (io_info s2) ∧
    user_bytes (io_user s2) dst (Z.to_nat sizeof_info) = user_bytes (io_user s) src (Z.to_nat sizeof_info)) ∧
  ∀ cmd arg, cmd ≠ IOCTL_READ → cmd ≠ IOCTL_WRITE → cmd ≠ IOCTL_RW →
    chardev_ioctl cmd arg s = Ret (if cmd =? IOCTL_STATUS then 0 else - EFAULT, s).
Proof.
  intros E1 E2. destruct cmds_differ as (N1 & N2 & N3 & N4 & N5 & N6). split.
  - destruct (from_user_ok s src cs E1) as (W & L & Ecs). destruct (info_bytes_of cs L) as [Wf Eb].
    exists (IocSt (info_of cs) (io_user s)), (IocSt (info_of cs) u'). split_and!; [| |done|apply Wf..|].
    + unfold chardev_ioctl. rewrite (proj2 (Z.eqb_neq IOCTL_WRITE IOCTL_READ)), Z.eqb_refl by done.
      unfold mbind, M_bind. by rewrite W.
    + unfold chardev_ioctl. rewrite Z.eqb_refl. unfold mbind, M_bind, info_to_user. simpl.
      by rewrite Eb, E2.
    + rewrite <- L. simpl. rewrite (ctu_ok_law _ _ _ _ E2). rewrite L. done.
  - intros cmd arg H1 H2 H3. unfold chardev_ioctl.
    rewrite (proj2 (Z.eqb_neq cmd IOCTL_READ)), (proj2 (Z.eqb_neq cmd IOCTL_WRITE)),
      (proj2 (Z.eqb_neq cmd IOCTL_RW)) by done. by destruct (cmd =? IOCTL_STATUS).
Qed.

Lemma append_hello_spec buf str : length buf = 128%nat → c_str buf = Some str →
  match append_hello buf with
  | Some buf' => (length str <= 121)%nat ∧ length buf' = 128%nat ∧ c_str buf' = Some (str ++ hello) ∧
      drop (length str + 7) buf' = drop (length str + 7) buf
  | None => (121 < length str)%nat
  end.
Proof.
  intros L E. unfold append_hello. rewrite E. cbn [mbind option_bind].
  assert (Lo : length (str ++ hello ++ [Some x00]) = (length str + 7)%nat) by (rewrite !length_app; done).
  rewrite Lo. destruct (Nat.leb_spec (length str + 7) (length buf)) as [Hle|Hgt]; [|lia].
  split; [lia|]. split; [by rewrite length_inserts|].
  rewrite inserts_prefix by lia. rewrite Lo. split.
  - rewrite app_assoc, <- app_assoc. cbn [app]. apply c_str_app.
    apply c_str_none_app; [by eapply c_str_nozero|done].
  - by rewrite drop_app_length' by done.
Qed.

(** C29: IOCTL_RW on a structure whose buffer holds a string: up to 121
    characters, " hello" is appended to it in the driver's copy and in the
    user's, the size grows by six modulo 2^64 and the bytes after the string
    are kept; a longer string runs over the end of the buffer. *)
Theorem ioctl_rw_appends s arg cs str w : 
  copy_from_user (io_user s) arg (Z.to_nat sizeof_info) = (cs, 0%nat) →
  le_word (take 8 cs) = Some w → c_str (drop 8 cs) = Some str →
  if (121 <? length str)%nat then chardev_ioctl IOCTL_RW arg s = Fault OutOfBounds
  else ∃ r s', chardev_ioctl IOCTL_RW arg s = Ret (r, s') ∧ info_wf (io_info s') ∧
    le_word (ii_size (io_info s')) = Some (u64 (w + 6)) ∧
    c_str (ii_buf (io_info s')) = Some (str ++ hello) ∧
    drop (length str + 7) (ii_buf (io_info s')) = drop (length str + 15) cs ∧
    (r = - EFAULT ∨
     r = 0 ∧ user_bytes (io_user s') arg (Z.to_nat sizeof_info) = info_bytes (io_info s')).
Proof.
  intros E1 Ew Es. destruct cmds_differ as (N1 & N2 & N3 & N4 & N5 & N6).
  destruct (from_user_ok s arg cs E1) as (W & L & Ecs). destruct (info_bytes_of cs L) as [[Wf1 Wf2] Eb].
  pose proof (append_hello_spec (drop 8 cs) str Wf2 Es) as A.
  assert (Run : chardev_ioctl IOCTL_RW arg s =
    match append_hello (drop 8 cs) with
    | None => Fault OutOfBounds
    | Some b => (ok ← info_to_user arg; mret (if (ok : bool) then 0 else - EFAULT))
                  (IocSt (IoctlInfo (add_size (take 8 cs) 6) b) (io_user s))
    end).
  { unfold chardev_ioctl.
    rewrite (proj2 (Z.eqb_neq IOCTL_RW IOCTL_READ)), (proj2 (Z.eqb_neq IOCTL_RW IOCTL_WRITE)),
      (proj2 (Z.eqb_neq IOCTL_RW IOCTL_STATUS)), Z.eqb_refl by done.
    unfold mbind at 1, M_bind at 1. rewrite W. cbv beta iota. simpl negb. cbv iota.
    unfold mbind at 1, M_bind at 1, mget. simpl. by destruct (append_hello (drop 8 cs)). }
  destruct (append_hello (drop 8 cs)) as [b|] eqn:Ea.
  - destruct A as (Hs & Lb & Cb & Db). rewrite (proj2 (Nat.ltb_ge _ _)) by lia.
    set (i := IoctlInfo (add_size (take 8 cs) 6) b) in *.
    assert (Wi : le_word (ii_size i) = Some (u64 (w + 6)) ∧ length (ii_size i) = 8%nat).
    { unfold i, add_size. cbn [ii_size]. rewrite Ew. split; [|done]. rewrite le_word_word_le.
      f_equal. apply Z.mod_small, u64_range. }
    destruct Wi as [Wi Wl].
    assert (Db' : drop (length str + 7) b = drop (length str + 15) cs).
    { rewrite Db, drop_drop. f_equal. lia. }
    assert (Li : length (info_bytes i) = Z.to_nat sizeof_info).
    { unfold info_bytes. rewrite length_app, Wl. simpl. by rewrite Lb. }
    unfold mbind, M_bind, info_to_user in Run. cbn [io_user io_info] in Run.
    destruct (copy_to_user (io_user s) arg (info_bytes i)) as [u k] eqn:Eu.
    eexists _, _. split; [exact Run|]. cbn [io_info io_user].
    split_and!; try done.
    destruct (Nat.eqb_spec k 0) as [->|]; [right|by left]. split; [done|].
    rewrite <- Li. by eapply ctu_ok_law.
  - by rewrite (proj2 (Nat.ltb_lt _ _)) by lia.
Qed.

End commands.

(** ** Witnesses *)

Section examples.
#[local] Existing Instance creg_chrdevs.
#[local] Existing Instance dsim_model.

Definition chr0 (fail : bool) : chr_st bump creg dsim :=
  ChrSt 0 None ∅ bump_init (CReg ∅ ∅) (DSim ∅ ∅ fail).

Lemma chr0_unloaded fail : chr_unloaded (chr0 fail).
Proof. split; [|apply not_elem_of_empty]. intros c n Hc. by apply not_elem_of_empty in Hc. Qed.

Example chr0_loads :
  (match chr_init 2 (chr0 false) with Ret (r, s) => (r, size (ds_nodes (c_dm s))) | _ => (0, 0%nat) end) = (0, 2%nat) ∧
  (match chr_init 2 (chr0 true) with Ret (r, _) => r | _ => 0 end) = -1.
Proof. by vm_compute. Qed.

Lemma chardev_load_unload_witness :
  wp (chr_init 2) (chr0 false) (λ r s', (r = -1 ∧ chr_restored (chr0 false) s') ∨
    (r = 0 ∧ is_Some (c_class s') ∧ wp (chr_exit 2) s' (λ _ s'', chr_restored (chr0 false) s''))).
Proof. apply (chardev_load_unload 2 (chr0 false)); [lia|apply chr0_unloaded]. Defined.

(** Two files; the user has "ab" at 100, and room at 200; new blocks are zero,
    or full of one letter. *)
#[local] Instance zero_residue : HeapResidue bump.
Proof. refine {| residue _ _ n := replicate n x00 |}. intros. apply length_replicate. Defined.
Definition letter_residue : HeapResidue bump.
Proof. refine {| residue _ _ n := replicate n x41 |}. intros. apply length_replicate. Defined.

Definition cf_text : umap :=
  umap_store (umap_store ∅ 200 [Some x00; Some x00]) 100 [Some x61; Some x62].
Definition cf0 : cfile_st bump umap := CFileSt bump_init cf_text ∅.
Definition cf_calls : list cf_call :=
  [COpen 3; COpen 4; CWrite 3 100 2; CRead 3 200 2; CRead 5 200 2; CClose 3; CClose 4].

Lemma cf_calls_ok : Forall call_ok cf_calls.
Proof. repeat constructor; simpl; lia. Qed.

Example cf_session :
  match vfs_run cf_calls cf0 with
  | Ret (rs, s) => rs = [0; 0; 2; 2; - EBADF; 0; 0] ∧ umap_bytes (cf_user s) 200 2 = [Some x61; Some x62] ∧ cf_files s = ∅
  | Fault _ => False
  end.
Proof. by vm_compute. Qed.

(** The first write already reads past the block. *)
Example cf_session_overruns : vfs_run (H1 := letter_residue) cf_calls cf0 = Fault OutOfBounds.
Proof. by vm_compute. Qed.

Lemma chardev_sessions_refine_witness :
  (∃ rs s', vfs_run cf_calls cf0 = Ret (rs, s') ∧ spec_run cf_calls (∅, cf_text) rs (cf_abs s', cf_user s') ∧
    live (cf_heap s') = live (cf_heap cf0)) ∧
  ∃ before c after rs a, cf_calls = before ++ c :: after ∧ spec_run before (∅, cf_text) rs a ∧ overruns c a.
Proof.
  split.
  - pose proof (chardev_sessions_refine cf_calls cf0 eq_refl cf_calls_ok) as T. pose proof cf_session as C.
    destruct (vfs_run cf_calls cf0) as [[rs s']|e]; [|destruct C].
    exists rs, s'. split; [reflexivity|]. destruct T as (Sp & _ & L). split; [exact Sp|]. apply L, C.
  - pose proof (chardev_sessions_refine (H1 := letter_residue) cf_calls cf0 eq_refl cf_calls_ok) as T.
    rewrite cf_session_overruns in T. exact (proj2 T).
Defined.

(** The structure at 1000: size 100 and the string "pr". *)
Definition ioc_cells : list cell :=
  word_le 8 100 ++ [Some x70; Some x72; Some x00] ++ replicate 125 (Some x00).
Definition ioc0 : ioc_st umap :=
  IocSt (IoctlInfo (replicate 8 (Some x00)) (replicate 128 (Some x00)))
    (umap_store (umap_store ∅ 2000 (replicate 136 (Some x00))) 1000 ioc_cells).

Lemma ioctl_write_read_roundtrip_witness :
  ∃ s1 s2, chardev_ioctl IOCTL_WRITE 1000 ioc0 = Ret (0, s1) ∧ chardev_ioctl IOCTL_READ 2000 s1 = Ret (0, s2) ∧
    user_bytes (io_user s2) 2000 (Z.to_nat sizeof_info) = user_bytes (io_user ioc0) 1000 (Z.to_nat sizeof_info).
Proof.
  destruct (ioctl_write_read_roundtrip ioc0 1000 2000 ioc_cells
    (fst (copy_to_user (io_user ioc0) 2000 ioc_cells))) as [(s1 & s2 & A & B & _ & _ & C) _];
    [by vm_compute|by vm_compute|eauto].
Defined.

Lemma ioctl_rw_appends_witness :
  ∃ r s', chardev_ioctl IOCTL_RW 1000 ioc0 = Ret (r, s') ∧ le_word (ii_size (io_info s')) = Some 106 ∧
    c_str (ii_buf (io_info s')) = Some ([Some x70; Some x72] ++ hello).
Proof.
  destruct (ioctl_rw_appends ioc0 1000 ioc_cells [Some x70; Some x72] 100) as (r & s' & A & _ & B & C & _);
    [by vm_compute|by vm_compute|by vm_compute|eauto].
Defined.

End examples.
