(* ===== verification/UserMap.v ===== *)
(** Facts on user memory as a finite map and on the C data the programs keep in
    it, for the theorems on the programs that exercise the drivers. *)
From Stdlib Require Import ZArith Lia.
From stdpp Require Import base list gmap.
From S2P Require Import Prelude Kernel CharDev CharDevThms.

Lemma umap_store_lookup cs u a b : umap_store u a cs !! b =
  if decide (a <= b < a + Z.of_nat (length cs)) then cs !! Z.to_nat (b - a) else u !! b.
Proof.
  revert a. induction cs as [|c cs IH]; intros a; cbn [umap_store length]; [by rewrite decide_False by lia|].
  destruct (decide (b = a)) as [->|N].
  - rewrite lookup_insert_eq, decide_True by lia. by rewrite Z.sub_diag.
  - rewrite lookup_insert_ne, IH by done. case_decide; case_decide; try lia; [|done].
    by replace (Z.to_nat (b - a)) with (S (Z.to_nat (b - (a + 1)))) by lia.
Qed.

(** The [n] bytes at an address are mapped. *)
Definition mapped (u : umap) (a : Z) (n : nat) : Prop := umap_prefix u a n = n.
Lemma mapped_spec u a n : mapped u a n ↔ ∀ b, a <= b < a + Z.of_nat n → is_Some (u !! b).
Proof.
  unfold mapped. revert a. induction n as [|n IH]; intros a; simpl; [split; [intros _ b Hb; lia|done]|]. split.
  - intros E b Hb. destruct (u !! a) eqn:Ea; [|done]. destruct (decide (b = a)) as [->|]; [eauto|].
    apply (IH (a + 1)); [lia|lia].
  - intros F. destruct (F a) as [c ->]; [lia|]. f_equal. apply IH. intros b Hb. apply F. lia.
Qed.
Lemma mapped_store u a n b cs : mapped u a n → mapped (umap_store u b cs) a n.
Proof.
  rewrite !mapped_spec. intros F x Hx. rewrite umap_store_lookup. case_decide; [|by apply F].
  apply lookup_lt_is_Some. lia.
Qed.

Lemma length_umap_bytes u a n : length (umap_bytes u a n) = n.
Proof. unfold umap_bytes. by rewrite length_fmap, length_seq. Qed.
Lemma umap_bytes_lookup u a n i : (i < n)%nat → umap_bytes u a n !! i = Some (default None (u !! (a + Z.of_nat i))).
Proof. intros Hi. unfold umap_bytes. by rewrite list_lookup_fmap, lookup_seq_lt. Qed.
Lemma copy_from_mapped u a n : mapped u a n → copy_from_user u a n = (umap_bytes u a n, O).
Proof.
  intros E. cbn [copy_from_user umap_user]. unfold umap_copy_from. rewrite E, Nat.sub_diag, app_nil_r.
  by rewrite take_ge by (by rewrite length_umap_bytes).
Qed.
Lemma copy_to_mapped u a n cs : mapped u a n → length cs = n → copy_to_user u a cs = (umap_store u a cs, O).
Proof. intros E L. cbn [copy_to_user umap_user]. unfold umap_copy_to. rewrite L, E, Nat.sub_diag. by rewrite take_ge by lia. Qed.

(** A region that a store leaves alone, and one that it starts in. *)
Lemma umap_bytes_other u a n b cs : a + Z.of_nat n <= b ∨ b + Z.of_nat (length cs) <= a →
  umap_bytes (umap_store u b cs) a n = umap_bytes u a n.
Proof.
  intros D. apply list_eq. intros i. destruct (decide (i < n)%nat).
  - rewrite !umap_bytes_lookup, umap_store_lookup by done. by rewrite decide_False by lia.
  - by rewrite !lookup_ge_None_2 by (rewrite length_umap_bytes; lia).
Qed.
Lemma umap_bytes_app u a n m : umap_bytes u a (n + m) = umap_bytes u a n ++ umap_bytes u (a + Z.of_nat n) m.
Proof.
  apply list_eq. intros i. destruct (decide (i < n + m)%nat).
  - rewrite umap_bytes_lookup by done. destruct (decide (i < n)%nat).
    + rewrite lookup_app_l by (by rewrite length_umap_bytes). by rewrite umap_bytes_lookup.
    + rewrite lookup_app_r, length_umap_bytes by (rewrite length_umap_bytes; lia).
      rewrite umap_bytes_lookup by lia. do 3 f_equal. lia.
  - by rewrite !lookup_ge_None_2 by (rewrite ?length_app, !length_umap_bytes; lia).
Qed.
Lemma umap_bytes_store u a cs n : length cs = n → umap_bytes (umap_store u a cs) a n = cs.
Proof. intros <-. apply umap_store_bytes. Qed.

Lemma word_le_length n w : length (word_le n w) = n.
Proof. revert w. induction n as [|n IH]; intros w; [done|]. cbn [word_le length]. by rewrite IH. Qed.

(** ints in user memory, least significant byte first. *)
Definition umap_get_int (u : umap) (a : Z) : option Z := s32 <$> le_word (umap_bytes u a 4).
Definition umap_put_int (u : umap) (a v : Z) : option umap :=
  if decide (umap_prefix u a 4 = 4%nat) then Some (umap_store u a (word_le 4 (u32 v))) else None.
#[export] Instance umap_int : UserInt umap.
Proof.
  refine {| get_user := umap_get_int; put_user := umap_put_int; access_ok := λ a n, 0 <=? a |};
    unfold umap_get_int, umap_put_int.
  - intros u a v E. apply fmap_Some in E as (x & _ & ->). apply s32_range.
  - intros u a v u' Hv E. case_decide; simplify_eq. rewrite umap_bytes_store by apply word_le_length.
    rewrite le_word_word_le. change (256 ^ Z.of_nat 4) with (2 ^ 32). simpl. f_equal.
    unfold INT_MAX, s32, u32, wraps, wrapu in *. change (2 ^ (32 - 1)) with 2147483648.
    change (2 ^ 32) with 4294967296. Z.div_mod_to_equations. lia.
Defined.
