(* ===== verification/ScullThreads.v ===== *)
(** The bare scull device under any number of threads at once: main.c of
    src/ldd/scull with its ioctl, statement by statement where the statements are
    not under the mutex of the device.

    scull_read and scull_write read dev->quantum and dev->qset before they take
    the mutex; scull_trim, under the mutex, writes them one after the other;
    SCULL_IOCRESET writes the two parameters one after the other, under no lock.
    Each of these accesses is a step of its own here, and the steps of the
    threads interleave.  What is done between taking the mutex and releasing it
    is one step where nothing outside looks at it: the list of quantum sets is
    touched by nobody without the mutex. *)
From Stdlib Require Import ZArith Lia.
From stdpp Require Import base list gmap relations.
From S2P Require Import Prelude Kernel Scull ScullSpec ScullThms ScullIoctl UserMap.

(** ** The data path at any position

    The specifications of [ScullSpec] speak of positions whose list index fits an
    int; memory safety does not need that. *)

Section any_position.
Context {H U : Type} `{KernelHeap H} `{UserMem U}.
Abbreviation st := (scull_st H U).
Implicit Types s : st.

Lemma follow_any_wp n b s : st_wf b s →
  wp (scull_follow n) s (λ r s', quiet b s s' ∧ ∀ j, r = Some j → (j < length (d_data (dev s')))%nat).
Proof.
  intros Hwf. unfold scull_follow. generalize (Z.to_nat (u32 n)). intros k. wp_step. wp_step.
  destruct (d_data (dev s)) as [|x r] eqn:Ed.
  - wp_step. eapply wp_mono; [|by apply append_qset_wp].
    intros ok s1 [Hq Hok]. destruct ok; [|by wp_steps].
    specialize (Hok eq_refl). eapply wp_mono; [|apply (follow_loop_wp k b s1 0); [apply Hq|lia]].
    intros r s' (Hq' & Hr & _). split; [by eapply quiet_trans|]. intros j Ej. by apply (Hr j Ej).
  - eapply wp_mono; [|apply (follow_loop_wp k b s 0); [done|rewrite Ed; simpl; lia]].
    intros r' s' (Hq' & Hr & _). split; [done|]. intros j Ej. by apply (Hr j Ej).
Qed.

Lemma locate_any_wp Q S pos s (P : Z * Z * Z → st → Prop) :
  geom_ok Q S → 0 <= pos <= LLONG_MAX → (∀ x, P (x, pos / Q mod S, pos mod Q) s) → wp (locate Q S pos) s P.
Proof.
  intros (HQ & HS & HI) Hp HP. unfold locate, INT_MAX, LLONG_MAX in *.
  assert (0 < Q * S) by nia. rewrite (s32_id (Q * S)) by (unfold INT_MAX; lia).
  pose proof (Z.mod_pos_bound pos (Q * S) ltac:(lia)). pose proof (Z.mod_pos_bound (pos / Q) S HS).
  pose proof (Z.mod_pos_bound pos Q HQ). assert (Q <= Q * S) by nia. assert (S <= Q * S) by nia.
  wp_step. apply c_div_wp; [lia..|]. wp_step. apply c_rem_wp; [lia..|].
  rewrite (s32_id (pos mod _)) by (unfold INT_MAX; lia).
  wp_step. apply c_div_wp; [lia..|]. wp_step. apply c_rem_wp; [lia..|]. wp_step.
  rewrite locate_slot, locate_off, (s32_id (pos / Q mod S)) by (unfold INT_MAX; lia). apply HP.
Qed.

(** What the critical sections keep. *)
Definition kept s s' : Prop :=
  st_wf true s' ∧ foreign s' = foreign s ∧ params s' = params s ∧
  d_quantum (dev s') = d_quantum (dev s) ∧ d_qset (dev s') = d_qset (dev s).

Lemma quiet_kept s s' : quiet true s s' → kept s s'.
Proof. intros [W F (EQ & ES & _ & EP & _) _ _]. by split_and!. Qed.
Lemma stored_kept g q s s' : stored true g q s s' → kept s s'.
Proof. intros [W F (EQ & ES & _ & EP & _) _ _]. by split_and!. Qed.
Lemma kept_pos p s s' : kept s s' → kept s (set_pos p s').
Proof. intros ([D O L] & R). split; [by split|exact R]. Qed.
Lemma kept_user u s s' : kept s s' → kept s (set_user u s').
Proof. intros ([D O L] & R). split; [by split|exact R]. Qed.
Lemma kept_size n s s' : 0 <= n <= LLONG_MAX → kept s s' → kept s (set_dev (with_size (dev s') n) s').
Proof. intros Hn ([[G _ N D] O L] & R). split; [by split; [split|..]|exact R]. Qed.

(** The array of a node, and the slot at an index of it. *)
Lemma node_array s i n a : st_wf true s → d_data (dev s) !! i = Some n → qs_data n = Some a →
  arr_ok (d_quantum (dev s)) (d_qset (dev s)) a.
Proof.
  intros W En Ea. pose proof (wf_nodes _ (st_dev _ _ W)) as Hn. rewrite Forall_lookup in Hn.
  specialize (Hn _ _ En). unfold node_ok in Hn. by rewrite Ea in Hn.
Qed.

Lemma read_locked_safe s buf count :
  let Q := d_quantum (dev s) in
  st_wf true s → 0 <= f_pos s → 0 <= count → f_pos s + count <= LLONG_MAX →
  wp (scull_read_locked Q (d_qset (dev s)) buf count) s (λ _ s', kept s s').
Proof.
  intros Q W Hp Hc Hm. pose proof (wf_geom _ (st_dev _ _ W)) as G. pose proof G as (HQ & HS & HI).
  pose proof (wf_size _ (st_dev _ _ W)) as Hz. fold Q in G, HQ, HI. unfold LLONG_MAX in *.
  pose proof (Z.mod_pos_bound (f_pos s) Q HQ) as Hmod. pose proof (Z.mod_pos_bound (f_pos s / Q) _ HS) as Hk.
  assert (Q <= INT_MAX) by (clear -HQ HS HI; nia).
  unfold scull_read_locked. wp_step. wp_step. rewrite (u64_id (f_pos s)), (u64_id (f_pos s + count)) by lia.
  destruct (Z.leb_spec (d_size (dev s)) (f_pos s)) as [L|L]; [wp_step; by apply quiet_kept, quiet_refl|].
  rewrite (u64_id (d_size (dev s) - f_pos s)) by lia. set (c := if _ <? _ then _ else count).
  assert (Hc' : 0 <= c ∧ f_pos s + c <= d_size (dev s)).
  { unfold c. destruct (Z.ltb_spec (d_size (dev s)) (f_pos s + count)); lia. }
  wp_step. apply locate_any_wp; [done|unfold LLONG_MAX; lia|]. intros x.
  wp_step. eapply wp_mono; [|by apply (follow_any_wp x true)]. intros r s1 [Hq Hr].
  destruct r as [i|]; [|wp_step; by apply quiet_kept]. specialize (Hr i eq_refl).
  destruct (q_file _ _ _ Hq) as (EQ & ES & _ & _ & EU & EP).
  wp_step. apply get_node_wp; [done|]. intros n Hn.
  destruct (qs_data n) as [a|] eqn:Ea; [|wp_step; by apply quiet_kept].
  pose proof (node_array s1 i n a (q_wf _ _ _ Hq) Hn Ea) as Ha. rewrite EQ, ES in Ha.
  wp_step. eapply get_slot_wp; [exact Ha|done|]. intros o Ho Hso. destruct o as [q|]; [|wp_step; by apply quiet_kept].
  simpl in Hso. fold Q in Hso. rewrite clip_count by lia.
  wp_step. unfold wp at 1, quantum_to_user. rewrite in_block_true by lia.
  destruct (copy_to_user _ _ _) as [u k]. destruct (k =? 0)%nat; wp_steps.
  - by apply (kept_pos _ _ (set_user u s1)), kept_user, quiet_kept.
  - by apply kept_user, quiet_kept.
Qed.

Lemma write_locked_safe s buf count :
  let Q := d_quantum (dev s) in
  st_wf true s → 0 <= f_pos s → 0 <= count → f_pos s + count <= LLONG_MAX →
  wp (scull_write_locked Q (d_qset (dev s)) buf count) s (λ _ s', kept s s').
Proof.
  intros Q W Hp Hc Hm. pose proof (wf_geom _ (st_dev _ _ W)) as G. pose proof G as (HQ & HS & HI).
  pose proof (wf_size _ (st_dev _ _ W)) as Hz. fold Q in G, HQ, HI. unfold LLONG_MAX in *. set (S := d_qset (dev s)) in *.
  pose proof (Z.mod_pos_bound (f_pos s) Q HQ) as Hmod. pose proof (Z.mod_pos_bound (f_pos s / Q) _ HS) as Hk.
  assert (Q <= INT_MAX) by (clear -HQ HS HI; nia).
  unfold scull_write_locked. wp_step. wp_step.
  wp_step. apply locate_any_wp; [done|unfold LLONG_MAX; lia|]. intros x. set (k := f_pos s / Q mod S) in *.
  wp_step. eapply wp_mono; [|by apply (follow_any_wp x true)]. intros r s1 [Hq Hr].
  destruct r as [i|]; [|wp_step; by apply quiet_kept]. specialize (Hr i eq_refl).
  destruct (q_file _ _ _ Hq) as (EQ & ES & _). fold Q in EQ. fold S in ES.
  wp_step. eapply wp_mono; [|apply (ensure_array_wp true s1 i S); [done|apply Hq|done]].
  intros r s2 [Hq2 Ha]. pose proof (quiet_trans _ _ _ _ Hq Hq2) as Hq12.
  destruct r as [a|]; [|wp_step; by apply quiet_kept].
  destruct (Ha a eq_refl) as (n & Hn & Hna). clear Ha.
  destruct (q_file _ _ _ Hq12) as (EQ2 & ES2 & Esz2 & _ & EU2 & EP2). fold Q in EQ2. fold S in ES2.
  pose proof (node_array s2 i n a (q_wf _ _ _ Hq12) Hn Hna) as Ha. rewrite EQ2, ES2 in Ha.
  (* slot [k] of node [i] is quantum [i * S + k] *)
  set (g := Z.of_nat i * S + k). assert (Hg : 0 <= g) by (unfold g; nia).
  assert (Ei : Z.to_nat (g / S) = i).
  { unfold g. rewrite Z.div_add_l, (Z.div_small k) by lia. lia. }
  assert (Ek : g mod S = k).
  { unfold g. by rewrite Z.add_comm, Z.mod_add, Z.mod_small by lia. }
  pose proof (ensure_quantum_wp true s2 g n a Q S EQ2 ES2) as Eq. cbv zeta in Eq. rewrite Ei, Ek in Eq.
  wp_step. eapply wp_mono; [|apply Eq; [apply Hq12|done|done|done]]. clear Eq. intros r s3 Hpost.
  destruct r as [q|]; [|wp_step; apply quiet_kept; by eapply quiet_trans].
  destruct Hpost as (Hst3 & _ & n3 & Hn3 & Hna3).
  destruct (sto_file _ _ _ _ _ Hst3) as (EQ3 & ES3 & Esz3 & _ & EU3 & EP3).
  rewrite clip_count by lia. set (m := Z.min count (Q - f_pos s mod Q)).
  pose proof (user_to_quantum_wp true s3 g n3 a q buf (f_pos s mod Q) m S) as Uq. cbv zeta in Uq. rewrite Ei, Ek in Uq.
  wp_step. eapply wp_mono; [|apply Uq; [congruence|apply Hst3|done|done|done|lia|lia|rewrite EQ3, EQ2; lia|destruct Ha; lia]].
  clear Uq. intros r s4 [_ Hst4].
  pose proof (stored_kept _ _ _ _ (stored_quiet _ _ _ _ _ _ Hq12 (stored_stored _ _ _ _ _ _ _ Hst3 Hst4))) as K.
  destruct (sto_file _ _ _ _ _ Hst4) as (_ & _ & _ & _ & _ & EP4).
  destruct (r =? 0)%nat; wp_steps; [|done].
  assert (Ep : f_pos s4 + m = f_pos s + m) by congruence. rewrite Ep.
  assert (Hm' : 0 <= f_pos s + m <= 9223372036854775807) by lia.
  rewrite s64_id, u64_id by (unfold LLONG_MAX; lia).
  destruct (_ <? _); [|by apply kept_pos].
  apply (kept_size _ s (set_pos (f_pos s + m) s4)); [unfold LLONG_MAX; lia|by apply kept_pos].
Qed.

End any_position.

(** ** The statements of scull_trim and of SCULL_IOCRESET *)

Section threads.
Context {H U : Type} `{KernelHeap H} `{UserMem U} `{UserInt U} `{IocCodec}.
Abbreviation st := (scull_st H U).
Implicit Types s : st.

Definition set_params (p : scull_params) s : st := ScullSt p (dev s) (heap s) (user s) (f_pos s).
Definition with_quantum (d : scull_dev) (q : Z) : scull_dev :=
  ScullDev (d_data d) q (d_qset d) (d_size d) (d_access_key d) (d_locked d).
Definition with_qset (d : scull_dev) (q : Z) : scull_dev :=
  ScullDev (d_data d) (d_quantum d) q (d_size d) (d_access_key d) (d_locked d).

(** The list of quantum sets is freed, and the freed list still hangs on the
    device; then size, quantum, qset and data are assigned. *)
Definition trim_lists : M st unit :=
  s ← mget; mforeach (d_data (dev s)) (trim_node (d_qset (dev s))).
Definition trim_stmts : list (M st unit) :=
  [trim_lists;
   mmodify (λ s, set_dev (with_size (dev s) 0) s);
   mmodify (λ s, set_dev (with_quantum (dev s) (scull_quantum (params s))) s);
   mmodify (λ s, set_dev (with_qset (dev s) (scull_qset (params s))) s);
   mmodify (λ s, set_dev (with_data (dev s) []) s);
   mutex_unlock].

(** One after the other they are scull_trim and mutex_unlock. *)
Lemma trim_stmts_run s : dev_wf (dev s) → owns s →
  (mforeach trim_stmts (λ m, m)) s = (scull_trim ≫= λ _, mutex_unlock) s.
Proof.
  intros Hd Ho. unfold trim_stmts, trim_lists, scull_trim. cbn [mforeach].
  unfold mbind, M_bind, mget, mmodify, mret, M_ret.
  assert (F : wp (mforeach (d_data (dev s)) (trim_node (d_qset (dev s)))) s (λ _ s', s' = set_heap (heap s') s)).
  { eapply wp_mono; [|apply (frees_foreach _ node_locs); [|apply Hd|apply Ho]]; [by intros _ s' [_ E]|].
    intros n Hn. eapply frees_node. pose proof (wf_nodes _ Hd) as Hf. rewrite Forall_forall in Hf. eauto. }
  unfold wp in F. destruct (mforeach _ _ s) as [[[] s1]|f]; [|done].
  rewrite F. cbn. unfold mutex_unlock. cbn. by destruct (d_locked (dev s)).
Qed.

(** scull_ioctl on the state of the driver. *)
Definition dev_ioctl (capable : bool) (cmd arg : Z) : M st Z := λ s,
  let '(r, (p, u)) := scull_ioctl capable cmd arg (params s) (user s) in
  Ret (r, set_params p (set_user u s)).

Definition reset_quantum : M st unit := mmodify (λ s, set_params (set_quantum (params s) SCULL_QUANTUM) s).
Definition reset_qset : M st unit := mmodify (λ s, set_params (ScullIoctl.set_qset (params s) SCULL_QSET) s).
Lemma reset_stmts_run c arg s : dev_ioctl c SCULL_IOCRESET arg s = (reset_quantum ≫= λ _, reset_qset ≫= λ _, mret 0) s.
Proof. unfold dev_ioctl. ioctl_run. by destruct s. Qed.

(** The part of scull_read and scull_write from the mutex on; the position is
    the one the VFS passed. *)
Definition rw_section (wr : bool) (pos quantum qset buf count : Z) (intr : bool) : M st Z :=
  mmodify (set_pos pos) ≫= λ _,
  failed ← mutex_lock_interruptible intr;
  if (failed : bool) then mret (- ERESTARTSYS) else
  retval ← (if wr then scull_write_locked quantum qset buf count else scull_read_locked quantum qset buf count);
  mutex_unlock ≫= λ _,
  mret retval.
Lemma rw_section_run (wr intr : bool) buf count s :
  (if wr then scull_write intr buf count else scull_read intr buf count) s =
  rw_section wr (f_pos s) (d_quantum (dev s)) (d_qset (dev s)) buf count intr s.
Proof. destruct s as [? ? ? ? p], wr; reflexivity. Qed.

(** ** Threads *)

(** Where a thread is: outside the driver; in scull_read or scull_write, about
    to read quantum, about to read qset, or about to take the mutex; in
    scull_open of a file opened for writing only, about to take the mutex; in
    scull_trim with the mutex, about to execute statement [k]; in SCULL_IOCRESET
    with one parameter reset. *)
Inductive task :=
  | Idle
  | RwQuantum (wr : bool) (pos buf count : Z)
  | RwQset (wr : bool) (pos buf count quantum : Z)
  | RwLock (wr : bool) (pos buf count quantum qset : Z)
  | OpenLock
  | Trim (k : nat)
  | ResetQset.

(** What vfs_read and vfs_write check before they call the driver. *)
Definition rw_verify_area (pos count : Z) : Prop := 0 <= pos ∧ 0 <= count ∧ pos + count <= LLONG_MAX.

(** What a thread of a process without CAP_SYS_ADMIN can do next.  A thread that
    finds the mutex taken waits, unless a signal interrupts it. *)
Inductive act s : task → M st task → Prop :=
  | act_rw wr pos buf count : rw_verify_area pos count → act s Idle (mret (RwQuantum wr pos buf count))
  | act_quantum wr pos buf count :
      act s (RwQuantum wr pos buf count) (s ← mget; mret (RwQset wr pos buf count (d_quantum (dev s))))
  | act_qset wr pos buf count quantum :
      act s (RwQset wr pos buf count quantum)
        (s ← mget; mret (RwLock wr pos buf count quantum (d_qset (dev s))))
  | act_section wr pos buf count quantum qset intr : intr = true ∨ d_locked (dev s) = false →
      act s (RwLock wr pos buf count quantum qset)
        (rw_section wr pos quantum qset buf count intr ≫= λ _, mret Idle)
  | act_open f_flags : act s Idle (mret (if opened_wronly f_flags then OpenLock else Idle))
  | act_open_lock intr : intr = true ∨ d_locked (dev s) = false →
      act s OpenLock (failed ← mutex_lock_interruptible intr; mret (if (failed : bool) then Idle else Trim 0))
  | act_trim k m : trim_stmts !! k = Some m →
      act s (Trim k) (m ≫= λ _, mret (if (S k <? length trim_stmts)%nat then Trim (S k) else Idle))
  | act_llseek off whence : act s Idle (scull_llseek off whence ≫= λ _, mret Idle)
  | act_ioctl cmd arg : cmd ≠ SCULL_IOCRESET → act s Idle (dev_ioctl false cmd arg ≫= λ _, mret Idle)
  | act_reset : act s Idle (reset_quantum ≫= λ _, mret ResetQset)
  | act_reset_qset : act s ResetQset (reset_qset ≫= λ _, mret Idle).

(** A step of the system: of one thread, of a new thread, or of user memory. *)
Inductive sys_step : st * list task → st * list task → Prop :=
  | sys_thread s ts i t m t' s' : ts !! i = Some t → act s t m → m s = Ret (t', s') →
      sys_step (s, ts) (s', <[i := t']> ts)
  | sys_fork s ts : sys_step (s, ts) (s, ts ++ [Idle])
  | sys_user s ts u : sys_step (s, ts) (set_user u s, ts).

(** ** The invariant *)

(** Parameters and device have the geometry of scull.h: then SCULL_IOCRESET and
    scull_trim write what is there already. *)
Definition default_params s : Prop := scull_quantum (params s) = SCULL_QUANTUM ∧ scull_qset (params s) = SCULL_QSET.
Definition default_dev s : Prop := d_quantum (dev s) = SCULL_QUANTUM ∧ d_qset (dev s) = SCULL_QSET.

Definition task_ok (t : task) : Prop :=
  match t with
  | RwQuantum _ pos _ count => rw_verify_area pos count
  | RwQset _ pos _ count quantum => rw_verify_area pos count ∧ quantum = SCULL_QUANTUM
  | RwLock _ pos _ count quantum qset => rw_verify_area pos count ∧ quantum = SCULL_QUANTUM ∧ qset = SCULL_QSET
  | Trim k => (k < length trim_stmts)%nat
  | _ => True
  end.

(** The state before statement [k] of scull_trim; [F] are the blocks of others. *)
Definition trim_inv (F : gset loc) (k : nat) s : Prop :=
  if (0 <? k)%nat && (k <? 5)%nat then
    live (heap s) = F ∧ d_locked (dev s) = true ∧ ((1 < k)%nat → d_size (dev s) = 0)
  else st_wf true s ∧ foreign s = F.

(** The mutex is free, and the device well-formed; or one thread holds it, in
    scull_trim. *)
Definition mutex_inv (F : gset loc) s (ts : list task) : Prop :=
  (∀ i k, ts !! i ≠ Some (Trim k)) ∧ st_wf false s ∧ foreign s = F ∨
  ∃ i k, ts !! i = Some (Trim k) ∧ (∀ j k', ts !! j = Some (Trim k') → j = i) ∧ trim_inv F k s.

Record sys_inv (F : gset loc) (x : st * list task) : Prop := SysInv {
  si_params : default_params x.1;
  si_dev : default_dev x.1;
  si_tasks : Forall task_ok x.2;
  si_mutex : mutex_inv F x.1 x.2
}.

(** The defaults are a valid geometry. *)
Lemma default_geom : geom_ok SCULL_QUANTUM SCULL_QSET.
Proof. unfold geom_ok, SCULL_QUANTUM, SCULL_QSET, INT_MAX. lia. Qed.

Definition trimming (t : task) : Prop := match t with Trim _ => True | _ => False end.

Lemma trim_locked F k s : trim_inv F k s → d_locked (dev s) = true.
Proof. unfold trim_inv. destruct (_ && _); [by intros (_ & ? & _)|by intros [[_ _ ?] _]]. Qed.

Lemma no_trim_insert (ts : list task) i t : (∀ j k, ts !! j ≠ Some (Trim k)) → ¬ trimming t → ∀ j k, <[i := t]> ts !! j ≠ Some (Trim k).
Proof.
  intros N Nt j k [(_ & E & _)|(_ & E)]%list_lookup_insert_Some; [by subst|by eapply N].
Qed.

(** A thread outside scull_trim goes on to a place outside it, and what it does
    is not seen in the device, the heap or the geometry parameters. *)
Lemma inv_other F s s' ts i t t' : sys_inv F (s, ts) → ts !! i = Some t → ¬ trimming t → ¬ trimming t' → task_ok t' →
  dev s' = dev s → heap s' = heap s → default_params s' → sys_inv F (s', <[i := t']> ts).
Proof.
  intros [P D T M] Hi Nt Nt' Ok Ed Eh P'. simpl in *. split; simpl.
  - done.
  - unfold default_dev. by rewrite Ed.
  - by apply Forall_insert.
  - destruct M as [(N & [W O L] & Fo)|(j & k & Hj & Un & R)].
    + left. split; [by apply no_trim_insert|]. unfold foreign, owns in *. rewrite <- Ed, <- Eh in *. done.
    + right. assert (j ≠ i) by (intros ->; rewrite Hi in Hj; injection Hj as ->; by apply Nt).
      exists j, k. split_and!; [by rewrite list_lookup_insert_ne| |].
      * intros j' k' [(_ & E & _)|(_ & E)]%list_lookup_insert_Some; [by subst|by eapply Un].
      * unfold trim_inv in *. destruct (_ && _); [by rewrite Ed, Eh|].
        destruct R as [[W O L] Fo]. unfold foreign, owns in *. rewrite <- Ed, <- Eh in *. done.
Qed.

(** A thread outside scull_trim that may take the mutex: nobody is inside. *)
Lemma inv_free F s ts : sys_inv F (s, ts) → d_locked (dev s) = false →
  (∀ j k, ts !! j ≠ Some (Trim k)) ∧ st_wf false s ∧ foreign s = F.
Proof.
  intros [_ _ _ [?|(j & k & _ & _ & R)]] L; [done|]. simpl in *. apply trim_locked in R. congruence.
Qed.

(** A critical section of its own ends with the mutex free. *)
Lemma inv_unlocked F s s' ts i t : sys_inv F (s, ts) → (∀ j k, ts !! j ≠ Some (Trim k)) → task_ok t → ¬ trimming t →
  st_wf false s' → foreign s' = F → default_params s' → default_dev s' → sys_inv F (s', <[i := t]> ts).
Proof.
  intros [_ _ T _] N Ok Nt W Fo P D. split; simpl in *; [done|done|by apply Forall_insert|].
  left. split; [by apply no_trim_insert|done].
Qed.

Lemma section_wp F s ts i wr pos quantum qset buf count intr :
  sys_inv F (s, ts) → ts !! i = Some (RwLock wr pos buf count quantum qset) →
  intr = true ∨ d_locked (dev s) = false →
  wp (rw_section wr pos quantum qset buf count intr) s (λ _ s', sys_inv F (s', <[i := Idle]> ts)).
Proof.
  intros Inv Hi Hl. pose proof Inv as [[P1 P2] [D1 D2] T _]. simpl in *.
  pose proof (Forall_lookup_1 _ _ _ _ T Hi) as ((Hp & Hc & Hm) & -> & ->). simpl in *.
  unfold rw_section. wp_step. wp_step.
  destruct intr.
  { wp_step. unfold wp at 1, mutex_lock_interruptible. wp_step.
    apply (inv_other F s _ ts i (RwLock wr pos buf count SCULL_QUANTUM SCULL_QSET)); by auto. }
  destruct Hl as [|Hl]; [done|]. destruct (inv_free F s ts Inv Hl) as (N & W & Fo).
  apply with_mutex_wp; [done|done|]. intros _.
  set (s1 := lock true (set_pos pos s)).
  assert (W1 : st_wf true s1) by (apply (lock_wf false); destruct W as [W O L]; by split).
  assert (E1 : d_quantum (dev s1) = SCULL_QUANTUM ∧ d_qset (dev s1) = SCULL_QSET) by done.
  destruct E1 as [<- <-].
  assert (K : wp (if wr then scull_write_locked (d_quantum (dev s1)) (d_qset (dev s1)) buf count
                  else scull_read_locked (d_quantum (dev s1)) (d_qset (dev s1)) buf count) s1 (λ _ s', kept s1 s')).
  { destruct wr; [apply write_locked_safe|apply read_locked_safe]; done. }
  eapply wp_mono; [|exact K]. intros r s2 (W2 & F2 & P & Q & S). split; [apply W2|].
  eapply (inv_unlocked F s); [done|done|done|by intros []|by eapply lock_wf| |by unfold default_params; simpl; rewrite P|].
  - change (foreign s2 = F). by rewrite F2.
  - unfold default_dev. simpl. by rewrite Q, S.
Qed.

(** The holder of the mutex, at each statement of scull_trim. *)
Lemma trim_lists_wp F s : st_wf true s → foreign s = F →
  wp trim_lists s (λ _ s', s' = set_heap (heap s') s ∧ live (heap s') = F).
Proof.
  intros [Hd Ho _] <-. unfold trim_lists. wp_step. wp_step.
  eapply wp_mono; [|apply (frees_foreach _ node_locs); [|apply Hd|apply Ho]]; [by intros _ s' [? ?]|].
  intros n Hn. eapply frees_node. pose proof (wf_nodes _ Hd) as Hf. rewrite Forall_forall in Hf. eauto.
Qed.

Lemma trim_stmt_wp F k m s : trim_stmts !! k = Some m → default_params s → default_dev s → trim_inv F k s →
  wp m s (λ _ s', default_params s' ∧ default_dev s' ∧
    if (S k <? length trim_stmts)%nat then trim_inv F (S k) s' else st_wf false s' ∧ foreign s' = F).
Proof.
  intros Hm [P1 P2] [D1 D2] R. destruct k as [|[|[|[|[|[|k]]]]]]; simpl in Hm; simplify_eq.
  - destruct R as [W Fo]. eapply wp_mono; [|by apply trim_lists_wp].
    intros _ s' [-> E]. split_and!; [done..|]. split; [done|]. split; [apply W|]. simpl. lia.
  - destruct R as (E & L & _). wp_step. by split_and!.
  - destruct R as (E & L & Z0). wp_step. refine (conj _ (conj _ (conj _ (conj _ _)))); try done; try (by split). intros _. simpl. apply Z0. lia.
  - destruct R as (E & L & Z0). wp_step. refine (conj _ (conj _ (conj _ (conj _ _)))); try done; try (by split). intros _. simpl. apply Z0. lia.
  - destruct R as (E & L & Z0). wp_step. refine (conj _ (conj _ (conj _ _))); try done.
    + split; [|by intros ? ?%elem_of_nil|done].
      split; simpl; [rewrite D1, D2; apply default_geom|rewrite Z0 by lia; unfold LLONG_MAX; lia|constructor|constructor].
    + unfold foreign. simpl. rewrite E. set_solver.
  - destruct R as [W Fo]. unfold wp, mutex_unlock. rewrite (st_lock _ _ W). refine (conj _ (conj _ (conj _ _))); try done.
    by apply (lock_wf true false).
Qed.

Lemma ioctl_params cmd arg s r s' : dev_ioctl false cmd arg s = Ret (r, s') → default_params s →
  default_params s' ∧ dev s' = dev s ∧ heap s' = heap s.
Proof.
  unfold dev_ioctl, default_params. intros E [P1 P2].
  pose proof (scull_ioctl_unprivileged cmd arg (params s) (user s)) as D.
  destruct (scull_ioctl false cmd arg (params s) (user s)) as [q [p u]]. simplify_eq/=.
  destruct D as [[[-> ->]|(_ & -> & ->)] _]; done.
Qed.

(** No action goes wrong, and each keeps the invariant. *)
Lemma act_wp F s ts i t m : sys_inv F (s, ts) → ts !! i = Some t → act s t m →
  wp m s (λ t' s', sys_inv F (s', <[i := t']> ts)).
Proof.
  intros Inv Hi A. pose proof Inv as [P D T M]. simpl in *. pose proof P as [P1 P2]. pose proof D as [D1 D2].
  pose proof (Forall_lookup_1 _ _ _ _ T Hi) as Ok.
  assert (Oth : ∀ t' s', ¬ trimming t → ¬ trimming t' → task_ok t' → dev s' = dev s → heap s' = heap s →
    default_params s' → sys_inv F (s', <[i := t']> ts)) by (intros; by eapply inv_other).
  inversion A as [wr pos buf count V|wr pos buf count|wr pos buf count q|wr pos buf count q qs intr Hl|fl|intr Hl
    |k m' Hm|off wh|cmd arg Hc| |]; subst.
  - wp_step. by apply Oth; auto.
  - wp_step. wp_step. wp_step. simpl in Ok. by apply Oth; auto.
  - wp_step. wp_step. wp_step. destruct Ok as [Ok ->]. by apply Oth; auto.
  - wp_step. eapply wp_mono; [|by apply (section_wp F s ts i)]. intros r s' I'. by wp_step.
  - wp_step. destruct (opened_wronly fl); by apply Oth; auto.
  - wp_step. unfold wp at 1, mutex_lock_interruptible. destruct intr; [wp_step; by apply Oth; auto|].
    destruct Hl as [|Hl]; [done|]. rewrite Hl. wp_step. destruct (inv_free F s ts Inv Hl) as (N & W & Fo).
    split; simpl; [done|done|apply Forall_insert; [done|]; simpl; lia|].
    right. exists i, 0%nat. split_and!.
    + apply list_lookup_insert_eq. by eapply lookup_lt_Some.
    + intros j k [(-> & _)|(_ & E)]%list_lookup_insert_Some; [done|by destruct (N _ _ E)].
    + split; [by apply (lock_wf false)|done].
  - destruct M as [(N & _)|(j & k' & Hj & Un & R)]; [by destruct (N _ _ Hi)|].
    pose proof (Un _ _ Hi) as <-. rewrite Hi in Hj. injection Hj as <-.
    wp_step. eapply wp_mono; [|by apply (trim_stmt_wp F k m' s)]. intros [] s' (P' & D' & R'). wp_step.
    destruct (_ <? _)%nat eqn:E; [apply Nat.ltb_lt in E|].
    + split; simpl; [done|done|by apply Forall_insert|]. right. exists i, (S k). split_and!; [|
        |done]; [apply list_lookup_insert_eq; by eapply lookup_lt_Some|].
      intros j k2 [(-> & _)|(_ & E2)]%list_lookup_insert_Some; [done|by eapply Un].
    + split; simpl; [done|done|by apply Forall_insert|]. left. split; [|done].
      intros j k2 [(_ & [=] & _)|(Ne & E2)]%list_lookup_insert_Some. apply Ne. symmetry. by eapply Un.
  - wp_step. eapply wp_mono; [|apply llseek_wp]. intros r s' E. wp_step.
    repeat case_match; destruct E as [_ ->]; by apply Oth; auto.
  - wp_step. unfold wp at 1. destruct (dev_ioctl false cmd arg s) as [[r s']|f] eqn:E.
    + destruct (ioctl_params _ _ _ _ _ E P) as (P' & E1 & E2). wp_step. by apply Oth; auto.
    + exfalso. unfold dev_ioctl in E. by destruct (scull_ioctl false cmd arg (params s) (user s)) as [? [? ?]].
  - unfold reset_quantum. wp_step. wp_step. wp_step. by apply Oth; auto.
  - unfold reset_qset. wp_step. wp_step. wp_step. by apply Oth; auto.
Qed.

Lemma sys_step_inv F x y : sys_step x y → sys_inv F x → sys_inv F y.
Proof.
  intros [s ts i t m t' s' Hi A E|s ts|s ts u] I.
  - exact (wp_run _ _ _ _ _ (act_wp F s ts i t m I Hi A) E).
  - destruct I as [P D T M]. split; [done|done|by apply Forall_app; split; [|repeat constructor]|].
    assert (L : ∀ j k, (ts ++ [Idle]) !! j = Some (Trim k) → ts !! j = Some (Trim k)).
    { intros j k E. apply lookup_app_Some in E as [E|[_ E]]; [done|].
      by apply list_lookup_singleton_Some in E as [_ [=]]. }
    destruct M as [(N & M)|(j & k & Hj & Un & R)]; simpl in *.
    + left. split; [|done]. intros j k E. by eapply N, L.
    + right. exists j, k. split_and!; [by apply lookup_app_l_Some| |done]. intros j' k' E. by eapply Un, L.
  - destruct I as [P D T M]. split; [done..|].
    destruct M as [(N & [W O L] & Fo)|(j & k & Hj & Un & R)]; simpl in *; [by left|].
    right. exists j, k. split_and!; [done|done|]. unfold trim_inv in *. destruct (_ && _); [done|].
    by destruct R as [[W O L] Fo].
Qed.

Lemma sys_reach_inv F x y : rtc sys_step x y → sys_inv F x → sys_inv F y.
Proof. induction 1 as [|x y z St _ IH]; [done|]. intros I. by apply IH, (sys_step_inv F x). Qed.

(** C8: any number of threads without CAP_SYS_ADMIN in a scull device whose
    geometry, and the module parameters, are the defaults of scull.h: reads and
    writes at any position and count the VFS lets through, opens, seeks and ioctl
    commands with any words and arguments, interleaved statement by statement
    around the mutex, while user memory changes: no step of any thread faults.
    Whenever the mutex is free the device is well-formed and owns every block
    allocated for it, none leaked; whenever it is taken, its holder is in
    scull_trim and can go on.  The capability is what protects the driver: one
    command of a privileged caller, in any such state with the mutex free, makes
    the next truncation and write divide by zero. *)
Theorem scull_unprivileged_safe s0 s ts :
  st_wf false s0 → default_params s0 → default_dev s0 → rtc sys_step (s0, []) (s, ts) →
  (∀ i t m, ts !! i = Some t → act s t m → ∃ t' s', m s = Ret (t', s')) ∧
  (d_locked (dev s) = false → st_wf false s ∧ foreign s = foreign s0 ∧
    ∀ buf count, (dev_ioctl true SCULL_IOCTQUANTUM 0 ≫= λ _,
      scull_open false O_WRONLY ≫= λ _, scull_write false buf count) s = Fault DivZero) ∧
  (d_locked (dev s) = true → ∃ i k m t' s', ts !! i = Some (Trim k) ∧ act s (Trim k) m ∧ m s = Ret (t', s')).
Proof.
  intros W0 P0 D0 R. assert (I : sys_inv (foreign s0) (s, ts)).
  { apply (sys_reach_inv _ _ _ R). split; [done|done|constructor|]. left. split; [|done]. by intros []. }
  assert (Go : ∀ i t m, ts !! i = Some t → act s t m → ∃ t' s', m s = Ret (t', s')).
  { intros i t m Hi A. destruct (wp_elim _ _ _ (act_wp _ s ts i t m I Hi A)) as (t' & s' & E & _). eauto. }
  split; [exact Go|split; intros L].
  - destruct (inv_free _ s ts I L) as (_ & W & Fo). split_and!; [done|done|]. intros buf count.
    assert (E : dev_ioctl true SCULL_IOCTQUANTUM 0 s = Ret (0, set_params (set_quantum (params s) 0) (set_user (user s) s))).
    { unfold dev_ioctl. ioctl_run. done. }
    rewrite (bind_run _ _ _ _ _ E). apply scull_zero_geometry_traps; [by destruct W as [[? ? ? ?] ? ?]|by left].
  - destruct I as [_ _ T [(_ & [_ _ L'] & _)|(i & k & Hi & _ & _)]]; simpl in *; [congruence|].
    pose proof (Forall_lookup_1 _ _ _ _ T Hi) as Hk. simpl in Hk.
    destruct (lookup_lt_is_Some_2 trim_stmts k Hk) as [m Hm].
    pose proof (act_trim s k m Hm) as A. destruct (Go i _ _ Hi A) as (t' & s' & E). by exists i, k, (m ≫= λ _, mret (if (S k <? length trim_stmts)%nat then Trim (S k) else Idle)), t', s'.
Qed.
End threads.

(** ** Runs *)

Definition loaded (quantum qset : Z) : scull_st bump umap :=
  ScullSt (ScullParams quantum qset 4000) (ScullDev [] quantum qset 0 0 false) bump_init demo_user 0.
Lemma loaded_wf quantum qset : geom_ok quantum qset → st_wf false (loaded quantum qset).
Proof.
  intros G. split; [|by intros ? ?%elem_of_nil|done].
  split; simpl; [done|unfold LLONG_MAX; lia|constructor|constructor].
Qed.

Section run.
Abbreviation st := (scull_st bump umap).
(** The state an action leaves. *)
Definition after (m : M st task) (s : st) : st := match m s with Ret (_, s') => s' | Fault _ => s end.

Lemma thread_step (s : st) ts i t (m : M st task) t' : ts !! i = Some t → act s t m →
  (match m s with Ret (r, _) => Some r | Fault _ => None end) = Some t' → sys_step (s, ts) (after m s, <[i := t']> ts).
Proof.
  intros Hi A E. apply (sys_thread s ts i t m); [done|done|]. unfold after.
  destruct (m s) as [[r s']|f]; [by injection E as ->|done].
Qed.

(** A run as the list of the threads that move, with where each is then. *)
Inductive run : st * list task → st * list task → Prop :=
  | run_nil x : run x x
  | run_cons s ts i t m t' y : ts !! i = Some t → act s t m →
      (match m s with Ret (r, _) => Some r | Fault _ => None end) = Some t' →
      run (after m s, <[i := t']> ts) y → run (s, ts) y.
Lemma run_rtc x y : run x y → rtc sys_step x y.
Proof. induction 1; [done|]. eapply rtc_l; [by eapply thread_step|done]. Qed.

End run.

(** A thread about to trim a device, and another in the middle of a reset. *)
Lemma scull_unprivileged_safe_witness : ∃ s : scull_st bump umap,
  rtc sys_step (loaded SCULL_QUANTUM SCULL_QSET, []) (s, [Trim 0; ResetQset]) ∧
  ∃ i k m t' s', [Trim 0; ResetQset] !! i = Some (Trim k) ∧ act s (Trim k) m ∧ m s = Ret (t', s').
Proof.
  set (s0 := loaded SCULL_QUANTUM SCULL_QSET).
  set (s1 := after (failed ← mutex_lock_interruptible false; mret (if (failed : bool) then Idle else Trim 0)) s0).
  set (s2 := after (reset_quantum ≫= λ _, mret ResetQset) s1).
  assert (R : rtc sys_step (s0, []) (s2, [Trim 0; ResetQset])).
  { eapply rtc_l; [apply sys_fork|]. eapply rtc_l; [apply sys_fork|].
    eapply rtc_l; [exact (thread_step s0 [Idle; Idle] 0 Idle _ OpenLock eq_refl (act_open s0 O_WRONLY) eq_refl)|].
    eapply rtc_l; [exact (thread_step s0 [OpenLock; Idle] 0 OpenLock _ (Trim 0) eq_refl (act_open_lock s0 false (or_intror eq_refl)) eq_refl)|].
    eapply rtc_l; [exact (thread_step s1 [Trim 0; Idle] 1 Idle _ ResetQset eq_refl (act_reset s1) eq_refl)|]. apply rtc_refl. }
  exists s2. split; [exact R|].
  apply (scull_unprivileged_safe s0 s2 [Trim 0; ResetQset]); [apply loaded_wf, default_geom|done|done|exact R|done].
Defined.

(** Thread [i] moves by [tac] to [t]. *)
Local Ltac go i t tac := eapply (run_cons _ _ i _ _ t); [reflexivity|tac|vm_compute; reflexivity|]; cbn [list_insert insert].

