(* ===== verification/ScullSystem.v ===== *)
(** Two drivers whose ioctl lets any caller break them: scullpipe (pipe.c of
    src/ldd/scull), whose buffer size any process may raise while the buffer stays
    as it is, and scullp (main.c of src/ldd/scullp), which asks for no capability
    where scull does (ScullThreads.v). *)
From Stdlib Require Import ZArith Lia.
From stdpp Require Import base list gmap relations.
From S2P Require Import Prelude Kernel Scull ScullSpec ScullThms ScullIoctl ScullPipe Scullp ScullpThms UserMap.

(** ** scullpipe *)

Section pipe.
Context {H U : Type} `{KernelHeap H} `{UserMem U} `{UserInt U} `{IocCodec}.
Abbreviation st := (pipe_st H U).
Implicit Types s : st.
(** The parameters of the bare devices, which the pipe does not look at. *)
Variables quantum qset : Z.

Definition pipe_ioctl (capable : bool) (cmd arg : Z) : M st Z := λ s,
  let '(r, (p, u)) := scull_ioctl capable cmd arg (ScullParams quantum qset (p_param s)) (p_user s) in
  Ret (r, PipeSt (pipe s) (p_heap s) u (scull_p_buffer p) (sigio s)).

(** Opening a pipe whose buffer is there takes the parameter as its size. *)
Lemma p_open_resizes s l mem mode : buffer (pipe s) = Some (l, mem) → p_locked (pipe s) = false →
  ∃ s', scull_p_open false mode s = Ret (0, s') ∧ buffer (pipe s') = Some (l, mem) ∧ p_locked (pipe s') = false ∧
    p_end (pipe s') = p_param s ∧ buffersize (pipe s') = p_param s ∧ p_rp (pipe s') = 0 ∧ p_wp (pipe s') = 0.
Proof.
  intros Eb El. unfold scull_p_open, pipe_mutex_lock, pipe_mutex_unlock, mbind, M_bind, mget, mmodify, mret, M_ret.
  rewrite El. cbv iota beta. cbn [pipe set_pipe buffer pipe_lock]. rewrite Eb. cbn.
  eexists. split; [reflexivity|]. cbn. by rewrite Eb.
Qed.

(** An empty pipe takes as much as its size field says. *)
Lemma p_write_past s l mem buf count ws : buffer (pipe s) = Some (l, mem) → p_locked (pipe s) = false →
  p_end (pipe s) = buffersize (pipe s) → p_rp (pipe s) = 0 → p_wp (pipe s) = 0 →
  Z.of_nat (length mem) < count → count < buffersize (pipe s) <= INT_MAX →
  scull_p_write false false buf count ws s = Fault OutOfBounds.
Proof.
  intros Eb El Ee Er Ew Hc Hn. unfold INT_MAX in Hn.
  set (s1 := set_pipe (pipe_lock (pipe s) true) s).
  assert (L : pipe_mutex_lock false s = Ret (false, s1)) by (unfold pipe_mutex_lock; by rewrite El).
  assert (Sp : spacefree s1 = Ret (buffersize (pipe s) - 1, s1)).
  { unfold spacefree, mbind, M_bind, mget. cbn. rewrite Er, Ew. cbn. by rewrite s32_id by (unfold INT_MAX; lia). }
  assert (Gw : scull_getwritespace false ws s1 = Ret (Some (inr tt), s1)).
  { destruct ws; cbn [scull_getwritespace]; unfold getwritespace_pass; (erewrite bind_run; [|erewrite bind_run; [|exact Sp];
      cbv beta; rewrite (proj2 (Z.eqb_neq _ 0)) by lia; reflexivity]); reflexivity. }
  unfold scull_p_write. rewrite (bind_run _ _ _ _ _ L). cbv beta iota. rewrite (bind_run _ _ _ _ _ Gw). cbv beta iota.
  assert (D : p_write_data buf count s1 = Fault OutOfBounds); [|unfold mbind, M_bind; by rewrite D].
  unfold p_write_data. rewrite (bind_run _ _ _ _ _ Sp). cbv beta. clear L Sp Gw.
  unfold s1. clear s1. destruct s as [[b e bs rp wp nr nw aq lk] h u pp sg]. simpl in *. subst.
  unfold mbind, M_bind, mget. cbn [pipe set_pipe pipe_lock p_rp p_wp p_end buffer].
  change (0 <=? 0) with true. cbv iota zeta. rewrite Z.sub_0_r, !u64_id by lia.
  rewrite (Z.min_l count (bs - 1)), (Z.min_l count bs) by lia.
  unfold user_to_pipe. cbn [pipe set_pipe pipe_lock buffer].
  by rewrite (proj2 (Z.leb_gt (0 + count) _)) by lia.
Qed.

(** C15: a process without CAP_SYS_ADMIN that may open a pipe which somebody has
    open can make the driver write past the end of the buffer: it raises the
    size parameter, for which no capability is asked, opens the pipe, which takes
    the new size for the size of the old buffer, and writes more than the buffer
    holds. *)
Theorem scull_p_unprivileged_overflows s l mem n mode buf count ws :
  buffer (pipe s) = Some (l, mem) → p_locked (pipe s) = false →
  Z.of_nat (length mem) < count → count < n <= INT_MAX →
  (pipe_ioctl false SCULL_P_IOCTSIZE n ≫= λ _,
   scull_p_open false mode ≫= λ _, scull_p_write false false buf count ws) s = Fault OutOfBounds.
Proof.
  intros Eb El Hc Hn.
  assert (E : pipe_ioctl false SCULL_P_IOCTSIZE n s = Ret (0, PipeSt (pipe s) (p_heap s) (p_user s) n (sigio s))).
  { unfold pipe_ioctl. ioctl_run. rewrite s32_id by (unfold INT_MAX in *; lia). done. }
  rewrite (bind_run _ _ _ _ _ E). cbv beta.
  destruct (p_open_resizes (PipeSt (pipe s) (p_heap s) (p_user s) n (sigio s)) l mem mode Eb El)
    as (s' & E' & Eb' & El' & Ee & Es & Er & Ew).
  rewrite (bind_run _ _ _ _ _ E'). cbv beta. apply (p_write_past s' l mem); try done; simpl in *; [congruence|lia].
Qed.

End pipe.

(** ** scullp, which asks for no capability *)

Section scullp.
Context {H U : Type} `{PageAlloc H} `{UserMem U} `{UserInt U} `{IocCodec} `{ScullpSizes}.
Abbreviation st := (scullp_st H U).
Implicit Types s : st.

Definition p_dev_ioctl (cmd arg : Z) : M st Z := λ s,
  let '(r, (p, u)) := scullp_ioctl cmd arg (sp_params s) (sp_user s) in
  Ret (r, ScullpSt p (sp_dev s) (sp_heap s) u (sp_pos s)).

(** Opening an unmapped device for writing only gives it the parameters. *)
Lemma p_open_trims s : p_wf (sp_dev s) → p_owns s → p_mutex (sp_dev s) = false → p_vmas (sp_dev s) = 0 →
  ∃ s', scullp_open false O_WRONLY s = Ret (0, s') ∧ p_order (sp_dev s') = scullp_order (sp_params s) ∧
    p_qset (sp_dev s') = scullp_qset (sp_params s) ∧ p_mutex (sp_dev s') = false.
Proof.
  intros W O Mx Vm. unfold scullp_open. change (opened_wronly O_WRONLY) with true. cbv iota.
  set (s1 := set_pdev (with_pmutex (sp_dev s) true) s).
  assert (L : sp_lock false s = Ret (false, s1)) by (unfold sp_lock; by rewrite Mx).
  rewrite (bind_run _ _ _ _ _ L). cbv beta iota.
  assert (W1 : p_wf (sp_dev s1)) by by destruct W.
  destruct (wp_elim _ _ _ (p_trim_wp s1 W1 O)) as (r & s2 & E2 & T2).
  change (p_vmas (sp_dev s1)) with (p_vmas (sp_dev s)) in T2. rewrite Vm in T2. destruct T2 as (-> & D2 & _).
  rewrite (bind_run _ _ _ _ _ E2). cbv beta.
  assert (Un : sp_unlock s2 = Ret (tt, set_pdev (with_pmutex (sp_dev s2) false) s2)) by (unfold sp_unlock; by rewrite D2).
  rewrite (bind_run _ _ _ _ _ Un). eexists. split; [done|]. simpl. by rewrite D2.
Qed.

Lemma p_write_zero_qset s buf count : 0 <= p_order (sp_dev s) < 64 → p_qset (sp_dev s) = 0 →
  p_mutex (sp_dev s) = false → scullp_write false buf count s = Fault DivZero.
Proof.
  intros Ho Hq Mx. unfold scullp_write, page_shift, sp_lock, mbind, M_bind, mget.
  rewrite (proj2 (Z.leb_le 0 _)), (proj2 (Z.ltb_lt _ 64)) by lia. cbn [andb]. unfold mret, M_ret. rewrite Mx, Hq.
  unfold scullp_write_locked, p_locate, mbind, M_bind, mget, c_div. rewrite Z.mul_0_r. done.
Qed.

(** C16: on scullp any caller can do what scull reserves to privileged ones:
    with the qset parameter at 0, which one command without any check sets, the
    next truncation and write of an unmapped device of a usable order divides by
    zero. *)
Theorem scullp_unprivileged_traps s buf count :
  p_wf (sp_dev s) → p_owns s → p_mutex (sp_dev s) = false → p_vmas (sp_dev s) = 0 →
  0 <= scullp_order (sp_params s) < 64 →
  (p_dev_ioctl SCULLP_IOCTQSET 0 ≫= λ _,
   scullp_open false O_WRONLY ≫= λ _, scullp_write false buf count) s = Fault DivZero.
Proof.
  intros W O Mx Vm Ho.
  assert (E : p_dev_ioctl SCULLP_IOCTQSET 0 s =
    Ret (0, ScullpSt (setp_qset (sp_params s) 0) (sp_dev s) (sp_heap s) (sp_user s) (sp_pos s))).
  { unfold p_dev_ioctl. by rewrite (proj1 (scullp_ioctl_any_caller_sets_qset 0 (sp_params s) (sp_user s))). }
  rewrite (bind_run _ _ _ _ _ E). cbv beta. set (s1 := ScullpSt _ _ _ _ _).
  destruct (p_open_trims s1) as (s2 & E2 & Od & Qs & Mx2); [by destruct W|done|done|done|].
  rewrite (bind_run _ _ _ _ _ E2). cbv beta. by apply p_write_zero_qset; rewrite ?Od.
Qed.

End scullp.

(** ** Runs *)

#[local] Existing Instance demo_sizes.
Lemma scullp_unprivileged_traps_witness :
  (p_dev_ioctl SCULLP_IOCTQSET 0 ≫= λ _, scullp_open false O_WRONLY ≫= λ _, scullp_write false 0 8) (ScullpThms.demo 0 0)
  = Fault DivZero.
Proof.
  apply (scullp_unprivileged_traps (ScullpThms.demo 0 0) 0 8 (scullp_demo_wf 0) (demo_owns 0 0)); [reflexivity|reflexivity|].
  simpl. lia.
Defined.

(** A pipe of four bytes is open; the size goes to sixteen, and twelve bytes are
    written. *)
Definition small_pipe : pipe_st bump umap :=
  PipeSt (ScullPipe (Some (1%positive, replicate 4 None)) 4 4 0 0 1 1 [] false) (Bump {[1%positive]} 2 []) ∅ 4 0.
Lemma scull_p_unprivileged_overflows_witness :
  (pipe_ioctl 4000 1000 false SCULL_P_IOCTSIZE 16 ≫= λ _,
   scull_p_open false 2 ≫= λ _, scull_p_write false false 0 12 []) small_pipe = Fault OutOfBounds.
Proof.
  apply (scull_p_unprivileged_overflows 4000 1000 small_pipe 1%positive (replicate 4 None)); [reflexivity|reflexivity|reflexivity|].
  unfold INT_MAX. lia.
Defined.
