(* ===== verification/Md5Dev.v ===== *)
(** The character devices of src/m_modules/char_dev/cdev.c (Module Virtual) and
    md5_dev.c (Module Md5), with their theorems.

    The md5 device keeps one text of 1024 bytes; a read answers with the digest
    of its first string.  The digest itself is the kernel's crypto layer, the
    interface [Shash]. *)
From Stdlib Require Import ZArith Lia.
From stdpp Require Import base list gmap.
From S2P Require Import Prelude Kernel ChrReg CharDev CharDevThms.

(** ** cdev.c *)

Module Virtual.
Section ops.
Context {H R D : Type} `{KernelHeap H} `{ChrDevs R} `{DevModel D}.
Abbreviation st := (chr_st H R D).
Variable sizeof_cdev : Z.

Definition virtual_device_open : Z := 0.
Definition virtual_device_release : Z := 0.
Definition virtual_device_write (count : Z) : Z := s64 count.
Definition virtual_device_read (count : Z) : Z := s64 count.

(** cdev_alloc: a zeroed structure, or NULL. *)
Definition cdev_alloc : M st (option loc) := λ s,
  let '(p, h) := kmalloc sizeof_cdev (c_heap s) in
  Ret (p, ChrSt (c_major s) (c_class s) (c_cdevs s) h (c_reg s) (c_dm s)).

Definition BASE := 10.

(** No result is tested; when alloc_chrdev_region fails the static number is
    still zero. *)
Definition dev_init : M st Z :=
  p ← cdev_alloc;
  r ← reg_call (alloc_chrdev_region BASE 1);
  let major := match r with inr dev => MAJOR dev | inl _ => MAJOR 0 end in
  mmodify (λ s, set_chr major (c_class s) s) ≫= λ _,
  match p with
  | None => mfault NullDeref                       (* cdev_init(NULL, ..) *)
  | Some _ =>
      cdev_init (CChar 1) ≫= λ _,
      reg_call (cdev_add (CChar 1) (MKDEV major BASE) 1) ≫= λ _,
      cl ← dm_call class_create;
      match cl with
      | inl _ => mfault ErrPtr                     (* device_create of an error pointer *)
      | inr c =>
          mmodify (λ s, set_chr major (Some c) s) ≫= λ _,
          dm_call (device_create c (MKDEV major BASE)) ≫= λ _, mret 0
      end
  end.

Definition dev_exit : M st unit :=
  s ← mget;
  match c_class s with
  | None => mfault NullDeref
  | Some c =>
      dm_do (device_destroy c (MKDEV (c_major s) BASE)) ≫= λ _,
      dm_do (class_destroy c) ≫= λ _,
      cdev_del (CChar 1) ≫= λ _,
      unregister (MKDEV (c_major s) BASE) 1
  end.

End ops.
End Virtual.

(** ** md5_dev.c *)

(** The synchronous hash interface for "md5". *)
Class Shash (C : Type) := {
  sh_tfms : C → gset loc;
  sh_desc : Type;
  md5 : list cell → list cell;
  crypto_alloc_shash : C → (Z + loc) * C;
  crypto_free_shash : loc → C → C;
  free_err_ok : bool;   (* of the kernel's version: crypto_free_shash of an error pointer does nothing *)
  crypto_shash_descsize : Z;
  crypto_shash_init : loc → Z * sh_desc;
  crypto_shash_update : sh_desc → list cell → Z * sh_desc;
  crypto_shash_final : sh_desc → Z * list cell;
  alloc_shash_ok_law : ∀ c t c', crypto_alloc_shash c = (inr t, c') →
    (t ∉ sh_tfms c) ∧ sh_tfms c' = {[t]} ∪ sh_tfms c;
  alloc_shash_err_law : ∀ c e c', crypto_alloc_shash c = (inl e, c') → sh_tfms c' = sh_tfms c;
  free_shash_law : ∀ t c, sh_tfms (crypto_free_shash t c) = sh_tfms c ∖ {[t]};
  md5_law : ∀ t data z0 d0 z1 d1 z2 out,
    crypto_shash_init t = (z0, d0) → crypto_shash_update d0 data = (z1, d1) →
    crypto_shash_final d1 = (z2, out) → 0 <= z0 → 0 <= z1 → 0 <= z2 →
    out = md5 data ∧ length out = 16%nat
}.

Module Md5.

Definition MD5_LEN := 16.
Definition MAX_LEN := 1024.
Definition MINOR_BASE := 5.
Definition MINOR_NUM := 1.

(** The statics of the file: those of a [chr_st], and [virtual_device],
    [buffer], [plaintext] and [virtual_device_usage]. *)
Record md5_st (H R D U C : Type) := Md5St {
  mv_chr : chr_st H R D;
  mv_cdev : option loc;
  mv_buffer : option loc;
  mv_plain : list cell;
  mv_usage : Z;
  mv_user : U;
  mv_crypto : C
}.
Arguments Md5St {H R D U C}.
Arguments mv_chr {H R D U C}.
Arguments mv_cdev {H R D U C}.
Arguments mv_buffer {H R D U C}.
Arguments mv_plain {H R D U C}.
Arguments mv_usage {H R D U C}.
Arguments mv_user {H R D U C}.
Arguments mv_crypto {H R D U C}.

Section ops.
Context {H R D U C : Type} `{KernelHeap H} `{ChrDevs R} `{DevModel D} `{UserMem U} `{Shash C}.
Abbreviation st := (md5_st H R D U C).
Variable sizeof_cdev sizeof_shash_desc : Z.

Definition set_chrst (c : chr_st H R D) (s : st) : st :=
  Md5St c (mv_cdev s) (mv_buffer s) (mv_plain s) (mv_usage s) (mv_user s) (mv_crypto s).
Definition set_heap (h : H) (s : st) : st :=
  let c := mv_chr s in
  set_chrst (ChrSt (c_major c) (c_class c) (c_cdevs c) h (c_reg c) (c_dm c)) s.
Definition set_plain (p : list cell) (s : st) : st :=
  Md5St (mv_chr s) (mv_cdev s) (mv_buffer s) p (mv_usage s) (mv_user s) (mv_crypto s).
Definition set_usage (n : Z) (s : st) : st :=
  Md5St (mv_chr s) (mv_cdev s) (mv_buffer s) (mv_plain s) n (mv_user s) (mv_crypto s).
Definition set_ptrs (v b : option loc) (s : st) : st :=
  Md5St (mv_chr s) v b (mv_plain s) (mv_usage s) (mv_user s) (mv_crypto s).
Definition set_crypto (c : C) (s : st) : st :=
  Md5St (mv_chr s) (mv_cdev s) (mv_buffer s) (mv_plain s) (mv_usage s) (mv_user s) c.

Definition on_chr {A} (m : M (chr_st H R D) A) : M st A := λ s,
  match m (mv_chr s) with
  | Ret (a, c) => Ret (a, set_chrst c s)
  | Fault f => Fault f
  end.
Definition md_kzalloc (n : Z) : M st (option loc) := λ s,
  let '(p, h) := kmalloc n (c_heap (mv_chr s)) in Ret (p, set_heap h s).
Definition md_kfree (l : loc) : M st unit := λ s,
  if bool_decide (l ∈ live (c_heap (mv_chr s))) then Ret (tt, set_heap (kfree l (c_heap (mv_chr s))) s)
  else Fault BadFree.

(** *** md5_init, md5_exit *)

(** The labels OUT2 and OUT. *)
Definition out2 (dev : Z) : M st Z := on_chr (unregister dev MINOR_NUM) ≫= λ _, mret (-1).
Definition out (dev : Z) : M st Z := on_chr (cdev_del (CChar 2)) ≫= λ _, out2 dev.

Definition md5_init : M st Z :=
  v ← on_chr (Virtual.cdev_alloc sizeof_cdev);
  mmodify (λ s, set_ptrs v (mv_buffer s) s) ≫= λ _,
  r ← on_chr (reg_call (alloc_chrdev_region MINOR_BASE MINOR_NUM));
  match r with
  | inl _ => mret (-1)
  | inr dev =>
      let major := MAJOR dev in
      let dev := MKDEV major MINOR_BASE in
      on_chr (mmodify (λ c, set_chr major (c_class c) c)) ≫= λ _,
      match v with
      | None => mfault NullDeref                       (* cdev_init(NULL, ..) *)
      | Some _ =>
          on_chr (cdev_init (CChar 2)) ≫= λ _,
          ret ← on_chr (reg_call (cdev_add (CChar 2) dev MINOR_NUM));
          if negb (ret =? 0) then out2 dev else
          cl ← on_chr (dm_call class_create);
          match cl with
          | inl _ => out dev
          | inr c =>
              on_chr (mmodify (λ x, set_chr (c_major x) (Some c) x)) ≫= λ _,
              on_chr (dm_call (device_create c dev)) ≫= λ _,
              b ← md_kzalloc 64;
              mmodify (λ s, set_ptrs (mv_cdev s) b s) ≫= λ _,
              match b with
              | None => out dev
              | Some _ => mret 0
              end
          end
      end
  end.

Definition md5_exit : M st unit :=
  s ← mget;
  let dev := MKDEV (c_major (mv_chr s)) MINOR_BASE in
  match c_class (mv_chr s) with
  | None => mfault NullDeref
  | Some c =>
      on_chr (dm_do (device_destroy c dev)) ≫= λ _,
      on_chr (dm_do (class_destroy c)) ≫= λ _,
      on_chr (cdev_del (CChar 2)) ≫= λ _,
      on_chr (unregister dev MINOR_NUM)
  end.

(** *** The files *)

Definition virtual_device_open : M st Z :=
  s ← mget;
  let n := s32 (mv_usage s - 1) in
  mput (set_usage n s) ≫= λ _,
  if negb (n =? 0) then
    mmodify (λ s, set_usage (s32 (mv_usage s + 1)) s) ≫= λ _, mret (- EBUSY)
  else mret 0.

Definition virtual_device_release : M st Z :=
  mmodify (λ s, set_usage (s32 (mv_usage s + 1)) s) ≫= λ _, mret 0.

(** Neither [count] nor the result of copy_from_user is looked at. *)
Definition virtual_device_write (buf count : Z) : M st Z := λ s,
  if MAX_LEN <? count then Fault OutOfBounds else
  let '(cs, _) := copy_from_user (mv_user s) buf (Z.to_nat count) in
  Ret (s64 count, set_plain (list_inserts 0 cs (mv_plain s)) s).

(** hash_md5 with the digest put into [result]; the value is the string that
    [result] holds afterwards and the return value. *)
Definition crypto_steps (t : loc) (data result : list cell) : list cell * bool :=
  let '(z0, d) := crypto_shash_init t in
  if z0 <? 0 then (result, false) else
  let '(z1, d) := crypto_shash_update d data in
  if z1 <? 0 then (result, false) else
  let '(z2, digest) := crypto_shash_final d in
  if z2 <? 0 then (result, false) else (digest ++ drop (length digest) result, true).

Definition hash_md5 (result data : list cell) : M st (list cell * bool) :=
  s ← mget;
  let '(shash, c) := crypto_alloc_shash (mv_crypto s) in
  mput (set_crypto c s) ≫= λ _,
  match shash with
  | inl _ => if free_err_ok then mret (result, false) else mfault ErrPtr
  | inr t =>
      sdesc ← md_kzalloc (sizeof_shash_desc + crypto_shash_descsize);
      let r := match sdesc with
               | None => (result, false)
               | Some _ => crypto_steps t data result
               end in
      (match sdesc with Some l => md_kfree l | None => mret tt end) ≫= λ _,
      mmodify (λ s, set_crypto (crypto_free_shash t (mv_crypto s)) s) ≫= λ _,
      mret r
  end.

(** The results of hash_md5 and copy_to_user are not looked at, nor is [p]
    tested: without memory the digest is written through a null pointer, or
    nothing is and copy_to_user reads from it. *)
Definition virtual_device_read (buf count : Z) : M st Z :=
  p ← md_kzalloc MD5_LEN;
  s ← mget;
  match c_str (mv_plain s), p with
  | None, _ => mfault OutOfBounds                      (* strlen(plaintext) *)
  | Some text, None => hash_md5 [] text ≫= λ _, mfault NullDeref
  | Some text, Some l =>
      '(digest, _) ← hash_md5 (replicate (Z.to_nat MD5_LEN) (Some x00)) text;
      mmodify (λ s, Md5St (mv_chr s) (mv_cdev s) (mv_buffer s) (mv_plain s) (mv_usage s)
        (copy_to_user (mv_user s) buf digest).1 (mv_crypto s)) ≫= λ _,
      md_kfree l ≫= λ _,
      mret (s64 count)
  end.

End ops.
End Md5.

(** ** Theorems *)

Section thms.
Context {H R D U C : Type} `{KernelHeap H} `{ChrDevs R} `{DevModel D} `{UserMem U} `{Shash C}.
Abbreviation st := (Md5.md5_st H R D U C).
Implicit Types s : st.
Variable sizeof_cdev sizeof_shash_desc : Z.

(** The driver's cdev is not in use and nodes belong to existing classes. *)
Definition idle_cdev (i : nat) (c : chr_st H R D) : Prop :=
  (∀ x n, (x, n) ∈ dm_nodes (c_dm c) → x ∈ dm_classes (c_dm c)) ∧ CChar i ∉ reg_cdevs (c_reg c).

(** Unregistering one device of one class, in the order both files use. *)
Lemma unplug_restores i (c0 c1 : chr_st H R D) cl major base :
  let dev := MKDEV major base in
  idle_cdev i c0 → CChar i ∈ c_cdevs c1 → cl ∉ dm_classes (c_dm c0) →
  dev_range dev 1 ## reg_devs (c_reg c0) →
  reg_devs (c_reg c1) = dev_range dev 1 ∪ reg_devs (c_reg c0) →
  reg_cdevs (c_reg c0) ⊆ reg_cdevs (c_reg c1) ⊆ {[CChar i]} ∪ reg_cdevs (c_reg c0) →
  dm_classes (c_dm c1) = {[cl]} ∪ dm_classes (c_dm c0) →
  dm_nodes (c_dm c0) ⊆ dm_nodes (c_dm c1) ⊆ {[(cl, dev)]} ∪ dm_nodes (c_dm c0) →
  wp (dm_do (device_destroy cl dev) ≫= λ _, dm_do (class_destroy cl) ≫= λ _,
      cdev_del (CChar i) ≫= λ _, unregister dev 1) c1
    (λ _ c2, chr_restored c0 c2 ∧ c_heap c2 = c_heap c1).
Proof.
  intros dev [Nodes Free] Hc Cf Dj D1 [K1 K2] C1 [N1 N2].
  unfold wp, dm_do, dm_call, cdev_del, unregister, reg_call, mbind, M_bind. simpl.
  rewrite bool_decide_eq_true_2 by done. simpl. split; [|done].
  destruct (device_destroy_law cl dev (c_dm c1)) as [A1 A2].
  destruct (class_destroy_law cl (device_destroy cl dev (c_dm c1))) as [B1 B2].
  destruct (cdev_unmap_law (CChar i) (c_reg c1)) as [E1 E2].
  destruct (unregister_region_law dev 1 (cdev_unmap (CChar i) (c_reg c1))) as [F1 F2].
  unfold chr_restored. simpl. rewrite F1, F2, E1, E2, B1, B2, A1, A2, D1, C1. split_and!.
  - by apply union_difference_back.
  - apply set_eq. intros x. rewrite elem_of_difference, elem_of_singleton. split.
    + intros [Hx Nx]. apply K2, elem_of_union in Hx as [Hx%elem_of_singleton|]; done.
    + intros Hx. split; [by apply K1|]. by intros ->.
  - clear -Cf. set_solver.
  - apply set_eq. intros [x n]. rewrite elem_of_difference, elem_of_singleton. split.
    + intros [Hx Nx]. apply N2, elem_of_union in Hx as [Hx%elem_of_singleton|]; done.
    + intros Hx. split; [by apply N1|]. intros [= -> ->]. by apply Cf, (Nodes _ dev).
Qed.

Lemma node_between cl dev d z d' : device_create cl dev d = (z, d') →
  dm_classes d' = dm_classes d ∧ dm_nodes d ⊆ dm_nodes d' ⊆ {[(cl, dev)]} ∪ dm_nodes d.
Proof.
  intros E. destruct (device_create_law _ _ _ _ _ E) as (L & Ok & Er). split; [done|].
  destruct (decide (z = 0)) as [Hz|Nz]; [rewrite Ok by done|rewrite Er by done]; set_solver.
Qed.

(** Cdev.c tests nothing: without memory for the cdev or with a failing
    class_create it dereferences a null or an error pointer; otherwise loading
    answers 0, and when a device number was obtained unloading gives the
    number, the cdev, the class and the node back. *)
Theorem virtual_load_unload (c0 : chr_st H R D) : idle_cdev 1 c0 →
  match Virtual.dev_init sizeof_cdev c0 with
  | Ret (r, c1) => r = 0 ∧
      ((∃ dev g, alloc_chrdev_region Virtual.BASE 1 (c_reg c0) = (inr dev, g)) →
       wp Virtual.dev_exit c1 (λ _ c2, chr_restored c0 c2))
  | Fault f =>
      (f = NullDeref ∧ (kmalloc sizeof_cdev (c_heap c0)).1 = None) ∨
      (f = ErrPtr ∧ ∃ e, (class_create (c_dm c0)).1 = inl e)
  end.
Proof.
  intros I. unfold Virtual.dev_init, mbind, M_bind, Virtual.cdev_alloc, reg_call, mmodify, cdev_init, dm_call.
  destruct (kmalloc sizeof_cdev (c_heap c0)) as [[l|] h] eqn:Ek; simpl;
    destruct (alloc_chrdev_region Virtual.BASE 1 (c_reg c0)) as [[e|dev] g] eqn:Ea; simpl;
    try by left.
  - destruct (cdev_add _ _ 1 g) as [z g'] eqn:Eadd. simpl.
    destruct (class_create (c_dm c0)) as [[e'|cl] d] eqn:Ecl; simpl; [right; eauto|].
    destruct (device_create cl _ d) as [z' d'] eqn:Edc. simpl. split; [done|]. by intros (? & ? & [=]).
  - destruct (cdev_add _ _ 1 g) as [z g'] eqn:Eadd. simpl.
    destruct (class_create (c_dm c0)) as [[e'|cl] d] eqn:Ecl; simpl; [right; eauto|].
    destruct (device_create cl _ d) as [z' d'] eqn:Edc. simpl. split; [done|]. intros _.
    apply alloc_region_ok_law in Ea as (Edev & _ & Ec & Dj & Ed).
    apply cdev_add_between in Eadd as (D1 & K1 & K2). apply class_create_ok_law in Ecl as (Cf & C1 & C2).
    apply node_between in Edc as (C3 & N1 & N2).
    unfold Virtual.dev_exit. wp_step. wp_step. simpl.
    eapply wp_mono; [|apply (unplug_restores 1 c0 _ cl (MAJOR dev) Virtual.BASE I)]; simpl.
    + tauto.
    + set_solver.
    + done.
    + by rewrite <- Edev.
    + by rewrite D1, Ed, <- Edev.
    + by rewrite Ec in K1, K2.
    + congruence.
    + by rewrite C2 in N1, N2.
Qed.

(** A sequence of steps on the shared part of the state. *)
Lemma on_chr_step {A B} (m : M (chr_st H R D) A) (k : M (chr_st H R D) B) (K : M st B) s Q :
  wp (Md5.on_chr (m ≫= λ _, k)) s Q → (∀ s', wp (Md5.on_chr k) s' Q → wp K s' Q) →
  wp (Md5.on_chr m ≫= λ _, K) s Q.
Proof.
  unfold wp, mbind, M_bind, Md5.on_chr. intros W HK. destruct (m (Md5.mv_chr s)) as [[a c]|f]; [|done].
  apply HK. simpl. by destruct (k c) as [[b c']|f].
Qed.
Lemma on_chr_wp {A} (m : M (chr_st H R D) A) s (Q : A → chr_st H R D → Prop) :
  wp m (Md5.mv_chr s) Q → wp (Md5.on_chr m) s (λ a s', ∃ c, s' = Md5.set_chrst c s ∧ Q a c).
Proof. unfold wp, Md5.on_chr. destruct (m (Md5.mv_chr s)) as [[a c]|f]; [eauto|done]. Qed.

(** Loading md5_dev.c: an error gives the device number and the cdev back
    but, when the buffer could not be allocated, leaves the class behind; a
    complete load is undone by unloading except for the buffer, which stays
    allocated; and without memory for the cdev a null pointer is used. *)
Theorem md5_load_unload s : idle_cdev 2 (Md5.mv_chr s) →
  let c0 := Md5.mv_chr s in
  match Md5.md5_init sizeof_cdev s with
  | Ret (r, s') => let c1 := Md5.mv_chr s' in
      (r = -1 ∧ reg_devs (c_reg c1) = reg_devs (c_reg c0) ∧ reg_cdevs (c_reg c1) = reg_cdevs (c_reg c0) ∧
         (dm_classes (c_dm c1) = dm_classes (c_dm c0) ∨
          Md5.mv_buffer s' = None ∧ ∃ c, (c ∉ dm_classes (c_dm c0)) ∧ c_class c1 = Some c ∧
            dm_classes (c_dm c1) = {[c]} ∪ dm_classes (c_dm c0))) ∨
      (r = 0 ∧ ∃ b, Md5.mv_buffer s' = Some b ∧ (b ∉ live (c_heap c0)) ∧
         wp Md5.md5_exit s' (λ _ s'', chr_restored c0 (Md5.mv_chr s'') ∧
           b ∈ live (c_heap (Md5.mv_chr s''))))
  | Fault f => f = NullDeref ∧ (kmalloc sizeof_cdev (c_heap c0)).1 = None
  end.
Proof.
  intros I c0. unfold Md5.md5_init, mbind, M_bind, Md5.on_chr, Virtual.cdev_alloc, mmodify, reg_call, dm_call, cdev_init.
  fold c0.
  destruct (kmalloc sizeof_cdev (c_heap c0)) as [v h] eqn:Ek.
  simpl. fold c0.
  destruct (alloc_chrdev_region Md5.MINOR_BASE Md5.MINOR_NUM (c_reg c0)) as [[e|dev] g] eqn:Ea; simpl.
  { apply alloc_region_err_law in Ea as (_ & E1 & E2). left. split_and!; [done|done|done|by left]. }
  pose proof (alloc_region_ok_law _ _ _ _ _ Ea) as (Edev & _ & Ec & Dj & Ed). rewrite <- Edev.
  destruct v as [l|]; simpl; [|done].
  destruct (cdev_add (CChar 2) dev Md5.MINOR_NUM g) as [z g'] eqn:Eadd. simpl.
  pose proof (cdev_add_law _ _ _ _ _ _ Eadd) as (Hz & D1 & Ok & Er).
  destruct (plug_out _ _ _ _ _ _ _ _ Ea Eadd (proj2 I)) as [Out2 Out].
  destruct (Z.eqb_spec z 0) as [->|Nz]; simpl.
  2: { destruct (Out2 Nz) as [U1 U2]. left. split_and!; try done. by left. }
  specialize (Ok eq_refl). specialize (Out eq_refl).
  fold c0.
  destruct (class_create (c_dm c0)) as [[e|cl] d] eqn:Ecl; simpl.
  { apply class_create_err_law in Ecl as (_ & C1 & C2).
    unfold Md5.out, Md5.out2, Md5.on_chr, cdev_del, mbind, M_bind. simpl.
    rewrite bool_decide_eq_true_2 by set_solver. simpl.
    left. destruct Out as [O1 O2]. split_and!; try done. by left. }
  apply class_create_ok_law in Ecl as (Cf & C1 & C2).
  fold c0.
  destruct (device_create cl dev d) as [z' d'] eqn:Edc. simpl.
  pose proof (node_between _ _ _ _ _ Edc) as (C3 & N1 & N2).
  unfold Md5.md_kzalloc. simpl. destruct (kmalloc 64 h) as [[b|] h'] eqn:Eb; simpl.
  - right. split; [done|]. exists b. split; [done|].
    destruct (kmalloc_some_law _ _ _ _ Eb) as [Fb Lb]. destruct (kmalloc_some_law _ _ _ _ Ek) as [Fl Ll].
    split; [intros K; apply Fb; rewrite Ll; set_solver|].
    unfold Md5.md5_exit. wp_step. wp_step. simpl. rewrite <- Edev.
    match goal with |- wp _ ?s1 _ => set (s1' := s1) end.
    assert (W : wp (dm_do (device_destroy cl dev) ≫= λ _, dm_do (class_destroy cl) ≫= λ _,
      cdev_del (CChar 2) ≫= λ _, unregister dev 1) (Md5.mv_chr s1')
      (λ _ c2, chr_restored c0 c2 ∧ c_heap c2 = c_heap (Md5.mv_chr s1'))).
    { rewrite Edev. apply (unplug_restores 2 c0 _ cl (MAJOR dev) Md5.MINOR_BASE I); simpl;
        rewrite <- ?Edev; try done; try congruence.
      - set_solver.
      - by rewrite D1, Ed.
      - rewrite Ok, Ec. set_solver.
      - by rewrite C2 in N1, N2. }
    apply on_chr_wp in W.
    eapply wp_mono; [|eapply on_chr_step; [exact W|]; intros ? W2;
      eapply on_chr_step; [exact W2|]; intros ? W3; eapply on_chr_step; [exact W3|auto]].
    intros ? s2 (c2 & -> & [A Eh]). simpl. split; [done|]. rewrite Eh. unfold s1'. simpl. rewrite Lb. set_solver.
  - unfold Md5.out, Md5.out2, Md5.on_chr, cdev_del, mbind, M_bind. simpl.
    rewrite bool_decide_eq_true_2 by set_solver. simpl. destruct Out as [O1 O2].
    left. split_and!; try done. right. split; [done|]. exists cl. split_and!; [done|done|congruence].
Qed.

(** *** Reads and writes *)

(** The crypto layer as it is now gives a transform whose three steps work. *)
Definition crypto_works (c : C) (data : list cell) : Prop :=
  ∃ t c', crypto_alloc_shash c = (inr t, c') ∧
    ∃ d0 d1 out z0 z1 z2, crypto_shash_init t = (z0, d0) ∧ crypto_shash_update d0 data = (z1, d1) ∧
      crypto_shash_final d1 = (z2, out) ∧ 0 <= z0 ∧ 0 <= z1 ∧ 0 <= z2.

Lemma crypto_steps_ok t data r d0 d1 out z0 z1 z2 : length r = 16%nat →
  crypto_shash_init t = (z0, d0) → crypto_shash_update d0 data = (z1, d1) →
  crypto_shash_final d1 = (z2, out) → 0 <= z0 → 0 <= z1 → 0 <= z2 →
  Md5.crypto_steps t data r = (md5 data, true) ∧ length (md5 data) = 16%nat.
Proof.
  intros L E0 E1 E2 H0' H1' H2'. destruct (md5_law _ _ _ _ _ _ _ _ E0 E1 E2) as [-> Lo]; [done..|].
  unfold Md5.crypto_steps. rewrite E0, (proj2 (Z.ltb_ge _ _)), E1, (proj2 (Z.ltb_ge _ _)), E2,
    (proj2 (Z.ltb_ge _ _)) by done.
  rewrite Lo, drop_ge, app_nil_r by lia. done.
Qed.

(** hash_md5 hands the error pointer of a failed crypto_alloc_shash to
    crypto_free_shash; a kernel that does not expect one dereferences it. *)
Definition frees_err (c : C) : bool :=
  match (crypto_alloc_shash c).1 with
  | inl _ => negb free_err_ok
  | inr _ => false
  end.
Lemma hash_md5_err r data s : frees_err (Md5.mv_crypto s) = true → Md5.hash_md5 sizeof_shash_desc r data s = Fault ErrPtr.
Proof.
  unfold frees_err, Md5.hash_md5, mbind, M_bind, mget, mput.
  destruct (crypto_alloc_shash (Md5.mv_crypto s)) as [[e|t] c]; simpl; [|done]. by destruct free_err_ok.
Qed.
Lemma crypto_works_frees c data : crypto_works c data → frees_err c = false.
Proof. intros (t & c' & E & _). unfold frees_err. by rewrite E. Qed.

(** Otherwise hash_md5 gives its memory and its transform back on every path. *)
Lemma hash_md5_wp r data s : frees_err (Md5.mv_crypto s) = false →
  wp (Md5.hash_md5 sizeof_shash_desc r data) s (λ '(out, ok) s',
    (length r = 16%nat → crypto_works (Md5.mv_crypto s) data →
       (kmalloc (sizeof_shash_desc + crypto_shash_descsize) (c_heap (Md5.mv_chr s))).1 ≠ None →
       out = md5 data ∧ length out = 16%nat) ∧
    live (c_heap (Md5.mv_chr s')) = live (c_heap (Md5.mv_chr s)) ∧
    sh_tfms (Md5.mv_crypto s') = sh_tfms (Md5.mv_crypto s) ∧
    Md5.mv_user s' = Md5.mv_user s ∧ Md5.mv_plain s' = Md5.mv_plain s).
Proof.
  unfold frees_err. intros Fe. unfold Md5.hash_md5. wp_step. wp_step.
  destruct (crypto_alloc_shash (Md5.mv_crypto s)) as [[e|t] c] eqn:Ec; wp_step; wp_step.
  - apply negb_false_iff in Fe. rewrite Fe. wp_step. split_and!; try done; [|by apply alloc_shash_err_law in Ec].
    intros _ (t & c' & Et & _). congruence.
  - destruct (alloc_shash_ok_law _ _ _ Ec) as [Ft Et].
    wp_step. unfold wp at 1, Md5.md_kzalloc. simpl.
    destruct (kmalloc _ (c_heap (Md5.mv_chr s))) as [[l|] h] eqn:Ek.
    + destruct (kmalloc_some_law _ _ _ _ Ek) as [Fl El].
      wp_step. unfold wp at 1, Md5.md_kfree. simpl. rewrite bool_decide_eq_true_2 by (rewrite El; set_solver).
      wp_step. wp_step. wp_step.
      destruct (Md5.crypto_steps t data r) as [out ok] eqn:Eo. simpl in *. split_and!; try done.
      * intros L (t' & c' & Et' & d0 & d1 & o & z0 & z1 & z2 & E0 & E1 & E2 & P0 & P1 & P2) _.
        rewrite Ec in Et'. injection Et' as <- <-.
        destruct (crypto_steps_ok t data r d0 d1 o z0 z1 z2) as [S Lm]; [done..|]. rewrite S in Eo. by injection Eo as <- <-.
      * rewrite kfree_law, El. set_solver.
      * rewrite free_shash_law, Et. set_solver.
    + pose proof (kmalloc_none_law _ _ _ Ek) as El. wp_step. wp_step. wp_step. wp_step. simpl.
      split_and!; try done. simpl. rewrite free_shash_law, Et. set_solver.
Qed.

Lemma md5_write_run s src count cs k : length (Md5.mv_plain s) = Z.to_nat Md5.MAX_LEN → 0 <= count <= Md5.MAX_LEN →
  copy_from_user (Md5.mv_user s) src (Z.to_nat count) = (cs, k) →
  Md5.virtual_device_write src count s = Ret (count, Md5.set_plain (cs ++ drop (Z.to_nat count) (Md5.mv_plain s)) s).
Proof.
  intros L Hc Ecs. assert (Lc : length cs = Z.to_nat count).
  { pose proof (cfu_length_law (Md5.mv_user s) src (Z.to_nat count)) as X. by rewrite Ecs in X. }
  unfold Md5.virtual_device_write, Md5.MAX_LEN in *. rewrite (proj2 (Z.ltb_ge _ _)) by lia.
  rewrite Ecs, inserts_prefix by lia. by rewrite Lc, s64_id by (unfold LLONG_MAX; lia).
Qed.

(** A read of a device whose text is a string: the digest goes to the user
    when the crypto layer and the memory are there for it. *)
Lemma md5_read_wp s text l h dst n : c_str (Md5.mv_plain s) = Some text → 0 <= n <= LLONG_MAX → frees_err (Md5.mv_crypto s) = false →
  kmalloc Md5.MD5_LEN (c_heap (Md5.mv_chr s)) = (Some l, h) →
  wp (Md5.virtual_device_read sizeof_shash_desc dst n) s (λ r s2, r = n ∧
    live (c_heap (Md5.mv_chr s2)) = live (c_heap (Md5.mv_chr s)) ∧
    sh_tfms (Md5.mv_crypto s2) = sh_tfms (Md5.mv_crypto s) ∧ Md5.mv_plain s2 = Md5.mv_plain s ∧
    (crypto_works (Md5.mv_crypto s) text → (kmalloc (sizeof_shash_desc + crypto_shash_descsize) h).1 ≠ None →
     Md5.mv_user s2 = (copy_to_user (Md5.mv_user s) dst (md5 text)).1 ∧ length (md5 text) = 16%nat)).
Proof.
  intros Et Hn Fe Ek. unfold Md5.virtual_device_read, wp, mbind, M_bind, Md5.md_kzalloc. simpl. rewrite Ek. simpl. rewrite Et.
  destruct (kmalloc_some_law _ _ _ _ Ek) as [Fl El].
  match goal with |- context [Md5.hash_md5 _ ?r text ?s1] =>
    pose proof (hash_md5_wp r text s1 Fe) as W; unfold wp in W;
    destruct (Md5.hash_md5 sizeof_shash_desc r text s1) as [[[out ok] s3]|f]; [|done] end.
  destruct W as (Wd & Wl & Wt & Wu & Wp). simpl in *.
  unfold mbind, M_bind, mmodify, Md5.md_kfree. simpl. rewrite Wl.
  rewrite bool_decide_eq_true_2 by (rewrite El; set_solver). simpl.
  split; [by rewrite s64_id by (unfold LLONG_MAX in *; lia)|]. rewrite kfree_law, Wl, El.
  split; [set_solver|]. split; [done|]. split; [done|]. intros Cw Km. destruct (Wd eq_refl Cw Km) as [-> Lm]. by rewrite Wu.
Qed.

(** C30: writing at most 1024 bytes to the md5 device and reading, with a count
    the VFS lets through (at most LLONG_MAX).  When the
    memory, the transform and its steps are there, the answer is the digest of
    the string that starts with the bytes just written and goes on, when they
    hold no zero, with what earlier writes left behind them.  The read goes
    wrong when that string has no end; when the transform cannot be had, on a
    kernel that does not expect its error pointer to be freed; and when there is
    no memory for the digest.  In every other case memory and transform are
    given back and the user's count is echoed. *)
Theorem md5_write_read s src count cs k dst n :
  length (Md5.mv_plain s) = Z.to_nat Md5.MAX_LEN → 0 <= count <= Md5.MAX_LEN → 0 <= n <= LLONG_MAX →
  copy_from_user (Md5.mv_user s) src (Z.to_nat count) = (cs, k) →
  ∃ s1, Md5.virtual_device_write src count s = Ret (count, s1) ∧
    match c_str (cs ++ drop (Z.to_nat count) (Md5.mv_plain s)) with
    | None => Md5.virtual_device_read sizeof_shash_desc dst n s1 = Fault OutOfBounds
    | Some text =>
        if frees_err (Md5.mv_crypto s) then Md5.virtual_device_read sizeof_shash_desc dst n s1 = Fault ErrPtr
        else if kmalloc Md5.MD5_LEN (c_heap (Md5.mv_chr s)) is (Some l, h) then
          wp (Md5.virtual_device_read sizeof_shash_desc dst n) s1 (λ r s2, r = n ∧
            live (c_heap (Md5.mv_chr s2)) = live (c_heap (Md5.mv_chr s)) ∧
            sh_tfms (Md5.mv_crypto s2) = sh_tfms (Md5.mv_crypto s) ∧
            (crypto_works (Md5.mv_crypto s) text →
             (kmalloc (sizeof_shash_desc + crypto_shash_descsize) h).1 ≠ None →
             (copy_to_user (Md5.mv_user s) dst (md5 text)).2 = 0%nat →
             user_bytes (Md5.mv_user s2) dst 16 = md5 text))
        else Md5.virtual_device_read sizeof_shash_desc dst n s1 = Fault NullDeref
    end.
Proof.
  intros L Hc Hn Ecs. eexists. split; [by eapply md5_write_run|].
  set (s1 := Md5.set_plain _ s). change (c_str _) with (c_str (Md5.mv_plain s1)).
  change (Md5.mv_crypto s) with (Md5.mv_crypto s1).
  destruct (c_str (Md5.mv_plain s1)) as [text|] eqn:Et; [destruct (frees_err (Md5.mv_crypto s1)) eqn:Fe;
    [|destruct (kmalloc Md5.MD5_LEN _) as [[l|] h] eqn:Ek]|].
  - unfold Md5.virtual_device_read. destruct (kmalloc Md5.MD5_LEN (c_heap (Md5.mv_chr s1))) as [p h] eqn:Ek.
    rewrite (bind_run _ _ _ (Md5.set_heap h s1) p) by (unfold Md5.md_kzalloc; by rewrite Ek).
    rewrite (bind_run mget _ _ _ _ eq_refl). change (Md5.mv_plain (Md5.set_heap h s1)) with (Md5.mv_plain s1). rewrite Et.
    destruct p; apply bind_fault, hash_md5_err, Fe.
  - eapply wp_mono; [|by eapply (md5_read_wp s1 text)]. intros r s2 (-> & Hl & Ht & _ & Hd). split_and!; [done..|].
    intros Cw Km Cu. destruct (Hd Cw Km) as [-> Lm]. change (Md5.mv_user s1) with (Md5.mv_user s).
    destruct (copy_to_user (Md5.mv_user s) dst (md5 text)) as [u k'] eqn:Eu. simpl in *. subst. rewrite <- Lm. by eapply ctu_ok_law.
  - unfold Md5.virtual_device_read. rewrite (bind_run _ _ _ (Md5.set_heap h s1) None)
      by (unfold Md5.md_kzalloc; change (Md5.mv_chr s1) with (Md5.mv_chr s); by rewrite Ek).
    rewrite (bind_run mget _ _ _ _ eq_refl). change (Md5.mv_plain (Md5.set_heap h s1)) with (Md5.mv_plain s1). rewrite Et.
    destruct (wp_elim _ _ _ (hash_md5_wp [] text (Md5.set_heap h s1) Fe)) as (r & s2 & E2 & _). by rewrite (bind_run _ _ _ _ _ E2).
  - unfold Md5.virtual_device_read, mbind, M_bind, Md5.md_kzalloc. destruct (kmalloc _ _) as [p h].
    unfold mget. cbn [Md5.mv_plain Md5.set_heap Md5.set_chrst]. by rewrite Et.
Qed.

End thms.

(** ** Witnesses *)

Section examples.
#[local] Existing Instance creg_chrdevs.
#[local] Existing Instance dsim_model.

(** A hash that pads or cuts to 16 bytes, on transforms that are numbered. *)
Definition demo_md5 (l : list cell) : list cell := take 16 (l ++ replicate 16 (Some x00)).
Lemma demo_md5_length l : length (demo_md5 l) = 16%nat.
Proof. unfold demo_md5. rewrite length_take, length_app, length_replicate. lia. Qed.

#[local] Instance demo_shash : Shash (gset loc).
Proof.
  refine {|
    sh_tfms := λ c, c; sh_desc := list cell; md5 := demo_md5;
    crypto_alloc_shash := λ c, (inr (fresh c), {[fresh c]} ∪ c);
    crypto_free_shash := λ t c, c ∖ {[t]}; free_err_ok := true; crypto_shash_descsize := 8;
    crypto_shash_init := λ _, (0, []); crypto_shash_update := λ d x, (0, d ++ x);
    crypto_shash_final := λ d, (0, demo_md5 d) |}; try done.
  - intros c t c' E. injection E as <- <-. split; [apply is_fresh|done].
  - intros t data z0 d0 z1 d1 z2 out E0 E1 E2 _ _ _. simplify_eq/=. split; [done|apply demo_md5_length].
Defined.

Definition md5_plain0 : list cell := [Some x68; Some x69; Some x6a] ++ replicate 1021 (Some x00).
Definition md5_0 : Md5.md5_st bump creg dsim umap (gset loc) :=
  Md5.Md5St (chr0 false) None None md5_plain0 1
    (umap_store (umap_store ∅ 200 (replicate 16 (Some x00))) 100 [Some x61; Some x62]) ∅.

(** After "hij" was written, writing "ab" gives the digest of "abj". *)
Lemma md5_write_read_witness :
  ∃ s1, Md5.virtual_device_write 100 2 md5_0 = Ret (2, s1) ∧
    wp (Md5.virtual_device_read 4 200 16) s1 (λ r s2, r = 16 ∧
      user_bytes (Md5.mv_user s2) 200 16 = demo_md5 [Some x61; Some x62; Some x6a]).
Proof.
  destruct (md5_write_read 4 md5_0 100 2 [Some x61; Some x62] 0 200 16) as (s1 & E & W);
    [by vm_compute|unfold Md5.MAX_LEN; lia|unfold LLONG_MAX; lia|by vm_compute|].
  exists s1. split; [exact E|]. vm_compute (c_str _) in W. change (frees_err _) with false in W. vm_compute (kmalloc _ _) in W. cbv beta iota in W.
  eapply wp_mono; [|exact W]. intros r s2 (-> & _ & _ & D). split; [done|]. apply D; [|by vm_compute|by vm_compute].
  eexists _, _. split; [reflexivity|]. eexists _, _, _, _, _, _.
  split; [reflexivity|]. split; [reflexivity|]. split; [reflexivity|]. split_and!; lia.
Defined.

Lemma chr0_idle i : idle_cdev i (chr0 false).
Proof. split; [|apply not_elem_of_empty]. intros c n Hc. by apply not_elem_of_empty in Hc. Qed.

Lemma virtual_load_unload_witness :
  match Virtual.dev_init 100 (chr0 false) with
  | Ret (r, c1) => r = 0 ∧
      ((∃ dev g, alloc_chrdev_region Virtual.BASE 1 (c_reg (chr0 false)) = (inr dev, g)) →
       wp Virtual.dev_exit c1 (λ _ c2, chr_restored (chr0 false) c2))
  | Fault f => (f = NullDeref ∧ (kmalloc 100 bump_init).1 = None) ∨
      (f = ErrPtr ∧ ∃ e, (class_create (DSim ∅ ∅ false)).1 = inl e)
  end.
Proof. exact (virtual_load_unload 100 (chr0 false) (chr0_idle 1)). Defined.

Definition md5_result (fail : bool) (oom : list bool) : outcome Z :=
  match Md5.md5_init 100 (Md5.Md5St (ChrSt 0 None ∅ (Bump ∅ 1 oom) (CReg ∅ ∅) (DSim ∅ ∅ fail))
    None None md5_plain0 1 (∅ : umap) (∅ : gset loc)) with
  | Ret (r, _) => Ret r
  | Fault f => Fault f
  end.
Example md5_loads : md5_result false [] = Ret 0 ∧ md5_result true [] = Ret (-1) ∧
  md5_result false [false; true] = Ret (-1) ∧ md5_result false [true] = Fault NullDeref.
Proof. by vm_compute. Qed.

Lemma md5_load_unload_witness :
  ∃ s', Md5.md5_init 100 md5_0 = Ret (0, s') ∧ ∃ b, Md5.mv_buffer s' = Some b ∧
    wp Md5.md5_exit s' (λ _ s'', b ∈ live (c_heap (Md5.mv_chr s''))).
Proof.
  pose proof (md5_load_unload 100 md5_0 (chr0_idle 2)) as T.
  destruct (Md5.md5_init 100 md5_0) as [[r s']|f] eqn:E; [|by vm_compute in E].
  destruct T as [(-> & _)|(-> & b & Eb & _ & W)]; [by vm_compute in E|].
  exists s'. split; [done|]. exists b. split; [done|]. eapply wp_mono; [|exact W]. by intros ? ? [_ ?].
Defined.

End examples.
