(* ===== verification/MmapDev.v ===== *)
(** The memory-mapped device of src/m_modules/mm/mmap_dev.c, with its theorems.

    One page of kernel memory holds the data.  Reads and writes index it as an
    array of ints ([data] is an [int *]) while they copy bytes and move the file
    position by one; the fault handler scales its byte offset the same way. *)
From Stdlib Require Import ZArith Lia.
From stdpp Require Import base list gmap.
From S2P Require Import Prelude Kernel ChrReg CharDev CharDevThms Md5Dev.

Definition DATA_SIZE := 4096.
Definition sizeof_data_int := 4.
Definition VM_FAULT_SIGBUS := 2.
Definition SEEK_SET := 0.
Definition SEEK_CUR := 1.

Record mm_st (H R D U : Type) := MmSt {
  mm_chr : chr_st H R D;                     (* mmapdev_major, mmapdev_class *)
  mm_data : option (loc * list cell);
  mm_counter : Z;
  mm_user : U
}.
Arguments MmSt {H R D U}.
Arguments mm_chr {H R D U}.
Arguments mm_data {H R D U}.
Arguments mm_counter {H R D U}.
Arguments mm_user {H R D U}.

Section ops.
Context {H R D U : Type} `{KernelHeap H} `{ChrDevs R} `{DevModel D} `{UserMem U}.
Abbreviation st := (mm_st H R D U).
Variable sizeof_cdev : Z.

Definition set_mchr (c : chr_st H R D) (s : st) : st := MmSt c (mm_data s) (mm_counter s) (mm_user s).
Definition set_data (d : option (loc * list cell)) (s : st) : st :=
  MmSt (mm_chr s) d (mm_counter s) (mm_user s).
Definition set_counter (n : Z) (s : st) : st := MmSt (mm_chr s) (mm_data s) n (mm_user s).
Definition on_mchr {A} (m : M (chr_st H R D) A) : M st A := λ s,
  match m (mm_chr s) with
  | Ret (a, c) => Ret (a, set_mchr c s)
  | Fault f => Fault f
  end.

(** *** The mapping *)

Definition mmap_vma_open : M st unit := mmodify (λ s, set_counter (s32 (mm_counter s + 1)) s).
Definition mmap_vma_close : M st unit := mmodify (λ s, set_counter (s32 (mm_counter s - 1)) s).
(** vm_flags and vm_ops are the caller's; the offset of the mapping is not
    looked at. *)
Definition mmap_remap : M st Z := mmap_vma_open ≫= λ _, mret 0.

(** The page handed out, by the block it belongs to; past the end of the data
    the pointer names no page of the device. *)
Definition mmap_vm_fault (address vm_start : Z) : M st (Z * option loc) := λ s,
  let offset := u64 (address - vm_start) in
  if DATA_SIZE <=? offset then Ret ((VM_FAULT_SIGBUS, None), s) else
  match mm_data s with
  | None => Fault NullDeref
  | Some (l, mem) =>
      if sizeof_data_int * offset <? DATA_SIZE then Ret ((0, Some l), s) else Fault OutOfBounds
  end.

(** *** The file *)

Definition mmap_open : Z := 0.
Definition mmap_release : Z := 0.

(** [data + *offset], [count] bytes. *)
Definition data_range (offset count : Z) (mem : list cell) : bool :=
  (0 <=? offset) && (sizeof_data_int * offset + count <=? Z.of_nat (length mem)).

(** The result and the new position; what copy_to_user says is not looked at. *)
Definition mmap_read (buf count offset : Z) : M st (Z * Z) := λ s,
  if DATA_SIZE <? offset then Ret ((- EIO, offset), s) else
  match mm_data s with
  | None => Fault NullDeref
  | Some (l, mem) =>
      if data_range offset count mem then
        let '(u, _) := copy_to_user (mm_user s) buf
          (slice (Z.to_nat (sizeof_data_int * offset)) (Z.to_nat count) mem) in
        Ret ((s64 count, s64 (offset + 1)), MmSt (mm_chr s) (mm_data s) (mm_counter s) u)
      else Fault OutOfBounds
  end.

Definition mmap_write (buf count offset : Z) : M st (Z * Z) := λ s,
  match mm_data s with
  | None => Fault NullDeref
  | Some (l, mem) =>
      if data_range offset count mem then
        let '(cs, _) := copy_from_user (mm_user s) buf (Z.to_nat count) in
        Ret ((s64 count, s64 (offset + 1)),
             set_data (Some (l, list_inserts (Z.to_nat (sizeof_data_int * offset)) cs mem)) s)
      else Fault OutOfBounds
  end.

(** The result and the new position. *)
Definition mmap_lseek (offset org f_pos : Z) : Z * Z :=
  if org =? SEEK_SET then (offset, offset)
  else if org =? SEEK_CUR then (s64 (f_pos + offset), s64 (f_pos + offset))
  else (- EINVAL, f_pos).

(** *** Loading and unloading *)

Definition m_out2 (dev : Z) : M st Z := on_mchr (unregister dev 1) ≫= λ _, mret (-1).
Definition m_out (dev : Z) : M st Z := on_mchr (cdev_del (CChar 3)) ≫= λ _, m_out2 dev.

(** vmalloc and vfree, with the interface of the kernel heap. *)
Definition m_vmalloc : M st (option loc) := λ s,
  let c := mm_chr s in
  let '(p, h) := kmalloc DATA_SIZE (c_heap c) in
  Ret (p, set_mchr (ChrSt (c_major c) (c_class c) (c_cdevs c) h (c_reg c) (c_dm c)) s).
Definition m_vfree (l : loc) : M st unit := λ s,
  let c := mm_chr s in
  if bool_decide (l ∈ live (c_heap c))
  then Ret (tt, set_mchr (ChrSt (c_major c) (c_class c) (c_cdevs c) (kfree l (c_heap c)) (c_reg c) (c_dm c)) s)
  else Fault BadFree.

Definition mmap_init : M st Z :=
  v ← on_mchr (Virtual.cdev_alloc sizeof_cdev);
  r ← on_mchr (reg_call (alloc_chrdev_region MINOR_BASE 1));
  match r with
  | inl _ => mret (-1)
  | inr dev =>
      let major := MAJOR dev in
      let dev := MKDEV major MINOR_BASE in
      on_mchr (mmodify (λ c, set_chr major (c_class c) c)) ≫= λ _,
      match v with
      | None => mfault NullDeref                       (* cdev_init(NULL, ..) *)
      | Some _ =>
          on_mchr (cdev_init (CChar 3)) ≫= λ _,
          cdev_err ← on_mchr (reg_call (cdev_add (CChar 3) dev 1));
          if negb (cdev_err =? 0) then m_out2 dev else
          cl ← on_mchr (dm_call class_create);
          match cl with
          | inl _ => m_out dev
          | inr c =>
              on_mchr (mmodify (λ x, set_chr (c_major x) (Some c) x)) ≫= λ _,
              on_mchr (dm_call (device_create c dev)) ≫= λ _,
              p ← m_vmalloc;
              match p with
              | None => mmodify (set_data None) ≫= λ _, m_out dev
              | Some l =>
                  mmodify (set_data (Some (l, replicate (Z.to_nat DATA_SIZE) (Some x00)))) ≫= λ _, mret 0
              end
          end
      end
  end.

(** vfree(NULL) does nothing. *)
Definition mmap_exit : M st unit :=
  s ← mget;
  let dev := MKDEV (c_major (mm_chr s)) MINOR_BASE in
  match c_class (mm_chr s) with
  | None => mfault NullDeref
  | Some c =>
      on_mchr (dm_do (device_destroy c dev) ≫= λ _, dm_do (class_destroy c) ≫= λ _,
               cdev_del (CChar 3) ≫= λ _, unregister dev 1) ≫= λ _,
      match mm_data s with Some (l, _) => m_vfree l | None => mret tt end
  end.

End ops.

(** ** Theorems *)

#[local] Arguments Z.to_nat : simpl never.
#[local] Arguments replicate : simpl never.

Section thms.
Context {H R D U : Type} `{KernelHeap H} `{ChrDevs R} `{DevModel D} `{UserMem U}.
Abbreviation st := (mm_st H R D U).
Implicit Types s : st.

(** The [p]-th int of the page, as bytes. *)
Definition word (p : Z) (mem : list cell) : list cell := slice (Z.to_nat (4 * p)) 4 mem.

Lemma word_write p q cs mem : length cs = 4%nat → 0 <= p → 0 <= q →
  4 * p + 4 <= Z.of_nat (length mem) → 4 * q + 4 <= Z.of_nat (length mem) →
  word q (list_inserts (Z.to_nat (4 * p)) cs mem) = if decide (q = p) then cs else word q mem.
Proof.
  intros L Hp Hq Lp Lq. unfold word. destruct (decide (q = p)) as [->|N].
  - rewrite <- L. apply slice_inserts_same. lia.
  - apply slice_inserts_disjoint. lia.
Qed.

(** Ints written one after the other through one open file, and read. *)
Fixpoint write_ints (pos : Z) (bufs : list Z) : M st (list Z * Z) :=
  match bufs with
  | [] => mret ([], pos)
  | b :: r => '(n, pos') ← mmap_write b 4 pos; '(ns, q) ← write_ints pos' r; mret (n :: ns, q)
  end.
Fixpoint read_ints (pos : Z) (bufs : list Z) : M st (list Z * Z) :=
  match bufs with
  | [] => mret ([], pos)
  | b :: r => '(n, pos') ← mmap_read b 4 pos; '(ns, q) ← read_ints pos' r; mret (n :: ns, q)
  end.
(** The user's memory after the ints from [p] on went to [bufs]. *)
Fixpoint store_words (u : U) (p : Z) (bufs : list Z) (mem : list cell) : U :=
  match bufs with
  | [] => u
  | b :: r => store_words (copy_to_user u b (word p mem)).1 (p + 1) r mem
  end.

Definition mm_ready s (l : loc) (mem : list cell) : Prop :=
  mm_data s = Some (l, mem) ∧ length mem = Z.to_nat DATA_SIZE.

Lemma data_range_ok p mem : length mem = Z.to_nat DATA_SIZE → 0 <= p < 1024 → data_range p 4 mem = true.
Proof.
  intros L Hp. unfold data_range, sizeof_data_int. rewrite L. unfold DATA_SIZE.
  apply andb_true_iff. split; apply Z.leb_le; lia.
Qed.

Lemma write_ints_wp s l mem bufs p : mm_ready s l mem → 0 <= p →
  p + Z.of_nat (length bufs) <= 1024 →
  wp (write_ints p bufs) s (λ '(ns, q) s', ns = replicate (length bufs) 4 ∧
    q = p + Z.of_nat (length bufs) ∧ mm_user s' = mm_user s ∧ ∃ mem', mm_ready s' l mem' ∧
    ∀ i, 0 <= i < 1024 → word i mem' =
      if decide (p <= i < q) then (copy_from_user (mm_user s) (bufs !!! Z.to_nat (i - p)) 4).1 else word i mem).
Proof.
  revert s mem p. induction bufs as [|b bufs IH]; intros s mem p [Ed Lm] Hp Hb; cbn [write_ints length] in *.
  { wp_step. split; [done|]. split; [lia|]. split; [done|]. exists mem. split; [done|].
    intros i Hi. rewrite decide_False by lia. done. }
  wp_step. unfold wp at 1, mmap_write. rewrite Ed, data_range_ok by (done || lia).
  destruct (copy_from_user (mm_user s) b (Z.to_nat 4)) as [cs k] eqn:Ec.
  assert (Lc : length cs = 4%nat).
  { pose proof (cfu_length_law (mm_user s) b (Z.to_nat 4)) as X. by rewrite Ec in X. }
  rewrite (s64_id 4), (s64_id (p + 1)) by (unfold LLONG_MAX; lia). wp_step.
  eapply wp_mono; [|apply (IH _ (list_inserts (Z.to_nat (sizeof_data_int * p)) cs mem))].
  - intros [ns q] s2 (-> & -> & Eu & mem' & W' & Hw). wp_step. split; [done|]. split; [lia|].
    split; [done|]. exists mem'. split; [done|]. intros i Hi. rewrite Hw by done. simpl.
    unfold DATA_SIZE in Lm. rewrite word_write by (lia || rewrite Lm; lia).
    destruct (decide (i = p)) as [->|N].
    + case_decide; [lia|]. case_decide; [|lia]. rewrite Z.sub_diag.
      change (Z.to_nat 4) with 4%nat in Ec. change (Z.to_nat 0) with 0%nat. simpl. by rewrite Ec.
    + case_decide; (case_decide; [|try lia]); try lia; [|done].
      by replace (Z.to_nat (i - p)) with (S (Z.to_nat (i - (p + 1)))) by lia.
  - split; [done|]. by rewrite length_inserts.
  - lia.
  - lia.
Qed.


Lemma mmap_read_wp s l mem b p : mm_ready s l mem → 0 <= p < 1024 →
  wp (mmap_read b 4 p) s (λ '(n, q) s', n = 4 ∧ q = p + 1 ∧ mm_ready s' l mem ∧
    mm_user s' = (copy_to_user (mm_user s) b (word p mem)).1).
Proof.
  intros [Ed Lm] Hp. unfold wp, mmap_read. rewrite Ed, data_range_ok by done.
  unfold DATA_SIZE, sizeof_data_int. rewrite (proj2 (Z.ltb_ge 4096 p)) by lia.
  unfold word. change (Z.to_nat 4) with 4%nat.
  destruct (copy_to_user _ _ _) as [u k]. by rewrite !s64_id by (unfold LLONG_MAX; lia).
Qed.

Lemma read_ints_wp s l mem bufs p : mm_ready s l mem → 0 <= p →
  p + Z.of_nat (length bufs) <= 1024 →
  wp (read_ints p bufs) s (λ '(ns, q) s', ns = replicate (length bufs) 4 ∧
    q = p + Z.of_nat (length bufs) ∧ mm_ready s' l mem ∧
    mm_user s' = store_words (mm_user s) p bufs mem).
Proof.
  revert s p. induction bufs as [|b bufs IH]; intros s p Rd Hp Hb; cbn [read_ints length store_words] in *.
  { wp_step. split; [done|]. split; [lia|done]. }
  wp_step. eapply wp_mono; [|apply (mmap_read_wp s l mem b p Rd); lia].
  intros [n q] s1 (-> & -> & Rd1 & Eu). wp_step.
  eapply wp_mono; [|apply (IH s1 (p + 1) Rd1); lia].
  intros [ns q] s2 (-> & -> & Rd2 & Eu2). wp_step. split; [done|]. split; [lia|].
  split; [done|]. by rewrite Eu2, Eu.
Qed.

(** The user's memory after the words [ws] were copied to [bufs] in order. *)
Definition copies (u : U) (bufs : list Z) (ws : list (list cell)) : U :=
  foldl (λ u '(b, w), (copy_to_user u b w).1) u (zip bufs ws).

Lemma store_words_copies u p outs mem ws : length outs = length ws →
  (∀ j w, ws !! j = Some w → word (p + Z.of_nat j) mem = w) →
  store_words u p outs mem = copies u outs ws.
Proof.
  revert u p ws. induction outs as [|b outs IH]; intros u p [|w ws] L Hw; try done.
  unfold copies. cbn [store_words zip zip_with foldl]. rewrite <- (Hw 0%nat w) by done.
  rewrite Z.add_0_r. apply IH; [by injection L|]. intros j w' Hj. rewrite <- (Hw (S j) w' Hj). f_equal. lia.
Qed.

(** The stream of the application mmap_app: ints written from position [p]
    on and, after seeking back to [p], read in the same number: every read
    copies to the user the int that was written at its position, the position
    moves by one for four bytes, and every call answers 4, whatever
    copy_to_user said. *)
Theorem mmap_stream_roundtrip s l mem p bufs outs : mm_ready s l mem → 0 <= p →
  p + Z.of_nat (length bufs) <= 1024 → length outs = length bufs →
  wp ('(ns, q) ← write_ints p bufs; '(ms, q') ← read_ints (mmap_lseek p SEEK_SET q).2 outs;
      mret (ns ++ ms, q')) s
    (λ '(ns, q) s', ns = replicate (2 * length bufs) 4 ∧ q = p + Z.of_nat (length bufs) ∧
      mm_user s' = copies (mm_user s) outs ((λ b, (copy_from_user (mm_user s) b 4).1) <$> bufs)).
Proof.
  intros Rd Hp Hb Lo. wp_step. eapply wp_mono; [|by apply write_ints_wp].
  intros [ns q] s1 (-> & -> & Eu & mem' & Rd1 & Hw). wp_step.
  unfold mmap_lseek, SEEK_SET. rewrite Z.eqb_refl. cbn [snd].
  eapply wp_mono; [|apply (read_ints_wp s1 l mem' outs p Rd1); lia].
  intros [ms q] s2 (-> & -> & Rd2 & Eu2). wp_step. rewrite Lo. split.
  - rewrite <- replicate_add. f_equal. lia.
  - split; [done|]. rewrite Eu2, Eu. apply store_words_copies; [by rewrite length_fmap|].
    intros j w Hj. apply list_lookup_fmap_Some in Hj as (b & -> & Hj).
    pose proof (lookup_lt_Some _ _ _ Hj). rewrite Hw by lia. case_decide; [|lia].
    replace (Z.to_nat (p + Z.of_nat j - p)) with j by lia. by rewrite (list_lookup_total_correct _ _ _ Hj).
Qed.

(** Where the bounds fail: with data of one page, a one-int read or write at
    a position from 1024 on, up to DATA_SIZE for a read and without limit for a
    write, is out of the bounds of the data; only a read past DATA_SIZE
    answers -EIO; and the fault handler hands out the page for the offsets below
    1024, leaves the data for those up to the page size and answers SIGBUS from
    there on. *)
Theorem mmap_bounds s l mem b p addr vm : mm_ready s l mem →
  (1024 <= p → mmap_write b 4 p s = Fault OutOfBounds) ∧
  (1024 <= p <= DATA_SIZE → mmap_read b 4 p s = Fault OutOfBounds) ∧
  (DATA_SIZE < p → mmap_read b 4 p s = Ret ((- EIO, p), s)) ∧
  (vm <= addr < vm + 1024 → addr < 2 ^ 64 → 0 <= vm → mmap_vm_fault addr vm s = Ret ((0, Some l), s)) ∧
  (vm + 1024 <= addr < vm + DATA_SIZE → addr < 2 ^ 64 → 0 <= vm →
     mmap_vm_fault addr vm s = Fault OutOfBounds) ∧
  (vm + DATA_SIZE <= addr → addr < 2 ^ 64 → 0 <= vm →
     mmap_vm_fault addr vm s = Ret ((VM_FAULT_SIGBUS, None), s)).
Proof.
  intros [Ed Lm].
  assert (NR : 1024 <= p → data_range p 4 mem = false).
  { intros. unfold data_range, sizeof_data_int. rewrite Lm. unfold DATA_SIZE.
    apply andb_false_iff. right. apply Z.leb_gt. lia. }
  unfold mmap_write, mmap_read, mmap_vm_fault, sizeof_data_int, DATA_SIZE in *. rewrite Ed.
  change (2 ^ 64) with 18446744073709551616.
  split_and!; intros.
  - by rewrite NR by lia.
  - rewrite (proj2 (Z.ltb_ge 4096 p)), NR by lia. done.
  - by rewrite (proj2 (Z.ltb_lt 4096 p)) by lia.
  - rewrite u64_id, (proj2 (Z.leb_gt _ _)), (proj2 (Z.ltb_lt _ _)) by lia. done.
  - rewrite u64_id, (proj2 (Z.leb_gt _ _)), (proj2 (Z.ltb_ge _ _)) by lia. done.
  - rewrite u64_id, (proj2 (Z.leb_le _ _)) by lia. done.
Qed.

Lemma on_mchr_wp {A} (m : M (chr_st H R D) A) s (Q : A → chr_st H R D → Prop) :
  wp m (mm_chr s) Q → wp (on_mchr m) s (λ a s', ∃ c, s' = set_mchr c s ∧ Q a c).
Proof. unfold wp, on_mchr. destruct (m (mm_chr s)) as [[a c]|f]; [eauto|done]. Qed.

(** Loading mmap_dev.c: an error gives the device number and the cdev back,
    and leaves the class and its node behind when it was the page that could
    not be had; a complete load is undone by unloading, the page included; and
    without memory for the cdev a null pointer is used. *)
Theorem mmap_load_unload sizeof_cdev s : idle_cdev 3 (mm_chr s) →
  let c0 := mm_chr s in
  match mmap_init sizeof_cdev s with
  | Ret (r, s') => let c1 := mm_chr s' in
      (r = -1 ∧ reg_devs (c_reg c1) = reg_devs (c_reg c0) ∧ reg_cdevs (c_reg c1) = reg_cdevs (c_reg c0) ∧
         (dm_classes (c_dm c1) = dm_classes (c_dm c0) ∨
          mm_data s' = None ∧ ∃ c, (c ∉ dm_classes (c_dm c0)) ∧ c_class c1 = Some c ∧
            dm_classes (c_dm c1) = {[c]} ∪ dm_classes (c_dm c0))) ∨
      (r = 0 ∧ ∃ l, mm_ready s' l (replicate (Z.to_nat DATA_SIZE) (Some x00)) ∧ l ∈ live (c_heap c1) ∧
         wp mmap_exit s' (λ _ s'', chr_restored c0 (mm_chr s'') ∧
           (l ∉ live (c_heap (mm_chr s''))) ∧ live (c_heap (mm_chr s'')) ⊆ live (c_heap c1)))
  | Fault f => f = NullDeref ∧ (kmalloc sizeof_cdev (c_heap c0)).1 = None
  end.
Proof.
  intros I c0. unfold mmap_init, mbind, M_bind, on_mchr, Virtual.cdev_alloc, mmodify, reg_call, dm_call, cdev_init.
  fold c0. destruct (kmalloc sizeof_cdev (c_heap c0)) as [v h] eqn:Ek. simpl. fold c0.
  destruct (alloc_chrdev_region MINOR_BASE 1 (c_reg c0)) as [[e|dev] g] eqn:Ea; simpl.
  { apply alloc_region_err_law in Ea as (_ & E1 & E2). left. split_and!; [done|done|done|by left]. }
  pose proof (alloc_region_ok_law _ _ _ _ _ Ea) as (Edev & _ & Ec & Dj & Ed). rewrite <- Edev.
  destruct v as [v|]; simpl; [|done].
  destruct (cdev_add (CChar 3) dev 1 g) as [z g'] eqn:Eadd. simpl.
  pose proof (cdev_add_between _ _ _ _ _ _ Eadd) as (D1 & K1 & K2).
  destruct (plug_out _ _ _ _ _ _ _ _ Ea Eadd (proj2 I)) as [Out2 Out]. fold c0.
  destruct (Z.eqb_spec z 0) as [->|Nz]; simpl.
  2: { destruct (Out2 Nz) as [U1 U2]. left. split_and!; try done. by left. }
  specialize (Out eq_refl). fold c0.
  destruct (class_create (c_dm c0)) as [[e|cl] d] eqn:Ecl; simpl.
  { apply class_create_err_law in Ecl as (_ & C1 & C2).
    unfold m_out, m_out2, on_mchr, cdev_del, mbind, M_bind. simpl.
    rewrite bool_decide_eq_true_2 by set_solver. simpl.
    left. destruct Out as [O1 O2]. split_and!; try done. by left. }
  apply class_create_ok_law in Ecl as (Cf & C1 & C2). fold c0.
  destruct (device_create cl dev d) as [z' d'] eqn:Edc. simpl.
  pose proof (node_between _ _ _ _ _ Edc) as (C3 & N1 & N2).
  unfold m_vmalloc. simpl. destruct (kmalloc DATA_SIZE h) as [[l|] h'] eqn:Eb; simpl.
  - destruct (kmalloc_some_law _ _ _ _ Eb) as [Fl Ll].
    right. split; [done|]. exists l. split; [done|]. split; [rewrite Ll; set_solver|].
    unfold mmap_exit. wp_step. wp_step. simpl. rewrite <- Edev. wp_step.
    match goal with |- wp (on_mchr _) ?s1 _ => set (s1' := s1) end.
    assert (W : wp (dm_do (device_destroy cl dev) ≫= λ _, dm_do (class_destroy cl) ≫= λ _,
      cdev_del (CChar 3) ≫= λ _, unregister dev 1) (mm_chr s1')
      (λ _ c2, chr_restored c0 c2 ∧ c_heap c2 = c_heap (mm_chr s1'))).
    { rewrite Edev. apply (unplug_restores 3 c0 _ cl (MAJOR dev) MINOR_BASE I); simpl;
        rewrite <- ?Edev; try done; try congruence.
      - apply elem_of_union. left. by apply elem_of_singleton.
      - by rewrite Ec in K1, K2.
      - by rewrite C2 in N1, N2. }
    apply on_mchr_wp in W. eapply wp_mono; [|exact W].
    intros ? s2 (c2 & -> & [Rs Eh]). unfold wp, m_vfree. simpl. rewrite Eh. unfold s1'. simpl.
    rewrite bool_decide_eq_true_2 by (rewrite Ll; apply elem_of_union; left; by apply elem_of_singleton).
    simpl. rewrite kfree_law. split; [done|]. split.
    + intros [_ K]%elem_of_difference. by apply K, elem_of_singleton.
    + intros x [K _]%elem_of_difference. done.
  - unfold m_out, m_out2, on_mchr, cdev_del, mbind, M_bind. simpl.
    rewrite bool_decide_eq_true_2 by set_solver. simpl. destruct Out as [O1 O2].
    left. split_and!; try done. right. split; [done|]. exists cl. split_and!; [done|done|congruence].
Qed.

End thms.

(** ** Witnesses *)

Section examples.
#[local] Existing Instance creg_chrdevs.
#[local] Existing Instance dsim_model.

Definition mm_page : list cell := replicate (Z.to_nat DATA_SIZE) (Some x00).
Definition mm_0 : mm_st bump creg dsim umap :=
  MmSt (chr0 false) (Some (1%positive, mm_page)) 0
    (umap_store (umap_store (umap_store ∅ 100 [Some x01; Some x02; Some x03; Some x04]) 104
      [Some x05; Some x06; Some x07; Some x08]) 200 (replicate 8 (Some x00))).

Lemma mm_0_ready : mm_ready mm_0 1%positive mm_page.
Proof. split; [done|]. by vm_compute. Qed.

(** Two ints written at positions 7 and 8 and read back. *)
Lemma mmap_stream_roundtrip_witness :
  wp ('(ns, q) ← write_ints 7 [100; 104]; '(ms, q') ← read_ints (mmap_lseek 7 SEEK_SET q).2 [200; 204];
      mret (ns ++ ms, q')) mm_0
    (λ '(ns, q) s', ns = [4; 4; 4; 4] ∧ q = 9 ∧
      user_bytes (mm_user s') 200 8 = (λ b, Some b) <$> [x01; x02; x03; x04; x05; x06; x07; x08]).
Proof.
  eapply wp_mono; [|apply (mmap_stream_roundtrip mm_0 1%positive mm_page 7 [100; 104] [200; 204] mm_0_ready);
    simpl; lia].
  intros [ns q] s' (-> & -> & ->). split; [done|]. split; [done|]. by vm_compute.
Defined.

Lemma mmap_bounds_witness :
  mmap_write 100 4 1024 mm_0 = Fault OutOfBounds ∧ mmap_read 200 4 4097 mm_0 = Ret ((-5, 4097), mm_0) ∧
  mmap_vm_fault 8192 8192 mm_0 = Ret ((0, Some 1%positive), mm_0).
Proof.
  destruct (mmap_bounds mm_0 1%positive mm_page 100 1024 8192 8192 mm_0_ready) as (W & _ & _ & F & _).
  destruct (mmap_bounds mm_0 1%positive mm_page 200 4097 0 0 mm_0_ready) as (_ & _ & R & _).
  split; [by apply W|]. split; [by apply R|]. apply F; lia.
Defined.

Lemma mmap_load_unload_witness :
  ∃ s' l, mmap_init 100 (set_data None mm_0) = Ret (0, s') ∧ mm_ready s' l mm_page ∧
    wp mmap_exit s' (λ _ s'', chr_restored (chr0 false) (mm_chr s'') ∧ l ∉ live (c_heap (mm_chr s''))).
Proof.
  pose proof (mmap_load_unload 100 (set_data None mm_0) (chr0_idle 3)) as T.
  destruct (mmap_init 100 (set_data None mm_0)) as [[r s']|f] eqn:E; [|by vm_compute in E].
  destruct T as [(-> & _)|(-> & l & Rd & _ & W)]; [by vm_compute in E|].
  exists s', l. split; [done|]. split; [exact Rd|]. eapply wp_mono; [|exact W]. by intros ? ? (? & ? & _).
Defined.

Definition mmap_result (fail : bool) (oom : list bool) : outcome Z :=
  match mmap_init 100 (MmSt (ChrSt 0 None ∅ (Bump ∅ 1 oom) (CReg ∅ ∅) (DSim ∅ ∅ fail))
    None 0 (∅ : umap)) with
  | Ret (r, _) => Ret r
  | Fault f => Fault f
  end.
Example mmap_loads : mmap_result false [] = Ret 0 ∧ mmap_result true [] = Ret (-1) ∧
  mmap_result false [false; true] = Ret (-1) ∧ mmap_result false [true] = Fault NullDeref.
Proof. by vm_compute. Qed.

End examples.
