(* ===== verification/MmapApp.v ===== *)
(** The program src/m_modules/mm/mmap_app.c on the device of mmap_dev.c: what
    it displays, through reads, writes and the mapping. *)
From Stdlib Require Import ZArith Lia.
From stdpp Require Import base list gmap.
From S2P Require Import Prelude Kernel ChrReg CharDev CharDevThms UserMap Md5Dev MmapDev.

(** ** The program *)

Section app.
Context {H R D : Type} `{KernelHeap H} `{ChrDevs R} `{DevModel D}.

(** The device with the memory of the process, and the lines it printed; an
    int that is not set prints as None. *)
Record app_st := AppSt { ap_dev : mm_st H R D umap; ap_out : list (list (option Z)) }.
Abbreviation st := app_st.
Implicit Types s : st.

Definition on_dev {A} (m : M (mm_st H R D umap) A) : M st A := λ s,
  match m (ap_dev s) with
  | Ret (a, d) => Ret (a, AppSt d (ap_out s))
  | Fault f => Fault f
  end.
(** The process's own accesses to an int variable. *)
Definition poke (a v : Z) : M st unit :=
  mmodify (λ s, AppSt (MmSt (mm_chr (ap_dev s)) (mm_data (ap_dev s)) (mm_counter (ap_dev s))
    (umap_store (mm_user (ap_dev s)) a (word_le 4 (u32 v)))) (ap_out s)).
Definition int_of (cs : list cell) : option Z := s32 <$> le_word cs.
Definition peek (a : Z) : M st (option Z) := λ s, Ret (int_of (umap_bytes (mm_user (ap_dev s)) a 4), s).
Definition print_line (l : list (option Z)) : M st unit := mmodify (λ s, AppSt (ap_dev s) (ap_out s ++ [l])).

(** The addresses of the locals [i] and [data], and of the mapping. *)
Variables (i_at data_at mapped_at : Z).

(** The loops; [pos] is the position of the open file. *)
Fixpoint create_loop (n : nat) (i pos : Z) : M st unit :=
  match n with
  | O => mret tt
  | S n' => poke i_at i ≫= λ _, '(_, pos) ← on_dev (mmap_write i_at 4 pos); create_loop n' (i + 1) pos
  end.
Definition create_data : M st unit := create_loop 10 0 0.

Fixpoint display_loop (n : nat) (pos : Z) : M st (list (option Z)) :=
  match n with
  | O => mret []
  | S n' =>
      '(r, pos) ← on_dev (mmap_read data_at 4 pos);
      line ← (if r =? 4 then v ← peek data_at; mret [v] else mret []);
      rest ← display_loop n' pos;
      mret (line ++ rest)
  end.
Definition display_data : M st unit :=
  poke data_at 0 ≫= λ _, l ← display_loop 10 0; print_line l.

Definition change_data : M st unit :=
  '(_, pos) ← on_dev (mmap_read data_at 4 0);
  v ← peek data_at;
  (match v with Some v => poke data_at (s32 (v + 100)) | None => mret tt end) ≫= λ _,
  '(_, _) ← on_dev (mmap_write data_at 4 pos);
  mret tt.

(** mapped[k] += v: the first access faults the page in. *)
Definition mapped_add (k v : Z) : M st unit :=
  '(r, page) ← on_dev (mmap_vm_fault mapped_at mapped_at);
  s ← mget;
  match page, mm_data (ap_dev s) with
  | Some p, Some (l, mem) =>
      if decide (p = l) then
        match int_of (word k mem) with
        | Some x => on_dev (mmodify (set_data (Some (l, list_inserts (Z.to_nat (4 * k)) (word_le 4 (u32 (s32 (x + v)))) mem))))
        | None => mret tt
        end
      else mfault OutOfBounds
  | _, _ => mfault OutOfBounds                         (* SIGBUS *)
  end.
Definition mmap_data : M st unit :=
  _ ← on_dev mmap_remap;
  mapped_add 7 200 ≫= λ _,
  on_dev mmap_vma_close.

Definition main : M st Z :=
  create_data ≫= λ _, display_data ≫= λ _,
  change_data ≫= λ _, display_data ≫= λ _,
  mmap_data ≫= λ _, display_data ≫= λ _,
  mret 0.

(** ** Theorems *)

#[local] Arguments Z.to_nat : simpl never.
#[local] Arguments word_le : simpl never.

#[local] Arguments umap_store : simpl never.
Abbreviation mapped u a := (UserMap.mapped u a 4).

Lemma int_of_word_le v : 0 <= v <= INT_MAX → int_of (word_le 4 (u32 v)) = Some v.
Proof.
  intros Hv. unfold int_of. rewrite le_word_word_le. simpl. f_equal. unfold INT_MAX in *.
  rewrite u32_id by lia. change (256 ^ Z.of_nat 4) with 4294967296. rewrite Z.mod_small by lia. apply s32_id. unfold INT_MAX. lia.
Qed.

(** What is known of the device's page: the ints of [m]. *)
Definition knows (mem : list cell) (m : gmap Z Z) : Prop :=
  map_Forall (λ i v, 0 <= i < 1024 ∧ 0 <= v <= INT_MAX ∧ word i mem = word_le 4 (u32 v)) m.
Definition app_inv (m : gmap Z Z) s : Prop := ∃ l mem, mm_ready (ap_dev s) l mem ∧ knows mem m ∧
  mapped (mm_user (ap_dev s)) i_at ∧ mapped (mm_user (ap_dev s)) data_at.

Lemma length_word p mem : length mem = Z.to_nat DATA_SIZE → 0 <= p < 1024 → length (word p mem) = 4%nat.
Proof. intros L Hp. unfold word. apply slice_length. rewrite L. unfold DATA_SIZE. lia. Qed.

Lemma knows_write mem m p v : length mem = Z.to_nat DATA_SIZE → 0 <= p < 1024 → 0 <= v <= INT_MAX → knows mem m →
  knows (list_inserts (Z.to_nat (4 * p)) (word_le 4 (u32 v)) mem) (<[p := v]> m).
Proof.
  intros L Hp Hv K i x Hx. assert (Lw : length (word_le 4 (u32 v)) = 4%nat) by apply word_le_length.
  apply lookup_insert_Some in Hx as [[<- <-]|[N Hx]].
  - split; [done|]. split; [done|]. rewrite word_write by (rewrite ?L; unfold DATA_SIZE; lia || done). by rewrite decide_True.
  - destruct (K i x Hx) as (Hi & Hv' & E). split; [done|]. split; [done|].
    rewrite word_write by (rewrite ?L; unfold DATA_SIZE; lia || done). by rewrite decide_False.
Qed.

Definition var_holds (a v : Z) s : Prop := umap_bytes (mm_user (ap_dev s)) a 4 = word_le 4 (u32 v).

Lemma poke_wp m a v s : app_inv m s → wp (poke a v) s (λ _ s', app_inv m s' ∧ var_holds a v s' ∧ ap_out s' = ap_out s).
Proof.
  intros (l & mem & Rd & K & Mi & Md). apply wp_modify. split; [|split; [|done]].
  - exists l, mem. simpl. split_and!; try done; by apply mapped_store.
  - unfold var_holds. simpl. pose proof (umap_store_bytes (word_le 4 (u32 v)) (mm_user (ap_dev s)) a) as E.
    by rewrite word_le_length in E.
Qed.

Lemma write_var_wp m a v p s : app_inv m s → a = i_at ∨ a = data_at → var_holds a v s → 0 <= p < 1024 → 0 <= v <= INT_MAX →
  wp (on_dev (mmap_write a 4 p)) s (λ '(r, q) s', r = 4 ∧ q = p + 1 ∧ app_inv (<[p := v]> m) s' ∧ ap_out s' = ap_out s).
Proof.
  intros (l & mem & [Ed Lm] & K & Mi & Md) Ha V Hp Hv. unfold wp, on_dev, mmap_write. rewrite Ed, data_range_ok by done.
  assert (Ma : mapped (mm_user (ap_dev s)) a) by (by destruct Ha as [-> | ->]).
  change (Z.to_nat 4) with 4%nat. rewrite (copy_from_mapped _ _ _ Ma), V, !s64_id by (unfold LLONG_MAX; lia).
  split; [done|]. split; [done|]. split; [|done]. eexists l, _. cbn [ap_dev mm_user set_data]. split; [|split_and!; [|done|done]].
  - split; [reflexivity|]. by rewrite length_inserts.
  - by apply knows_write.
Qed.

Lemma read_var_wp m v p s : app_inv m s → m !! p = Some v →
  wp (on_dev (mmap_read data_at 4 p)) s (λ '(r, q) s', r = 4 ∧ q = p + 1 ∧ app_inv m s' ∧ var_holds data_at v s' ∧ ap_out s' = ap_out s).
Proof.
  intros (l & mem & [Ed Lm] & K & Mi & Md) Hp. destruct (K p v Hp) as (Bp & Bv & Ew).
  unfold wp, on_dev, mmap_read. rewrite Ed, data_range_ok by done. unfold DATA_SIZE. rewrite (proj2 (Z.ltb_ge 4096 p)) by lia.
  unfold sizeof_data_int. change (Z.to_nat 4) with 4%nat. fold (word p mem). rewrite Ew.
  rewrite (copy_to_mapped _ _ _ _ Md) by apply word_le_length. rewrite !s64_id by (unfold LLONG_MAX; lia).
  split; [done|]. split; [done|]. split; [|split; [|done]].
  - exists l, mem. simpl. split_and!; try done; by apply mapped_store.
  - unfold var_holds. simpl. pose proof (umap_store_bytes (word_le 4 (u32 v)) (mm_user (ap_dev s)) data_at) as E.
    by rewrite word_le_length in E.
Qed.

Lemma peek_wp v s : var_holds data_at v s → 0 <= v <= INT_MAX → wp (peek data_at) s (λ r s', r = Some v ∧ s' = s).
Proof. intros V Hv. unfold wp, peek. rewrite V. by rewrite int_of_word_le. Qed.

(** *** The parts of the program *)

Fixpoint create_map (n : nat) (i : Z) (m : gmap Z Z) : gmap Z Z :=
  match n with O => m | S n' => create_map n' (i + 1) (<[i := i]> m) end.
Lemma create_loop_wp n i m s : app_inv m s → 0 <= i → i + Z.of_nat n <= 1024 →
  wp (create_loop n i i) s (λ _ s', app_inv (create_map n i m) s' ∧ ap_out s' = ap_out s).
Proof.
  revert i m s. induction n as [|n IH]; intros i m s A Hi Hn; cbn [create_loop create_map]; [by apply wp_ret|].
  apply wp_bind. eapply wp_mono; [|by apply poke_wp]. intros [] s1 (A1 & V & Eo).
  apply wp_bind. eapply wp_mono; [|apply (write_var_wp m i_at i i s1 A1); [by left|done|lia|unfold INT_MAX; lia]].
  intros [r q] s2 (-> & -> & A2 & Eo2). eapply wp_mono; [|apply (IH (i + 1) _ s2 A2); lia].
  intros ? s3 [A3 Eo3]. split; [done|]. by rewrite Eo3, Eo2.
Qed.

Lemma display_loop_wp n p m s : app_inv m s → (∀ i, p <= i < p + Z.of_nat n → is_Some (m !! i)) →
  wp (display_loop n p) s (λ l s', l = (λ i, Some (m !!! i)) <$> seqZ p (Z.of_nat n) ∧ app_inv m s' ∧ ap_out s' = ap_out s).
Proof.
  revert p s. induction n as [|n IH]; intros p s A Hm; cbn [display_loop]; [by apply wp_ret|].
  destruct (Hm p) as [v Ev]; [lia|]. apply wp_bind. eapply wp_mono; [|by apply (read_var_wp m v p s A)].
  intros [r q] s1 (-> & -> & A1 & V & Eo). cbn [Z.eqb Pos.eqb].
  assert (Bv : 0 <= v <= INT_MAX) by (destruct A as (? & ? & _ & K & _); by apply (K p v Ev)).
  apply wp_bind, wp_bind. eapply wp_mono; [|by apply (peek_wp v)]. intros x s2 [-> ->]. apply wp_ret, wp_bind.
  eapply wp_mono; [|apply (IH (p + 1) s1 A1); intros i Hi; apply Hm; lia]. intros l s3 (-> & A3 & Eo3). apply wp_ret.
  split; [|split; [done|by rewrite Eo3]]. rewrite (seqZ_cons p (Z.of_nat (S n))) by lia. cbn [app fmap list_fmap].
  unfold lookup_total, map_lookup_total. rewrite Ev. simpl default. do 3 f_equal; lia.
Qed.

Lemma display_data_wp m s : app_inv m s → (∀ i, 0 <= i < 10 → is_Some (m !! i)) →
  wp display_data s (λ _ s', app_inv m s' ∧ ap_out s' = ap_out s ++ [(λ i, Some (m !!! i)) <$> seqZ 0 10]).
Proof.
  intros A Hm. unfold display_data. apply wp_bind. eapply wp_mono; [|by apply poke_wp]. intros [] s1 (A1 & _ & Eo).
  apply wp_bind. eapply wp_mono; [|by apply (display_loop_wp 10 0 m s1 A1)]. intros l s2 (-> & A2 & Eo2).
  apply wp_modify. split; [exact A2|]. simpl. by rewrite Eo2, Eo.
Qed.

Lemma change_data_wp m v s : app_inv m s → m !! 0 = Some v → v + 100 <= INT_MAX →
  wp change_data s (λ _ s', app_inv (<[1 := v + 100]> m) s' ∧ ap_out s' = ap_out s).
Proof.
  intros A Ev Hv. assert (Bv : 0 <= v <= INT_MAX) by (destruct A as (? & ? & _ & K & _); by apply (K 0 v Ev)).
  unfold change_data. apply wp_bind. eapply wp_mono; [|by apply (read_var_wp m v 0 s A)].
  intros [r q] s1 (-> & -> & A1 & V & Eo). apply wp_bind. eapply wp_mono; [|by apply (peek_wp v)]. intros x s2 [-> ->].
  apply wp_bind. rewrite s32_id by lia. eapply wp_mono; [|by apply (poke_wp m)]. intros [] s2 (A2 & V2 & Eo2).
  apply wp_bind. eapply wp_mono; [|apply (write_var_wp m data_at (v + 100) 1 s2 A2); [by right|done|lia|lia]].
  intros [r q] s3 (-> & -> & A3 & Eo3). apply wp_ret. split; [done|]. by rewrite Eo3, Eo2.
Qed.

Lemma mapped_add_wp m k v x s : app_inv m s → 0 <= mapped_at → mapped_at < 2 ^ 64 → m !! k = Some x → 0 <= v → x + v <= INT_MAX →
  wp (mapped_add k v) s (λ _ s', app_inv (<[k := x + v]> m) s' ∧ ap_out s' = ap_out s).
Proof.
  intros (l & mem & [Ed Lm] & K & Mi & Md) Ha Ha' Ex Hv Hx. destruct (K k x Ex) as (Bk & Bx & Ew).
  assert (Ef : on_dev (mmap_vm_fault mapped_at mapped_at) s = Ret ((0, Some l), s)).
  { unfold on_dev, mmap_vm_fault. rewrite Ed, Z.sub_diag. by destruct s. }
  unfold mapped_add, wp. rewrite (bind_run _ _ _ _ _ Ef), (bind_run mget _ s s s) by done. rewrite Ed, decide_True by done.
  rewrite Ew, int_of_word_le, s32_id by lia. unfold on_dev, mmodify. split; [|done].
  eexists l, _. cbn [ap_dev mm_user set_data]. split; [|split_and!; [|done|done]].
  - split; [reflexivity|]. by rewrite length_inserts.
  - apply knows_write; [done|lia|lia|done].
Qed.

Lemma mmap_data_wp m x s : app_inv m s → 0 <= mapped_at → mapped_at < 2 ^ 64 → m !! 7 = Some x → x + 200 <= INT_MAX →
  wp mmap_data s (λ _ s', app_inv (<[7 := x + 200]> m) s' ∧ ap_out s' = ap_out s).
Proof.
  intros A Ha Ha' Ex Hx. unfold mmap_data. apply wp_bind.
  assert (Counter : ∀ (f : Z → Z) m' s', app_inv m' s' →
      wp (on_dev (mmodify (λ d : mm_st H R D umap, set_counter (f (mm_counter d)) d))) s' (λ _ s'', app_inv m' s'' ∧ ap_out s'' = ap_out s')).
  { intros f m' s' (l & mem & [Ed Lm] & K & Mi & Md). unfold wp, on_dev, mmodify. split; [|done]. by exists l, mem. }
  eapply (wp_mono _ _ (λ _ s', app_inv m s' ∧ ap_out s' = ap_out s)).
  2:{ pose proof (Counter (λ c, s32 (c + 1)) m s A) as W. unfold wp, on_dev, mmap_remap, mmap_vma_open, mbind, M_bind in *. exact W. }
  intros ? s1 [A1 Eo]. apply wp_bind. eapply wp_mono; [|apply (mapped_add_wp m 7 200 x s1 A1); done || lia].
  intros [] s2 [A2 Eo2]. eapply wp_mono; [|exact (Counter (λ c, s32 (c - 1)) _ s2 A2)].
  intros [] s3 [A3 Eo3]. split; [done|]. by rewrite Eo3, Eo2.
Qed.

(** The program on the device, through its reads, writes, seeks and the
    mapping, whatever the page and the counter hold before: it prints the ten
    ints it wrote; then with the second one changed, since after reading the
    first int the file stands at the second; then with the eighth increased
    through the mapping.  File and mapping are two views of the same ints. *)
Theorem mmap_app_displays s l mem : mm_ready (ap_dev s) l mem → 0 <= mapped_at → mapped_at < 2 ^ 64 →
  mapped (mm_user (ap_dev s)) i_at → mapped (mm_user (ap_dev s)) data_at →
  wp main s (λ r s', r = 0 ∧ ap_out s' = ap_out s ++ [
    Some <$> [0; 1; 2; 3; 4; 5; 6; 7; 8; 9];
    Some <$> [0; 100; 2; 3; 4; 5; 6; 7; 8; 9];
    Some <$> [0; 100; 2; 3; 4; 5; 6; 207; 8; 9]]).
Proof.
  intros Rd Ha Ha' Mi Md. assert (A0 : app_inv ∅ s) by (exists l, mem; split_and!; try done; apply map_Forall_empty).
  set (m1 := create_map 10 0 ∅). set (m2 := <[1 := 0 + 100]> m1). set (m3 := <[7 := 7 + 200]> m2).
  assert (Full : ∀ m, bool_decide (Forall (λ i, is_Some (m !! i)) (seqZ 0 10)) = true → ∀ i, 0 <= i < 10 → is_Some ((m : gmap Z Z) !! i)).
  { intros m F i Hi. apply bool_decide_eq_true in F. rewrite Forall_forall in F. apply F, elem_of_seqZ. lia. }
  unfold main, create_data. apply wp_bind. eapply wp_mono; [|apply (create_loop_wp 10 0 ∅ s A0); lia].
  intros [] s1 [A1 E1]. fold m1 in A1.
  apply wp_bind. eapply wp_mono; [|apply (display_data_wp m1 s1 A1), Full; by vm_compute]. intros [] s2 [A2 E2].
  apply wp_bind. eapply wp_mono; [|apply (change_data_wp m1 0 s2 A2); [by vm_compute|unfold INT_MAX; lia]]. intros [] s3 [A3 E3].
  fold m2 in A3. apply wp_bind. eapply wp_mono; [|apply (display_data_wp m2 s3 A3), Full; by vm_compute]. intros [] s4 [A4 E4].
  apply wp_bind. eapply wp_mono; [|apply (mmap_data_wp m2 7 s4 A4 Ha Ha'); [by vm_compute|unfold INT_MAX; lia]]. intros [] s5 [A5 E5].
  fold m3 in A5. apply wp_bind. eapply wp_mono; [|apply (display_data_wp m3 s5 A5), Full; by vm_compute]. intros [] s6 [A6 E6].
  apply wp_ret. split; [done|]. rewrite E6, E5, E4, E3, E2, E1, <- !app_assoc. f_equal.
Qed.
End app.
Arguments app_st : clear implicits.

(** ** A run *)

Section run.
#[local] Existing Instance creg_chrdevs.
#[local] Existing Instance dsim_model.

Definition demo_app : app_st bump creg dsim :=
  AppSt (MmSt (chr0 false) (Some (1%positive, mm_page)) 0 (umap_store ∅ 100 (replicate 8 (Some x00)))) [].
Lemma mmap_app_displays_witness :
  wp (main 100 104 8192) demo_app (λ r s', r = 0 ∧ ap_out s' = [] ++ [
    Some <$> [0; 1; 2; 3; 4; 5; 6; 7; 8; 9];
    Some <$> [0; 100; 2; 3; 4; 5; 6; 7; 8; 9];
    Some <$> [0; 100; 2; 3; 4; 5; 6; 207; 8; 9]]).
Proof. apply (mmap_app_displays 100 104 8192 demo_app 1%positive mm_page); [split; [done|by vm_compute]|done|done|by vm_compute|by vm_compute]. Defined.
End run.
