(* ===== verification/CharApps.v ===== *)
(** The programs that exercise the character devices: chardev_app.c,
    ioctl_app.c and md5_app.c of src/m_modules/char_dev, on the drivers as
    CharDev and Md5Dev model them. *)
From Stdlib Require Import ZArith Lia.
From stdpp Require Import base list gmap.
From S2P Require Import Prelude Kernel ChrReg CharDev CharDevThms UserMap Md5Dev.

(** What a program prints; a string that has no end in its array is None. *)
Inductive app_out :=
  | APerror (call : nat)
  | AString (s : option (list cell))
  | AInfo (size : option Z) (buf : option (list cell))
  | AHex (bytes : list cell)
  | AUsage.

(** A driver state with the output of the program that uses it. *)
Record prog (S : Type) := Prog { pg_drv : S; pg_out : list app_out }.
Arguments Prog {S}.
Arguments pg_drv {S}.
Arguments pg_out {S}.

Section prog.
Context {S : Type}.
Definition sys {A} (m : M S A) : M (prog S) A := λ s,
  match m (pg_drv s) with
  | Ret (a, d) => Ret (a, Prog d (pg_out s))
  | Fault f => Fault f
  end.
Definition put (o : app_out) : M (prog S) unit := mmodify (λ s, Prog (pg_drv s) (pg_out s ++ [o])).
Lemma sys_run {A} (m : M S A) s a d : m (pg_drv s) = Ret (a, d) → sys m s = Ret (a, Prog d (pg_out s)).
Proof. intros E. unfold sys. by rewrite E. Qed.
Lemma sys_wp {A} (m : M S A) s Q : wp m (pg_drv s) Q → wp (sys m) s (λ a s', ∃ d, s' = Prog d (pg_out s) ∧ Q a d).
Proof. unfold wp, sys. destruct (m (pg_drv s)) as [[a d]|f]; [eauto|done]. Qed.
End prog.

#[local] Arguments word_le : simpl never.
#[local] Arguments umap_store : simpl never.
#[local] Arguments Z.to_nat : simpl never.
#[local] Arguments replicate : simpl never.

(** ** chardev_app.c *)

Section chardev_app.
Context {H : Type} `{KernelHeap H} `{HeapResidue H}.
Abbreviation st := (prog (cfile_st H umap)).
Implicit Types s : st.
(** The addresses of the string literal and of the static buffer, and the
    descriptor open gives. *)
Variables (hello_at buf_at : Z) (fd : nat).

Definition TEXT_LEN := 5.
Definition hello_text : list cell := Some <$> [x68; x65; x6c; x6c; x6f].

Definition chardev_app : M st Z :=
  r ← sys (vfs_call (COpen fd));
  (if r <? 0 then put (APerror 0) else mret tt) ≫= λ _,
  r ← sys (vfs_call (CWrite fd hello_at TEXT_LEN));
  (if r <? 0 then put (APerror 1) else mret tt) ≫= λ _,
  r ← sys (vfs_call (CRead fd buf_at TEXT_LEN));
  (if r <? 0 then put (APerror 2)
   else s ← mget; put (AString (c_str (umap_bytes (cf_user (pg_drv s)) buf_at (Z.to_nat BUF_LEN))))) ≫= λ _,
  r ← sys (vfs_call (CClose fd));
  (if negb (r =? 0) then put (APerror 3) else mret tt) ≫= λ _,
  mret 0.

(** The program's memory when it starts. *)
Definition chardev_app_mem (u : umap) : Prop :=
  mapped u hello_at 5 ∧ umap_bytes u hello_at 5 = hello_text ∧
  mapped u buf_at 1024 ∧ umap_bytes u buf_at 1024 = replicate 1024 (Some x00).

Lemma hello_read u : mapped u buf_at 1024 → umap_bytes u buf_at 1024 = replicate 1024 (Some x00) →
  c_str (umap_bytes (umap_store u buf_at hello_text) buf_at 1024) = Some hello_text.
Proof.
  intros Mp Z0. rewrite (umap_bytes_app _ _ 5 1019), umap_bytes_store by done. rewrite umap_bytes_other by (right; simpl; lia).
  rewrite (umap_bytes_app _ _ 5 1019) in Z0. apply (f_equal (drop 5)) in Z0.
  rewrite drop_app_length' in Z0 by (by rewrite length_umap_bytes). rewrite Z0. by vm_compute.
Qed.

(** The calls of the program, one by one. *)
Definition with_mem (l : loc) (mem : list cell) (fs : gmap nat (option (loc * list cell))) := <[fd := Some (l, mem)]> fs.
Lemma is_open_true h u l mem fs : is_open fd (CFileSt (h : H) (u : umap) (with_mem l mem fs)) = true.
Proof. unfold is_open, with_mem. simpl. rewrite lookup_insert_eq. by apply bool_decide_eq_true_2. Qed.
Lemma is_open_false h u fs : fs !! fd = None → is_open fd (CFileSt (h : H) (u : umap) fs) = false.
Proof. intros E. unfold is_open. simpl. rewrite E. by apply bool_decide_eq_false_2, is_Some_None. Qed.
Lemma data_of h u l mem fs : private_data fd (CFileSt (h : H) (u : umap) (with_mem l mem fs)) = Ret (Some (l, mem), CFileSt h u (with_mem l mem fs)).
Proof. unfold private_data, with_mem. simpl. by rewrite lookup_insert_eq. Qed.

Lemma app_bad c h u fs o : fs !! fd = None → c ∈ [CWrite fd hello_at TEXT_LEN; CRead fd buf_at TEXT_LEN; CClose fd] →
  sys (vfs_call c) (Prog (CFileSt (h : H) (u : umap) fs) o) = Ret (- EBADF, Prog (CFileSt h u fs) o).
Proof.
  intros Ef Hc. apply sys_run. unfold vfs_call. rewrite (bind_run mget _ _ _ _ eq_refl). simpl pg_drv.
  rewrite !elem_of_cons, elem_of_nil in Hc. destruct Hc as [-> |[-> |[-> |[]]]]; cbn [pg_drv]; by rewrite is_open_false.
Qed.
Lemma app_open h u fs o : fs !! fd = None → sys (vfs_call (COpen fd)) (Prog (CFileSt (h : H) (u : umap) fs) o) =
  match kmalloc BUF_LEN h with
  | (Some l, h') => Ret (0, Prog (CFileSt h' u (with_mem l (Some <$> residue h' l (Z.to_nat BUF_LEN)) fs)) o)
  | (None, h') => Ret (- ENOMEM, Prog (CFileSt h' u fs) o)
  end.
Proof.
  intros Ef. unfold sys, vfs_call. rewrite (bind_run mget _ _ _ _ eq_refl). cbn [pg_drv]. rewrite is_open_false by done.
  unfold chardev_open. simpl. by destruct (kmalloc BUF_LEN h) as [[l|] h'].
Qed.
Lemma buffer_of h u l mem fs : buffer fd (CFileSt (h : H) (u : umap) (with_mem l mem fs)) = Ret ((l, mem), CFileSt h u (with_mem l mem fs)).
Proof. unfold buffer. by rewrite (bind_run _ _ _ _ _ (data_of _ _ _ _ _)). Qed.
(** The text overwrites the first bytes; the messages need an end behind it. *)
Lemma hello_end mem : length mem = Z.to_nat BUF_LEN →
  (Some x00 ∈ list_inserts 0 hello_text mem ↔ Some x00 ∈ drop 5 mem) ∧ (Some x00 ∈ drop 5 mem → Some x00 ∈ mem).
Proof.
  intros Lm. rewrite inserts_prefix by (rewrite Lm; vm_compute; lia). change (length hello_text) with 5%nat. split.
  - rewrite elem_of_app. split; [intros [Hx|Hx]; [|done]|by right]. unfold hello_text in Hx. simpl in Hx.
    rewrite !elem_of_cons, elem_of_nil in Hx. naive_solver.
  - intros Hx. rewrite <- (take_drop 5 mem), elem_of_app. by right.
Qed.
Lemma app_write h u l mem fs o : length mem = Z.to_nat BUF_LEN → mapped u hello_at 5 → umap_bytes u hello_at 5 = hello_text →
  sys (vfs_call (CWrite fd hello_at TEXT_LEN)) (Prog (CFileSt (h : H) (u : umap) (with_mem l mem fs)) o) =
  if decide (Some x00 ∈ drop 5 mem) then Ret (5, Prog (CFileSt h u (with_mem l (list_inserts 0 hello_text mem) fs)) o)
  else Fault OutOfBounds.
Proof.
  intros Lm Mh Eh. destruct (hello_end mem Lm) as [E1 E2]. unfold sys, vfs_call. rewrite (bind_run mget _ _ _ _ eq_refl). cbn [pg_drv].
  rewrite is_open_true. unfold chardev_write. cbn [negb]. rewrite (bind_run _ _ _ _ _ (buffer_of _ _ _ _ _)). unfold printk_s.
  destruct (c_str mem) as [t|] eqn:Et.
  2:{ rewrite decide_False; [done|]. intros Hx%E2%c_str_end. rewrite Et in Hx. by destruct Hx. }
  unfold user_to_data, set_file, mbind, M_bind. cbn [mret M_ret].
  rewrite Lm. change (Z.of_nat (Z.to_nat BUF_LEN) <? TEXT_LEN) with false. cbv iota. cbn [cf_user].
  change (Z.to_nat TEXT_LEN) with 5%nat. rewrite (copy_from_mapped u hello_at 5 Mh), Eh. cbn [Nat.eqb negb cf_heap cf_user cf_files].
  replace (<[fd:=Some (l, list_inserts 0 hello_text mem)]> (with_mem l mem fs)) with (with_mem l (list_inserts 0 hello_text mem) fs)
    by (unfold with_mem; by rewrite insert_insert_eq).
  rewrite buffer_of. destruct (c_str (list_inserts 0 hello_text mem)) as [t'|] eqn:Et'.
  - rewrite decide_True; [done|]. apply E1, c_str_end. by eexists.
  - rewrite decide_False; [done|]. intros Hx%E1%c_str_end. rewrite Et' in Hx. by destruct Hx.
Qed.
Lemma app_read h u l mem fs o : length mem = Z.to_nat BUF_LEN → take 5 mem = hello_text → mapped u buf_at 1024 →
  sys (vfs_call (CRead fd buf_at TEXT_LEN)) (Prog (CFileSt (h : H) (u : umap) (with_mem l mem fs)) o) =
  Ret (5, Prog (CFileSt h (umap_store u buf_at hello_text) (with_mem l mem fs)) o).
Proof.
  intros Lm Tm Mb. apply sys_run. unfold vfs_call. rewrite (bind_run mget _ _ _ _ eq_refl). cbn [pg_drv]. rewrite is_open_true.
  unfold chardev_read. cbn [negb]. rewrite (bind_run _ _ _ _ _ (buffer_of _ _ _ _ _)). change (BUF_LEN <? TEXT_LEN) with false. cbv iota.
  unfold data_to_user, mbind, M_bind. rewrite Lm. change (Z.of_nat (Z.to_nat BUF_LEN) <? TEXT_LEN) with false. cbv iota.
  cbn [cf_user]. change (Z.to_nat TEXT_LEN) with 5%nat. rewrite Tm.
  assert (Mb5 : mapped u buf_at 5) by (apply mapped_spec; intros b Hb; apply (proj1 (mapped_spec u buf_at 1024) Mb); lia).
  by rewrite (copy_to_mapped u buf_at 5 hello_text Mb5).
Qed.
Lemma app_close h u l mem fs o : fs !! fd = None → l ∈ live h →
  sys (vfs_call (CClose fd)) (Prog (CFileSt (h : H) (u : umap) (with_mem l mem fs)) o) = Ret (0, Prog (CFileSt (kfree l h) u fs) o).
Proof.
  intros Ef Hl. apply sys_run. unfold vfs_call. rewrite (bind_run mget _ _ _ _ eq_refl). cbn [pg_drv]. rewrite is_open_true. cbn [negb].
  unfold chardev_release, mbind, M_bind. rewrite data_of. unfold cf_kfree. cbn [cf_heap]. rewrite bool_decide_eq_true_2 by done.
  unfold mmodify, set_file, with_mem, mret, M_ret. cbn [cf_heap cf_user cf_files]. by rewrite insert_insert_eq, delete_insert_id.
Qed.

(** Chardev_app on the driver: it prints the text it wrote, and leaves the
    driver as it found it, when the block of the file happens to hold a zero
    behind the first five bytes, and otherwise the driver's messages read past
    the block; when the driver has no memory for the file, every call fails and
    the program says so four times. *)
Theorem chardev_app_prints s : cf_files (pg_drv s) !! fd = None → chardev_app_mem (cf_user (pg_drv s)) →
  let ends out := ∃ s', chardev_app s = Ret (0, s') ∧ pg_out s' = pg_out s ++ out ∧
    cf_files (pg_drv s') = cf_files (pg_drv s) ∧ live (cf_heap (pg_drv s')) = live (cf_heap (pg_drv s)) in
  match kmalloc BUF_LEN (cf_heap (pg_drv s)) with
  | (Some l, h) => if decide (x00 ∈ drop 5 (residue h l (Z.to_nat BUF_LEN))) then ends [AString (Some hello_text)]
                   else chardev_app s = Fault OutOfBounds
  | (None, _) => ends [APerror 0; APerror 1; APerror 2; APerror 3]
  end.
Proof.
  destruct s as [[h u fs] o]. simpl. intros Ef (Mh & Eh & Mb & Eb). unfold chardev_app.
  pose proof (app_open h u fs o Ef) as E1. destruct (kmalloc BUF_LEN h) as [[l|] h'] eqn:Ek; rewrite (bind_run _ _ _ _ _ E1).
  - set (mem0 := (Some <$> residue h' l (Z.to_nat BUF_LEN)) : list cell) in *.
    assert (L0 : length mem0 = Z.to_nat BUF_LEN) by (unfold mem0; by rewrite length_fmap, residue_length_law).
    assert (Z0 : Some x00 ∈ drop 5 mem0 ↔ x00 ∈ drop 5 (residue h' l (Z.to_nat BUF_LEN))).
    { unfold mem0. rewrite skipn_map, list_elem_of_fmap. split; [by intros (? & [= <-] & ?)|by exists x00]. }
    cbv beta. change (0 <? 0) with false. cbv iota. rewrite (bind_run (mret tt) _ _ _ tt) by done.
    pose proof (app_write h' u l mem0 fs o L0 Mh Eh) as EW.
    destruct (decide (x00 ∈ drop 5 (residue h' l (Z.to_nat BUF_LEN)))) as [Hz|Hz];
      [rewrite decide_True in EW by (by apply Z0)|rewrite decide_False in EW by (by rewrite Z0); exact (bind_fault _ _ _ _ EW)].
    rewrite (bind_run _ _ _ _ _ EW). cbv beta. change (5 <? 0) with false. cbv iota. rewrite (bind_run (mret tt) _ _ _ tt) by done.
    set (mem1 := list_inserts 0 hello_text mem0).
    rewrite (bind_run _ _ _ _ _ (app_read h' u l mem1 fs o ltac:(unfold mem1; by rewrite length_inserts) ltac:(unfold mem1; by rewrite inserts_prefix by (rewrite L0; vm_compute; lia)) Mb)).
    cbv beta. change (5 <? 0) with false. cbv iota. cbv iota.
    set (d := CFileSt h' (umap_store u buf_at hello_text) (with_mem l mem1 fs)).
    rewrite (bind_run _ _ (Prog d o) (Prog d (o ++ [AString (Some hello_text)])) tt).
    2:{ unfold put, mget, mmodify, mbind, M_bind, d. cbn [pg_drv cf_user pg_out]. change (Z.to_nat BUF_LEN) with 1024%nat. by rewrite hello_read. }
    pose proof (kmalloc_live _ _ _ _ Ek) as Ll. pose proof (kmalloc_fresh _ _ _ _ Ek) as Fl.
    assert (Hl : l ∈ live h') by (rewrite Ll; apply elem_of_union; left; by apply elem_of_singleton).
    unfold d. rewrite (bind_run _ _ _ _ _ (app_close _ _ _ _ _ _ Ef Hl)).
    eexists. split; [done|]. simpl. split; [done|]. split; [done|]. rewrite kfree_law, Ll. clear -Fl. set_solver.
  - cbv beta. change (- ENOMEM <? 0) with true. cbv iota.
    rewrite (bind_run (put _) _ _ (Prog (CFileSt h' u fs) (o ++ [APerror 0])) tt) by done.
    rewrite (bind_run _ _ _ _ _ (app_bad _ h' u fs _ Ef ltac:(apply list_elem_of_here))). cbv beta. change (- EBADF <? 0) with true. cbv iota.
    rewrite (bind_run (put _) _ _ (Prog (CFileSt h' u fs) ((o ++ [APerror 0]) ++ [APerror 1])) tt) by done.
    rewrite (bind_run _ _ _ _ _ (app_bad _ h' u fs _ Ef ltac:(apply list_elem_of_further, list_elem_of_here))). cbv beta. change (- EBADF <? 0) with true. cbv iota.
    rewrite (bind_run (put _) _ _ (Prog (CFileSt h' u fs) (((o ++ [APerror 0]) ++ [APerror 1]) ++ [APerror 2])) tt) by done.
    rewrite (bind_run _ _ _ _ _ (app_bad _ h' u fs _ Ef ltac:(apply list_elem_of_further, list_elem_of_further, list_elem_of_here))).
    eexists. split; [done|]. simpl. split; [by rewrite <- !app_assoc|]. split; [done|]. by apply kmalloc_none_law in Ek.
Qed.
End chardev_app.

(** ** ioctl_app.c *)

Section ioctl_app.
Context `{IocCodec}.
Abbreviation st := (prog (ioc_st umap)).
Implicit Types s : st.
(** The addresses of the locals set_info and get_info. *)
Variables set_at get_at : Z.

Definition poke_bytes (a : Z) (cs : list cell) : M st unit :=
  mmodify (λ s, Prog (IocSt (io_info (pg_drv s)) (umap_store (io_user (pg_drv s)) a cs)) (pg_out s)).
(** "pr0gr4m.0xF": eleven characters; strncpy of eleven stores no zero. *)
Definition name_text : list cell := Some <$> [x70; x72; x30; x67; x72; x34; x6d; x2e; x30; x78; x46].
Definition show_info : M st unit :=
  s ← mget;
  let cs := umap_bytes (io_user (pg_drv s)) get_at 136 in
  put (AInfo (le_word (take 8 cs)) (c_str (drop 8 cs))).
Definition ioctl_call (n : nat) (cmd arg : Z) : M st unit :=
  r ← sys (chardev_ioctl cmd arg); if r <? 0 then put (APerror n) else mret tt.

(** open and close of the driver do nothing but answer 0. *)
Definition ioctl_app : M st Z :=
  poke_bytes set_at (word_le 8 100) ≫= λ _,
  poke_bytes (set_at + 8) name_text ≫= λ _,
  (if ioc_open <? 0 then put (APerror 0) else mret tt) ≫= λ _,
  ioctl_call 1 IOCTL_WRITE set_at ≫= λ _,
  ioctl_call 2 IOCTL_READ get_at ≫= λ _,
  show_info ≫= λ _,
  ioctl_call 3 IOCTL_STATUS 0 ≫= λ _,
  ioctl_call 4 IOCTL_RW get_at ≫= λ _,
  show_info ≫= λ _,
  (if negb (ioc_release =? 0) then put (APerror 5) else mret tt) ≫= λ _,
  mret 0.

(** Both structures in memory, apart from each other. *)
Definition ioctl_app_mem (u : umap) : Prop :=
  mapped u set_at 136 ∧ mapped u get_at 136 ∧ (set_at + 136 <= get_at ∨ get_at + 136 <= set_at).

Lemma cmd_cases : (IOCTL_WRITE =? IOCTL_READ) = false ∧ (IOCTL_STATUS =? IOCTL_READ) = false ∧
  (IOCTL_STATUS =? IOCTL_WRITE) = false ∧ (IOCTL_RW =? IOCTL_READ) = false ∧ (IOCTL_RW =? IOCTL_WRITE) = false ∧
  (IOCTL_RW =? IOCTL_STATUS) = false.
Proof. destruct cmds_differ as (N1 & N2 & N3 & N4 & N5 & N6). split_and!; by apply Z.eqb_neq. Qed.

Lemma ioctl_write_run i u o n a : mapped u a 136 →
  ioctl_call n IOCTL_WRITE a (Prog (IocSt i u) o) = Ret (tt, Prog (IocSt (info_of (umap_bytes u a 136)) u) o).
Proof.
  intros Mp. destruct cmd_cases as (E1 & _). unfold ioctl_call, sys, chardev_ioctl, info_from_user, mbind, M_bind. cbn [pg_drv io_user].
  rewrite E1, Z.eqb_refl. change (Z.to_nat sizeof_info) with 136%nat. by rewrite copy_from_mapped.
Qed.
Lemma ioctl_read_run i u o n a : mapped u a 136 → length (info_bytes i) = 136%nat →
  ioctl_call n IOCTL_READ a (Prog (IocSt i u) o) = Ret (tt, Prog (IocSt i (umap_store u a (info_bytes i))) o).
Proof.
  intros Mp L. unfold ioctl_call, sys, chardev_ioctl, info_to_user, mbind, M_bind. cbn [pg_drv io_user io_info].
  rewrite Z.eqb_refl. by rewrite (copy_to_mapped _ _ 136).
Qed.
Lemma ioctl_status_run i u o n a : ioctl_call n IOCTL_STATUS a (Prog (IocSt i u) o) = Ret (tt, Prog (IocSt i u) o).
Proof.
  destruct cmd_cases as (_ & E2 & E3 & _). unfold ioctl_call, sys, chardev_ioctl, mbind, M_bind. cbn [pg_drv].
  by rewrite E2, E3, Z.eqb_refl.
Qed.
Lemma poke_run i u o a cs : poke_bytes a cs (Prog (IocSt i u) o) = Ret (tt, Prog (IocSt i (umap_store u a cs)) o).
Proof. done. Qed.
Lemma append_hello_length buf b : append_hello buf = Some b → length b = length buf.
Proof.
  unfold append_hello. destruct (c_str buf) as [t|]; [|done]. cbn [mbind option_bind]. case_match; [|done].
  intros [= <-]. by rewrite length_inserts.
Qed.
Lemma add_size_length sz n : length (add_size sz n) = 8%nat.
Proof. unfold add_size. destruct (le_word sz); [apply word_le_length|done]. Qed.

Lemma ioctl_rw_run i u o n a cs : mapped u a 136 → umap_bytes u a 136 = cs → length cs = 136%nat →
  ioctl_call n IOCTL_RW a (Prog (IocSt i u) o) =
  match append_hello (drop 8 cs) with
  | None => Fault OutOfBounds
  | Some b => let j := IoctlInfo (add_size (take 8 cs) 6) b in Ret (tt, Prog (IocSt j (umap_store u a (info_bytes j))) o)
  end.
Proof.
  intros Mp Ecs L. destruct cmd_cases as (_ & _ & _ & E4 & E5 & E6).
  unfold ioctl_call, sys, chardev_ioctl, info_from_user, info_to_user, mbind, M_bind, mget, mmodify; cbn [pg_drv io_user io_info].
  rewrite E4, E5, E6, Z.eqb_refl. change (Z.to_nat sizeof_info) with 136%nat.
  cbn [io_user io_info pg_drv pg_out]. rewrite copy_from_mapped, Ecs by done. unfold info_of. cbn [Nat.eqb negb io_info io_user ii_buf ii_size].
  destruct (append_hello (drop 8 cs)) as [b|] eqn:Ea; [|done]. cbn [io_info io_user ii_size ii_buf].
  apply append_hello_length in Ea. rewrite length_drop, L in Ea.
  rewrite (copy_to_mapped _ _ 136); [done|done|]. unfold info_bytes. cbn [ii_size ii_buf]. by rewrite length_app, add_size_length, Ea.
Qed.

(** The structure as the program sets it up. *)
Lemma set_info_bytes u : umap_bytes (umap_store (umap_store u set_at (word_le 8 100)) (set_at + 8) name_text) set_at 136 =
  word_le 8 100 ++ name_text ++ umap_bytes u (set_at + 19) 117.
Proof.
  change 136%nat with (8 + (11 + 117))%nat. rewrite !umap_bytes_app. change (Z.of_nat 8) with 8. f_equal; [|f_equal].
  - rewrite umap_bytes_other by (left; lia). by rewrite umap_bytes_store.
  - by rewrite umap_bytes_store.
  - replace (set_at + 8 + Z.of_nat 11) with (set_at + 19) by lia. rewrite !umap_bytes_other; [done|right; simpl; lia..].
Qed.

(** The structure, with what the stack held behind the name. *)
Definition set_info (u : umap) : list cell := word_le 8 100 ++ name_text ++ umap_bytes u (set_at + 19) 117.
Lemma set_info_parts u : length (set_info u) = 136%nat ∧ le_word (take 8 (set_info u)) = Some 100 ∧
  drop 8 (set_info u) = name_text ++ umap_bytes u (set_at + 19) 117.
Proof.
  unfold set_info. rewrite !length_app, word_le_length, length_umap_bytes. split; [done|].
  rewrite take_app_length', drop_app_length' by (by rewrite word_le_length). by rewrite le_word_word_le.
Qed.

(** The program up to its last command. *)
Lemma ioctl_app_to_rw i u o : ioctl_app_mem u → ∃ u2, mapped u2 get_at 136 ∧ umap_bytes u2 get_at 136 = set_info u ∧
  ioctl_app (Prog (IocSt i u) o) =
    (ioctl_call 4 IOCTL_RW get_at ≫= λ _, show_info ≫= λ _,
     (if negb (ioc_release =? 0) then put (APerror 5) else mret tt) ≫= λ _, mret 0)
    (Prog (IocSt (info_of (set_info u)) u2) (o ++ [AInfo (Some 100) (c_str (name_text ++ umap_bytes u (set_at + 19) 117))])).
Proof.
  intros (Ms & Mg & Ap). destruct (set_info_parts u) as (L & Tk & Dk). set (cs := set_info u) in *.
  destruct (info_bytes_of cs L) as [_ Eb].
  set (u1 := umap_store (umap_store u set_at (word_le 8 100)) (set_at + 8) name_text).
  assert (M1 : mapped u1 set_at 136) by (unfold u1; apply mapped_store, mapped_store; exact Ms).
  assert (M1' : mapped u1 get_at 136) by (unfold u1; apply mapped_store, mapped_store; exact Mg).
  assert (E1 : umap_bytes u1 set_at 136 = cs) by apply set_info_bytes.
  exists (umap_store u1 get_at cs). assert (Eg : umap_bytes (umap_store u1 get_at cs) get_at 136 = cs) by (by apply umap_bytes_store).
  split; [by apply mapped_store|]. split; [done|]. unfold ioctl_app.
  rewrite (bind_run _ _ _ _ _ (poke_run i u o set_at (word_le 8 100))).
  rewrite (bind_run _ _ _ _ _ (poke_run i _ o (set_at + 8) name_text)). fold u1.
  change (ioc_open <? 0) with false. cbv iota. rewrite (bind_run (mret tt) _ _ _ tt) by done.
  rewrite (bind_run _ _ _ _ _ (ioctl_write_run i u1 o 1 set_at M1)), E1.
  rewrite (bind_run _ _ _ _ _ (ioctl_read_run (info_of cs) u1 o 2 get_at M1' ltac:(by rewrite Eb))), Eb.
  set (u2 := umap_store u1 get_at cs) in *.
  rewrite (bind_run show_info _ _ (Prog (IocSt (info_of cs) u2)
    (o ++ [AInfo (Some 100) (c_str (name_text ++ umap_bytes u (set_at + 19) 117))])) tt).
  2:{ unfold show_info, put, mget, mmodify, mbind, M_bind. cbn [pg_drv io_user pg_out]. by rewrite Eg, Tk, Dk. }
  by rewrite (bind_run _ _ _ _ _ (ioctl_status_run _ _ _ _ _)).
Qed.

(** Ioctl_app on the driver.  strncpy leaves the name without a zero, so
    what the program shows depends on what its stack held behind it: with a
    string of at most 121 characters in all, the size and the string it set,
    and then both again six longer with " hello" appended; with a longer
    string, or none, the driver runs over the end of its static structure. *)
Theorem ioctl_app_prints s : ioctl_app_mem (io_user (pg_drv s)) →
  match c_str (name_text ++ umap_bytes (io_user (pg_drv s)) (set_at + 19) 117) with
  | Some str =>
      if (length str <=? 121)%nat then
        ∃ s', ioctl_app s = Ret (0, s') ∧
          pg_out s' = pg_out s ++ [AInfo (Some 100) (Some str); AInfo (Some 106) (Some (str ++ hello))]
      else ioctl_app s = Fault OutOfBounds
  | None => ioctl_app s = Fault OutOfBounds
  end.
Proof.
  destruct s as [[i u] o]. cbn [pg_drv io_user pg_out]. intros Mem.
  destruct (ioctl_app_to_rw i u o Mem) as (u2 & M2 & Eg & E0). destruct (set_info_parts u) as (L & Tk & Dk).
  rewrite <- Dk in E0 |- *. clear Dk Mem. revert E0 Eg L Tk. generalize (set_info u). intros cs E0 Eg L Tk. rewrite E0. clear E0.
  pose proof (λ o1, ioctl_rw_run (info_of cs) u2 o1 4 get_at cs M2 Eg L) as R.
  destruct (c_str (drop 8 cs)) as [str|] eqn:Es.
  2:{ unfold append_hello in R. rewrite Es in R. exact (bind_fault _ _ _ _ (R _)). }
  pose proof (append_hello_spec (drop 8 cs) str ltac:(rewrite length_drop, L; done) Es) as A.
  destruct (append_hello (drop 8 cs)) as [b|].
  2:{ rewrite (proj2 (Nat.leb_gt _ _)) by lia. exact (bind_fault _ _ _ _ (R _)). }
  destruct A as (Ls & Lb & Cb & _). rewrite (proj2 (Nat.leb_le _ _)) by lia. rewrite (bind_run _ _ _ _ _ (R _)).
  set (o1 := o ++ _). set (j := IoctlInfo (add_size (take 8 cs) 6) b). set (u3 := umap_store u2 get_at (info_bytes j)).
  assert (Lj : length (info_bytes j) = 136%nat) by (unfold info_bytes, j; cbn [ii_size ii_buf]; by rewrite length_app, add_size_length, Lb).
  assert (E3 : umap_bytes u3 get_at 136 = info_bytes j) by (by apply umap_bytes_store).
  rewrite (bind_run show_info _ _ (Prog (IocSt j u3) (o1 ++ [AInfo (Some 106) (Some (str ++ hello))])) tt).
  { eexists. split; [done|]. cbn [pg_out]. unfold o1. by rewrite <- app_assoc. }
  unfold show_info, put, mget, mmodify, mbind, M_bind. cbn [pg_drv io_user pg_out]. rewrite E3.
  unfold info_bytes, j. cbn [ii_size ii_buf]. rewrite take_app_length', drop_app_length', Cb by (by rewrite add_size_length).
  unfold add_size. by rewrite Tk, le_word_word_le.
Qed.
End ioctl_app.

(** ** md5_app.c *)

Section md5_app.
Context {H R D C : Type} `{KernelHeap H} `{ChrDevs R} `{DevModel D} `{Shash C}.
Abbreviation drv := (Md5.md5_st H R D umap C).
Implicit Types s : prog drv.
Variable sizeof_shash_desc : Z.
(** The address of the local [buf]. *)
Variable buf_at : Z.

Definition on_user (f : umap → umap) : M (prog drv) unit := mmodify (λ s, let d := pg_drv s in
  Prog (Md5.Md5St (Md5.mv_chr d) (Md5.mv_cdev d) (Md5.mv_buffer d) (Md5.mv_plain d) (Md5.mv_usage d) (f (Md5.mv_user d)) (Md5.mv_crypto d)) (pg_out s)).

(** [argv1] is the address and the length of the first argument; the result is
    the exit status. *)
Definition md5_app (argv1 : option (Z * nat)) : M (prog drv) Z :=
  match argv1 with
  | None => put AUsage ≫= λ _, mret 1
  | Some (text_at, n) =>
      on_user (λ u, umap_store u buf_at (replicate 16 (Some x00))) ≫= λ _,
      r ← sys Md5.virtual_device_open;
      if r <? 0 then put (APerror 0) ≫= λ _, mret 1 else
      _ ← sys (Md5.virtual_device_write text_at (Z.of_nat n));
      _ ← sys (Md5.virtual_device_read sizeof_shash_desc buf_at 16);
      s ← mget;
      put (AHex (umap_bytes (Md5.mv_user (pg_drv s)) buf_at 16)) ≫= λ _,
      _ ← sys Md5.virtual_device_release;
      mret 0
  end.

(** Md5_app on the driver, with memory and a working crypto layer: it
    prints the digest of the argument followed by what earlier, longer
    arguments left behind it in the driver's text; a second program that comes
    while one has the device open is told so and gives up. *)
Theorem md5_app_digest s text_at text full l h : let d := pg_drv s in
  length (Md5.mv_plain d) = Z.to_nat Md5.MAX_LEN → (length text <= 1024)%nat →
  mapped (Md5.mv_user d) text_at (length text) → umap_bytes (Md5.mv_user d) text_at (length text) = text →
  mapped (Md5.mv_user d) buf_at 16 → (text_at + Z.of_nat (length text) <= buf_at ∨ buf_at + 16 <= text_at) →
  c_str (text ++ drop (length text) (Md5.mv_plain d)) = Some full →
  kmalloc Md5.MD5_LEN (c_heap (Md5.mv_chr d)) = (Some l, h) → (kmalloc (sizeof_shash_desc + crypto_shash_descsize) h).1 ≠ None →
  crypto_works (Md5.mv_crypto d) full → Md5.mv_usage d = 1 →
  wp (md5_app (Some (text_at, length text))) s (λ r s', r = 0 ∧ pg_out s' = pg_out s ++ [AHex (md5 full)] ∧
    Md5.mv_plain (pg_drv s') = text ++ drop (length text) (Md5.mv_plain d) ∧
    live (c_heap (Md5.mv_chr (pg_drv s'))) = live (c_heap (Md5.mv_chr d))) ∧
  (∀ s0 t n, Md5.mv_usage (pg_drv s0) = 0 → ∃ s', md5_app (Some (t, n)) s0 = Ret (1, s') ∧ pg_out s' = pg_out s0 ++ [APerror 0] ∧
    Md5.mv_plain (pg_drv s') = Md5.mv_plain (pg_drv s0) ∧ Md5.mv_usage (pg_drv s') = 0).
Proof.
  intros d. unfold d. clear d. intros Lp Lt Mt Et Mb Ap Ef Ek Km Cw Us. split.
  2:{ intros [d0 o0] t n U0. cbn [pg_drv pg_out] in *. unfold md5_app, on_user, sys, Md5.virtual_device_open, mget, mput, mmodify, put, mbind, M_bind.
      cbn [pg_drv Md5.mv_usage]. rewrite U0. eexists. split; [reflexivity|]. split_and!; done. }
  destruct s as [[ch cv bf pl us u cr] o]. cbn [pg_drv pg_out Md5.mv_chr Md5.mv_plain Md5.mv_usage Md5.mv_user Md5.mv_crypto] in *. subst us.
  unfold md5_app. apply wp_bind, wp_modify. cbn [pg_drv pg_out].
  set (u1 := umap_store u buf_at (replicate 16 (Some x00))).
  assert (M1 : mapped u1 text_at (length text)) by (by apply mapped_store).
  assert (E1 : umap_bytes u1 text_at (length text) = text) by (unfold u1; by rewrite umap_bytes_other).
  assert (Mb1 : mapped u1 buf_at 16) by (by apply mapped_store).
  apply wp_bind. set (d1 := Md5.Md5St ch cv bf pl 0 u1 cr).
  apply (wp_intro _ _ (Prog d1 o) 0); [done|]. cbv beta. change (0 <? 0) with false. cbv iota.
  pose proof (md5_write_run d1 text_at (Z.of_nat (length text)) text 0 Lp ltac:(unfold Md5.MAX_LEN; lia)) as W.
  rewrite Nat2Z.id in W. cbn [Md5.mv_user d1] in W. rewrite (copy_from_mapped _ _ _ M1), E1 in W. specialize (W eq_refl).
  apply wp_bind. eapply wp_intro; [by apply sys_run|]. cbn [pg_out]. set (d2 := Md5.set_plain _ d1).
  apply wp_bind. eapply wp_mono; [|apply sys_wp, (md5_read_wp sizeof_shash_desc d2 full l h); [exact Ef|unfold LLONG_MAX; lia|by eapply crypto_works_frees|exact Ek]].
  intros r s1 (d3 & -> & -> & Hl & Ht & Hp & Hd). destruct (Hd Cw Km) as [Hu Lm]. cbn [pg_out].
  assert (Eu : umap_bytes (Md5.mv_user d3) buf_at 16 = md5 full).
  { rewrite Hu. change (Md5.mv_user d2) with u1. rewrite (copy_to_mapped u1 buf_at 16 _ Mb1 Lm). by apply umap_bytes_store. }
  apply wp_bind, wp_get. cbn [pg_drv]. rewrite Eu. apply wp_bind, wp_modify, wp_bind. eapply wp_intro; [by apply sys_run|].
  apply wp_ret. split; [done|]. split; [done|]. split; [exact Hp|exact Hl].
Qed.
End md5_app.

(** ** Runs *)

Section runs.
#[local] Existing Instance creg_chrdevs.
#[local] Existing Instance dsim_model.
#[local] Existing Instance demo_shash.
#[local] Existing Instance zero_residue.

Definition chardev_run (oom : list bool) : prog (cfile_st bump umap) :=
  Prog (CFileSt (Bump ∅ 1%positive oom) (umap_store (umap_store ∅ 100 hello_text) 1000 (replicate 1024 (Some x00))) ∅) [].
Lemma chardev_app_prints_witness : ∃ s', chardev_app 100 1000 3 (chardev_run []) = Ret (0, s') ∧
  cf_files (pg_drv s') = ∅ ∧ live (cf_heap (pg_drv s')) = ∅ ∧ pg_out s' = [] ++ [AString (Some hello_text)].
Proof.
  pose proof (chardev_app_prints 100 1000 3 (chardev_run [])) as T. cbv zeta in T.
  destruct T as (s' & E & Eo & Ef & El); [done|by split_and!; vm_compute|].
  exists s'. split; [exact E|]. split; [exact Ef|]. split; [exact El|exact Eo].
Defined.

(** The stack holds [behind] behind the name, then zeros. *)
Definition ioctl_run (behind : list cell) : prog (ioc_st umap) :=
  Prog (IocSt (IoctlInfo (replicate 8 (Some x00)) (replicate 128 (Some x00)))
    (umap_store (umap_store (umap_store ∅ 2000 (replicate 136 (Some x00))) 1000 (replicate 136 (Some x00))) 1019 behind)) [].
Lemma ioctl_app_prints_witness : ∃ s', ioctl_app 1000 2000 (ioctl_run [Some x21]) = Ret (0, s') ∧
  pg_out s' = [AInfo (Some 100) (Some (name_text ++ [Some x21])); AInfo (Some 106) (Some (name_text ++ [Some x21] ++ hello))].
Proof.
  pose proof (ioctl_app_prints 1000 2000 (ioctl_run [Some x21])) as T.
  assert (Mem : ioctl_app_mem 1000 2000 (io_user (pg_drv (ioctl_run [Some x21])))) by (split_and!; [by vm_compute|by vm_compute|lia]).
  specialize (T Mem).
  replace (c_str _) with (Some (name_text ++ [Some x21])) in T by (by vm_compute).
  destruct T as (s' & E & Eo). exists s'. split; [exact E|exact Eo].
Defined.
Example ioctl_app_overruns : ioctl_app 1000 2000 (ioctl_run (replicate 117 (Some x21))) = Fault OutOfBounds.
Proof. vm_compute. reflexivity. Qed.

(** The device's text is "hij"; the argument is "ab". *)
Definition md5_run (usage : Z) : prog (Md5.md5_st bump creg dsim umap (gset loc)) :=
  Prog (Md5.Md5St (chr0 false) None None md5_plain0 usage
    (umap_store (umap_store ∅ 200 (replicate 16 (Some x00))) 100 [Some x61; Some x62]) ∅) [].
Lemma md5_app_digest_witness :
  wp (md5_app 4 200 (Some (100, 2%nat))) (md5_run 1) (λ r s', r = 0 ∧
    pg_out s' = [] ++ [AHex (demo_md5 [Some x61; Some x62; Some x6a])]).
Proof.
  assert (Cw : crypto_works (Md5.mv_crypto (pg_drv (md5_run 1))) [Some x61; Some x62; Some x6a]).
  { eexists _, _. split; [reflexivity|]. eexists _, _, _, _, _, _.
    split; [reflexivity|]. split; [reflexivity|]. split; [reflexivity|]. split_and!; lia. }
  eapply wp_mono; [|refine (proj1 (md5_app_digest 4 200 (md5_run 1) 100 [Some x61; Some x62] [Some x61; Some x62; Some x6a]
    1%positive (Bump {[1%positive]} 2%positive []) _ _ _ _ _ _ _ _ _ Cw _))]; try (by vm_compute); try (simpl; lia).
  intros r s' (-> & E & _). by split.
Defined.
End runs.
