(* ===== verification/BlkApp.v ===== *)
(** The program that exercises the block device: src/m_modules/blk_dev/blkdev_app.c,
    over an interface for the file of a block device, and that interface over the
    requests of blkdev.c. *)
From Stdlib Require Import ZArith Lia.
From stdpp Require Import base list gmap.
From S2P Require Import Prelude Kernel BlkDev BlkDevThms CharDev CharDevThms CharApps.

(** ** The file of a block device

    Reads and writes at a byte position go through the cache of the kernel.
    [bf_view] is what the file shows: a read gives a part of it, from the
    position on, a write changes the part it says it wrote.  A call may end
    early, and then says so, or fail. *)
Class BlkFile (C : Type) := {
  bf_ok : C → Prop;
  bf_view : C → list cell;
  bf_open : C → Z * C;
  bf_pread : Z → nat → C → (Z + list cell) * C;
  bf_pwrite : Z → list cell → C → Z * C;
  bf_close : C → Z * C;
  bf_open_law : ∀ c r c', bf_ok c → bf_open c = (r, c') → bf_ok c' ∧ bf_view c' = bf_view c;
  bf_pread_law : ∀ c pos n r c', bf_ok c → 0 <= pos → bf_pread pos n c = (r, c') →
    bf_ok c' ∧ bf_view c' = bf_view c ∧
    match r with
    | inl e => e < 0
    | inr cs => (length cs ≤ n)%nat ∧ cs = slice (Z.to_nat pos) (length cs) (bf_view c)
    end;
  bf_pwrite_law : ∀ c pos cs k c', bf_ok c → 0 <= pos → bf_pwrite pos cs c = (k, c') →
    bf_ok c' ∧ length (bf_view c') = length (bf_view c) ∧
    (0 <= k → k <= Z.of_nat (length cs) ∧
      bf_view c' = list_inserts (Z.to_nat pos) (take (Z.to_nat k) cs) (bf_view c));
  bf_close_law : ∀ c r c', bf_ok c → bf_close c = (r, c') → bf_ok c' ∧ bf_view c' = bf_view c
}.

(** ** blkdev_app.c *)

(** The device, the position of the open file (None when open failed and the
    descriptor is negative), the static buffer and what was printed. *)
Record app_st (C : Type) := AppSt {
  as_dev : C; as_pos : option Z; as_buf : list cell; as_out : list app_out }.
Arguments AppSt {C}.
Arguments as_dev {C}.
Arguments as_pos {C}.
Arguments as_buf {C}.
Arguments as_out {C}.

#[local] Arguments Z.to_nat : simpl never.
#[local] Arguments replicate : simpl never.

Definition APP_BUF_LEN := 1024.
Definition pr0gr4m_text : list cell := Some <$> [x70; x72; x30; x67; x72; x34; x6d].

Section app.
Context {C : Type} `{BlkFile C}.
Abbreviation st := (app_st C).

Definition say (o : app_out) : M st unit := mmodify (λ s, AppSt (as_dev s) (as_pos s) (as_buf s) (as_out s ++ [o])).
Definition a_open : M st Z := λ s,
  let '(r, c) := bf_open (as_dev s) in
  Ret (r, AppSt c (if r <? 0 then None else Some 0) (as_buf s) (as_out s)).
Definition a_write (cs : list cell) : M st Z := λ s,
  match as_pos s with
  | None => Ret (- EBADF, s)
  | Some p => let '(k, c) := bf_pwrite p cs (as_dev s) in
              Ret (k, AppSt c (Some (if k <? 0 then p else p + k)) (as_buf s) (as_out s))
  end.
Definition a_read (n : nat) : M st Z := λ s,
  match as_pos s with
  | None => Ret (- EBADF, s)
  | Some p => match bf_pread p n (as_dev s) with
              | (inl e, c) => Ret (e, AppSt c (Some p) (as_buf s) (as_out s))
              | (inr cs, c) => Ret (Z.of_nat (length cs),
                  AppSt c (Some (p + Z.of_nat (length cs))) (list_inserts 0 cs (as_buf s)) (as_out s))
              end
  end.
(** lseek(fd, off, SEEK_SET) *)
Definition a_lseek (off : Z) : M st Z := λ s,
  match as_pos s with
  | None => Ret (- EBADF, s)
  | Some _ => Ret (off, AppSt (as_dev s) (Some off) (as_buf s) (as_out s))
  end.
Definition a_close : M st Z := λ s,
  match as_pos s with
  | None => Ret (- EBADF, s)
  | Some _ => let '(r, c) := bf_close (as_dev s) in Ret (r, AppSt c None (as_buf s) (as_out s))
  end.

(** A write with its message, and a read with its message or the string. *)
Definition write_text (cs : list cell) : M st unit :=
  r ← a_write cs; if r <? 0 then say (APerror 1) else mret tt.
Definition read_text (n : nat) : M st unit :=
  r ← a_read n; if r <? 0 then say (APerror 2) else s ← mget; say (AString (c_str (as_buf s))).

Definition blkdev_app : M st Z :=
  r ← a_open;
  (if r <? 0 then say (APerror 0) else mret tt) ≫= λ _,
  write_text hello_text ≫= λ _,
  a_lseek 0 ≫= λ _,
  read_text (length hello_text) ≫= λ _,
  a_lseek 1024 ≫= λ _,
  write_text pr0gr4m_text ≫= λ _,
  a_lseek 1024 ≫= λ _,
  read_text (length pr0gr4m_text) ≫= λ _,
  r ← a_close;
  (if negb (r =? 0) then say (APerror 3) else mret tt) ≫= λ _,
  mret 0.

(** The program as it starts: the buffer is static. *)
Definition app_start (c : C) : st := AppSt c None (replicate (Z.to_nat APP_BUF_LEN) (Some x00)) [].

(** A text is written, and read back by the same program. *)
Definition both_texts (v : list cell) : list cell := list_inserts 1024 pr0gr4m_text (list_inserts 0 hello_text v).

(** When open fails the program goes on with the descriptor it got: every call
    but lseek prints its message, and it exits with 0. *)
Theorem blkdev_app_no_open c r c' : bf_open c = (r, c') → r < 0 →
  blkdev_app (app_start c) = Ret (0, AppSt c' None (as_buf (app_start c)) (APerror <$> [0; 1; 2; 1; 2; 3]%nat)).
Proof.
  intros E Hr. unfold blkdev_app, write_text, read_text, mbind, M_bind, a_open, a_write, a_read, a_lseek, a_close.
  unfold app_start at 1. cbn [as_dev]. rewrite E. cbv beta iota. by rewrite (proj2 (Z.ltb_lt r 0) Hr).
Qed.

(** The calls that do all they are asked for. *)
Record calls_full : Prop := CallsFull {
  full_read : ∀ c pos n, bf_ok c → 0 <= pos → pos + Z.of_nat n <= Z.of_nat (length (bf_view c)) →
    ∃ cs c', bf_pread pos n c = (inr cs, c') ∧ length cs = n;
  full_write : ∀ c pos cs, bf_ok c → 0 <= pos → pos + Z.of_nat (length cs) <= Z.of_nat (length (bf_view c)) →
    ∃ c', bf_pwrite pos cs c = (Z.of_nat (length cs), c')
}.

Lemma write_text_wp cs c p buf out Q : calls_full → bf_ok c → 0 <= p →
  p + Z.of_nat (length cs) <= Z.of_nat (length (bf_view c)) →
  (∀ c', bf_ok c' → bf_view c' = list_inserts (Z.to_nat p) cs (bf_view c) →
    Q tt (AppSt c' (Some (p + Z.of_nat (length cs))) buf out)) →
  wp (write_text cs) (AppSt c (Some p) buf out) Q.
Proof.
  intros F Ok Hp Hl K. destruct (full_write F c p cs Ok Hp Hl) as (c' & E).
  destruct (bf_pwrite_law _ _ _ _ _ Ok Hp E) as (Ok' & _ & Hv). destruct (Hv ltac:(lia)) as [_ Hv'].
  rewrite Nat2Z.id, firstn_all in Hv'. unfold write_text. apply wp_bind. eapply wp_intro.
  { unfold a_write. cbn [as_pos as_dev]. rewrite E. reflexivity. }
  rewrite (proj2 (Z.ltb_ge _ 0)) by lia. apply wp_ret, K; done.
Qed.

Lemma read_text_wp cs c p buf out Q : calls_full → bf_ok c → 0 <= p →
  p + Z.of_nat (length cs) <= Z.of_nat (length (bf_view c)) →
  slice (Z.to_nat p) (length cs) (bf_view c) = cs →
  (∀ c', bf_ok c' → bf_view c' = bf_view c →
    Q tt (AppSt c' (Some (p + Z.of_nat (length cs))) (list_inserts 0 cs buf)
      (out ++ [AString (c_str (list_inserts 0 cs buf))]))) →
  wp (read_text (length cs)) (AppSt c (Some p) buf out) Q.
Proof.
  intros F Ok Hp Hl Hs K. destruct (full_read F c p (length cs) Ok Hp Hl) as (cs' & c' & E & Lc).
  destruct (bf_pread_law _ _ _ _ _ Ok Hp E) as (Ok' & Hv & _ & Hc). rewrite Lc, Hs in Hc. subst cs'.
  unfold read_text. apply wp_bind. eapply wp_intro.
  { unfold a_read. cbn [as_pos as_dev]. rewrite E. reflexivity. }
  rewrite (proj2 (Z.ltb_ge _ 0)) by lia. apply wp_bind, wp_get, wp_modify, K; done.
Qed.

(** C19: on a device of enough bytes, when every call serves all it is asked for,
    the program prints both texts it wrote, and leaves the file with both, at
    bytes 0 and 1024, and with every other byte as it was; the only message can be
    that of a close that failed, and it exits with 0. *)
Theorem blkdev_app_prints c r0 c0 : bf_ok c → calls_full →
  1031 <= Z.of_nat (length (bf_view c)) → bf_open c = (r0, c0) → 0 <= r0 →
  ∃ s', blkdev_app (app_start c) = Ret (0, s') ∧ bf_ok (as_dev s') ∧
    bf_view (as_dev s') = both_texts (bf_view c) ∧
    ∃ cl, as_out s' = [AString (Some hello_text); AString (Some pr0gr4m_text)] ++
      (if (bf_close cl).1 =? 0 then [] else [APerror 3]).
Proof.
  intros Ok F Hl Eo Hr. destruct (bf_open_law _ _ _ Ok Eo) as [Ok0 Hv0].
  match goal with |- ∃ s', _ ∧ ?P => cut (wp blkdev_app (app_start c) (λ r s', r = 0 ∧ P)) end.
  { intros W. apply wp_elim in W as (r & s' & E & -> & P). by exists s'. }
  unfold blkdev_app.
  apply wp_bind. eapply wp_intro; [unfold a_open, app_start; cbn [as_dev as_buf as_out]; by rewrite Eo|].
  rewrite (proj2 (Z.ltb_ge r0 0) Hr). apply wp_bind, wp_ret, wp_bind.
  apply write_text_wp; [done|done|lia|rewrite Hv0; simpl; lia|]. intros c1 Ok1 Hv1. rewrite Hv0 in Hv1.
  apply wp_bind. eapply wp_intro; [done|]. apply wp_bind. cbn [as_dev as_buf as_out].
  assert (L1 : length (bf_view c1) = length (bf_view c)) by by rewrite Hv1, length_inserts.
  apply read_text_wp; [done|done|lia|rewrite L1; simpl; lia| |].
  { rewrite Hv1. apply slice_inserts_same. simpl; lia. }
  intros c2 Ok2 Hv2. apply wp_bind. eapply wp_intro; [done|]. apply wp_bind. cbn [as_dev as_buf as_out].
  apply write_text_wp; [done|done|lia|rewrite Hv2, L1; simpl; lia|]. intros c3 Ok3 Hv3. rewrite Hv2, Hv1 in Hv3.
  apply wp_bind. eapply wp_intro; [done|]. apply wp_bind. cbn [as_dev as_buf as_out].
  assert (L3 : length (bf_view c3) = length (bf_view c)) by by rewrite Hv3, !length_inserts.
  apply read_text_wp; [done|done|lia|rewrite L3; simpl; lia| |].
  { rewrite Hv3. apply slice_inserts_same. rewrite length_inserts; simpl; lia. }
  intros c4 Ok4 Hv4. rewrite Hv3 in Hv4. destruct (bf_close c4) as [r5 c5] eqn:E5.
  destruct (bf_close_law _ _ _ Ok4 E5) as [Ok5 Hv5]. apply wp_bind. eapply wp_intro; [unfold a_close; cbn [as_pos as_dev as_buf as_out]; by rewrite E5|].
  assert (HQ : bf_ok c5 ∧ bf_view c5 = both_texts (bf_view c)) by (split; [done|by rewrite Hv5, Hv4]).
  destruct (r5 =? 0) eqn:Er; apply wp_bind; [apply wp_ret|apply wp_modify]; apply wp_ret; split_and!; try done; try apply HQ;
    exists c4; rewrite E5; cbn [fst]; rewrite Er; by vm_compute.
Qed.
End app.

(** ** The file over the driver

    An implementation of the interface that keeps nothing: a read requests the
    sectors it touches, a write requests them, changes them and requests to write
    them back, and blkdev.c serves the requests. *)

(** A part of a part of a list, and a change inside a part that is put back. *)
Lemma slice_slice {A} a n b m (l : list A) : (a + n ≤ m)%nat → slice a n (slice b m l) = slice (b + a) n l.
Proof. intros. apply list_eq. intros i. unfold slice. rewrite !lookup_take, !lookup_drop, lookup_take, lookup_drop.
  repeat case_decide; try done; [f_equal; lia|lia]. Qed.
Lemma inserts_in_slice {A} a b m (k l : list A) : (a + length k ≤ m)%nat → (b + m ≤ length l)%nat →
  list_inserts b (list_inserts a k (slice b m l)) l = list_inserts (b + a) k l.
Proof.
  intros Ha Hb. assert (Ls : length (slice b m l) = m) by by apply slice_length.
  apply list_eq. intros i. destruct (decide (b <= i < b + m)%nat) as [Hi|Hi].
  - rewrite list_lookup_inserts by (rewrite ?length_inserts; lia).
    destruct (decide (b + a <= i < b + a + length k)%nat).
    + rewrite !list_lookup_inserts by lia. f_equal; lia.
    + assert (i - b < a ∨ a + length k <= i - b)%nat as [?|?] by lia.
      * rewrite !list_lookup_inserts_lt by lia. rewrite slice_lookup by lia. f_equal; lia.
      * rewrite !list_lookup_inserts_ge by lia. rewrite slice_lookup by lia. f_equal; lia.
  - assert (i < b ∨ b + m <= i)%nat as [?|?] by lia.
    + by rewrite !list_lookup_inserts_lt by lia.
    + by rewrite !list_lookup_inserts_ge by (rewrite ?length_inserts; lia).
Qed.

Definition first_sector (pos : Z) : Z := pos / 512.
Definition sector_bytes (pos : Z) (n : nat) : nat :=
  Z.to_nat (512 * ((pos + Z.of_nat n - 1) / 512 - first_sector pos + 1)).
Definition data_at (d : block_dev) : list cell := match bdata d with Some (_, mem) => mem | None => [] end.
Definition ask (dir pos : Z) (buf : list cell) (d : block_dev) : option (block_dev * list cell) :=
  match Blkdev.do_request (Request dir (first_sector pos) [buf]) d with
  | Ret (_, (d', [b])) => Some (d', b)
  | _ => None
  end.
Definition wt_read (pos : Z) (n : nat) (d : block_dev) : (Z + list cell) * block_dev :=
  let n := Nat.min n (length (data_at d) - Z.to_nat pos) in
  if (n =? 0)%nat then (inr [], d) else
  match ask READ pos (replicate (sector_bytes pos n) (Some x00)) d with
  | Some (d', b) => (inr (slice (Z.to_nat (pos mod 512)) n b), d')
  | None => (inl (- EIO), d)
  end.
Definition wt_write (pos : Z) (cs : list cell) (d : block_dev) : Z * block_dev :=
  if Z.of_nat (length (data_at d)) <? pos + Z.of_nat (length cs) then (- EIO, d) else
  if (length cs =? 0)%nat then (0, d) else
  match ask READ pos (replicate (sector_bytes pos (length cs)) (Some x00)) d with
  | None => (- EIO, d)
  | Some (d', b) =>
      match ask WRITE pos (list_inserts (Z.to_nat (pos mod 512)) cs b) d' with
      | None => (- EIO, d)
      | Some (d'', _) => (Z.of_nat (length cs), d'')
      end
  end.
(** A disk of at most two gigabytes with its data. *)
Definition disk_fit (d : block_dev) : Prop :=
  ∃ l mem, disk_ok d l mem ∧ Z.of_nat (length mem) < 2147483648.

(** The sectors of a range: they hold it and lie on the disk. *)
Lemma sectors_of pos n (cap : Z) : 0 <= pos → (0 < n)%nat → pos + Z.of_nat n <= cap * 512 →
  0 <= first_sector pos ∧ first_sector pos * 512 + pos mod 512 = pos ∧ 0 <= pos mod 512 < 512 ∧
  pos mod 512 + Z.of_nat n <= Z.of_nat (sector_bytes pos n) ∧
  first_sector pos * 512 + Z.of_nat (sector_bytes pos n) <= cap * 512.
Proof.
  intros Hp Hn Hc. unfold sector_bytes, first_sector.
  pose proof (Z.div_mod pos 512 ltac:(lia)). pose proof (Z.mod_pos_bound pos 512 ltac:(lia)).
  pose proof (Z.div_mod (pos + Z.of_nat n - 1) 512 ltac:(lia)). pose proof (Z.mod_pos_bound (pos + Z.of_nat n - 1) 512 ltac:(lia)).
  rewrite Z2Nat.id by lia. lia.
Qed.

(** Both requests of a range on the disk. *)
Lemma ask_ok dir pos n buf d l mem : disk_ok d l mem → Z.of_nat (length mem) < 2147483648 → 0 <= pos → (0 < n)%nat →
  pos + Z.of_nat n <= Z.of_nat (length mem) → length buf = sector_bytes pos n →
  let at_ := Z.to_nat (first_sector pos * 512) in
  if dir =? WRITE
  then ask dir pos buf d = Some (BlockDev (capacity d) (Some (l, list_inserts at_ buf mem)), buf)
  else ask dir pos buf d = Some (d, slice at_ (length buf) mem).
Proof.
  intros D Hb Hp Hn Hr Lb at_. pose proof D as [Hd Hc Hl]. rewrite Hl in Hr, Hb.
  destruct (sectors_of pos n (capacity d) Hp Hn Hr) as (F0 & _ & _ & _ & F4). rewrite <- Lb in F4.
  destruct (blk_request_ok (Request dir (first_sector pos) [buf]) d l mem D) as (segs' & E & P);
    [simpl; lia|unfold seg_total; simpl; rewrite app_nil_r; lia|].
  simpl rq_segs in *. simpl rq_pos in *. simpl rq_dir in *. unfold stored, filled, seg_total in *. simpl concat in *. rewrite app_nil_r in *.
  rewrite Z.min_l, Nat2Z.id in E, P by lia. unfold ask. rewrite E. destruct (dir =? WRITE).
  - subst segs'. by rewrite firstn_all.
  - destruct P as [Pc Pl]. destruct segs' as [|b [|]]; try done. simpl in Pc. rewrite app_nil_r, drop_ge, app_nil_r in Pc by done.
    rewrite Pc. do 2 f_equal. destruct d as [cap [[??]|]]; naive_solver.
Qed.

Lemma wt_read_run pos n d l mem : disk_ok d l mem → Z.of_nat (length mem) < 2147483648 → 0 <= pos →
  wt_read pos n d = (inr (slice (Z.to_nat pos) (Nat.min n (length mem - Z.to_nat pos)) mem), d).
Proof.
  intros D Hb Hp. pose proof D as [Hd Hc Hl]. unfold wt_read, data_at. rewrite Hd.
  set (k := Nat.min n _). destruct (Nat.eqb_spec k 0) as [->|Hk]; [by rewrite slice_nil|].
  assert (Hr : pos + Z.of_nat k <= Z.of_nat (length mem)) by lia.
  pose proof (ask_ok READ pos k (replicate (sector_bytes pos k) (Some x00)) d l mem D Hb Hp ltac:(lia) Hr ltac:(apply length_replicate)) as E.
  rewrite length_replicate in E. simpl in E. rewrite E. rewrite Hl in Hr.
  destruct (sectors_of pos k (capacity d) Hp ltac:(lia) Hr) as (F0 & F1 & F2 & F3 & F4).
  do 2 f_equal. rewrite slice_slice by lia. f_equal. lia.
Qed.

Lemma wt_write_run pos cs d l mem : disk_ok d l mem → Z.of_nat (length mem) < 2147483648 → 0 <= pos →
  wt_write pos cs d = (- EIO, d) ∧ Z.of_nat (length mem) < pos + Z.of_nat (length cs) ∨
  wt_write pos cs d = (Z.of_nat (length cs), BlockDev (capacity d) (Some (l, list_inserts (Z.to_nat pos) cs mem))) ∧
    pos + Z.of_nat (length cs) <= Z.of_nat (length mem).
Proof.
  intros D Hb Hp. pose proof D as [Hd Hc Hl]. unfold wt_write, data_at. rewrite Hd.
  destruct (Z.ltb_spec (Z.of_nat (length mem)) (pos + Z.of_nat (length cs))) as [?|Hr]; [by left|]. right. split; [|done].
  destruct (Nat.eqb_spec (length cs) 0) as [E0|Hk].
  { apply nil_length_inv in E0 as ->. simpl. do 2 f_equal. destruct d; naive_solver. }
  pose proof (ask_ok READ pos (length cs) (replicate (sector_bytes pos (length cs)) (Some x00)) d l mem D Hb Hp ltac:(lia) Hr ltac:(apply length_replicate)) as E.
  rewrite length_replicate in E. simpl in E. rewrite E. pose proof Hr as Hr'. rewrite Hl in Hr'.
  destruct (sectors_of pos (length cs) (capacity d) Hp ltac:(lia) Hr') as (F0 & F1 & F2 & F3 & F4).
  assert (Ls : length (slice (Z.to_nat (first_sector pos * 512)) (sector_bytes pos (length cs)) mem) = sector_bytes pos (length cs))
    by (apply slice_length; lia).
  pose proof (ask_ok WRITE pos (length cs) (list_inserts (Z.to_nat (pos mod 512)) cs
    (slice (Z.to_nat (first_sector pos * 512)) (sector_bytes pos (length cs)) mem)) d l mem D Hb Hp ltac:(lia) Hr
    ltac:(by rewrite length_inserts)) as E'. simpl in E'. rewrite E'. rewrite inserts_in_slice by lia.
  do 5 f_equal. lia.
Qed.

#[export] Program Instance wt_file : BlkFile block_dev := {
  bf_ok := disk_fit; bf_view := data_at;
  bf_open d := (3, d); bf_pread := wt_read; bf_pwrite := wt_write; bf_close d := (0, d)
}.
Next Obligation. by intros d r d' Ok [= <- <-]. Qed.
Next Obligation.
  intros d pos n r d' (l & mem & D & Hb) Hp E. rewrite (wt_read_run pos n d l mem D Hb Hp) in E. injection E as <- <-.
  split; [by exists l, mem|]. split; [done|]. unfold data_at. rewrite (dk_data _ _ _ D).
  set (k := Nat.min _ _). assert (Lk : length (slice (Z.to_nat pos) k mem) = k).
  { unfold slice. rewrite length_take, length_drop. lia. }
  rewrite Lk. split; [lia|done].
Qed.
Next Obligation.
  intros d pos cs k d' (l & mem & D & Hb) Hp E. pose proof (dk_data _ _ _ D) as Hd. unfold data_at. rewrite Hd.
  destruct (wt_write_run pos cs d l mem D Hb Hp) as [[E' _]|[E' Hr]]; rewrite E' in E; injection E as <- <-.
  - split; [by exists l, mem|]. rewrite Hd. split; [done|]. unfold EIO. lia.
  - simpl. rewrite length_inserts, Nat2Z.id, firstn_all. split; [|split; [done|]; intros _; split; [lia|done]].
    exists l, (list_inserts (Z.to_nat pos) cs mem). destruct D as [_ Hc Hl]. split; [split|]; simpl; rewrite ?length_inserts; done.
Qed.
Next Obligation. by intros d r d' Ok [= <- <-]. Qed.

(** Every call on this file serves all its bytes. *)
Lemma wt_full : calls_full (C := block_dev).
Proof.
  split; intros d pos x (l & mem & D & Hb) Hp Hr; simpl in *; unfold data_at in Hr; rewrite (dk_data _ _ _ D) in Hr.
  - rewrite (wt_read_run pos x d l mem D Hb Hp). do 2 eexists. split; [done|].
    unfold slice. rewrite length_take, length_drop. lia.
  - destruct (wt_write_run pos x d l mem D Hb Hp) as [[_ ?]|[-> _]]; [lia|by eexists].
Qed.

(** blkdev.c allocates sixteen pages. *)
Definition demo_data : list cell := replicate (Z.to_nat 65536) (Some x00).
Definition demo_disk : block_dev := BlockDev 128 (Some (1%positive, demo_data)).
Lemma demo_length : Z.of_nat (length demo_data) = 65536.
Proof. unfold demo_data. rewrite length_replicate. lia. Qed.
#[local] Opaque demo_data.
Lemma demo_disk_fit : disk_fit demo_disk.
Proof. exists 1%positive, demo_data. rewrite demo_length. split; [split|]; rewrite ?demo_length; done || (simpl; lia). Qed.
(** The program on the driver: the buffer of blkdev.c holds both texts. *)
Lemma blkdev_app_prints_witness : ∃ s', blkdev_app (app_start demo_disk) = Ret (0, s') ∧
  data_at (as_dev s') = both_texts demo_data ∧ as_out s' = [AString (Some hello_text); AString (Some pr0gr4m_text)].
Proof.
  destruct (blkdev_app_prints (C := block_dev) demo_disk 3 demo_disk) as (s' & E & _ & Hv & cl & Ho).
  - exact demo_disk_fit.
  - exact wt_full.
  - pose proof demo_length as L. simpl bf_view. unfold data_at, demo_disk. cbn [bdata]. lia.
  - reflexivity.
  - lia.
  - exists s'. split; [exact E|]. split; [exact Hv|exact Ho].
Defined.

(** A disk of two sectors: the first text is stored, the second not. *)
Example blkdev_app_small : as_out <$> match blkdev_app (app_start (BlockDev 2 (Some (1%positive, replicate 1024 (Some x00))))) with Ret (_, s) => Some s | _ => None end =
  Some [AString (Some hello_text); APerror 1; AString (Some hello_text)].
Proof. vm_compute. reflexivity. Qed.
