(* ===== verification/XArray.v ===== *)
(** The xarray module (src/m_modules/ds/xarray.c): a run of the kernel's
    xarray, as an interface, on items of the module. *)
From Stdlib Require Import ZArith Lia Sorting.Sorted.
From stdpp Require Import base list gmap sorting.
From S2P Require Import Prelude Kernel.

(** ** The xarray *)

Inductive xa_ret := XEntry (p : option loc) | XErr.
Definition before (x y : Z * loc) : Prop := x.1 < y.1.

Class XArr (X : Type) := {
  xa_entries : X → gmap Z loc;
  DEFINE_XARRAY : X;
  xa_store : Z → loc → X → xa_ret * X;           (* the old entry, or no memory *)
  xa_load : X → Z → option loc;
  xa_erase : Z → X → option loc * X;
  xa_list : X → list (Z * loc);                  (* what xa_for_each visits *)
  xa_find : X → Z → option (Z * loc);
  xa_destroy : X → X;
  define_xarray_law : xa_entries DEFINE_XARRAY = ∅;
  xa_store_law : ∀ i p x r x', xa_store i p x = (r, x') →
    match r with
    | XEntry o => o = xa_entries x !! i ∧ xa_entries x' = <[i := p]> (xa_entries x)
    | XErr => xa_entries x' = xa_entries x
    end;
  xa_load_law : ∀ x i, xa_load x i = xa_entries x !! i;
  xa_erase_law : ∀ i x o x', xa_erase i x = (o, x') →
    o = xa_entries x !! i ∧ xa_entries x' = delete i (xa_entries x);
  xa_list_law : ∀ x, StronglySorted before (xa_list x) ∧
    ∀ i p, (i, p) ∈ xa_list x ↔ xa_entries x !! i = Some p ∧ 0 <= i;
  xa_find_law : ∀ x i p, 0 <= i → xa_entries x !! i = Some p → xa_find x i = Some (i, p);
  xa_destroy_law : ∀ x, xa_entries (xa_destroy x) = ∅
}.

Section xarray.
Context {H X : Type} `{KernelHeap H} `{XArr X}.

(** struct item *)
Record item := Item { it_index : Z; it_order : Z }.
Inductive xa_out :=
  | OStored (i : Z) (p : loc) | ORet (r : xa_ret)
  | OLoad (p : loc) (it : item) | OErase (p : loc) (it : item) | OFind (p : loc) (it : item) | OEach (p : loc) (it : item).

Record xa_st := XaSt { xs_heap : H; xs_mem : gmap loc (option item); xs_array : X; xs_out : list xa_out }.
Abbreviation st := xa_st.
Implicit Types s : st.

Definition sizeof_item := 16.
Definition xprint (l : xa_out) : M st unit := mmodify (λ s, XaSt (xs_heap s) (xs_mem s) (xs_array s) (xs_out s ++ [l])).
Definition xkmalloc : M st (option loc) := λ s,
  let '(r, h) := kmalloc sizeof_item (xs_heap s) in
  Ret (r, XaSt h (match r with Some l => <[l := None]> (xs_mem s) | None => xs_mem s end) (xs_array s) (xs_out s)).
(** The stores to the two members, and a read of both. *)
Definition set_item (p : option loc) (it : item) : M st unit := λ s,
  match p with
  | None => Fault NullDeref
  | Some l => match xs_mem s !! l with
              | Some _ => Ret (tt, XaSt (xs_heap s) (<[l := Some it]> (xs_mem s)) (xs_array s) (xs_out s))
              | None => Fault OutOfBounds
              end
  end.
Definition get_item (p : option loc) : M st (loc * item) := λ s,
  match p with
  | None => Fault NullDeref
  | Some l => match xs_mem s !! l with Some (Some it) => Ret ((l, it), s) | _ => Fault OutOfBounds end
  end.
Definition xstore (i : Z) (p : option loc) : M st xa_ret := λ s,
  match p with
  | None => Fault NullDeref
  | Some l => let '(r, x) := xa_store i l (xs_array s) in Ret (r, XaSt (xs_heap s) (xs_mem s) x (xs_out s))
  end.
Definition xload (i : Z) : M st (option loc) := λ s, Ret (xa_load (xs_array s) i, s).
Definition xerase (i : Z) : M st (option loc) := λ s,
  let '(o, x) := xa_erase i (xs_array s) in Ret (o, XaSt (xs_heap s) (xs_mem s) x (xs_out s)).
Definition xfind (i : Z) : M st (option loc) := λ s, Ret (snd <$> xa_find (xs_array s) i, s).
Definition xdestroy : M st unit := mmodify (λ s, XaSt (xs_heap s) (xs_mem s) (xa_destroy (xs_array s)) (xs_out s)).

(** Allocating, filling in and storing the item of index [i]; what xa_store
    says is only printed. *)
Definition new_item (i : Z) : M st xa_ret :=
  p ← xkmalloc;
  set_item p (Item i (u32 (i + 100))) ≫= λ _,
  (match p with Some l => xprint (OStored i l) | None => mret tt end) ≫= λ _,
  xstore i p.
Fixpoint new_items (n : nat) (i : Z) : M st unit :=
  match n with
  | O => mret tt
  | S n' => r ← new_item i; xprint (ORet r) ≫= λ _, new_items n' (i + 1)
  end.
Fixpoint xa_for_each (l : list (Z * loc)) : M st unit :=
  match l with
  | [] => mret tt
  | (_, p) :: r => '(p, it) ← get_item (Some p); xprint (OEach p it) ≫= λ _, xa_for_each r
  end.
Definition show (o : loc → item → xa_out) (p : option loc) : M st unit :=
  '(p, it) ← get_item p; xprint (o p it).

Definition xarray_user_test : M st Z :=
  _ ← new_item 0;
  new_items 10 1 ≫= λ _,
  p ← xload 0; show OLoad p ≫= λ _,
  p ← xload 8; show OLoad p ≫= λ _,
  p ← xerase 4; show OErase p ≫= λ _,
  p ← xerase 7; show OErase p ≫= λ _,
  p ← xfind 0; show OFind p ≫= λ _,
  s ← mget;
  xa_for_each (xa_list (xs_array s)) ≫= λ _,
  xdestroy ≫= λ _,
  mret 0.
Definition xarray_exit : M st unit := mret tt.

(** ** Theorems *)

(** [ls] are the blocks that the next allocations give. *)
Inductive mallocs : H → list loc → H → Prop :=
  | mallocs_nil h : mallocs h [] h
  | mallocs_cons h l h' ls h'' : kmalloc sizeof_item h = (Some l, h') → mallocs h' ls h'' → mallocs h (l :: ls) h''.

(** Every store of the run succeeds. *)
Definition stores_ok : Prop := ∀ i p x, (xa_store i p x).1 ≠ XErr.

(** After storing the items [ls] from index 0 on. *)
Record filled (ls : list loc) (h : H) (base : gset loc) s : Prop := {
  fl_heap : xs_heap s = h;
  fl_live : live h = list_to_set ls ∪ base;
  fl_nodup : NoDup ls;
  fl_fresh : ∀ l, l ∈ ls → l ∉ base;
  fl_entries : ∀ i, xa_entries (xs_array s) !! i = if decide (0 <= i) then ls !! Z.to_nat i else None;
  fl_mem : ∀ k l, ls !! k = Some l → xs_mem s !! l = Some (Some (Item (Z.of_nat k) (u32 (Z.of_nat k + 100))))
}.

Lemma lookup_snoc_same {A} (ls : list A) (l : A) : (ls ++ [l]) !! length ls = Some l.
Proof. by rewrite lookup_app_r, Nat.sub_diag. Qed.

Lemma new_item_wp ls h base l h' s : stores_ok → filled ls h base s → kmalloc sizeof_item h = (Some l, h') →
  wp (new_item (Z.of_nat (length ls))) s (λ _ s', filled (ls ++ [l]) h' base s').
Proof.
  intros SO [Eh El ND Fr En Em] Ek. unfold new_item, xkmalloc, set_item, xstore, xprint, mmodify, wp, mbind, M_bind. rewrite Eh, Ek. simpl.
  rewrite lookup_insert_eq. simpl. specialize (SO (Z.of_nat (length ls)) l (xs_array s)).
  destruct (xa_store _ l (xs_array s)) as [r x] eqn:Es. apply xa_store_law in Es. destruct r as [o|]; [|done].
  destruct Es as [_ Ex]. pose proof (kmalloc_fresh _ _ _ _ Ek) as Nl. rewrite El in Nl. split; simpl.
  - done.
  - rewrite (kmalloc_live _ _ _ _ Ek), El, list_to_set_app_L. set_solver.
  - apply NoDup_app. split_and!; [done| |apply NoDup_singleton]. intros y Hy ->%list_elem_of_singleton. set_solver.
  - intros y [Hy| ->%list_elem_of_singleton]%elem_of_app; [by apply Fr|set_solver].
  - intros i. rewrite Ex. destruct (decide (i = Z.of_nat (length ls))) as [->|N].
    + rewrite lookup_insert_eq, decide_True, Nat2Z.id by lia. by rewrite lookup_snoc_same.
    + rewrite lookup_insert_ne by done. rewrite En. case_decide; [|done].
      destruct (decide (Z.to_nat i < length ls)%nat); [by rewrite lookup_app_l|].
      rewrite !lookup_ge_None_2; [done|rewrite length_app; simpl; lia|lia].
  - intros k y Hk. destruct (decide (k = length ls)) as [->|N].
    + rewrite lookup_snoc_same in Hk. injection Hk as <-. by rewrite lookup_insert_eq.
    + pose proof (lookup_lt_Some _ _ _ Hk) as Lk. rewrite length_app in Lk. simpl in Lk. rewrite lookup_app_l in Hk by lia.
      assert (y ≠ l) by (intros ->; apply Nl; apply list_elem_of_lookup_2 in Hk; set_solver).
      rewrite !lookup_insert_ne by done. by apply Em.
Qed.

Lemma filled_print o ls h base s : filled ls h base s → filled ls h base (XaSt (xs_heap s) (xs_mem s) (xs_array s) (xs_out s ++ [o])).
Proof. by intros []. Qed.

Lemma new_items_wp ls h base ks h' s : stores_ok → filled ls h base s → mallocs h ks h' →
  wp (new_items (length ks) (Z.of_nat (length ls))) s (λ _ s', filled (ls ++ ks) h' base s').
Proof.
  intros SO. revert ls h s. induction ks as [|k ks IH]; intros ls h s F Ml; inversion Ml as [|? ? h1 ? ? Ek Ml']; subst.
  { apply wp_ret. by rewrite app_nil_r. }
  cbn [new_items length]. apply wp_bind. eapply wp_mono; [|by eapply new_item_wp]. intros r s1 F1.
  apply wp_bind, wp_modify. replace (Z.of_nat (length ls) + 1) with (Z.of_nat (length (ls ++ [k]))) by (rewrite length_app; simpl; lia).
  eapply wp_mono; [|apply (IH (ls ++ [k]) h1); [by apply filled_print|done]]. intros ? s2. by rewrite <- app_assoc.
Qed.

Lemma before_irrefl x : ¬ before x x.
Proof. unfold before. lia. Qed.
#[local] Instance before_antisym : AntiSymm (=) before.
Proof. intros x y Hx Hy. unfold before in *. lia. Qed.
Lemma sorted_nodup l : StronglySorted before l → NoDup l.
Proof.
  induction 1 as [|x l _ IH F]; constructor; [|done]. intros Hx. rewrite Forall_forall in F.
  by apply (before_irrefl x), F.
Qed.
Lemma sorted_ext l k : StronglySorted before l → StronglySorted before k → (∀ x, x ∈ l ↔ x ∈ k) → l = k.
Proof. intros Hl Hk E. apply (StronglySorted_unique before); [done..|]. by apply NoDup_Permutation; [apply sorted_nodup..|]. Qed.

(** An xa_for_each over entries whose items are in memory. *)
Lemma xa_for_each_wp l (f : loc → item) s : (∀ i p, (i, p) ∈ l → xs_mem s !! p = Some (Some (f p))) →
  wp (xa_for_each l) s (λ _ s', s' = XaSt (xs_heap s) (xs_mem s) (xs_array s) (xs_out s ++ ((λ x, OEach x.2 (f x.2)) <$> l))).
Proof.
  revert s. induction l as [|[i p] l IH]; intros s Hl; cbn [xa_for_each].
  { apply wp_ret. simpl. rewrite app_nil_r. by destruct s. }
  apply wp_bind. unfold get_item, wp at 1. rewrite (Hl i p) by apply list_elem_of_here.
  apply wp_bind, wp_modify. eapply wp_mono; [|apply IH; intros j q Hq; apply (Hl j q); by apply list_elem_of_further].
  intros ? s' ->. simpl. by rewrite <- app_assoc.
Qed.

Lemma show_wp o p it s : xs_mem s !! p = Some (Some it) →
  wp (show o (Some p)) s (λ _ s', s' = XaSt (xs_heap s) (xs_mem s) (xs_array s) (xs_out s ++ [o p it])).
Proof. intros E. unfold show, get_item, wp, mbind, M_bind. by rewrite E. Qed.

(** The rest of the test once the eleven items are stored. *)
Definition item_at (i : Z) : item := Item i (u32 (i + 100)).
Definition remaining : list Z := [0; 1; 2; 3; 5; 6; 8; 9; 10].

Lemma remaining_list ls x : length ls = 11%nat →
  (∀ i, xa_entries x !! i = if decide (i = 7 ∨ i = 4) then None else if decide (0 <= i) then ls !! Z.to_nat i else None) →
  xa_list x = (λ i, (i, ls !!! Z.to_nat i)) <$> remaining.
Proof.
  intros L E. destruct (xa_list_law x) as [S Hl]. apply sorted_ext; [done| |].
  - repeat constructor.
  - intros [i p]. rewrite Hl, E, list_elem_of_fmap. split.
    + intros [Hi Hp]. case_decide as N; [done|]. case_decide; [|done]. pose proof (lookup_lt_Some _ _ _ Hi) as Li.
      exists i. rewrite (list_lookup_total_correct _ _ _ Hi). split; [done|]. unfold remaining.
      rewrite !elem_of_cons. lia.
    + intros (j & [= -> ->] & Hj). assert (0 <= j < 11 ∧ j ≠ 7 ∧ j ≠ 4) as (B & N7 & N4).
      { unfold remaining in Hj. rewrite !elem_of_cons, elem_of_nil in Hj. lia. }
      rewrite decide_False, decide_True by lia. split; [|lia]. apply list_lookup_lookup_total_lt. lia.
Qed.

Lemma xload_wp i p s : xa_entries (xs_array s) !! i = Some p → wp (xload i) s (λ q s', q = Some p ∧ s' = s).
Proof. intros E. unfold xload, wp. by rewrite xa_load_law, E. Qed.
Lemma xerase_wp i p s : xa_entries (xs_array s) !! i = Some p → wp (xerase i) s (λ q s', q = Some p ∧
  ∃ x, s' = XaSt (xs_heap s) (xs_mem s) x (xs_out s) ∧ xa_entries x = delete i (xa_entries (xs_array s))).
Proof.
  intros E. unfold xerase, wp. destruct (xa_erase i (xs_array s)) as [o x] eqn:Ee. apply xa_erase_law in Ee as [-> Ex].
  split; [done|]. eauto.
Qed.
Lemma xfind_wp i p s : 0 <= i → xa_entries (xs_array s) !! i = Some p → wp (xfind i) s (λ q s', q = Some p ∧ s' = s).
Proof. intros Hi E. unfold xfind, wp. by rewrite (xa_find_law _ _ _ Hi E). Qed.

(** What the test does once the items [ls] are stored. *)
Lemma test_tail_wp ls h base s : length ls = 11%nat → filled ls h base s →
  let at_ i := ls !!! Z.to_nat i in
  wp (p ← xload 0; show OLoad p ≫= λ _, p ← xload 8; show OLoad p ≫= λ _,
      p ← xerase 4; show OErase p ≫= λ _, p ← xerase 7; show OErase p ≫= λ _,
      p ← xfind 0; show OFind p ≫= λ _,
      s ← mget; xa_for_each (xa_list (xs_array s)) ≫= λ _, xdestroy ≫= λ _, mret 0) s
    (λ r s', r = 0 ∧ xs_heap s' = h ∧ xa_entries (xs_array s') = ∅ ∧
      xs_out s' = xs_out s ++ [OLoad (at_ 0) (item_at 0); OLoad (at_ 8) (item_at 8); OErase (at_ 4) (item_at 4);
        OErase (at_ 7) (item_at 7); OFind (at_ 0) (item_at 0)] ++ ((λ i, OEach (at_ i) (item_at i)) <$> remaining)).
Proof.
  intros L [Eh El ND Fr En Em] at_.
  assert (At : ∀ i, 0 <= i < 11 → xa_entries (xs_array s) !! i = Some (at_ i) ∧ xs_mem s !! at_ i = Some (Some (item_at i))).
  { intros i Hi. assert (ls !! Z.to_nat i = Some (at_ i)) as E by (apply list_lookup_lookup_total_lt; lia).
    rewrite En, decide_True by lia. split; [done|]. rewrite (Em _ _ E), Z2Nat.id by lia. done. }
  apply wp_bind. eapply wp_mono; [|apply (xload_wp 0 (at_ 0)), At; lia]. intros p s1 [-> ->].
  apply wp_bind. eapply wp_mono; [|apply show_wp, At; lia]. intros [] s1 ->.
  apply wp_bind. eapply wp_mono; [|apply (xload_wp 8 (at_ 8)), At; lia]. intros p s1 [-> ->].
  apply wp_bind. eapply wp_mono; [|apply (show_wp _ _ (item_at 8)), At; lia]. intros [] s1 ->.
  apply wp_bind. eapply wp_mono; [|apply (xerase_wp 4 (at_ 4)), At; lia]. intros p s1 (-> & x1 & -> & E1).
  apply wp_bind. eapply wp_mono; [|apply (show_wp _ _ (item_at 4)), At; lia]. intros [] s1 ->.
  apply wp_bind. eapply wp_mono; [|apply (xerase_wp 7 (at_ 7)); cbn [xs_array] in *; rewrite E1, lookup_delete_ne by done; apply At; lia].
  intros p s1 (-> & x2 & -> & E2). cbn [xs_array] in *.
  apply wp_bind. eapply wp_mono; [|apply (show_wp _ _ (item_at 7)), At; lia]. intros [] s1 ->.
  apply wp_bind. eapply wp_mono; [|apply (xfind_wp 0 (at_ 0)); [done|]; cbn [xs_array]; rewrite E2, E1, !lookup_delete_ne by done; apply At; lia].
  intros p s1 [-> ->]. apply wp_bind. eapply wp_mono; [|apply (show_wp _ _ (item_at 0)), At; lia]. intros [] s1 ->.
  apply wp_bind, wp_get. cbn [xs_array]. rewrite (remaining_list ls x2 L).
  2:{ intros i. rewrite E2, E1. destruct (decide (i = 7)) as [->|N7]; [by rewrite lookup_delete_eq, decide_True by lia|].
      rewrite lookup_delete_ne by done. destruct (decide (i = 4)) as [->|N4]; [by rewrite lookup_delete_eq, decide_True by lia|].
      rewrite lookup_delete_ne by done. rewrite decide_False by lia. apply En. }
  apply wp_bind. eapply wp_mono; [|apply (xa_for_each_wp _ (λ p, default (Item 0 0) (default None (xs_mem s !! p))))].
  - intros [] s1 ->. apply wp_bind, wp_modify, wp_ret. cbn [xs_heap xs_array xs_out xs_mem]. split_and!; [done|done|apply xa_destroy_law|].
    rewrite <- !app_assoc. f_equal. cbn [app]. do 5 f_equal.
    rewrite <- list_fmap_compose. apply list_fmap_ext. intros k i Hi. cbn.
    destruct (At i) as [_ Ei]; [|fold (at_ i); by rewrite Ei]. apply list_elem_of_lookup_2 in Hi. unfold remaining in Hi. rewrite !elem_of_cons, elem_of_nil in Hi. lia.
  - intros i p (j & [= -> ->] & Hj)%list_elem_of_fmap. cbn [xs_mem].
    destruct (At j) as [_ Ej]; [unfold remaining in Hj; rewrite !elem_of_cons, elem_of_nil in Hj; lia|].
    fold (at_ j). by rewrite Ej.
Qed.

(** For every xarray that meets its interface, with memory for the eleven
    items and for the array: the test prints the items it looks up, erases and
    finds, and then the nine that are left in index order; it empties the
    array, but the eleven items, those erased included, stay allocated. *)
Theorem xarray_test_prints_and_leaks s ls h : xa_entries (xs_array s) = ∅ → stores_ok →
  mallocs (xs_heap s) ls h → length ls = 11%nat →
  let at_ i := ls !!! Z.to_nat i in
  wp (r ← xarray_user_test; xarray_exit ≫= λ _, mret r) s (λ r s', r = 0 ∧
    xa_entries (xs_array s') = ∅ ∧ live (xs_heap s') = list_to_set ls ∪ live (xs_heap s) ∧
    size (live (xs_heap s')) = (11 + size (live (xs_heap s)))%nat ∧
    ∃ o, xs_out s' = o ++ [OLoad (at_ 0) (item_at 0); OLoad (at_ 8) (item_at 8); OErase (at_ 4) (item_at 4);
      OErase (at_ 7) (item_at 7); OFind (at_ 0) (item_at 0)] ++ ((λ i, OEach (at_ i) (item_at i)) <$> remaining)).
Proof.
  intros E0 SO Ml L at_. assert (F0 : filled [] (xs_heap s) (live (xs_heap s)) s).
  { split; try done; [set_solver|apply NoDup_nil_2|by intros ? ?%elem_of_nil|]. intros i. rewrite E0, lookup_empty. by case_decide. }
  destruct ls as [|l ls]; [done|]. inversion Ml as [|? ? h1 ? ? Ek Ml']; subst.
  apply wp_bind. unfold xarray_user_test. apply wp_bind.
  eapply wp_mono; [|apply (new_item_wp [] (xs_heap s) _ l h1 s SO F0 Ek)]. intros r s1 F1. apply wp_bind.
  injection L as L. rewrite <- L. change 1 with (Z.of_nat (length [l])).
  eapply wp_mono; [|apply (new_items_wp ([] ++ [l]) h1 (live (xs_heap s)) ls h s1 SO F1 Ml')]. intros [] s2 F2. simpl in F2.
  eapply wp_mono; [|eapply (test_tail_wp (l :: ls)); [simpl; lia|exact F2]].
  intros r2 s3 (-> & Eh & Ee & Eo). apply wp_bind, wp_ret, wp_ret. split; [done|]. split; [done|].
  rewrite Eh. destruct F2 as [_ El ND Fr _ _]. split; [done|]. split; [|eauto]. rewrite El.
  rewrite size_union by (intros y Hy%elem_of_list_to_set; by apply Fr). rewrite size_list_to_set by done. simpl. lia.
Qed.

(** Without memory for an item the module writes its members through a
    null pointer. *)
Theorem new_item_no_memory i s h : kmalloc sizeof_item (xs_heap s) = (None, h) → new_item i s = Fault NullDeref.
Proof. intros E. unfold new_item, xkmalloc, mbind, M_bind. by rewrite E. Qed.
End xarray.
Arguments xa_st : clear implicits.

(** ** An implementation, and runs on it *)

Definition notafter (x y : Z * loc) : Prop := x.1 <= y.1.
#[local] Instance notafter_dec x y : Decision (notafter x y) := decide (x.1 <= y.1).
#[local] Instance notafter_total : Total notafter.
Proof. intros x y. unfold notafter. lia. Qed.
#[local] Instance notafter_trans : Transitive notafter.
Proof. intros x y z. unfold notafter. lia. Qed.

Lemma sorted_strict l : NoDup l.*1 → StronglySorted notafter l → StronglySorted before l.
Proof.
  induction 2 as [|x l S IH F]; constructor; simpl in *; apply NoDup_cons in H as [Nx ND]; [by apply IH|].
  rewrite Forall_forall in *. intros y Hy. specialize (F y Hy). unfold notafter, before in *.
  assert (x.1 ≠ y.1) by (intros E; apply Nx; rewrite E; apply list_elem_of_fmap; eauto). lia.
Qed.

Definition sorted_entries (m : gmap Z loc) : list (Z * loc) := merge_sort notafter (filter (λ x, 0 <= x.1) (map_to_list m)).

Lemma sorted_entries_sorted m : StronglySorted before (sorted_entries m).
Proof.
  unfold sorted_entries. apply sorted_strict; [|apply (StronglySorted_merge_sort notafter)].
  rewrite merge_sort_Permutation. eapply sublist_NoDup; [exact (NoDup_fst_map_to_list m)|apply fmap_sublist, sublist_filter].
Qed.
Lemma elem_of_sorted_entries m i p : (i, p) ∈ sorted_entries m ↔ m !! i = Some p ∧ 0 <= i.
Proof. unfold sorted_entries. rewrite merge_sort_Permutation, list_elem_of_filter, elem_of_map_to_list. simpl. tauto. Qed.
Lemma find_sorted l i p : StronglySorted before l → (i, p) ∈ l → head (filter (λ y, i <= y.1) l) = Some (i, p).
Proof.
  induction 1 as [|y l S IH F]; [by intros ?%elem_of_nil|]. rewrite filter_cons. intros [<-|In]%elem_of_cons.
  - by rewrite decide_True.
  - rewrite Forall_forall in F. rewrite decide_False; [by apply IH|]. specialize (F _ In). unfold before in F. simpl in *. lia.
Qed.

#[local] Program Instance map_xarray : XArr (gmap Z loc) := {
  xa_entries x := x; DEFINE_XARRAY := ∅;
  xa_store i p x := (XEntry (x !! i), <[i := p]> x);
  xa_load x i := x !! i;
  xa_erase i x := (x !! i, delete i x);
  xa_list := sorted_entries;
  xa_find x i := head (filter (λ y, i <= y.1) (sorted_entries x));
  xa_destroy x := ∅
}.
Next Obligation. done. Qed.
Next Obligation. intros i p x r x' E. by injection E as <- <-. Qed.
Next Obligation. done. Qed.
Next Obligation. intros i x o x' E. by injection E as <- <-. Qed.
Next Obligation. intros x. split; [apply sorted_entries_sorted|apply elem_of_sorted_entries]. Qed.
Next Obligation. intros x i p Hi E. by apply find_sorted; [apply sorted_entries_sorted|apply elem_of_sorted_entries]. Qed.
Next Obligation. done. Qed.

Definition demo_xa (oom : list bool) : xa_st bump (gmap Z loc) := XaSt (Bump ∅ 1%positive oom) ∅ ∅ [].

Definition demo_blocks : list loc := [1; 2; 3; 4; 5; 6; 7; 8; 9; 10; 11]%positive.
Definition demo_full : bump := Bump (list_to_set (reverse demo_blocks)) 12%positive [].
Lemma demo_mallocs : mallocs (xs_heap (demo_xa [])) demo_blocks demo_full.
Proof. repeat (eapply mallocs_cons; [vm_compute; reflexivity|]). apply mallocs_nil. Qed.
Lemma xarray_test_prints_and_leaks_witness :
  let s := demo_xa [] in
  let at_ i := demo_blocks !!! Z.to_nat i in
  wp (r ← xarray_user_test; xarray_exit ≫= λ _, mret r) s (λ r s', r = 0 ∧
    xa_entries (xs_array s') = ∅ ∧ live (xs_heap s') = list_to_set demo_blocks ∪ live (xs_heap s) ∧
    size (live (xs_heap s')) = (11 + size (live (xs_heap s)))%nat ∧
    ∃ o, xs_out s' = o ++ [OLoad (at_ 0) (item_at 0); OLoad (at_ 8) (item_at 8); OErase (at_ 4) (item_at 4);
      OErase (at_ 7) (item_at 7); OFind (at_ 0) (item_at 0)] ++ ((λ i, OEach (at_ i) (item_at i)) <$> remaining)).
Proof. exact (xarray_test_prints_and_leaks (demo_xa []) demo_blocks demo_full eq_refl (λ _ _ _, ltac:(done)) demo_mallocs eq_refl). Defined.
Lemma new_item_no_memory_witness : new_item 0 (demo_xa [true]) = Fault NullDeref.
Proof. by apply (new_item_no_memory 0 (demo_xa [true]) (Bump ∅ 1%positive [])). Defined.
