(* ===== verification/SmallMods.v ===== *)
(** Small modules: the slab cache of src/m_modules/mm/cache.c and the debugfs
    variables of src/m_modules/fs/km_debugfs.c and rpi_debugfs.c. *)
From Stdlib Require Import ZArith Lia.
From stdpp Require Import base list gmap strings.
From S2P Require Import Prelude Kernel.

(** ** cache.c *)

(** The kernel's slab caches by handle, and the cache of every object. *)
Class KmemCache (K : Type) := {
  caches : K → gset Z;
  objects : K → gmap loc Z;
  kmem_cache_create : Z → K → option Z * K;
  kmem_cache_alloc : Z → K → option loc * K;
  kmem_cache_free : Z → loc → K → K;
  kmem_cache_destroy : Z → K → K;
  cache_create_law : ∀ n k r k', kmem_cache_create n k = (r, k') → objects k' = objects k ∧
    match r with
    | Some c => (c ∉ caches k) ∧ caches k' = {[c]} ∪ caches k
    | None => caches k' = caches k
    end;
  cache_alloc_law : ∀ c k r k', kmem_cache_alloc c k = (r, k') → caches k' = caches k ∧
    match r with
    | Some p => objects k !! p = None ∧ objects k' = <[p := c]> (objects k)
    | None => objects k' = objects k
    end;
  cache_free_law : ∀ c p k, caches (kmem_cache_free c p k) = caches k ∧
    objects (kmem_cache_free c p k) = delete p (objects k);
  cache_destroy_law : ∀ c k, objects (kmem_cache_destroy c k) = objects k ∧
    caches (kmem_cache_destroy c k) = caches k ∖ {[c]}
}.

Section cache.
Context {K : Type} `{KmemCache K}.

Record cache_st := CacheSt { my_cachep : option Z; my_p : option loc; cs_kernel : K }.
Implicit Types s : cache_st.
Definition sizeof_my := 8.

Definition cache_init : M cache_st Z := λ s,
  match kmem_cache_create sizeof_my (cs_kernel s) with
  | (None, k) => Ret (0, CacheSt None (my_p s) k)
  | (Some c, k) => let '(p, k) := kmem_cache_alloc c k in Ret (0, CacheSt (Some c) p k)
  end.

(** kmem_cache_free takes an object of the cache. *)
Definition cache_free (c : option Z) (p : option loc) : M cache_st unit := λ s,
  match c, p with
  | None, _ | _, None => Fault NullDeref
  | Some c, Some p =>
      if bool_decide (objects (cs_kernel s) !! p = Some c)
      then Ret (tt, CacheSt (my_cachep s) (my_p s) (kmem_cache_free c p (cs_kernel s))) else Fault BadFree
  end.
Definition cache_exit : M cache_st unit :=
  s ← mget;
  cache_free (my_cachep s) (my_p s) ≫= λ _,
  match my_cachep s with
  | Some c => mmodify (λ s, CacheSt (my_cachep s) (my_p s) (kmem_cache_destroy c (cs_kernel s)))
  | None => mret tt
  end.

(** Loading the module always answers 0.  When the cache and its object
    were had, unloading gives both back; when either was refused, unloading
    follows a null pointer. *)
Theorem cache_load_unload s : my_p s = None →
  ∃ s', cache_init s = Ret (0, s') ∧
  match kmem_cache_create sizeof_my (cs_kernel s) with
  | (None, _) => cache_exit s' = Fault NullDeref
  | (Some c, k) =>
      match kmem_cache_alloc c k with
      | (None, _) => cache_exit s' = Fault NullDeref
      | (Some p, _) => wp cache_exit s' (λ _ s'', caches (cs_kernel s'') = caches (cs_kernel s) ∧ objects (cs_kernel s'') = objects (cs_kernel s))
      end
  end.
Proof.
  intros Ep. unfold cache_init. destruct (kmem_cache_create sizeof_my (cs_kernel s)) as [[c|] k] eqn:Ec.
  - destruct (kmem_cache_alloc c k) as [[p|] k'] eqn:Ea; eexists; (split; [done|]); [|done].
    apply cache_create_law in Ec as (E1 & Nc & E2). apply cache_alloc_law in Ea as (E3 & Np & E4).
    unfold cache_exit, cache_free, wp, mget, mbind, M_bind, mmodify. simpl.
    rewrite E4, lookup_insert_eq, bool_decide_eq_true_2 by done. simpl.
    destruct (cache_free_law c p k') as [F1 F2]. destruct (cache_destroy_law c (kmem_cache_free c p k')) as [D1 D2].
    rewrite D1, D2, F1, F2, E3, E4, E2, delete_insert_id by done. split; [set_solver|done].
  - eexists. split; [done|]. done.
Qed.
End cache.
Arguments cache_st : clear implicits.

(** ** The debugfs variables *)

(** A uint32_t behind a simple attribute: what a read gets, what a write
    sets. *)
Definition km_kernel_debug_stat_get (km_debug_state : Z) : Z * Z := (0, km_debug_state).
Definition km_kernel_debug_stat_set (val km_debug_state : Z) : Z * Z := (0, u32 val).
Definition rpi_kernel_debug_stat_get (raspbian_debug_state : Z) : Z * Z := (0, raspbian_debug_state).
Definition rpi_kernel_debug_stat_set (val raspbian_debug_state : Z) : Z * Z := (0, u32 val).
Definition km_debug_state0 := 4096.
Definition raspbian_debug_state0 := 4096.

(** Accesses to the attribute, and what the reads get. *)
Inductive attr_op := AttrGet | AttrSet (v : Z).
Fixpoint attr_run (get : Z → Z * Z) (set : Z → Z → Z * Z) (x : Z) (ops : list attr_op) : list Z * Z :=
  match ops with
  | [] => ([], x)
  | AttrGet :: r => let '(vs, y) := attr_run get set x r in ((get x).2 :: vs, y)
  | AttrSet v :: r => attr_run get set (set v x).2 r
  end.
Fixpoint last_set (x : Z) (ops : list attr_op) : Z :=
  match ops with [] => x | AttrGet :: r => last_set x r | AttrSet v :: r => last_set (u32 v) r end.

(** Whatever is read and written through the two debugfs files, their
    variables hold the last value written modulo 2^32, always an unsigned
    32-bit value, and the modules agree with each other. *)
Theorem debugfs_last_write ops x : 0 <= x < 2 ^ 32 →
  let '(vs, y) := attr_run km_kernel_debug_stat_get km_kernel_debug_stat_set x ops in
  y = last_set x ops ∧ 0 <= y < 2 ^ 32 ∧ Forall (λ v, 0 <= v < 2 ^ 32) vs ∧
  attr_run rpi_kernel_debug_stat_get rpi_kernel_debug_stat_set x ops = (vs, y).
Proof.
  revert x. induction ops as [|[|v] ops IH]; intros x Hx; simpl; [done| |].
  - specialize (IH x Hx). destruct (attr_run km_kernel_debug_stat_get km_kernel_debug_stat_set x ops) as [vs y]. destruct IH as (-> & B & F & E).
    split; [done|]. split; [done|]. split; [by constructor|]. by rewrite E.
  - apply IH. apply u32_range.
Qed.

(** *** Their registration

    [df_dirs] and [df_files] are the directories and files of debugfs,
    [df_drivers] the platform drivers. *)
Class DebugFs (D : Type) := {
  df_dirs : D → gset string;
  df_files : D → gmap (string * string) Z;                       (* the mode *)
  df_drivers : D → gset string;
  debugfs_create_dir : string → D → (Z + string) * D;            (* an error pointer, or the directory *)
  debugfs_create_file : string → Z → Z + string → D → D;         (* under an error pointer: nothing *)
  platform_driver_register : string → D → Z * D;
  create_dir_law : ∀ n d r d', debugfs_create_dir n d = (r, d') →
    df_files d' = df_files d ∧ df_drivers d' = df_drivers d ∧
    match r with inr m => m = n ∧ df_dirs d' = {[n]} ∪ df_dirs d | inl _ => df_dirs d' = df_dirs d end;
  create_file_law : ∀ n mode r d, let d' := debugfs_create_file n mode r d in
    df_dirs d' = df_dirs d ∧ df_drivers d' = df_drivers d ∧
    match r with
    | inr m => df_files d' = <[(m, n) := mode]> (df_files d) ∨ df_files d' = df_files d
    | inl _ => df_files d' = df_files d
    end;
  driver_register_law : ∀ n d z d', platform_driver_register n d = (z, d') →
    df_dirs d' = df_dirs d ∧ df_files d' = df_files d ∧ z <= 0 ∧
    df_drivers d' = if z =? 0 then {[n]} ∪ df_drivers d else df_drivers d
}.

Definition S_IRUGO := 292.
Definition km_kernel_debugfs_driver_probe : Z := 0.
Definition rpi_kernel_debugfs_driver_probe : Z := 0.

Section debugfs.
Context {D : Type} `{DebugFs D}.

(** The body of both init functions: the results of the first two calls go
    unseen. *)
Definition debugfs_init (name : string) : M D Z := λ d,
  let '(root, d) := debugfs_create_dir name d in
  let d := debugfs_create_file "val" S_IRUGO root d in
  Ret (platform_driver_register name d).
Definition km_kernel_debugfs_init : M D Z := debugfs_init "km_debug".
Definition rpi_kernel_debugfs_init : M D Z := debugfs_init "rpi_debug".

(** Loading either module registers its driver or answers with an error; the
    success says nothing about the file.  After an error the directory and the
    file, whose operations are in the module, stay behind. *)
Theorem debugfs_init_spec name init d root d1 z d' :
  (name, init) ∈ [("km_debug", km_kernel_debugfs_init); ("rpi_debug", rpi_kernel_debugfs_init)] →
  debugfs_create_dir name d = (root, d1) → init d = Ret (z, d') →
  (z = 0 → df_drivers d' = {[name]} ∪ df_drivers d) ∧
  (z ≠ 0 → z < 0 ∧ df_drivers d' = df_drivers d) ∧
  match root with
  | inl _ => df_dirs d' = df_dirs d ∧ df_files d' = df_files d
  | inr _ => df_dirs d' = {[name]} ∪ df_dirs d ∧
      (df_files d' = <[(name, "val") := 292]> (df_files d) ∨ df_files d' = df_files d)
  end.
Proof.
  intros Hin E1 E2. assert (init = debugfs_init name) as ->.
  { rewrite !elem_of_cons, elem_of_nil in Hin. by destruct_or! Hin; simplify_eq. }
  unfold debugfs_init in E2. rewrite E1 in E2. cbv zeta in E2. apply create_dir_law in E1 as (F1 & D1 & R1).
  destruct (create_file_law "val" S_IRUGO root d1) as (Dc & Dd & Df).
  destruct (platform_driver_register name _) as [z1 d2] eqn:E3. apply driver_register_law in E3 as (G1 & G2 & Gz & G3).
  injection E2 as -> ->. split_and!.
  - intros ->. by rewrite G3, Dd, D1.
  - intros Hz. rewrite (proj2 (Z.eqb_neq z 0) Hz) in G3. split; [lia|congruence].
  - destruct root as [e|m].
    + split; congruence.
    + destruct R1 as [-> R1]. rewrite G1, Dc, G2. split; [done|]. by rewrite <- F1.
Qed.

End debugfs.

(** ** Runs *)

Record kmc := Kmc { kc_caches : gset Z; kc_objects : gmap loc Z; kc_fail : bool * bool }.
#[local] Program Instance kmc_cache : KmemCache kmc := {
  caches := kc_caches; objects := kc_objects;
  kmem_cache_create n k := if (kc_fail k).1 then (None, k) else
    (Some (fresh (kc_caches k)), Kmc ({[fresh (kc_caches k)]} ∪ kc_caches k) (kc_objects k) (kc_fail k));
  kmem_cache_alloc c k := if (kc_fail k).2 then (None, k) else
    (Some (fresh (dom (kc_objects k))), Kmc (kc_caches k) (<[fresh (dom (kc_objects k)) := c]> (kc_objects k)) (kc_fail k));
  kmem_cache_free c p k := Kmc (kc_caches k) (delete p (kc_objects k)) (kc_fail k);
  kmem_cache_destroy c k := Kmc (kc_caches k ∖ {[c]}) (kc_objects k) (kc_fail k)
}.
Next Obligation.
  intros n k r k' E. simpl in *. destruct ((kc_fail k).1); simplify_eq/=; [done|]. split_and!; [done|apply is_fresh|done].
Qed.
Next Obligation.
  intros c k r k' E. simpl in *. destruct ((kc_fail k).2); simplify_eq/=; [done|]. split_and!; [done| |done]. apply not_elem_of_dom, is_fresh.
Qed.
Next Obligation. done. Qed.
Next Obligation. done. Qed.

Definition demo_cache (fail : bool * bool) : cache_st kmc := CacheSt None None (Kmc ∅ ∅ fail).
Lemma cache_load_unload_witness : ∃ s', cache_init (demo_cache (false, true)) = Ret (0, s') ∧ cache_exit s' = Fault NullDeref.
Proof. exact (cache_load_unload (demo_cache (false, true)) eq_refl). Defined.
Lemma debugfs_last_write_witness :
  let '(vs, y) := attr_run km_kernel_debug_stat_get km_kernel_debug_stat_set km_debug_state0 [AttrGet; AttrSet 4294967297; AttrGet] in
  y = 1 ∧ 0 <= y < 2 ^ 32 ∧ Forall (λ v, 0 <= v < 2 ^ 32) vs ∧
  attr_run rpi_kernel_debug_stat_get rpi_kernel_debug_stat_set raspbian_debug_state0 [AttrGet; AttrSet 4294967297; AttrGet] = (vs, y).
Proof. apply (debugfs_last_write [AttrGet; AttrSet 4294967297; AttrGet] 4096). done. Defined.

(** [dfs_fail]: the registration of the driver fails. *)
Record dfs := Dfs { dfs_dirs : gset string; dfs_files : gmap (string * string) Z; dfs_drivers : gset string; dfs_fail : bool }.
#[local] Program Instance dfs_debugfs : DebugFs dfs := {
  df_dirs := dfs_dirs; df_files := dfs_files; df_drivers := dfs_drivers;
  debugfs_create_dir n d := (inr n, Dfs ({[n]} ∪ dfs_dirs d) (dfs_files d) (dfs_drivers d) (dfs_fail d));
  debugfs_create_file n mode r d := match r with
    | inr m => Dfs (dfs_dirs d) (<[(m, n) := mode]> (dfs_files d)) (dfs_drivers d) (dfs_fail d)
    | inl _ => d
    end;
  platform_driver_register n d := if dfs_fail d then (- EBUSY, d)
    else (0, Dfs (dfs_dirs d) (dfs_files d) ({[n]} ∪ dfs_drivers d) (dfs_fail d))
}.
Next Obligation. intros n d r d' E. by injection E as <- <-. Qed.
Next Obligation. intros n mode [e|m] d; simpl; [done|]. split_and!; [done|done|by left]. Qed.
Next Obligation. intros n d z d' E. simpl in E. by destruct (dfs_fail d); injection E as <- <-. Qed.

Lemma debugfs_init_spec_witness : ∃ d' : dfs, km_kernel_debugfs_init (Dfs ∅ ∅ ∅ true) = Ret (- EBUSY, d') ∧
  df_drivers d' = ∅ ∧ df_dirs d' = {["km_debug"]} ∪ ∅.
Proof.
  set (d := Dfs ∅ ∅ ∅ true). destruct (debugfs_create_dir "km_debug" d) as [root d1] eqn:E.
  assert (root = inr "km_debug") as -> by by injection E.
  destruct (km_kernel_debugfs_init d) as [[z d']|] eqn:Run; [|done].
  destruct (debugfs_init_spec "km_debug" km_kernel_debugfs_init d _ d1 z d' (list_elem_of_here _ _) E Run) as (_ & N & R).
  assert (z = - EBUSY) as -> by (by injection Run).
  exists d'. split; [done|]. split; [apply N; done|apply R].
Defined.
