(* ===== verification/ProcEntries.v ===== *)
(** The /proc entries of src/m_modules/proc: timer.c, simple_proc.c and the
    registration of ex_proc.c, whose write is in ExProc.

    The directory is the interface [ProcRoot]; what seq_printf writes is kept as
    a label and the numbers printed under it. *)
From Stdlib Require Import ZArith Lia.
From stdpp Require Import base list gmap strings.
From S2P Require Import Prelude Kernel.

(** ** Entries *)

(** The proc_ops an entry was made with. *)
Inductive proc_ops :=
  | Timer_ops | Simple_ops | Exploit_ops
  | Scullmem_ops | Scullseq_ops | Scullpipe_ops | Scullpmem_ops
  | Other_ops (n : Z).

Class ProcRoot (P : Type) := {
  entries : P → gmap string proc_ops;
  proc_create : string → proc_ops → P → bool * P;            (* false: NULL *)
  remove_proc_entry : string → P → P;
  proc_create_law : ∀ n o p b p', proc_create n o p = (b, p') →
    if b then entries p !! n = None ∧ entries p' = <[n := o]> (entries p) else entries p' = entries p;
  remove_entry_law : ∀ n p, entries (remove_proc_entry n p) = delete n (entries p)
}.

Section modules.
Context {P : Type} `{ProcRoot P}.

(** The result of proc_create is not looked at. *)
Definition make_entry (n : string) (o : proc_ops) : M P Z := λ p, Ret (0, (proc_create n o p).2).
Definition drop_entry (n : string) : M P unit := λ p, Ret (tt, remove_proc_entry n p).

Definition timer_init : M P Z := make_entry "timer" Timer_ops.
Definition timer_exit : M P unit := drop_entry "timer".
Definition simple_init : M P Z := make_entry "simple" Simple_ops.
Definition simple_exit : M P unit := drop_entry "simple".
Definition exproc_init : M P Z := make_entry "exploit" Exploit_ops.
Definition exproc_exit : M P unit := drop_entry "exploit".

Lemma entry_load_unload n o (p : P) : ∃ p1,
  make_entry n o p = Ret (0, p1) ∧
  (entries p1 = entries p ∨ (entries p !! n = None ∧ entries p1 = <[n := o]> (entries p))) ∧
  ∃ p2, drop_entry n p1 = Ret (tt, p2) ∧ entries p2 = delete n (entries p).
Proof.
  unfold make_entry, drop_entry. destruct (proc_create n o p) as [b p1] eqn:E. apply proc_create_law in E.
  exists p1. simpl. split; [done|]. split; [destruct b; tauto|]. eexists. split; [done|]. rewrite remove_entry_law.
  destruct b; [|by rewrite E]. destruct E as [N ->]. by rewrite delete_insert_eq.
Qed.

(** The three modules load in any case.  Unloading removes the entry of the
    module's name, whoever made it: when the name was free that leaves the
    directory as it was, when another had it the other's entry is gone. *)
Theorem proc_modules_load_unload (p : P) n init exit :
  (n, init, exit) ∈ [("timer", timer_init, timer_exit); ("simple", simple_init, simple_exit);
                     ("exploit", exproc_init, exproc_exit)] →
  ∃ p2, (init ≫= λ _, exit) p = Ret (tt, p2) ∧
    (entries p !! n = None → entries p2 = entries p) ∧
    (is_Some (entries p !! n) → entries p2 = delete n (entries p) ∧ entries p2 ≠ entries p).
Proof.
  intros Hin. assert (G : ∃ o, init = make_entry n o ∧ exit = drop_entry n).
  { rewrite !elem_of_cons, elem_of_nil in Hin. destruct_or! Hin; simplify_eq; eauto. }
  destruct G as (o & -> & ->). destruct (entry_load_unload n o p) as (p1 & E1 & _ & p2 & E2 & D).
  exists p2. rewrite (bind_run _ _ _ _ _ E1), E2, D. split; [done|]. split; [apply delete_id|].
  intros [q Eq]. split; [done|]. intros Ed. rewrite <- Ed, lookup_delete_eq in Eq. done.
Qed.

End modules.

(** ** What the files show *)

(** simple_proc_show. *)
Definition simple_proc_show : string := "Hello proc".

(** The clocks the kernel is asked for: jiffies_64 and HZ, ktime_get and the five
    timespec64 of seconds and nanoseconds, the cycle counter and its frequency. *)
Record clocks := Clocks {
  HZ : Z;
  jiffies_64 : Z;
  ktime_get : Z;
  ts64 : Z * Z;
  raw_ts64 : Z * Z;
  real_ts64 : Z * Z;
  coarse_ts64 : Z * Z;
  coarse_real_ts64 : Z * Z;
  cycles : Z;
  cpu_khz : Z
}.

Definition show_ts (label : string) (t : Z * Z) : string * list Z := (label, [u64 t.1; u64 t.2]).
(** proc_show of timer.c; the quotients are of unsigned 64-bit values. *)
Definition timer_show (c : clocks) : list (string * list Z) :=
  let m_jiffy := u64 (jiffies_64 c) in
  [("HZ", [HZ c]);
   ("jiffies", [m_jiffy]);
   ("jiffies after ls", [u64 (m_jiffy + HZ c)]);
   ("uptime in min", [m_jiffy / HZ c / 60]);
   ("uptime in sec", [m_jiffy / HZ c]);
   ("ktime", [u64 (ktime_get c)]);
   show_ts "get_ts64" (ts64 c);
   show_ts "get_raw_ts64" (raw_ts64 c);
   show_ts "get_real" (real_ts64 c);
   show_ts "get_coarse" (coarse_ts64 c);
   show_ts "get_coarse_real" (coarse_real_ts64 c);
   ("cycles", [u64 (cycles c)]);
   ("cpu_khz", [u32 (cpu_khz c)])].

Definition shown_at (label : string) (out : list (string * list Z)) : option (list Z) :=
  snd <$> list_find (λ l, l.1 = label) out ≫= λ p, Some p.2.

(** The kernel starts jiffies_64 five minutes before its lower 32 bits wrap. *)
Definition INITIAL_JIFFIES (hz : Z) : Z := u32 (- 300 * hz).
Definition after_boot (c : clocks) (ticks : Z) : Prop := jiffies_64 c = INITIAL_JIFFIES (HZ c) + ticks.

(** /proc/timer: [t] ticks after the boot its two uptimes agree with each other
    and the jiffies with HZ, but they count from the start of jiffies_64, not
    from the boot: with at most 1000 ticks per second they are more than 49 days
    ahead. *)
Theorem timer_uptime_ahead c t : 0 < HZ c <= 1000 → 0 <= t < 2 ^ 63 → after_boot c t →
  ∃ j s, shown_at "jiffies" (timer_show c) = Some [j] ∧
    shown_at "jiffies after ls" (timer_show c) = Some [j + HZ c] ∧
    shown_at "uptime in sec" (timer_show c) = Some [s] ∧
    shown_at "uptime in min" (timer_show c) = Some [s / 60] ∧
    j = 2 ^ 32 - 300 * HZ c + t ∧ s = (2 ^ 32 + t) / HZ c - 300 ∧ t / HZ c + 49 * 86400 < s.
Proof.
  intros Hz Ht B. change (2 ^ 63) with 9223372036854775808 in Ht. change (2 ^ 32) with 4294967296.
  assert (Ij : INITIAL_JIFFIES (HZ c) = 4294967296 - 300 * HZ c).
  { unfold INITIAL_JIFFIES, u32, wrapu. change (2 ^ 32) with 4294967296. Z.div_mod_to_equations. lia. }
  assert (Ej : u64 (jiffies_64 c) = 4294967296 - 300 * HZ c + t) by (rewrite B, Ij; apply u64_id; lia).
  assert (Es : u64 (jiffies_64 c) / HZ c = (4294967296 + t) / HZ c - 300).
  { rewrite Ej. replace (4294967296 - 300 * HZ c + t) with (4294967296 + t + -300 * HZ c) by lia.
    rewrite Z.div_add by lia. lia. }
  exists (u64 (jiffies_64 c)), (u64 (jiffies_64 c) / HZ c). unfold timer_show, shown_at. cbn -[Z.div].
  split_and!; try done; [by rewrite (u64_id (u64 (jiffies_64 c) + HZ c)) by lia|].
  rewrite Es. assert ((4294967296 + t) / HZ c >= t / HZ c + 4294967296 / HZ c).
  { Z.div_mod_to_equations. nia. }
  assert (4294967296 / HZ c >= 4294967296 / 1000) by (apply Z.le_ge, Z.div_le_compat_l; lia).
  change (4294967296 / 1000) with 4294967 in *. lia.
Qed.

(** ** Witnesses *)

#[export] Program Instance gmap_root : ProcRoot (gmap string proc_ops) := {
  entries p := p;
  proc_create n o p := match p !! n with Some _ => (false, p) | None => (true, <[n := o]> p) end;
  remove_proc_entry n p := delete n p
}.
Next Obligation. intros n o p b p' E. simpl in E. destruct (p !! n) eqn:En; by injection E as <- <-. Qed.
Next Obligation. done. Qed.

Lemma proc_modules_load_unload_witness : ∃ p2 : gmap string proc_ops,
  (simple_init ≫= λ _, simple_exit) (<["simple" := Other_ops 1]> ∅) = Ret (tt, p2) ∧
  p2 = delete "simple" (<["simple" := Other_ops 1]> ∅).
Proof.
  destruct (proc_modules_load_unload (<["simple" := Other_ops 1]> ∅ : gmap string proc_ops) "simple" simple_init simple_exit)
    as (p2 & E & _ & D); [right; left|].
  exists p2. split; [exact E|]. apply D. by exists (Other_ops 1).
Defined.

(** At boot, with 250 ticks per second. *)
Definition boot_clocks : clocks := Clocks 250 4294892296 0 (0, 0) (0, 0) (0, 0) (0, 0) (0, 0) 0 2400000.
Lemma timer_uptime_ahead_witness :
  shown_at "uptime in sec" (timer_show boot_clocks) = Some [17179569] ∧ 49 * 86400 < 17179569.
Proof.
  destruct (timer_uptime_ahead boot_clocks 0) as (j & s & _ & _ & E & _ & _ & -> & L); [simpl; lia|lia|reflexivity|].
  split; [exact E|exact L].
Defined.
