(* ===== verification/BasicMods.v ===== *)
(** The first modules of src/m_modules: basic/hello.c, the module parameters of
    basic/parm1.c, parm2.c and parm3.c, and time/delay.c, rdtsc.c and
    rdtsc_app.c. *)
From Stdlib Require Import ZArith Lia.
From stdpp Require Import base list gmap strings.
From S2P Require Import Prelude Kernel.

(** A line of printk: the words and what is printed under the formats. *)
Inductive arg := AInt (v : Z) | AStr (s : option string).       (* None: (null) *)
Definition line : Type := string * list arg.

(** ** hello.c *)

Definition init_hello : Z * list line := (0, [("Hello, Module.", [])]).
Definition exit_hello : list line := [("Bye, Module.", [])].

(** ** Module parameters

    The kernel sets a parameter from text, when the module is loaded or through
    sysfs; how it reads the text is the interface [ParamOps].  A value it refuses
    leaves the variable as it was; an array takes the values given and keeps the
    rest. *)
Class ParamOps := {
  param_get_int : string → option Z;
  param_get_charp : string → option string;
  param_get_array : nat → string → option (list Z);      (* at most so many ints *)
  param_int_law : ∀ t v, param_get_int t = Some v → -2147483648 <= v <= INT_MAX;
  param_array_law : ∀ n t vs, param_get_array n t = Some vs → (length vs ≤ n)%nat ∧
    Forall (λ v, -2147483648 <= v <= INT_MAX) vs
}.

(** What module_param declares: the type and the mode of the sysfs file. *)
Inductive param_type := PInt | PCharp | PArray (n : nat).
Definition S_IRUSR := 256.
Definition S_IWUSR := 128.
Definition S_IRGRP := 32.
Definition S_IWGRP := 16.
Definition parm1_params : list (string * param_type * Z) :=
  [("a", PInt, Z.lor (Z.lor S_IRUSR S_IWUSR) (Z.lor S_IRGRP S_IWGRP))].
Definition parm2_params : list (string * param_type * Z) :=
  [("a", PInt, Z.lor S_IRUSR S_IWUSR); ("str", PCharp, Z.lor S_IRUSR S_IWUSR)].
Definition parm3_params : list (string * param_type * Z) := [("b", PArray 5, 0)].

(** The variables of the three files. *)
Record vars := Vars { v_a : Z; v_str : option string; v_b : list Z }.
Definition vars0 : vars := Vars 0 None [1; 2; 3; 4; 5].

Section params.
Context `{ParamOps}.

Definition set_param (t : param_type) (text : string) (v : vars) : vars :=
  match t with
  | PInt => match param_get_int text with Some z => Vars z (v_str v) (v_b v) | None => v end
  | PCharp => match param_get_charp text with Some s => Vars (v_a v) (Some s) (v_b v) | None => v end
  | PArray n => match param_get_array n text with
                | Some vs => Vars (v_a v) (v_str v) (vs ++ drop (length vs) (v_b v)) | None => v end
  end.
(** A name that is no parameter of the module sets nothing. *)
Definition set_named (ps : list (string * param_type * Z)) (v : vars) (x : string * string) : vars :=
  match list_find (λ p, p.1.1 = x.1) ps with
  | Some (_, p) => set_param p.1.2 x.2 v
  | None => v
  end.
Definition settings (ps : list (string * param_type * Z)) (xs : list (string * string)) (v : vars) : vars :=
  foldl (set_named ps) v xs.

Definition parm1_init (v : vars) : Z * list line := (0, [("parameter a =", [AInt (v_a v)])]).
Definition parm2_init (v : vars) : Z * list line :=
  (0, [("parameter a =", [AInt (v_a v)]); ("parameter str =", [AStr (v_str v)])]).
(** The five elements; past the array there is nothing to print. *)
Definition parm3_init (v : vars) : outcome (Z * list line) :=
  match v_b v with
  | b0 :: b1 :: b2 :: b3 :: b4 :: _ => Ret (0, [(EmptyString, [AInt b0; AInt b1; AInt b2; AInt b3; AInt b4])])
  | _ => Fault OutOfBounds
  end.

(** The last text given to [n] that [get] can read, or [d]. *)
Definition last_value {A} (get : string → option A) (n : string) (xs : list (string * string)) (d : A) : A :=
  foldl (λ d x, if decide (x.1 = n) then default d (get x.2) else d) d xs.
(** Element [i] of the array: of the last text with that many numbers. *)
Definition last_elem (i : nat) (xs : list (string * string)) (d : Z) : Z :=
  last_value (λ t, vs ← param_get_array 5 t; vs !! i) "b" xs d.

Lemma last_value_cons {A} (get : string → option A) n x xs d :
  last_value get n (x :: xs) d = last_value get n xs (if decide (x.1 = n) then default d (get x.2) else d).
Proof. done. Qed.

Lemma parm1_settings xs v : settings parm1_params xs v = Vars (last_value param_get_int "a" xs (v_a v)) (v_str v) (v_b v).
Proof.
  revert v. induction xs as [|[n t] xs IH]; intros v; [by destruct v|]. unfold settings in *. cbn [foldl]. rewrite IH.
  rewrite !last_value_cons. unfold set_named. simpl. destruct (decide ("a" = n)) as [<-|N].
  - rewrite decide_True by done. simpl. by destruct (param_get_int t).
  - rewrite decide_False by congruence. done.
Qed.

Lemma parm2_settings xs v : settings parm2_params xs v =
  Vars (last_value param_get_int "a" xs (v_a v))
    (last_value (λ t, Some <$> param_get_charp t) "str" xs (v_str v)) (v_b v).
Proof.
  revert v. induction xs as [|[n t] xs IH]; intros v; [by destruct v|]. unfold settings in *. cbn [foldl]. rewrite IH.
  rewrite !last_value_cons. unfold set_named. simpl. destruct (decide ("a" = n)) as [<-|N]; [|destruct (decide ("str" = n)) as [<-|N']].
  - rewrite decide_True, decide_False by done. simpl. by destruct (param_get_int t).
  - rewrite decide_False, decide_True by done. simpl. by destruct (param_get_charp t).
  - rewrite !decide_False by congruence. done.
Qed.

Lemma parm3_settings xs v : length (v_b v) = 5%nat → let w := settings parm3_params xs v in
  length (v_b w) = 5%nat ∧ ∀ i, (i < 5)%nat → v_b w !! i = (λ d, last_elem i xs d) <$> v_b v !! i.
Proof.
  revert v. induction xs as [|[n t] xs IH]; intros v L; simpl.
  { split; [done|]. intros i Hi. destruct (lookup_lt_is_Some_2 (v_b v) i) as [d Ed]; [lia|]. by rewrite Ed. }
  change (settings parm3_params ((n, t) :: xs) v) with (settings parm3_params xs (set_named parm3_params v (n, t))).
  unfold last_elem, last_value. cbn [foldl fst snd].
  assert (St : length (v_b (set_named parm3_params v (n, t))) = 5%nat ∧ ∀ i, (i < 5)%nat →
    v_b (set_named parm3_params v (n, t)) !! i =
      (λ d, if decide (n = "b") then default d (vs ← param_get_array 5 t; vs !! i) else d) <$> v_b v !! i).
  { unfold set_named. simpl. destruct (decide ("b" = n)) as [<-|N].
    - simpl. destruct (param_get_array 5 t) as [vs|] eqn:E; simpl.
      + apply param_array_law in E as [Lv _]. split; [rewrite length_app, length_drop; lia|]. intros i Hi.
        destruct (lookup_lt_is_Some_2 (v_b v) i) as [d Ed]; [lia|]. rewrite Ed. simpl.
        destruct (decide (i < length vs)%nat) as [Hl|Hl].
        * rewrite lookup_app_l by done. by destruct (lookup_lt_is_Some_2 vs i Hl) as [x ->].
        * rewrite lookup_app_r, lookup_drop by lia. rewrite (lookup_ge_None_2 vs) by lia. simpl.
          by replace (length vs + (i - length vs))%nat with i by lia.
      + split; [done|]. intros i Hi. by destruct (v_b v !! i).
    - split; [done|]. intros i Hi. destruct (v_b v !! i); simpl; [|done]. by rewrite decide_False by congruence. }
  destruct St as [L1 E1]. destruct (IH _ L1) as [L2 E2]. split; [done|]. intros i Hi. rewrite E2, E1 by done.
  by destruct (v_b v !! i).
Qed.

(** Whatever texts the parameters were given, in any order and under any names,
    each init function prints the value of the last text for its name that could
    be read, or what the variable is declared with, the string as (null); of a
    shorter array the elements behind it keep their values. *)
Theorem params_print_last xs :
  parm1_init (settings parm1_params xs vars0) =
    (0, [("parameter a =", [AInt (last_value param_get_int "a" xs 0)])]) ∧
  parm2_init (settings parm2_params xs vars0) =
    (0, [("parameter a =", [AInt (last_value param_get_int "a" xs 0)]);
         ("parameter str =", [AStr (last_value (λ t, Some <$> param_get_charp t) "str" xs None)])]) ∧
  parm3_init (settings parm3_params xs vars0) =
    Ret (0, [(EmptyString, AInt <$> [last_elem 0 xs 1; last_elem 1 xs 2; last_elem 2 xs 3; last_elem 3 xs 4; last_elem 4 xs 5])]).
Proof.
  rewrite parm1_settings, parm2_settings. split_and!; [done|done|].
  destruct (parm3_settings xs vars0 eq_refl) as [L E]. unfold parm3_init.
  destruct (v_b (settings parm3_params xs vars0)) as [|b0 [|b1 [|b2 [|b3 [|b4 [|]]]]]]; try discriminate L.
  pose proof (E 0%nat ltac:(lia)) as E0. pose proof (E 1%nat ltac:(lia)) as E1. pose proof (E 2%nat ltac:(lia)) as E2.
  pose proof (E 3%nat ltac:(lia)) as E3. pose proof (E 4%nat ltac:(lia)) as E4. simpl in *. congruence.
Qed.

End params.

(** ** The time-stamp counter

    The instruction leaves two 32-bit halves in eax and edx. *)

(** rdtsc.c: rdtsc() of the kernel joins the halves. *)
Definition rdtsc (eax edx : Z) : Z := Z.lor eax (Z.shiftl edx 32).
Definition m_tsc_init (eax edx : Z) : Z * list line := (0, [("TSC:", [AInt (rdtsc eax edx)])]).

(** rdtsc_app.c takes the macros of the kernel with the test for CONFIG_X86_64.
    With it each half has a variable; without it there is one 64-bit variable
    for the constraint "=A", which on a 32-bit target is the register pair and on
    a 64-bit target one register, [in_edx] says which. *)
Definition EAX_EDX_VAL (config_x86_64 target64 in_edx : bool) (eax edx : Z) : Z :=
  if config_x86_64 then u64 (Z.lor eax (Z.shiftl edx 32))
  else if target64 then (if in_edx then edx else eax) else Z.lor eax (Z.shiftl edx 32).
Definition rdtsc_main (config_x86_64 target64 in_edx : bool) (eax edx : Z) : Z * list line :=
  (0, [("TSC:", [AInt (EAX_EDX_VAL config_x86_64 target64 in_edx eax edx)])]).

Lemma halves_join eax edx : 0 <= eax < 2 ^ 32 → 0 <= edx < 2 ^ 32 → Z.lor eax (Z.shiftl edx 32) = edx * 2 ^ 32 + eax.
Proof.
  intros Ha Hd. assert (D : Z.land eax (Z.shiftl edx 32) = 0).
  { apply Z.bits_inj'. intros i Hi. rewrite Z.land_spec, Z.bits_0. destruct (Z.ltb_spec i 32).
    - rewrite Z.shiftl_spec_low by done. apply andb_false_r.
    - rewrite (Z.bits_above_log2 eax i); [done|lia|].
      destruct (decide (eax = 0)) as [->|]; [simpl; lia|]. apply Z.log2_lt_pow2; [lia|].
      assert (2 ^ 32 <= 2 ^ i) by (apply Z.pow_le_mono_r; lia). lia. }
  rewrite <- Z.lxor_lor, <- Z.add_nocarry_lxor, Z.shiftl_mul_pow2 by done. lia.
Qed.

(** The module prints the whole counter, and so does the program where its
    macros fit the machine; but a program is not compiled with the options of
    the kernel: without CONFIG_X86_64 on a 64-bit target it prints one half,
    which is the counter only while the other half is zero. *)
Theorem rdtsc_app_prints tsc in_edx : 0 <= tsc < 2 ^ 64 →
  let eax := tsc mod 2 ^ 32 in let edx := tsc / 2 ^ 32 in
  m_tsc_init eax edx = (0, [("TSC:", [AInt tsc])]) ∧
  rdtsc_main true true in_edx eax edx = (0, [("TSC:", [AInt tsc])]) ∧
  rdtsc_main false false in_edx eax edx = (0, [("TSC:", [AInt tsc])]) ∧
  (rdtsc_main false true false eax edx = (0, [("TSC:", [AInt tsc])]) ↔ tsc < 2 ^ 32) ∧
  (rdtsc_main false true true eax edx = (0, [("TSC:", [AInt tsc])]) ↔ tsc = 0).
Proof.
  change (2 ^ 64) with 18446744073709551616. change (2 ^ 32) with 4294967296. intros Ht eax edx.
  assert (Ha : 0 <= eax < 4294967296) by (unfold eax; Z.div_mod_to_equations; lia).
  assert (Hd : 0 <= edx < 4294967296) by (unfold edx; Z.div_mod_to_equations; lia).
  assert (J : Z.lor eax (Z.shiftl edx 32) = tsc).
  { rewrite halves_join by done. unfold eax, edx. change (2 ^ 32) with 4294967296. Z.div_mod_to_equations. lia. }
  unfold m_tsc_init, rdtsc_main, rdtsc, EAX_EDX_VAL. rewrite J, u64_id by lia. split_and!; [done|done|done| |].
  - unfold eax. split; [intros [= E]; rewrite <- E; by apply Z.mod_pos_bound|intros; by rewrite Z.mod_small by lia].
  - unfold edx. split; [intros [= E]; Z.div_mod_to_equations; lia|by intros ->].
Qed.

(** ** delay.c

    The wait ends early when a signal is pending; the result, the ticks left, is
    dropped, so loading succeeds however long it waited. *)
Definition delay_init (hz : Z) (schedule_timeout_interruptible : Z → Z) : Z * Z :=
  let left := schedule_timeout_interruptible (10 * hz) in (0, 10 * hz - left).

Lemma delay_init_spec hz sched : (0 <= sched (10 * hz) <= 10 * hz) →
  (delay_init hz sched).1 = 0 ∧ 0 <= (delay_init hz sched).2 <= 10 * hz.
Proof. unfold delay_init. simpl. lia. Qed.

(** ** Runs *)

#[local] Program Instance demo_params : ParamOps := {
  param_get_int t := if decide (t = "7") then Some 7 else None;
  param_get_charp t := Some t;
  param_get_array n t := if decide (t = "9,8") then if (2 <=? n)%nat then Some [9; 8] else None else None
}.
Next Obligation. intros t v E. simpl in E. case_decide; simplify_eq. unfold INT_MAX. lia. Qed.
Next Obligation.
  intros n t vs E. cbn -[Nat.leb] in E. case_decide; [|done]. destruct (2 <=? n)%nat eqn:L; [|done]. apply Nat.leb_le in L. injection E as <-.
  split; [simpl; lia|]. repeat constructor; unfold INT_MAX; lia.
Qed.

Example params_run :
  parm2_init (settings parm2_params [("a", "7"); ("a", "x"); ("b", "9,8")] vars0) =
    (0, [("parameter a =", [AInt 7]); ("parameter str =", [AStr None])]) ∧
  parm3_init (settings parm3_params [("b", "9,8"); ("b", "1,"); ("a", "7")] vars0) =
    Ret (0, [(EmptyString, AInt <$> [9; 8; 3; 4; 5])]).
Proof. by vm_compute. Qed.

Lemma rdtsc_app_prints_witness :
  rdtsc_main true true false 5 1 = (0, [("TSC:", [AInt (2 ^ 32 + 5)])]) ∧
  rdtsc_main false true false 5 1 ≠ (0, [("TSC:", [AInt (2 ^ 32 + 5)])]).
Proof.
  destruct (rdtsc_app_prints (2 ^ 32 + 5) false) as (_ & E & _ & D & _); [lia|].
  split; [exact E|]. intros E'. apply D in E'. lia.
Defined.
