(* ===== verification/ScullDebug.v ===== *)
(** The builds of scull and scullp with SCULL_DEBUG: loading and unloading with
    the /proc entries (src/ldd/scull/main.c, pipe.c, src/ldd/scullp/main.c), whose
    printers ScullProc models. *)
From Stdlib Require Import ZArith Lia.
From stdpp Require Import base list gmap strings.
From S2P Require Import Prelude Kernel ChrReg Scull ScullSpec ScullPipe ScullAccess ScullInit ScullInitThms Scullp ScullpInit ProcEntries.

(** The module's state beside the root of /proc. *)
Record debug (S P : Type) := Debug { db_mod : S; db_proc : P }.
Arguments Debug {S P}.
Arguments db_mod {S P}.
Arguments db_proc {S P}.

(** ** Calls of the module and calls of proc_fs *)

Section lift.
Context {S P : Type} `{ProcRoot P}.
Abbreviation dst := (debug S P).

Definition of_mod {A} (m : M S A) : M dst A := λ d,
  match m (db_mod d) with
  | Ret (a, s) => Ret (a, Debug s (db_proc d))
  | Fault f => Fault f
  end.
Definition create (n : string) (o : proc_ops) : M dst unit := mmodify (λ d, Debug (db_mod d) (proc_create n o (db_proc d)).2).
Definition remove (n : string) : M dst unit := mmodify (λ d, Debug (db_mod d) (remove_proc_entry n (db_proc d))).

(** [erases R m m']: on the module [m] is [m'], and on /proc it is related by [R]. *)
Definition erases {A} (R : gmap string proc_ops → gmap string proc_ops → Prop) (m : M dst A) (m' : M S A) : Prop := ∀ d,
  match m' (db_mod d) with
  | Ret (a, s) => ∃ p, m d = Ret (a, Debug s p) ∧ R (entries (db_proc d)) (entries p)
  | Fault f => m d = Fault f
  end.

Lemma erases_mod {A} (R : relation _) `{!Reflexive R} (m : M S A) : erases R (of_mod m) m.
Proof. intros [s p]. unfold of_mod. simpl. destruct (m s) as [[a s']|f]; eauto. Qed.
Lemma erases_ret {A} (R : relation _) `{!Reflexive R} (a : A) : erases R (mret a) (mret a).
Proof. intros [s p]. by exists p. Qed.
Lemma erases_bind {A B} (R : relation _) `{!Transitive R} (m : M dst A) m' (k : A → M dst B) k' :
  erases R m m' → (∀ a, erases R (k a) (k' a)) → erases R (m ≫= k) (m' ≫= k').
Proof.
  intros Hm Hk d. specialize (Hm d). unfold mbind, M_bind. destruct (m' (db_mod d)) as [[a s]|f]; [|by rewrite Hm].
  destruct Hm as (p & -> & R1). specialize (Hk a (Debug s p)). simpl in Hk.
  destruct (k' a s) as [[b s']|f]; [|done]. destruct Hk as (p' & -> & R2). exists p'. split; [done|]. by etrans.
Qed.
(** A call of proc_fs is nothing to the module. *)
Lemma erases_proc {A} (R : relation _) `{!Transitive R} (f : P → P) (k : unit → M dst A) k' :
  (∀ p, R (entries p) (entries (f p))) → erases R (k tt) k' →
  erases R (mmodify (λ d, Debug (db_mod d) (f (db_proc d))) ≫= k) k'.
Proof.
  intros Hf Hk d. unfold mbind, M_bind, mmodify. specialize (Hk (Debug (db_mod d) (f (db_proc d)))). cbn [db_mod db_proc] in Hk.
  destruct (k' (db_mod d)) as [[a s]|e]; [|done]. destruct Hk as (p & -> & R1). exists p. split; [done|]. etrans; [apply Hf|done].
Qed.

Lemma erases_assoc {A B C} R (m : M dst A) (k : A → M dst B) (k2 : B → M dst C) m' :
  erases R (m ≫= λ a, k a ≫= k2) m' → erases R ((m ≫= k) ≫= k2) m'.
Proof. intros E d. specialize (E d). unfold mbind, M_bind in *. by destruct (m d) as [[a d']|f]. Qed.
Lemma erases_ext {A} R (m : M dst A) (m1 m2 : M S A) : (∀ s, m1 s = m2 s) → erases R m m1 → erases R m m2.
Proof. intros E Em d. rewrite <- E. apply Em. Qed.

(** Entries of other names stay. *)
Definition others (ns : list string) (e e' : gmap string proc_ops) : Prop := ∀ n, n ∉ ns → e' !! n = e !! n.
#[export] Instance others_refl ns : Reflexive (others ns).
Proof. by intros e n. Qed.
#[export] Instance others_trans ns : Transitive (others ns).
Proof. intros e1 e2 e3 H1 H2 n Hn. by rewrite (H2 n Hn), (H1 n Hn). Qed.
Lemma others_create ns n o (p : P) : n ∈ ns → others ns (entries p) (entries (proc_create n o p).2).
Proof.
  intros Hn k Hk. destruct (proc_create n o p) as [b p'] eqn:E. apply proc_create_law in E. simpl.
  destruct b; [|by rewrite E]. destruct E as [_ ->]. rewrite lookup_insert_ne; [done|]. by intros ->.
Qed.
Lemma others_remove ns n (p : P) : n ∈ ns → others ns (entries p) (entries (remove_proc_entry n p)).
Proof. intros Hn k Hk. rewrite remove_entry_law, lookup_delete_ne; [done|]. by intros ->. Qed.
Lemma erases_create {A} ns n o (k : unit → M dst A) k' : n ∈ ns →
  erases (others ns) (k tt) k' → erases (others ns) (create n o ≫= k) k'.
Proof. intros Hn Ek. apply (erases_proc (others ns) (λ p, (proc_create n o p).2)); [|done]. intros p. by apply others_create. Qed.
Lemma erases_remove {A} ns n (k : unit → M dst A) k' : n ∈ ns →
  erases (others ns) (k tt) k' → erases (others ns) (remove n ≫= k) k'.
Proof. intros Hn Ek. apply (erases_proc (others ns) (remove_proc_entry n)); [|done]. intros p. by apply others_remove. Qed.

Lemma of_mod_proc {A} (m : M S A) (d d' : dst) a : of_mod m d = Ret (a, d') → db_proc d' = db_proc d.
Proof. unfold of_mod. destruct (m (db_mod d)) as [[a1 s]|f]; by intros [= <- <-]. Qed.
Lemma of_mod_run {A} (m : M S A) (d : dst) a s : m (db_mod d) = Ret (a, s) → of_mod m d = Ret (a, Debug s (db_proc d)).
Proof. intros E. unfold of_mod. by rewrite E. Qed.
End lift.

Ltac erase_step :=
  match goal with
  | |- erases _ (of_mod _) _ => apply erases_mod; apply _
  | |- erases _ (mret _) _ => apply erases_ret; apply _
  | |- erases _ ((_ ≫= _) ≫= _) _ => apply erases_assoc
  | |- erases _ (create _ _ ≫= _) _ => apply erases_create; [by apply (bool_decide_unpack _)|]
  | |- erases _ (remove _ ≫= _) _ => apply erases_remove; [by apply (bool_decide_unpack _)|]
  | |- erases _ (of_mod _ ≫= _) _ => apply erases_bind; [apply _|apply erases_mod; apply _|intros ?]
  | |- erases _ (if ?b then _ else _) _ => destruct b
  | |- erases _ (match ?x with _ => _ end) _ => destruct x
  end; cbv beta zeta.

(** ** scull *)

Section scull.
Context {H R P : Type} `{KernelHeap H} `{ChrDevs R} `{ScullSizes} `{ProcRoot P}.
Abbreviation st := (debug (mod_st H R) P).
Implicit Types d : st.

Definition scull_create_proc : M st unit := create "scullmem" Scullmem_ops ≫= λ _, create "scullseq" Scullseq_ops.
Definition scull_remove_proc : M st unit := remove "scullmem" ≫= λ _, remove "scullseq".

Definition scull_p_init (firstdev : Z) : M st Z :=
  s ← of_mod mget;
  let n := m_p_nr_devs s in
  result ← of_mod (m_call (register_chrdev_region firstdev n));
  if result <? 0 then mret 0 else
  of_mod (mmodify (λ s, set_pipes firstdev (m_p_devices s) s)) ≫= λ _,
  p ← of_mod (m_kmalloc (n * sizeof_scull_pipe));
  match p with
  | None =>
      of_mod (mmodify (λ s, set_pipes (m_p_devno s) None s)) ≫= λ _,
      of_mod (m_unregister firstdev n) ≫= λ _, mret 0
  | Some l =>
      of_mod (mmodify (λ s, set_pipes (m_p_devno s) (Some (l, replicate (Z.to_nat n) pipe0)) s)) ≫= λ _,
      of_mod (mfor 0 (Z.to_nat n) scull_p_setup_cdev) ≫= λ _,
      create "scullpipe" Scullpipe_ops ≫= λ _, mret n
  end.

(** The entry goes before the pipes. *)
Definition scull_p_cleanup : M st unit :=
  remove "scullpipe" ≫= λ _, of_mod ScullInit.scull_p_cleanup.

(** The part of scull_cleanup_module before the entries go. *)
Definition free_devices : M (mod_st H R) unit :=
  s ← mget;
  match m_devices s with
  | None => mret tt
  | Some (l, devs) =>
      mfor 0 (Z.to_nat (m_nr_devs s)) (λ i,
        match devs !! i with
        | None => mfault OutOfBounds
        | Some d => m_trim d ≫= λ _, m_cdev_del (CScull i)
        end) ≫= λ _,
      m_kfree l
  end.
(** What follows: the entries of main.c, the device numbers, the friends. *)
Definition cleanup_rest (s : mod_st H R) : M st unit :=
  scull_remove_proc ≫= λ _,
  of_mod (m_unregister (MKDEV (m_major s) (m_minor s)) (m_nr_devs s)) ≫= λ _,
  scull_p_cleanup ≫= λ _,
  of_mod scull_access_cleanup.
Definition scull_cleanup_module : M st unit :=
  s ← of_mod mget;
  of_mod free_devices ≫= λ _, cleanup_rest s.

Definition scull_init_module : M st Z :=
  '(result, _) ← of_mod scull_get_region;
  if result <? 0 then mret result else
  s ← of_mod mget;
  let n := m_nr_devs s in
  p ← of_mod (m_kmalloc (n * sizeof_scull_dev));
  match p with
  | None =>
      of_mod (mmodify (λ s, set_main (m_major s) None s)) ≫= λ _,
      scull_cleanup_module ≫= λ _, mret (- ENOMEM)
  | Some l =>
      of_mod (mmodify (λ s, set_main (m_major s)
        (Some (l, replicate (Z.to_nat n) (with_geometry (m_params s) zero_dev))) s)) ≫= λ _,
      of_mod (mfor 0 (Z.to_nat n) scull_setup_cdev) ≫= λ _,
      s ← of_mod mget;
      let dev := MKDEV (m_major s) (m_minor s + n) in
      k ← scull_p_init dev;
      of_mod (scull_access_init (dev + k)) ≫= λ _,
      scull_create_proc ≫= λ _,
      mret 0
  end.

(** *** The entries are nothing to the module *)

Definition scull_names : list string := ["scullmem"; "scullseq"; "scullpipe"].

Lemma p_init_erases first : erases (others scull_names) (scull_p_init first) (ScullInit.scull_p_init first).
Proof. unfold scull_p_init, ScullInit.scull_p_init. repeat erase_step. Qed.
Lemma p_cleanup_erases : erases (others scull_names) scull_p_cleanup ScullInit.scull_p_cleanup.
Proof. unfold scull_p_cleanup. repeat erase_step. Qed.
Lemma cleanup_split (s : mod_st H R) : (s ← mget; free_devices ≫= λ _,
    m_unregister (MKDEV (m_major s) (m_minor s)) (m_nr_devs s) ≫= λ _,
    ScullInit.scull_p_cleanup ≫= λ _, scull_access_cleanup) s = ScullInit.scull_cleanup_module s.
Proof. done. Qed.
Lemma cleanup_erases : erases (others scull_names) scull_cleanup_module ScullInit.scull_cleanup_module.
Proof.
  eapply erases_ext; [apply cleanup_split|]. unfold scull_cleanup_module, cleanup_rest, scull_remove_proc. repeat erase_step.
  apply erases_bind; [apply _|apply p_cleanup_erases|intros []]. repeat erase_step.
Qed.
Lemma init_erases : erases (others scull_names) scull_init_module ScullInit.scull_init_module.
Proof.
  unfold scull_init_module, ScullInit.scull_init_module, scull_create_proc. repeat erase_step.
  - apply erases_bind; [apply _|apply p_init_erases|intros k]. repeat erase_step.
  - apply erases_bind; [apply _|apply cleanup_erases|intros []]. repeat erase_step.
Qed.

(** *** What becomes of the entries *)

Lemma cleanup_entries d d' : scull_cleanup_module d = Ret (tt, d') →
  entries (db_proc d') = delete "scullpipe" (delete "scullseq" (delete "scullmem" (entries (db_proc d)))).
Proof.
  intros E. apply bind_inv in E as (s & d1 & E1%of_mod_proc & E). apply bind_inv in E as ([] & d2 & E2%of_mod_proc & E).
  apply bind_inv in E as ([] & d3 & [= <-] & E). apply bind_inv in E as ([] & d4 & E4%of_mod_proc & E).
  apply bind_inv in E as ([] & d5 & E5 & E6%of_mod_proc). unfold scull_p_cleanup in E5. apply bind_inv in E5 as ([] & d6 & [= <-] & E5%of_mod_proc).
  rewrite E6, E5. cbn [db_proc]. rewrite remove_entry_law, E4. cbn [db_proc]. by rewrite !remove_entry_law, E2, E1.
Qed.

(** A refusal of the device numbers is the only error when memory is there. *)
Lemma init_refused s l r s1 : (kmalloc (u64 (m_nr_devs s * sizeof_scull_dev)) (m_heap s)).1 = Some l →
  ScullInit.scull_init_module s = Ret (r, s1) → r < 0 → ∃ dev s0, scull_get_region s = Ret ((r, dev), s0) ∧ r < 0.
Proof.
  intros Hk E Hr. unfold ScullInit.scull_init_module in E. apply bind_inv in E as ([z dev] & s0 & E0 & E).
  destruct (Z.ltb_spec z 0) as [Hz|Hz]; [injection E as -> ->; eauto|]. exfalso.
  apply bind_inv in E as (s2 & s3 & [= -> ->] & E). apply bind_inv in E as (p & s4 & E4 & E).
  pose proof (wp_run _ _ _ _ _ (get_region_wp s) E0) as (g & Es & _). rewrite Es in E4. unfold m_kmalloc in E4. cbn in E4.
  destruct (kmalloc _ (m_heap s)) as [q h] eqn:Ek. cbn [fst] in Hk. subst q. injection E4 as <- <-.
  repeat (apply bind_inv in E as (? & ? & _ & E)). injection E as <- _. lia.
Qed.

(** With SCULL_DEBUG the module loads and unloads as without, and when its
    names were free in /proc, it leaves the directory as it was: if the device
    numbers are refused, and when it is unloaded after every access device was
    set up, which also restores the heap and the registry.  The results of
    proc_create are not looked at, so an entry may be missing in between. *)
Theorem scull_debug_load_unload d l : unloaded (db_mod d) →
  (kmalloc (u64 (m_nr_devs (db_mod d) * sizeof_scull_dev)) (m_heap (db_mod d))).1 = Some l →
  (∀ n, n ∈ scull_names → entries (db_proc d) !! n = None) →
  ∃ r d1, scull_init_module d = Ret (r, d1) ∧ ScullInit.scull_init_module (db_mod d) = Ret (r, db_mod d1) ∧
    others scull_names (entries (db_proc d)) (entries (db_proc d1)) ∧
    (r < 0 → entries (db_proc d1) = entries (db_proc d)) ∧
    (0 <= r → (∀ i, (i < 4)%nat → CAccess i ∈ m_cdevs (db_mod d1)) →
      ∃ d2, scull_cleanup_module d1 = Ret (tt, d2) ∧ entries (db_proc d2) = entries (db_proc d) ∧
        live (m_heap (db_mod d2)) = live (m_heap (db_mod d)) ∧
        reg_devs (m_reg (db_mod d2)) = reg_devs (m_reg (db_mod d)) ∧
        reg_cdevs (m_reg (db_mod d2)) = reg_cdevs (m_reg (db_mod d))).
Proof.
  intros W Hk Hfree. destruct (wp_elim _ _ _ (init_wp _ l W Hk)) as (r & s1 & E & B).
  pose proof (init_erases d) as Er. rewrite E in Er. destruct Er as (p & Ed & O).
  exists r, (Debug s1 p). split; [done|]. split; [done|]. split; [done|]. split.
  - intros Hr. destruct (init_refused _ l r s1 Hk E Hr) as (dev & s0 & Eg & _). unfold scull_init_module in Ed.
    rewrite (bind_run _ _ _ _ _ (of_mod_run _ _ _ _ Eg)), (proj2 (Z.ltb_lt r 0) Hr) in Ed. by injection Ed as _ <-.
  - intros Hr Ha. destruct B as [[? _]|[_ B]]; [lia|]. destruct (unload_restores _ _ W B Ha) as (s2 & E2 & L).
    pose proof (cleanup_erases (Debug s1 p)) as Ec. simpl in Ec. rewrite E2 in Ec. destruct Ec as (p2 & Ec & _).
    exists (Debug s2 p2). split; [exact Ec|]. split; [|exact L]. rewrite (cleanup_entries _ _ Ec). cbn [db_proc].
    apply map_eq. intros n. destruct (decide (n ∈ scull_names)) as [Hn|Hn].
    + rewrite (Hfree n Hn). unfold scull_names in Hn. rewrite !elem_of_cons, elem_of_nil in Hn.
      destruct_or! Hn; try done; subst n; rewrite ?lookup_delete_ne, ?lookup_delete_eq by done;
        repeat (rewrite lookup_delete_ne by done); by rewrite ?lookup_delete_eq.
    + unfold scull_names in *. rewrite !not_elem_of_cons in Hn. rewrite !lookup_delete_ne by naive_solver. apply O.
      unfold scull_names. rewrite !not_elem_of_cons. naive_solver.
Qed.

(** *** The order of unloading *)

(** scull_cleanup_module, its helpers expanded, as a list of statements; [s] is
    the state it starts in, whose device numbers it computes first. *)
Definition cleanup_stmts (s : mod_st H R) : list (M st unit) :=
  [of_mod free_devices; remove "scullmem"; remove "scullseq";
   of_mod (m_unregister (MKDEV (m_major s) (m_minor s)) (m_nr_devs s));
   remove "scullpipe"; of_mod ScullInit.scull_p_cleanup; of_mod scull_access_cleanup].

(** The state after each of a list of statements. *)
Lemma stmts_run (ms : list (M st unit)) (D : nat → st) : (∀ i m, ms !! i = Some m → m (D i) = Ret (tt, D (S i))) →
  ∀ k, (k ≤ length ms)%nat → mforeach (take k ms) (λ m, m) (D 0%nat) = Ret (tt, D k).
Proof.
  revert D. induction ms as [|m ms IH]; intros D HD k Hk; destruct k as [|k]; try done; simpl in *; [lia|].
  rewrite (bind_run _ _ _ _ _ (HD 0%nat m eq_refl)). apply (IH (λ i, D (S i))); [|lia]. intros i. apply (HD (S i)).
Qed.

Lemma cleanup_flat (m1 m2 m3 m4 m5 m6 m7 : M st unit) d :
  (m1 ≫= λ _, (m2 ≫= λ _, m3) ≫= λ _, m4 ≫= λ _, (m5 ≫= λ _, m6) ≫= λ _, m7) d =
  mforeach [m1; m2; m3; m4; m5; m6; m7] (λ m, m) d.
Proof. cbn [mforeach]. unfold mbind, M_bind, mret, M_ret. by repeat match goal with u : unit |- _ => destruct u | _ => case_match; simplify_eq/= end. Qed.

(** Blocks and cdevs a part does not release stay. *)
Lemma released_locs ls cs ds ks (s s' : mod_st H R) : released ls cs ds s s' → NoDup (ls ++ ks) →
  (∀ l, l ∈ ks → l ∈ live (m_heap s)) → ∀ l, l ∈ ks → l ∈ live (m_heap s').
Proof.
  intros Rl N Hk l Hl. apply NoDup_app in N as (_ & N & _). rewrite (re_live _ _ _ _ _ Rl), elem_of_difference, elem_of_list_to_set.
  split; [by apply Hk|]. intros Hl'. by apply (N l).
Qed.
Lemma released_cdevs ls cs ds ks (s s' : mod_st H R) : released ls cs ds s s' → NoDup (cs ++ ks) →
  (∀ c, c ∈ ks → c ∈ m_cdevs s) → ∀ c, c ∈ ks → c ∈ m_cdevs s'.
Proof.
  intros Rl N Hk c Hc. apply NoDup_app in N as (_ & N & _). rewrite (re_cdevs _ _ _ _ _ Rl), elem_of_difference, elem_of_list_to_set.
  split; [by apply Hk|]. intros Hc'. by apply (N c).
Qed.

(** The module's part of unloading, one statement after the other. *)
Lemma cleanup_states s0 : loaded s0 → ∃ s1 s2 s3 s4,
  free_devices s0 = Ret (tt, s1) ∧ frame s0 s1 ∧ released (main_locs s0) (main_cdevs s0) ∅ s0 s1 ∧
  m_unregister (MKDEV (m_major s0) (m_minor s0)) (m_nr_devs s0) s1 = Ret (tt, s2) ∧ frame s0 s2 ∧ m_heap s2 = m_heap s1 ∧
  ScullInit.scull_p_cleanup s2 = Ret (tt, s3) ∧ released (pipe_locs s0) (pipe_cdevs s0) (pipe_range s0) s2 s3 ∧
  scull_access_cleanup s3 = Ret (tt, s4) ∧ released (access_locs s0) access_cdevs (access_range s0) s3 s4.
Proof.
  intros W. pose proof (lo_nodup _ W) as N. pose proof (mod_cdevs_nodup s0) as Nc. unfold mod_locs, mod_cdevs in N, Nc.
  assert (Hl : ∀ l, l ∈ main_locs s0 ++ pipe_locs s0 ++ access_locs s0 → l ∈ live (m_heap s0)) by exact (lo_owns _ W).
  assert (Hc : ∀ c, c ∈ main_cdevs s0 ++ pipe_cdevs s0 ++ access_cdevs → c ∈ m_cdevs s0) by exact (lo_cdevs _ W).
  pose proof (proj1 (NoDup_app _ _) N) as (N1 & _ & N23). pose proof (proj1 (NoDup_app _ _) Nc) as (C1 & _ & C23).
  pose proof (proj1 (NoDup_app _ _) N23) as (N2 & _ & N3). pose proof (proj1 (NoDup_app _ _) C23) as (C2 & _ & C3).
  destruct (wp_elim _ _ _ (releases_main s0 W s0 (frame_refl s0) N1 C1 (λ l Il, Hl l (proj2 (elem_of_app _ _ _) (or_introl Il)))
    (λ c Ic, Hc c (proj2 (elem_of_app _ _ _) (or_introl Ic))))) as ([] & s1 & E1 & F1 & R1).
  pose proof (released_locs _ _ _ _ _ _ R1 N (λ l Il, Hl l (proj2 (elem_of_app _ _ _) (or_intror Il)))) as L1.
  pose proof (released_cdevs _ _ _ _ _ _ R1 Nc (λ c Ic, Hc c (proj2 (elem_of_app _ _ _) (or_intror Ic)))) as K1.
  set (s2 := set_kernel (m_cdevs s1) (m_heap s1) (unregister_chrdev_region (MKDEV (m_major s0) (m_minor s0)) (m_nr_devs s0) (m_reg s1)) s1).
  assert (F2 : frame s0 s2) by by apply frame_kernel.
  destruct (wp_elim _ _ _ (releases_pipes s0 W s2 F2 N2 C2 (λ l Il, L1 l (proj2 (elem_of_app _ _ _) (or_introl Il)))
    (λ c Ic, K1 c (proj2 (elem_of_app _ _ _) (or_introl Ic))))) as ([] & s3 & E3 & F3 & R3).
  pose proof (released_locs _ _ _ _ _ _ R3 N23 (λ l Il, L1 l (proj2 (elem_of_app _ _ _) (or_intror Il)))) as L3.
  pose proof (released_cdevs _ _ _ _ _ _ R3 C23 (λ c Ic, K1 c (proj2 (elem_of_app _ _ _) (or_intror Ic)))) as K3.
  destruct (wp_elim _ _ _ (releases_access s0 W s3 F3 N3 C3 L3 K3)) as ([] & s4 & E4 & _ & R4).
  exists s1, s2, s3, s4. by split_and!.
Qed.

(** C11: a module that is loaded with its entries in /proc unloads in seven
    statements, and all three entries are gone at the end.  The order of the
    first ones is wrong: scull_devices is freed by the first statement, but
    scullmem stays until the second has run and scullseq until the third, and the
    pointer still points to the freed block: who opens them then reads freed
    memory.  pipe.c has the order right: its entry is gone before the pipes'
    block is freed. *)
Theorem scull_debug_unload_order d l devs lp pipes : loaded (db_mod d) →
  m_devices (db_mod d) = Some (l, devs) → m_p_devices (db_mod d) = Some (lp, pipes) →
  (∀ n, n ∈ scull_names → is_Some (entries (db_proc d) !! n)) →
  let stmts := cleanup_stmts (db_mod d) in
  scull_cleanup_module d = mforeach stmts (λ m, m) d ∧
  ∀ k, (k ≤ length stmts)%nat → ∃ dk, mforeach (take k stmts) (λ m, m) d = Ret (tt, dk) ∧
    (is_Some (entries (db_proc dk) !! "scullmem") ↔ (k < 2)%nat) ∧
    (is_Some (entries (db_proc dk) !! "scullseq") ↔ (k < 3)%nat) ∧
    (l ∈ live (m_heap (db_mod dk)) ↔ (k < 1)%nat) ∧
    (is_Some (entries (db_proc dk) !! "scullpipe") ↔ (k < 5)%nat) ∧
    (lp ∈ live (m_heap (db_mod dk)) ↔ (k < 6)%nat) ∧
    ((k < 6)%nat → m_devices (db_mod dk) = Some (l, devs) ∧ m_p_devices (db_mod dk) = Some (lp, pipes)).
Proof.
  intros W Em Ep Hn stmts. split.
  { unfold scull_cleanup_module. rewrite (bind_run (of_mod mget) _ d d (db_mod d)) by by destruct d. apply cleanup_flat. }
  destruct (cleanup_states _ W) as (s1 & s2 & s3 & s4 & E1 & F1 & R1 & E2 & F2 & Eh & E3 & R3 & E4 & R4).
  set (p0 := db_proc d). set (p1 := remove_proc_entry "scullmem" p0). set (p2 := remove_proc_entry "scullseq" p1).
  set (p3 := remove_proc_entry "scullpipe" p2).
  set (D := λ k, match k with
    | 0 => d | 1 => Debug s1 p0 | 2 => Debug s1 p1 | 3 => Debug s1 p2 | 4 => Debug s2 p2 | 5 => Debug s2 p3
    | 6 => Debug s3 p3 | _ => Debug s4 p3 end%nat).
  assert (HD : ∀ i m, stmts !! i = Some m → m (D i) = Ret (tt, D (S i))).
  { intros i m Hi. do 7 (destruct i as [|i]; [injection Hi as <-; first [reflexivity|by apply of_mod_run]|]). done. }
  assert (Hl : l ∈ main_locs (db_mod d)) by (unfold main_locs; rewrite Em; apply elem_of_app; right; by left).
  assert (Hp : lp ∈ pipe_locs (db_mod d)) by (unfold pipe_locs; rewrite Ep; apply elem_of_app; right; by left).
  pose proof (released_locs _ _ _ _ _ _ R1 (lo_nodup _ W)
    (λ x Ix, lo_owns _ W x (proj2 (elem_of_app _ _ _) (or_intror Ix))) lp (proj2 (elem_of_app _ _ _) (or_introl Hp))) as B1.
  pose proof (lo_owns _ W l (proj2 (elem_of_app _ _ _) (or_introl Hl))) as A0.
  pose proof (lo_owns _ W lp (proj2 (elem_of_app _ _ _) (or_intror (proj2 (elem_of_app _ _ _) (or_introl Hp))))) as B0.
  pose proof (re_live _ _ _ _ _ R1) as L1. pose proof (re_live _ _ _ _ _ R3) as L3. pose proof (re_live _ _ _ _ _ R4) as L4.
  rewrite Eh in L3. apply (elem_of_list_to_set (C := gset loc)) in Hl, Hp.
  assert (A1 : l ∉ live (m_heap s1)) by (rewrite L1; clear -Hl; set_solver).
  assert (A3 : l ∉ live (m_heap s3)) by (rewrite L3; clear -A1; set_solver).
  assert (A4 : l ∉ live (m_heap s4)) by (rewrite L4; clear -A3; set_solver).
  assert (B3 : lp ∉ live (m_heap s3)) by (rewrite L3; clear -Hp; set_solver).
  assert (B4 : lp ∉ live (m_heap s4)) by (rewrite L4; clear -B3; set_solver).
  assert (Pt : ∀ s, frame (db_mod d) s → m_devices s = Some (l, devs) ∧ m_p_devices s = Some (lp, pipes)) by (by intros s (c & h & r & ->)).
  pose proof (Hn "scullmem" ltac:(by apply (bool_decide_unpack _))) as N1.
  pose proof (Hn "scullseq" ltac:(by apply (bool_decide_unpack _))) as N2.
  pose proof (Hn "scullpipe" ltac:(by apply (bool_decide_unpack _))) as N3.
  assert (En : ∀ n m (q : P), entries (remove_proc_entry m q) !! n = if decide (n = m) then None else entries q !! n).
  { intros n m q. rewrite remove_entry_law. case_decide; [subst; apply lookup_delete_eq|by apply lookup_delete_ne]. }
  intros k Hk. exists (D k). split; [by apply (stmts_run stmts D HD)|]. clear HD.
  assert (Y : ∀ A B : Prop, A → B → (A ↔ B)) by by split. assert (No : ∀ A B : Prop, ¬ A → ¬ B → (A ↔ B)) by by split.
  do 8 (destruct k as [|k]; [unfold D, p3, p2, p1, p0; cbn [db_mod db_proc]; rewrite ?En, ?Eh; cbn;
    split_and!; first [apply Y; [done|lia]|apply No; [by first [done|intros [? [=]]]|lia]|intros _; by first [done|apply Pt]|lia]|]).
  simpl in Hk. lia.
Qed.

End scull.

(** ** scullp *)

Section scullp.
Context {H R P : Type} `{PageAlloc H} `{ChrDevs R} `{ScullpSizes} `{ProcRoot P}.
Abbreviation st := (debug (pmod_st H R) P).
Implicit Types d : st.

Definition scullp_init : M st Z :=
  '(result, dev) ← of_mod scullp_get_region;
  if result <? 0 then mret result else
  s ← of_mod mget;
  let n := pm_nr s in
  p ← of_mod (pm_kmalloc (n * sizeof_scullp_dev));
  match p with
  | None =>
      of_mod (mmodify (λ s, pset_main (pm_major s) None s)) ≫= λ _,
      of_mod (pm_call (λ r, (tt, unregister_chrdev_region dev n r))) ≫= λ _, mret (- ENOMEM)
  | Some l =>
      of_mod (mmodify (λ s, pset_main (pm_major s)
        (Some (l, replicate (Z.to_nat n) (fresh_pdev (pm_params s)))) s)) ≫= λ _,
      of_mod (mfor 0 (Z.to_nat n) scullp_setup_cdev) ≫= λ _,
      create "scullpmem" Scullpmem_ops ≫= λ _,
      mret 0
  end.
(** The entry goes before the devices. *)
Definition scullp_cleanup : M st unit := remove "scullpmem" ≫= λ _, of_mod ScullpInit.scullp_cleanup.

Lemma scullp_init_erases : erases (others ["scullpmem"]) scullp_init ScullpInit.scullp_init.
Proof. unfold scullp_init, ScullpInit.scullp_init. repeat erase_step. Qed.
Lemma scullp_cleanup_erases : erases (others ["scullpmem"]) scullp_cleanup ScullpInit.scullp_cleanup.
Proof. unfold scullp_cleanup. repeat erase_step. Qed.

(** scullp with its /proc entry: loading ends as without the entry, and when the
    name was free unloading a module that was loaded restores the directory, the
    heap, the device numbers and the cdevs. *)
Theorem scullp_debug_load_unload d : pm_unloaded (db_mod d) → entries (db_proc d) !! "scullpmem" = None →
  ∃ r d1, scullp_init d = Ret (r, d1) ∧ ScullpInit.scullp_init (db_mod d) = Ret (r, db_mod d1) ∧
    (r < 0 ∧ pm_restored (db_mod d) (db_mod d1) ∨
     r = 0 ∧ ∃ d2, scullp_cleanup d1 = Ret (tt, d2) ∧ pm_restored (db_mod d) (db_mod d2) ∧
       entries (db_proc d2) = entries (db_proc d)).
Proof.
  intros U Hf. destruct (wp_elim _ _ _ (scullp_load_unload _ U)) as (r & s1 & E & B).
  pose proof (scullp_init_erases d) as Ei. rewrite E in Ei. destruct Ei as (p1 & Ed & O1).
  exists r, (Debug s1 p1). split; [done|]. split; [done|]. destruct B as [B|(-> & _ & B)]; [by left|right]. split; [done|].
  destruct (wp_elim _ _ _ B) as ([] & s2 & E2 & R2). pose proof (scullp_cleanup_erases (Debug s1 p1)) as Ec. simpl in Ec.
  rewrite E2 in Ec. destruct Ec as (p2 & Ec & O2). exists (Debug s2 p2). split; [done|]. split; [done|]. cbn [db_proc] in *.
  apply map_eq. intros n. destruct (decide (n = "scullpmem")) as [->|Hn].
  - rewrite Hf. unfold scullp_cleanup in Ec. apply bind_inv in Ec as ([] & d3 & [= <-] & Ec%of_mod_proc). cbn [db_proc] in Ec.
    by rewrite Ec, remove_entry_law, lookup_delete_eq.
  - rewrite (O2 n), (O1 n); [done|..]; by rewrite list_elem_of_singleton.
Qed.
End scullp.

(** ** Witnesses *)

Section examples.
#[local] Existing Instance creg_chrdevs.
#[local] Instance debug_sizes : ScullSizes := {| sizeof_scull_dev := 200; sizeof_scull_pipe := 300 |}.
#[local] Instance debug_psizes : ScullpSizes := {| sizeof_scullp_dev := 200 |}.
Definition no_entries : gmap string proc_ops := ∅.

Lemma scull_debug_load_unload_witness :
  ∃ r d1, scull_init_module (Debug (fresh_module [] ∅) no_entries) = Ret (r, d1) ∧
    dom (entries (db_proc d1)) = {["scullmem"; "scullseq"; "scullpipe"]} ∧ r = 0 ∧
    ∃ d2, scull_cleanup_module d1 = Ret (tt, d2) ∧ entries (db_proc d2) = ∅.
Proof.
  destruct (scull_debug_load_unload (Debug (fresh_module [] ∅) no_entries) 1%positive (fresh_unloaded _ _)) as (r & d1 & E & _ & _ & _ & U);
    [by vm_compute|done|].
  assert (Ev : match scull_init_module (Debug (fresh_module [] ∅) no_entries) with
    | Ret (r, d) => (r =? 0) && bool_decide (dom (entries (db_proc d)) = {["scullmem"; "scullseq"; "scullpipe"]}) &&
        bool_decide (list_to_set (CAccess <$> seq 0 4) ⊆ m_cdevs (db_mod d)) | _ => false end = true) by by vm_compute.
  rewrite E in Ev. apply andb_true_iff in Ev as [[Er%Z.eqb_eq Ep%bool_decide_eq_true]%andb_true_iff Ea%bool_decide_eq_true].
  exists r, d1. split; [exact E|]. split; [exact Ep|]. split; [exact Er|]. clear E Ep.
  destruct U as (d2 & E2 & P2 & _).
  - rewrite Er. apply Z.le_refl.
  - intros i Hi. apply Ea, elem_of_list_to_set, list_elem_of_fmap. exists i. split; [reflexivity|]. apply elem_of_seq. lia.
  - exists d2. split; [exact E2|exact P2].
Defined.

(** Three names present, whatever their methods. *)
Definition all_entries : gmap string proc_ops :=
  <["scullmem" := Scullmem_ops]> (<["scullseq" := Scullseq_ops]> {["scullpipe" := Scullpipe_ops]}).
Lemma scull_debug_unload_order_witness :
  ∃ d2, mforeach (take 2 (cleanup_stmts demo_loaded)) (λ m, m) (Debug demo_loaded all_entries) = Ret (tt, d2) ∧
    is_Some (entries (db_proc d2) !! "scullseq") ∧ (1%positive ∉ live (m_heap (db_mod d2))).
Proof.
  destruct (scull_debug_unload_order (Debug demo_loaded all_entries) 1%positive _ _ _ demo_is_loaded eq_refl eq_refl)
    as [_ D].
  - intros n Hn. unfold scull_names in Hn. rewrite !elem_of_cons, elem_of_nil in Hn.
    destruct_or! Hn; try done; subst n; eexists; vm_compute; reflexivity.
  - destruct (D 2%nat) as (d2 & E & _ & S & L & _); [simpl; lia|]. exists d2. split; [exact E|]. split; [apply S; lia|].
    intros Hl. apply L in Hl. lia.
Defined.

Lemma scullp_debug_load_unload_witness :
  ∃ d1, scullp_init (Debug (pmod0 []) no_entries) = Ret (0, d1) ∧
    ∃ d2, scullp_cleanup d1 = Ret (tt, d2) ∧ entries (db_proc d2) = ∅.
Proof.
  destruct (scullp_debug_load_unload (Debug (pmod0 []) no_entries) (pmod0_unloaded [])) as (r & d1 & E & E' & B); [by vm_compute|].
  assert (Er : 0 <= r). { assert (V : match ScullpInit.scullp_init (pmod0 []) with Ret (r, _) => 0 <=? r | _ => false end = true) by by vm_compute.
    cbn [db_mod] in E'. rewrite E' in V. by apply Z.leb_le. }
  destruct B as [[? _]|(-> & d2 & E2 & _ & P2)]; [lia|]. exists d1. split; [exact E|]. by exists d2.
Defined.
End examples.
