(* ===== verification/MyCall.v ===== *)
(** The added system calls mycall and get_cpu_info
    (src/linux/kernel/mycall.c) and the program that calls them
    (src/linux/test_syscall.c). *)
From Stdlib Require Import ZArith Lia.
From stdpp Require Import base list gmap.
From S2P Require Import Prelude Kernel CharDev CharDevThms.

(** ** mycall *)

Section mycall.
Context {U : Type} `{UserInt U}.

(** The kernel is compiled with wrapping signed arithmetic; what put_user says
    is not looked at.  The result of the call and the user's memory. *)
Definition mycall (a b to_user : Z) (u : U) : Z * U :=
  let sum := s32 (a + b) in
  (21, default u (put_user u to_user sum)).

(** Mycall stores the sum of its arguments, wrapped to 32 bits, where the
    caller asks, and answers 21; it answers 21 as well when nothing could be
    stored. *)
Theorem mycall_spec a b to_user u : -2147483648 <= a <= INT_MAX → -2147483648 <= b <= INT_MAX →
  let '(r, u') := mycall a b to_user u in
  r = 21 ∧
  (put_user u to_user (s32 (a + b)) = None → u' = u) ∧
  (is_Some (put_user u to_user (s32 (a + b))) → ∃ v, get_user u' to_user = Some v ∧
     v mod 2 ^ 32 = (a + b) mod 2 ^ 32 ∧ (-2147483648 <= a + b <= INT_MAX → v = a + b)).
Proof.
  intros Ha Hb. unfold mycall. split; [done|]. split; [by intros ->|]. intros [u' E]. rewrite E. simpl.
  exists (s32 (a + b)). split; [|split].
  - eapply put_get_law; [|exact E]. apply s32_range.
  - unfold s32, wraps. change (2 ^ 32) with 4294967296. change (2 ^ (32 - 1)) with 2147483648.
    rewrite <- Zminus_mod_idemp_r. Z.div_mod_to_equations. lia.
  - intros Hs. by apply s32_id.
Qed.
End mycall.

(** ** get_cpu_info *)

(** struct cpu_info on the stack: 16 and 64 characters and an unsigned int. *)
Definition VENDOR_LEN := 16.
Definition MODEL_LEN := 64.
Definition sizeof_cpu_info := 84.
Record cpuinfo_x86 := CpuInfo { x86_vendor_id : list byte; x86_model_id : list byte; x86_cache_size : Z }.

(** sprintf(dst, "%s", str) into [n] characters at offset [off]. *)
Definition sprintf_s (off n : nat) (str : list byte) (mem : list cell) : option (list cell) :=
  let cs := (Some <$> str) ++ [Some x00] in
  if (length cs <=? n)%nat then Some (list_inserts off cs mem) else None.

Section cpu_info.
Context {U : Type} `{UserMem U} (access_ok : Z → Z → bool).

(** [stack] is what the bytes of the local structure hold on entry. *)
Definition cpu_info_src (cpu : cpuinfo_x86) (stack : list cell) : option (list cell) :=
  m ← sprintf_s 0 (Z.to_nat VENDOR_LEN) (x86_vendor_id cpu) stack;
  m ← sprintf_s (Z.to_nat VENDOR_LEN) (Z.to_nat MODEL_LEN) (x86_model_id cpu) m;
  Some (list_inserts 80 (word_le 4 (u32 (x86_cache_size cpu))) m).

Definition get_cpu_info (cpu : cpuinfo_x86) (stack : list cell) (info : Z) : M U Z := λ u,
  match cpu_info_src cpu stack with
  | None => Fault OutOfBounds
  | Some src =>
      if negb (access_ok info sizeof_cpu_info) then Ret (-1, u)
      else Ret (0, (copy_to_user u info src).1)
  end.
End cpu_info.

(** ** The program *)

(** A character array printed with %s. *)
Definition str_of (cs : list cell) : option (list cell) := c_str cs.
Definition vendor_of (cs : list cell) : option (list cell) := str_of (take 16 cs).
Definition model_of (cs : list cell) : option (list cell) := str_of (take 64 (drop 16 cs)).
Definition cache_of (cs : list cell) : option Z := le_word (take 4 (drop 80 cs)).

Section program.
Context {U : Type} `{UserInt U}.
Context {V : Type} `{UserMem V} (access_ok : Z → Z → bool).

(** main of test_syscall.c: [sum_at] and [info_at] are the addresses of its
    locals, [u] and [v] its ints and its bytes.  What it prints: the result and
    the sum, the result and the three members (None: printf reads on past the
    array, or a variable nobody set). *)
Definition test_syscall (cpu : cpuinfo_x86) (stack : list cell) (sum_at info_at : Z) (u : U) (v : V) :
    outcome (Z * option Z * Z * option (list cell) * option (list cell) * option Z) :=
  let '(ret, u) := mycall 10 20 sum_at u in
  match get_cpu_info access_ok cpu stack info_at v with
  | Fault f => Fault f
  | Ret (ret2, v) =>
      let cs := user_bytes v info_at (Z.to_nat sizeof_cpu_info) in
      Ret (ret, get_user u sum_at, ret2, vendor_of cs, model_of cs, cache_of cs)
  end.
End program.

(** ** Theorems *)

#[local] Arguments word_le : simpl never.

(** Overwriting the beginning of the middle of three parts. *)
Lemma inserts_mid off (k pre m post : list cell) : length pre = off → (length k ≤ length m)%nat →
  list_inserts off k (pre ++ m ++ post) = pre ++ (k ++ drop (length k) m) ++ post.
Proof.
  intros <- L. replace (length pre) with (length pre + 0)%nat by lia. rewrite list_inserts_app_r. f_equal. rewrite inserts_prefix by (rewrite length_app; lia).
  rewrite drop_app_le by done. by rewrite app_assoc.
Qed.

Lemma c_str_string v r : x00 ∉ v → c_str ((Some <$> v) ++ Some x00 :: r) = Some (Some <$> v).
Proof.
  induction v as [|b v IH]; intros N; [done|]. apply not_elem_of_cons in N as [Nb N].
  assert (E : ∀ l, c_str (Some b :: l) = (λ s, Some b :: s) <$> c_str l) by (intros l; by destruct b).
  change ((Some <$> b :: v) ++ Some x00 :: r) with (Some b :: (Some <$> v) ++ Some x00 :: r). by rewrite E, IH.
Qed.

Definition zstr (v : list byte) : list cell := (Some <$> v) ++ [Some x00].
Lemma zstr_length v : length (zstr v) = S (length v).
Proof. unfold zstr. rewrite length_app, length_fmap. simpl. lia. Qed.
Lemma c_str_zstr v r : x00 ∉ v → c_str (zstr v ++ r) = Some (Some <$> v).
Proof. intros N. unfold zstr. rewrite <- app_assoc. by apply c_str_string. Qed.

Record cpu_ok (cpu : cpuinfo_x86) : Prop := {
  co_vendor : (length (x86_vendor_id cpu) < 16)%nat ∧ x00 ∉ x86_vendor_id cpu;
  co_model : (length (x86_model_id cpu) < 64)%nat ∧ x00 ∉ x86_model_id cpu
}.
Lemma split_stack (stack : list cell) : length stack = 84%nat → ∃ s1 s2 s3, stack = s1 ++ s2 ++ s3 ∧
  length s1 = 16%nat ∧ length s2 = 64%nat ∧ length s3 = 4%nat.
Proof.
  intros L. exists (take 16 stack), (take 64 (drop 16 stack)), (drop 64 (drop 16 stack)).
  rewrite take_drop, take_drop. len. by rewrite L.
Qed.

(** The structure: both strings with their zero, what the stack held behind
    them, the cache size. *)
Lemma cpu_info_src_run cpu s1 s2 s3 : cpu_ok cpu → length s1 = 16%nat → length s2 = 64%nat → length s3 = 4%nat →
  cpu_info_src cpu (s1 ++ s2 ++ s3) = Some (
    (zstr (x86_vendor_id cpu) ++ drop (S (length (x86_vendor_id cpu))) s1) ++
    (zstr (x86_model_id cpu) ++ drop (S (length (x86_model_id cpu))) s2) ++ word_le 4 (u32 (x86_cache_size cpu))).
Proof.
  intros [[Lv _] [Lm _]] L1 L2 L3. unfold cpu_info_src, sprintf_s. fold (zstr (x86_vendor_id cpu)) (zstr (x86_model_id cpu)).
  rewrite !zstr_length. change (Z.to_nat VENDOR_LEN) with 16%nat. change (Z.to_nat MODEL_LEN) with 64%nat.
  rewrite (proj2 (Nat.leb_le _ 16)) by lia. rewrite (proj2 (Nat.leb_le _ 64)) by lia. cbn [mbind option_bind].
  pose proof (inserts_mid 0 (zstr (x86_vendor_id cpu)) [] s1 (s2 ++ s3) eq_refl) as E. cbn [app] in E.
  rewrite E, zstr_length by (rewrite zstr_length; lia). clear E. cbn [app].
  set (v := zstr _ ++ drop _ s1). assert (Lv' : length v = 16%nat) by (unfold v; len; rewrite zstr_length; lia).
  rewrite inserts_mid, zstr_length by (rewrite ?zstr_length; lia).
  set (m := zstr _ ++ drop _ s2). assert (Lm' : length m = 64%nat) by (unfold m; len; rewrite zstr_length; lia).
  pose proof (inserts_mid 80 (word_le 4 (u32 (x86_cache_size cpu))) (v ++ m) s3 []) as E.
  rewrite app_nil_r, (drop_ge s3), !app_nil_r, <- !app_assoc in E by (simpl; lia). by rewrite E by (simpl; len; lia).
Qed.

Section thms.
Context {U : Type} `{UserMem U} (access_ok : Z → Z → bool).

Lemma get_cpu_info_run cpu stack info u src : cpu_info_src cpu stack = Some src → access_ok info sizeof_cpu_info = true →
  get_cpu_info access_ok cpu stack info u = Ret (0, (copy_to_user u info src).1).
Proof. intros E A. unfold get_cpu_info. by rewrite E, A. Qed.

(** C40: get_cpu_info and its caller: when the copy succeeds, the caller reads
    back the vendor, the model and the cache size of the processor; but the
    bytes behind the two strings are copied too, and they are what the kernel
    stack held there before the call. *)
Theorem get_cpu_info_roundtrip cpu stack info u : cpu_ok cpu → length stack = 84%nat →
  access_ok info sizeof_cpu_info = true → (∀ cs, length cs = 84%nat → (copy_to_user u info cs).2 = O) →
  ∃ u', get_cpu_info access_ok cpu stack info u = Ret (0, u') ∧
    let cs := user_bytes u' info 84 in
    vendor_of cs = Some (Some <$> x86_vendor_id cpu) ∧ model_of cs = Some (Some <$> x86_model_id cpu) ∧
    cache_of cs = Some (u32 (x86_cache_size cpu)) ∧
    (∀ i, (length (x86_vendor_id cpu) < i < 16)%nat → cs !! i = stack !! i) ∧
    (∀ i, (16 + length (x86_model_id cpu) < i < 80)%nat → cs !! i = stack !! i).
Proof.
  intros C L A Cp. destruct (split_stack stack L) as (s1 & s2 & s3 & -> & L1 & L2 & L3).
  pose proof (cpu_info_src_run cpu s1 s2 s3 C L1 L2 L3) as E. destruct C as [[Lv Nv] [Lm Nm]].
  rewrite (get_cpu_info_run _ _ _ _ _ E A). eexists. split; [done|]. cbv zeta.
  set (v := zstr (x86_vendor_id cpu) ++ _) in *. set (m := zstr (x86_model_id cpu) ++ _) in *.
  assert (Lv' : length v = 16%nat) by (unfold v; len; rewrite zstr_length; lia).
  assert (Lm' : length m = 64%nat) by (unfold m; len; rewrite zstr_length; lia).
  set (w := word_le 4 _) in *. assert (Ls : length (v ++ m ++ w) = 84%nat) by (len; rewrite Lv', Lm'; done).
  destruct (copy_to_user u info (v ++ m ++ w)) as [u' k] eqn:Ec. simpl.
  assert (k = O) as -> by (specialize (Cp _ Ls); by rewrite Ec in Cp).
  apply ctu_ok_law in Ec. rewrite Ls in Ec. rewrite Ec. unfold vendor_of, model_of, cache_of, str_of.
  rewrite take_app_length' by done. rewrite (drop_app_length' v) by done. rewrite (take_app_length' m) by done.
  assert (Ed : drop 80 (v ++ m ++ w) = w) by (rewrite app_assoc; apply drop_app_length'; len; lia).
  rewrite Ed. split_and!.
  - by apply c_str_zstr.
  - by apply c_str_zstr.
  - unfold w. rewrite take_ge by done. rewrite le_word_word_le. f_equal. apply Z.mod_small.
    pose proof (u32_range (x86_cache_size cpu)). change (256 ^ Z.of_nat 4) with 4294967296. lia.
  - intros i Hi. rewrite lookup_app_l by lia. unfold v. rewrite lookup_app_r by (rewrite zstr_length; lia).
    rewrite lookup_drop, zstr_length. rewrite lookup_app_l by lia. f_equal. lia.
  - intros i Hi. rewrite lookup_app_r, lookup_app_l by lia. unfold m. rewrite lookup_app_r by (rewrite zstr_length; lia).
    rewrite lookup_drop, zstr_length. rewrite lookup_app_r, lookup_app_l by lia. f_equal. lia.
Qed.

(** The answers of get_cpu_info: -1 for an address outside the user's
    range, and 0 whatever the copy did, even when not a byte was stored. *)
Theorem get_cpu_info_answers cpu stack info u : cpu_ok cpu → length stack = 84%nat →
  (access_ok info sizeof_cpu_info = false → get_cpu_info access_ok cpu stack info u = Ret (-1, u)) ∧
  (access_ok info sizeof_cpu_info = true → (∀ cs, copy_to_user u info cs = (u, length cs)) →
     get_cpu_info access_ok cpu stack info u = Ret (0, u)).
Proof.
  intros C L. destruct (split_stack stack L) as (s1 & s2 & s3 & -> & L1 & L2 & L3).
  pose proof (cpu_info_src_run cpu s1 s2 s3 C L1 L2 L3) as E. unfold get_cpu_info. rewrite E.
  split; intros ->; [done|]. intros Cp. simpl. by rewrite Cp.
Qed.
End thms.

(** ** Runs *)

Definition demo_cpu : cpuinfo_x86 := CpuInfo [x47; x65; x6e] [x49; x37] 8192.
(** What another call left on the stack. *)
Definition demo_stack : list cell := replicate 84 (Some x53).
Definition demo_user : umap := umap_store ∅ 1000 (replicate 84 (Some x00)).
Lemma demo_cpu_ok : cpu_ok demo_cpu.
Proof. split; (split; [simpl; lia|repeat (apply not_elem_of_cons; split; [done|]); by apply not_elem_of_nil]). Qed.

Lemma mycall_spec_witness :
  let '(r, u') := mycall 10 20 5 {[5 := 0]} in
  r = 21 ∧ ∃ v, get_user u' 5 = Some v ∧ v = 30.
Proof.
  destruct (mycall_spec 10 20 5 {[5 := 0]}) as (E & _ & S); [by unfold INT_MAX; lia..|].
  split; [exact E|]. destruct S as (v & Ev & _ & Hv); [by eexists; vm_compute|]. exists v. split; [exact Ev|]. apply Hv. unfold INT_MAX. lia.
Defined.

Lemma get_cpu_info_roundtrip_witness :
  ∃ u', get_cpu_info (λ _ _, true) demo_cpu demo_stack 1000 demo_user = Ret (0, u') ∧
    let cs := user_bytes u' 1000 84 in
    vendor_of cs = Some (Some <$> x86_vendor_id demo_cpu) ∧ model_of cs = Some (Some <$> x86_model_id demo_cpu) ∧
    cache_of cs = Some (u32 8192) ∧
    (∀ i, (3 < i < 16)%nat → cs !! i = demo_stack !! i) ∧ (∀ i, (16 + 2 < i < 80)%nat → cs !! i = demo_stack !! i).
Proof.
  apply (get_cpu_info_roundtrip (λ _ _, true) demo_cpu demo_stack 1000 demo_user demo_cpu_ok); [done|done|].
  intros cs L. simpl. unfold umap_copy_to. rewrite L. by vm_compute.
Defined.

Lemma get_cpu_info_answers_witness :
  get_cpu_info (λ _ _, false) demo_cpu demo_stack 1000 demo_user = Ret (-1, demo_user).
Proof. by apply (get_cpu_info_answers (λ _ _, false) demo_cpu demo_stack 1000 demo_user demo_cpu_ok). Defined.

Example test_syscall_runs : test_syscall (λ _ _, true) demo_cpu demo_stack 5 1000 ({[5 := 0]} : gmap Z Z) demo_user =
  Ret (21, Some 30, 0, Some (Some <$> [x47; x65; x6e]), Some (Some <$> [x49; x37]), Some 8192).
Proof. vm_compute. reflexivity. Qed.
(** The sum wraps; a bad pointer goes unnoticed. *)
Example mycall_wraps : (mycall INT_MAX 1 5 ({[5 := 0]} : gmap Z Z)).2 = {[5 := -2147483648]} ∧
  mycall 10 20 6 ({[5 := 0]} : gmap Z Z) = (21, {[5 := 0]}).
Proof. split; vm_compute; reflexivity. Qed.
