(* ===== verification/Sfs.v ===== *)
(** The counter file system of src/m_modules/fs/sfs.c: four files, each the
    decimal text of a counter that a read from the start increments.

    The tree itself (simple_fill_super, register_filesystem) is kernel code;
    the operations on the files are modelled, with their theorems. *)
From Stdlib Require Import ZArith Lia.
From stdpp Require Import base list gmap.
From S2P Require Import Prelude Kernel.

(** ** Decimal text *)

Definition digit (d : Z) : cell := Byte.of_N (Z.to_N (48 + d)).
(** The decimal digits of [n < 10 ^ fuel]. *)
Fixpoint digits (fuel : nat) (n : Z) : list cell :=
  match fuel with
  | O => []
  | Datatypes.S f => if n <? 10 then [digit n] else digits f (n / 10) ++ [digit (n mod 10)]
  end.
(** "%d": ten digits are enough for an int. *)
Definition dec (v : Z) : list cell := if v <? 0 then Some x2d :: digits 10 (- v) else digits 10 v.

Definition is_digit (c : cell) : bool :=
  match c with
  | Some b => (48 <=? Z.of_N (Byte.to_N b)) && (Z.of_N (Byte.to_N b) <=? 57)
  | None => false
  end.

(** simple_strtol(s, NULL, 10) of the kernel reads back what "%d" prints, up to
    the first character that is not a digit. *)
Class Strtol := {
  simple_strtol : list cell → Z;
  strtol_law : ∀ v c rest, -2147483648 <= v <= INT_MAX → is_digit c = false →
    simple_strtol (dec v ++ c :: rest) = v
}.

(** ** The files *)

Definition NCOUNTERS := 4.
Definition TMPSIZ := 32.

Record sfs_st (U : Type) := SfsSt { sf_counters : list Z; sf_user : U }.
Arguments SfsSt {U}.
Arguments sf_counters {U}.
Arguments sf_user {U}.

Section ops.
Context {U : Type} `{UserMem U} `{Strtol}.
Abbreviation st := (sfs_st U).

(** private_data is [counters + i_ino - 1]: an index into the array, out of
    range for inode 0. *)
Definition sfs_open (i_ino : Z) : Z + Z :=
  if NCOUNTERS <? i_ino then inl (- ENODEV) else inr (i_ino - 1).

Definition get_counter (i : Z) : M st Z := λ s,
  if i <? 0 then Fault OutOfBounds else
  match sf_counters s !! Z.to_nat i with
  | Some v => Ret (v, s)
  | None => Fault OutOfBounds
  end.
(** atomic_set, atomic_inc *)
Definition set_counter (i v : Z) : M st unit :=
  mmodify (λ s, SfsSt (<[Z.to_nat i := v]> (sf_counters s)) (sf_user s)).

Definition text_to_user (buf : Z) (cs : list cell) : M st bool := λ s,
  let '(u, uncopied) := copy_to_user (sf_user s) buf cs in
  Ret ((uncopied =? 0)%nat, SfsSt (sf_counters s) u).

(** The value and the new position. *)
Definition sfs_read_file (i buf count f_pos : Z) : M st (Z * Z) :=
  v ← get_counter i;
  (if 0 <? f_pos then mret tt else set_counter i (s32 (v + 1))) ≫= λ _,
  let v := if 0 <? f_pos then s32 (v - 1) else v in
  let tmp := dec v ++ [Some x0a] in
  let len := Z.of_nat (length tmp) in
  if len <? f_pos then mret (0, f_pos) else
  let count := if len - f_pos <? count then len - f_pos else count in
  ok ← text_to_user buf (slice (Z.to_nat f_pos) (Z.to_nat count) tmp);
  if (ok : bool) then mret (s64 count, f_pos + count) else mret (- EFAULT, f_pos).

Definition sfs_write_file (i buf count f_pos : Z) : M st Z :=
  if negb (f_pos =? 0) then mret (- EINVAL) else
  if TMPSIZ <=? count then mret (- EINVAL) else
  s ← mget;
  let '(cs, uncopied) := copy_from_user (sf_user s) buf (Z.to_nat count) in
  if negb (uncopied =? 0)%nat then mret (- EFAULT) else
  let tmp := cs ++ replicate (Z.to_nat (TMPSIZ - count)) (Some x00) in
  get_counter i ≫= λ _,
  set_counter i (s32 (simple_strtol tmp)) ≫= λ _,
  mret (s64 count).

(** The loop of sfs_init. *)
Definition sfs_init : M st unit :=
  mfor 0 (Z.to_nat NCOUNTERS) (λ i, set_counter (Z.of_nat i) 0).

End ops.

(** ** Theorems *)

Lemma digits_length fuel n : 0 <= n < 10 ^ Z.of_nat fuel → (0 < fuel)%nat →
  (0 < length (digits fuel n) ≤ fuel)%nat.
Proof.
  revert n. induction fuel as [|f IH]; intros n Hn Hf; [lia|]. simpl.
  destruct (Z.ltb_spec n 10); simpl; [lia|]. rewrite length_app. simpl.
  rewrite Nat2Z.inj_succ, Z.pow_succ_r in Hn by lia.
  destruct f as [|f]; [simpl in Hn; lia|].
  specialize (IH (n / 10)). assert (0 <= n / 10 < 10 ^ Z.of_nat (S f)) by (Z.div_mod_to_equations; lia).
  specialize (IH H0 ltac:(lia)). lia.
Qed.

(** An int and its newline fit the buffer of the code, so snprintf is never cut. *)
Lemma dec_length v : -2147483648 <= v <= INT_MAX → (0 < length (dec v) ≤ 11)%nat.
Proof.
  unfold INT_MAX, dec. intros Hv. destruct (Z.ltb_spec v 0).
  - pose proof (digits_length 10 (- v)) as L. change (10 ^ Z.of_nat 10) with 10000000000 in L.
    cbn [length]. lia.
  - pose proof (digits_length 10 v) as L. change (10 ^ Z.of_nat 10) with 10000000000 in L. lia.
Qed.

Section thms.
Context {U : Type} `{UserMem U} `{Strtol}.
Abbreviation st := (sfs_st U).
Implicit Types s : st.

Definition sfs_wf s : Prop := length (sf_counters s) = 4%nat ∧
  Forall (λ v, -2147483648 <= v <= INT_MAX) (sf_counters s).
Definition counter_is s (i v : Z) : Prop := 0 <= i < 4 ∧ sf_counters s !! Z.to_nat i = Some v.

(** The text of a counter as its file shows it. *)
Definition text (v : Z) : list cell := dec v ++ [Some x0a].

(** Reads through one open file, each from where the last one ended: the result
    of each call with what the user's buffer then holds, and the position. *)
Fixpoint sfs_reads (i pos : Z) (cs : list (Z * Z)) : M st (list (Z * list cell) * Z) :=
  match cs with
  | [] => mret ([], pos)
  | (buf, count) :: r =>
      '(n, pos') ← sfs_read_file i buf count pos;
      s ← mget;
      '(rest, q) ← sfs_reads i pos' r;
      mret ((n, user_bytes (sf_user s) buf (Z.to_nat n)) :: rest, q)
  end.

Lemma s32_pred_succ v : -2147483648 <= v <= INT_MAX → s32 (s32 (v + 1) - 1) = v.
Proof.
  unfold INT_MAX, s32, wraps. intros Hv.
  change (2 ^ (32 - 1)) with 2147483648. change (2 ^ 32) with 4294967296.
  Z.div_mod_to_equations. lia.
Qed.

(** One read in the middle of the text of [v]: the counter holds [v], or the
    value after it once the file was read from the start. *)
Lemma sfs_read_wp s i buf count pos v :
  counter_is s i (if 0 <? pos then s32 (v + 1) else v) → -2147483648 <= v <= INT_MAX →
  0 <= pos <= Z.of_nat (length (text v)) → 0 < count <= LLONG_MAX →
  wp (sfs_read_file i buf count pos) s (λ '(r, pos') s',
    sf_counters s' = <[Z.to_nat i := s32 (v + 1)]> (sf_counters s) ∧
    let n := Z.min count (Z.of_nat (length (text v)) - pos) in
    (r = n ∧ pos' = pos + n ∧
       user_bytes (sf_user s') buf (Z.to_nat n) = slice (Z.to_nat pos) (Z.to_nat n) (text v)) ∨
    (r = - EFAULT ∧ pos' = pos)).
Proof.
  intros [Hi Ec] Hv Hp Hc. unfold sfs_read_file. wp_step. unfold wp at 1, get_counter.
  rewrite (proj2 (Z.ltb_ge i 0)), Ec by lia.
  assert (Len : Z.of_nat (length (text v)) <= 12).
  { unfold text. rewrite length_app. simpl. pose proof (dec_length v Hv). lia. }
  set (v' := if 0 <? pos then s32 ((if 0 <? pos then s32 (v + 1) else v) - 1)
             else (if 0 <? pos then s32 (v + 1) else v)).
  assert (Ev : v' = v) by (unfold v'; destruct (0 <? pos); [by apply s32_pred_succ|done]).
  wp_step. eapply (wp_mono _ _ (λ _ s1, sf_user s1 = sf_user s ∧
    sf_counters s1 = <[Z.to_nat i := s32 (v + 1)]> (sf_counters s))).
  2: { destruct (Z.ltb_spec 0 pos).
       - wp_step. split; [done|]. by rewrite list_insert_id.
       - unfold set_counter. by wp_step. }
  intros ? s1 [Eu E1]. fold v'. rewrite Ev. fold (text v).
  rewrite (proj2 (Z.ltb_ge _ pos)) by lia.
  set (n := Z.min count (Z.of_nat (length (text v)) - pos)).
  replace (if Z.of_nat (length (text v)) - pos <? count then Z.of_nat (length (text v)) - pos else count)
    with n by (unfold n; destruct (Z.ltb_spec (Z.of_nat (length (text v)) - pos) count); lia).
  wp_step. unfold wp at 1, text_to_user.
  destruct (copy_to_user (sf_user s1) buf _) as [u k] eqn:Eu'.
  destruct (Nat.eqb_spec k 0) as [->|]; wp_step; (split; [done|]); [left|right; done].
  split; [by rewrite s64_id by (unfold LLONG_MAX in *; lia)|]. split; [done|].
  apply ctu_ok_law in Eu'. rewrite slice_length in Eu' by lia. done.
Qed.

(** A read of a counter that exists never faults. *)
Lemma sfs_read_total s i buf count pos : 0 <= i → is_Some (sf_counters s !! Z.to_nat i) →
  wp (sfs_read_file i buf count pos) s (λ _ s', is_Some (sf_counters s' !! Z.to_nat i)).
Proof.
  intros Hi [v Ev]. unfold sfs_read_file. wp_step. unfold wp at 1, get_counter.
  rewrite (proj2 (Z.ltb_ge i 0)), Ev by lia. wp_step.
  eapply (wp_mono _ _ (λ _ s1, is_Some (sf_counters s1 !! Z.to_nat i))).
  2: { destruct (0 <? pos); [wp_step; eauto|]. unfold set_counter. wp_step. simpl.
       rewrite list_lookup_insert_eq by (by eapply lookup_lt_Some). eauto. }
  intros ? s1 E1. destruct (_ <? pos); [by wp_step|].
  wp_step. unfold wp at 1, text_to_user. destruct (copy_to_user _ _ _) as [u k].
  destruct (k =? 0)%nat; by wp_step.
Qed.

Lemma sfs_reads_total s i pos cs : 0 <= i → is_Some (sf_counters s !! Z.to_nat i) →
  wp (sfs_reads i pos cs) s (λ _ _, True).
Proof.
  intros Hi. revert s pos. induction cs as [|[buf count] cs IH]; intros s pos E; simpl; [by wp_step|].
  wp_step. eapply wp_mono; [|by apply sfs_read_total]. intros [r pos'] s1 E1. wp_step. wp_step. wp_step.
  eapply wp_mono; [|by apply IH]. intros [rs q] s2 _. by wp_step.
Qed.

Lemma slice_join (l : list cell) (p q r : Z) : 0 <= p <= q → q <= r →
  slice (Z.to_nat p) (Z.to_nat (q - p)) l ++ slice (Z.to_nat q) (Z.to_nat (r - q)) l =
  slice (Z.to_nat p) (Z.to_nat (r - p)) l.
Proof.
  intros. replace (Z.to_nat (r - p)) with (Z.to_nat (q - p) + Z.to_nat (r - q))%nat by lia.
  rewrite slice_split. do 2 f_equal. lia.
Qed.

(** What the reads ask for together. *)
Definition asked (cs : list (Z * Z)) : Z := foldr (λ c z, c.2 + z) 0 cs.
Lemma asked_nonneg cs : Forall (λ c, 0 < c.2 <= LLONG_MAX) cs → 0 <= asked cs.
Proof. induction 1; simpl; lia. Qed.

Lemma sfs_reads_wp s i pos v cs :
  counter_is s i (if 0 <? pos then s32 (v + 1) else v) → -2147483648 <= v <= INT_MAX →
  0 <= pos <= Z.of_nat (length (text v)) → Forall (λ c, 0 < c.2 <= LLONG_MAX) cs →
  wp (sfs_reads i pos cs) s (λ '(rs, q) s', Forall (λ r, 0 <= r.1) rs →
    q = Z.min (pos + asked cs) (Z.of_nat (length (text v))) ∧
    concat (snd <$> rs) = slice (Z.to_nat pos) (Z.to_nat (q - pos)) (text v) ∧
    sf_counters s' = match cs with [] => sf_counters s
                     | _ => <[Z.to_nat i := s32 (v + 1)]> (sf_counters s) end).
Proof.
  revert s pos. induction cs as [|[buf count] cs IH]; intros s pos Ec Hv Hp Hcs; simpl.
  { wp_step. intros _. rewrite Z.sub_diag. split; [simpl; lia|done]. }
  apply Forall_cons in Hcs as [Hc Hcs]. simpl in Hc. pose proof Ec as [Hi El].
  wp_step. eapply wp_mono; [|by apply (sfs_read_wp s i buf count pos v)].
  intros [r pos'] s1 [E1 R]. wp_step. wp_step. wp_step.
  assert (L1 : sf_counters s1 !! Z.to_nat i = Some (s32 (v + 1))).
  { rewrite E1. apply list_lookup_insert_eq. by eapply lookup_lt_Some. }
  destruct R as [(-> & -> & Eb)|(-> & ->)].
  2: { eapply wp_mono; [|by apply sfs_reads_total; [lia|eauto]]. intros [rs q] s2 _. wp_step.
       by intros [? _]%Forall_cons. }
  set (n := Z.min count (Z.of_nat (length (text v)) - pos)) in *.
  assert (Hn : 0 < pos + n).
  { unfold n, text. rewrite length_app. simpl. pose proof (dec_length v Hv). lia. }
  eapply wp_mono; [|apply (IH s1 (pos + n))]; [|..|done].
  - intros [rs q] s2 W. wp_step. intros [_ Hrs]%Forall_cons. destruct (W Hrs) as (Hq & Econ & Ek).
    pose proof (asked_nonneg cs Hcs). simpl asked.
    split; [unfold n in *; lia|]. split.
    + rewrite fmap_cons. cbn [concat snd]. rewrite Econ, Eb. replace n with (pos + n - pos) at 1 by lia. apply slice_join; unfold n in *; lia.
    + rewrite Ek. destruct cs; rewrite E1; [done|]. by rewrite list_insert_insert_eq.
  - split; [done|]. by rewrite (proj2 (Z.ltb_lt 0 (pos + n)) Hn).
  - done.
  - unfold n. lia.
Qed.

(** A string of at most 31 characters that begins with the text of [v]. *)
Definition begins_with (v : Z) (cs : list cell) : Prop :=
  ∃ rest, cs = dec v ++ rest ∧ match rest with [] => True | c :: _ => is_digit c = false end.

Lemma strtol_begins v cs n : begins_with v cs → -2147483648 <= v <= INT_MAX → (0 < n)%nat →
  simple_strtol (cs ++ replicate n (Some x00)) = v.
Proof.
  intros (rest & -> & Hr) Hv Hn. destruct n as [|n]; [lia|].
  rewrite <- app_assoc. destruct rest as [|c r]; by apply strtol_law.
Qed.

(** C33: a counter file shows what was written: writing at position 0 fewer
    than 32 characters that begin with the decimal text of [v] sets the counter
    to [v]; reading the file from its start in one or more pieces of positive
    size, as long as every copy succeeds, brings as much of the text of [v] and
    its newline as the pieces ask for, in order and nothing else, and leaves the
    counter at its 32-bit successor however many pieces there were; a write at another
    position or of 32 characters is refused and changes nothing. *)
Theorem sfs_write_then_read s i src count cs v reads :
  0 <= i < NCOUNTERS → length (sf_counters s) = Z.to_nat NCOUNTERS → -2147483648 <= v <= INT_MAX →
  0 <= count < TMPSIZ → copy_from_user (sf_user s) src (Z.to_nat count) = (cs, 0%nat) →
  begins_with v cs → Forall (λ c, 0 < c.2 <= LLONG_MAX) reads → reads ≠ [] →
  (∃ s1, sfs_write_file i src count 0 s = Ret (count, s1) ∧ sf_counters s1 = <[Z.to_nat i := v]> (sf_counters s) ∧
    wp (sfs_reads i 0 reads) s1 (λ '(rs, q) s2, Forall (λ r, 0 <= r.1) rs →
      q = Z.min (asked reads) (Z.of_nat (length (dec v ++ [Some x0a]))) ∧
      concat (snd <$> rs) = take (Z.to_nat q) (dec v ++ [Some x0a]) ∧
      sf_counters s2 = <[Z.to_nat i := s32 (v + 1)]> (sf_counters s))) ∧
  (∀ f_pos n, f_pos ≠ 0 ∨ TMPSIZ <= n → sfs_write_file i src n f_pos s = Ret (- EINVAL, s)).
Proof.
  unfold NCOUNTERS, TMPSIZ. intros Hi Hl Hv Hc Ecs Hb Hr Nr.
  destruct (lookup_lt_is_Some_2 (sf_counters s) (Z.to_nat i)) as [w Ew]; [lia|]. split.
  - exists (SfsSt (<[Z.to_nat i := v]> (sf_counters s)) (sf_user s)). split; [|split; [done|]].
    + unfold sfs_write_file, TMPSIZ, mbind, M_bind, mget. simpl. rewrite (proj2 (Z.leb_gt 32 count)) by lia.
      rewrite Ecs. simpl. unfold get_counter. rewrite (proj2 (Z.ltb_ge i 0)), Ew by lia.
      unfold set_counter, mmodify. rewrite (strtol_begins v) by (done || lia).
      rewrite s32_id by done. by rewrite s64_id by (unfold LLONG_MAX; lia).
    + eapply wp_mono; [|apply (sfs_reads_wp _ i 0 v reads)].
      * intros [rs q] s2 W F. destruct (W F) as (Hq & Ec & Ek). rewrite Z.sub_0_r in Ec. fold (text v).
        split; [done|]. split; [done|]. rewrite Ek. destruct reads; [done|].
        simpl. by rewrite list_insert_insert_eq.
      * split; [lia|]. simpl. apply list_lookup_insert_eq. lia.
      * done.
      * lia.
      * done.
  - intros f_pos n [Hf|Hn]; unfold sfs_write_file.
    + by rewrite (proj2 (Z.eqb_neq f_pos 0)).
    + destruct (f_pos =? 0); [|done]. simpl. unfold TMPSIZ. by rewrite (proj2 (Z.leb_le 32 n)).
Qed.

End thms.

(** ** Witness *)

Section example.

(** A reader of decimal text. *)
Definition digit_val (c : cell) : Z := match c with Some b => Z.of_N (Byte.to_N b) - 48 | None => 0 end.
Fixpoint read_digits (acc : Z) (l : list cell) : Z :=
  match l with
  | [] => acc
  | c :: r => if is_digit c then read_digits (10 * acc + digit_val c) r else acc
  end.
Definition demo_strtol (l : list cell) : Z :=
  match l with
  | Some x2d :: r => - read_digits 0 r
  | _ => read_digits 0 l
  end.

Lemma digit_ok d : 0 <= d < 10 → is_digit (digit d) = true ∧ digit_val (digit d) = d ∧ digit d ≠ Some x2d.
Proof.
  intros Hd. assert (C : d = 0 ∨ d = 1 ∨ d = 2 ∨ d = 3 ∨ d = 4 ∨ d = 5 ∨ d = 6 ∨ d = 7 ∨ d = 8 ∨ d = 9) by lia.
  by destruct_or! C; subst.
Qed.

Lemma read_digits_app fuel n acc l : 0 <= n < 10 ^ Z.of_nat fuel → (0 < fuel)%nat →
  ∃ k, read_digits acc (digits fuel n ++ l) = read_digits (10 ^ k * acc + n) l ∧ 0 <= k.
Proof.
  revert n acc l. induction fuel as [|f IH]; intros n acc l Hn Hf; [lia|]. simpl.
  rewrite Nat2Z.inj_succ, Z.pow_succ_r in Hn by lia.
  destruct (Z.ltb_spec n 10) as [Hlt|Hge].
  - destruct (digit_ok n) as (E1 & E2 & _); [lia|]. exists 1. simpl. rewrite E1, E2. split; [f_equal; lia|lia].
  - destruct f as [|f]; [simpl in Hn; lia|]. rewrite <- app_assoc.
    destruct (IH (n / 10) acc ([digit (n mod 10)] ++ l)) as (k & -> & Hk); [Z.div_mod_to_equations; lia|lia|].
    destruct (digit_ok (n mod 10)) as (E1 & E2 & _); [Z.div_mod_to_equations; lia|].
    exists (k + 1). simpl. rewrite E1, E2. split; [f_equal|lia].
    rewrite Z.pow_add_r by lia. Z.div_mod_to_equations. nia.
Qed.

Lemma digits_head fuel n l : 0 <= n < 10 ^ Z.of_nat fuel → (0 < fuel)%nat →
  ∃ d r, digits fuel n ++ l = digit d :: r ∧ 0 <= d < 10.
Proof.
  revert n l. induction fuel as [|f IH]; intros n l Hn Hf; [lia|]. simpl.
  rewrite Nat2Z.inj_succ, Z.pow_succ_r in Hn by lia.
  destruct (Z.ltb_spec n 10) as [Hlt|Hge]; [eexists _, _; split; [reflexivity|lia]|].
  destruct f as [|f]; [simpl in Hn; lia|]. rewrite <- app_assoc.
  apply IH; [Z.div_mod_to_equations; lia|lia].
Qed.

#[local] Instance demo_strtol_ok : Strtol.
Proof.
  refine {| simple_strtol := demo_strtol |}. unfold INT_MAX, dec. intros v c rest Hv Hc.
  assert (P : 10 ^ Z.of_nat 10 = 10000000000) by done.
  assert (R : ∀ n, 0 <= n < 10 ^ Z.of_nat 10 → read_digits 0 (digits 10 n ++ c :: rest) = n).
  { intros n Hn. destruct (read_digits_app 10 n 0 (c :: rest)) as (k & -> & _); [done|lia|].
    cbn [read_digits]. rewrite Hc. lia. }
  destruct (Z.ltb_spec v 0); unfold demo_strtol.
  - cbn [app]. rewrite R by lia. lia.
  - destruct (digits_head 10 v (c :: rest)) as (d & r & E & Hd); [lia|lia|].
    destruct (digit_ok d Hd) as (_ & _ & Nd). rewrite <- (R v) at 2 by lia. rewrite E.
    destruct (digit d) as [b|]; [destruct b|]; done.
Defined.

(** "7" and a newline at 100, room at 200; counter 1. *)
Definition sfs0 : sfs_st umap :=
  SfsSt [0; 0; 0; 0] (umap_store (umap_store ∅ 200 (replicate 8 (Some x00))) 100 [Some x37; Some x0a]).

Lemma sfs_write_then_read_witness :
  ∃ s1, sfs_write_file 1 100 2 0 sfs0 = Ret (2, s1) ∧
    wp (sfs_reads 1 0 [(200, 1); (204, 4)]) s1 (λ '(rs, q) s2, Forall (λ r, 0 <= r.1) rs →
      concat (snd <$> rs) = take (Z.to_nat q) [Some x37; Some x0a] ∧ sf_counters s2 = [0; 8; 0; 0]).
Proof.
  destruct (sfs_write_then_read sfs0 1 100 2 [Some x37; Some x0a] 7 [(200, 1); (204, 4)])
    as [(s1 & E & _ & W) _]; try (unfold NCOUNTERS, TMPSIZ, INT_MAX; lia); try reflexivity.
  - exists [Some x0a]. by split.
  - repeat constructor; simpl; unfold LLONG_MAX; lia.
  - done.
  - exists s1. split; [exact E|]. eapply wp_mono; [|exact W]. intros [rs q] s2 Q F.
    destruct (Q F) as (_ & A & B). split; [exact A|]. exact B.
Defined.

Example sfs_counts :
  match (sfs_write_file 1 100 2 0 ≫= λ _, sfs_reads 1 0 [(200, 1); (204, 4)]) sfs0 with
  | Ret ((rs, q), s) => rs = [(1, [Some x37]); (1, [Some x0a])] ∧ q = 2 ∧ sf_counters s = [0; 8; 0; 0]
  | Fault _ => False
  end.
Proof. by vm_compute. Qed.

End example.
