(* ===== verification/SfsTree.v ===== *)
(** The tree and the registration of the counter file system
    (src/m_modules/fs/sfs.c): which file shows which counter, and load and
    unload.

    The kernel's part is the interface [FsKernel]: the table of registered types
    and simple_fill_super, which gives the entry at index [i] of its table the
    inode number [i] and stops at the entry with the empty name. *)
From Stdlib Require Import ZArith Lia.
From stdpp Require Import base list gmap strings.
From S2P Require Import Prelude Kernel Sfs.

(** struct tree_descr: a name that may be NULL, whether there are operations,
    the mode. *)
Record tree_descr := TreeDescr { td_name : option string; td_ops : bool; td_mode : Z }.

Definition SFS_MAGIC := 0x20200524.
Definition S_IWUSR := 128.
Definition S_IRUGO := 292.
Definition counter_descr (name : string) : tree_descr := TreeDescr (Some name) true (Z.lor S_IWUSR S_IRUGO).
Definition root_files : list tree_descr := [
  TreeDescr None false 0;
  counter_descr "counter0";
  counter_descr "counter1";
  counter_descr "counter2";
  counter_descr "counter3";
  TreeDescr (Some EmptyString) false 0].

(** The entries simple_fill_super looks at. *)
Definition is_last_descr (t : tree_descr) : bool := bool_decide (td_name t = Some EmptyString).
Fixpoint before_last (l : list tree_descr) : list tree_descr :=
  match l with
  | [] => []
  | t :: r => if is_last_descr t then [] else t :: before_last r
  end.

Class FsKernel (K : Type) := {
  fs_types : K → gset string;
  register_filesystem : string → K → Z * K;
  unregister_filesystem : string → K → Z * K;
  (* magic and table to the error and the inode numbers of the root directory *)
  simple_fill_super : Z → list tree_descr → K → Z * gmap string Z;
  register_law : ∀ n k r k', register_filesystem n k = (r, k') →
    (r = 0 ∧ (n ∉ fs_types k) ∧ fs_types k' = {[n]} ∪ fs_types k) ∨ (r < 0 ∧ fs_types k' = fs_types k);
  unregister_law : ∀ n k r k', unregister_filesystem n k = (r, k') → fs_types k' = fs_types k ∖ {[n]};
  fill_super_law : ∀ magic files k m, simple_fill_super magic files k = (0, m) →
    NoDup (omap td_name (before_last files)) →
    ∀ n i, m !! n = Some i ↔ 0 <= i ∧ (td_name <$> before_last files !! Z.to_nat i) = Some (Some n)
}.

Section tree.
Context {U K : Type} `{UserMem U} `{Strtol} `{FsKernel K}.

Record sfs_mod := SfsMod { sm_files : sfs_st U; sm_kernel : K }.
Implicit Types s : sfs_mod.

Definition on_files {A} (m : M (sfs_st U) A) : M sfs_mod A := λ s,
  match m (sm_files s) with
  | Ret (a, f) => Ret (a, SfsMod f (sm_kernel s))
  | Fault f => Fault f
  end.
Definition on_kernel {A} (f : K → A * K) : M sfs_mod A := λ s,
  let '(a, k) := f (sm_kernel s) in Ret (a, SfsMod (sm_files s) k).

Definition sfs_fill_super : M sfs_mod (Z * gmap string Z) := λ s,
  Ret (simple_fill_super SFS_MAGIC root_files (sm_kernel s), s).
Definition sfs_module_init : M sfs_mod Z :=
  on_files sfs_init ≫= λ _, on_kernel (register_filesystem "sfs").
Definition sfs_exit : M sfs_mod unit :=
  _ ← on_kernel (unregister_filesystem "sfs"); mret tt.

(** Opening a file of the mounted tree by its name. *)
Definition open_by_name (m : gmap string Z) (n : string) : option (Z + Z) := sfs_open <$> m !! n.

Lemma root_names : omap td_name (before_last root_files) = ["counter0"; "counter1"; "counter2"; "counter3"].
Proof. reflexivity. Qed.

Lemma fill_super_names k m : simple_fill_super SFS_MAGIC root_files k = (0, m) →
  ∀ n i, m !! n = Some i ↔
    (n, i) ∈ [("counter0", 1); ("counter1", 2); ("counter2", 3); ("counter3", 4)].
Proof.
  intros E n i. rewrite (fill_super_law _ _ _ _ E) by (rewrite root_names; apply (bool_decide_unpack _); by vm_compute).
  rewrite !elem_of_cons, elem_of_nil. split.
  - intros [Hi Hn]. destruct (Z.to_nat i) as [|[|[|[|[|j]]]]] eqn:Ei; simplify_eq/=;
      [left|right; left|right; right; left|right; right; right; left]; f_equal; lia.
  - intros Hx. repeat (destruct Hx as [Hx|Hx]; [by simplify_eq|]). done.
Qed.

(** The root directory of the mounted file system has the four files
    counter0 to counter3 and no other; opening each succeeds and selects the
    counter of its number, so the reads and writes of sfs_write_then_read apply
    to it: after loading every file shows a counter of its own, at 0. *)
Theorem sfs_files_are_counters s r s' k m : sfs_module_init s = Ret (r, s') →
  length (sf_counters (sm_files s)) = Z.to_nat NCOUNTERS →
  simple_fill_super SFS_MAGIC root_files k = (0, m) →
  (∀ n x, open_by_name m n = Some x ↔
     (n, x) ∈ [("counter0", inr 0); ("counter1", inr 1); ("counter2", inr 2); ("counter3", inr 3)]) ∧
  (∀ n j, open_by_name m n = Some (inr j) → 0 <= j < NCOUNTERS ∧ get_counter j (sm_files s') = Ret (0, sm_files s')).
Proof.
  intros Ei Hl E. assert (Hopen : ∀ n x, open_by_name m n = Some x ↔
     (n, x) ∈ [("counter0", inr 0); ("counter1", inr 1); ("counter2", inr 2); ("counter3", inr 3)]).
  { intros n x. unfold open_by_name. rewrite fmap_Some.
    split.
    - intros (i & Hx%(fill_super_names k m E) & ->). rewrite !elem_of_cons, elem_of_nil in Hx.
      destruct_or! Hx; simplify_eq; rewrite !elem_of_cons; vm_compute; tauto.
    - rewrite !elem_of_cons, elem_of_nil. intros Hx. destruct_or! Hx; simplify_eq; [exists 1|exists 2|exists 3|exists 4];
        (split; [apply (fill_super_names k m E); rewrite !elem_of_cons; tauto|done]). }
  split; [exact Hopen|]. intros n j Hn%Hopen.
  assert (Ec : sf_counters (sm_files s') = [0; 0; 0; 0]).
  { destruct s as [[cs u] k0]. unfold sfs_module_init, mbind, M_bind, on_files, sfs_init in Ei. simpl in *.
    destruct cs as [|a [|b [|c [|d [|]]]]]; try discriminate. cbn in Ei. unfold on_kernel in Ei. simpl in Ei.
    destruct (register_filesystem "sfs" k0) as [r0 k1]. by simplify_eq/=. }
  unfold get_counter. rewrite Ec. rewrite !elem_of_cons, elem_of_nil in Hn.
  repeat (destruct Hn as [Hn|Hn]; [simplify_eq; by vm_compute|]). done.
Qed.

(** Loading either registers the file system or fails and registers
    nothing; unloading takes it back. *)
Theorem sfs_load_unload s : ∃ r s', sfs_module_init s = Ret (r, s') ∧
  (r < 0 → fs_types (sm_kernel s') = fs_types (sm_kernel s)) ∧
  (0 <= r → "sfs" ∈ fs_types (sm_kernel s') ∧
    ∃ s2, sfs_exit s' = Ret (tt, s2) ∧ fs_types (sm_kernel s2) = fs_types (sm_kernel s)).
Proof.
  unfold sfs_module_init, mbind, M_bind, on_files, sfs_init.
  assert (L : ∃ f, mfor 0 (Z.to_nat NCOUNTERS) (λ i, set_counter (Z.of_nat i) 0) (sm_files s) = Ret (tt, f)) by (by eexists).
  destruct L as [f ->]. unfold on_kernel. simpl.
  destruct (register_filesystem "sfs" (sm_kernel s)) as [r k] eqn:E. eexists r, _. split; [done|]. simpl.
  apply register_law in E as [(-> & N & Ek)|[Hr Ek]]; (split; [intros ?; done || lia|]); [|lia].
  intros _. split; [set_solver|]. unfold sfs_exit, on_kernel, mbind, M_bind. simpl.
  destruct (unregister_filesystem "sfs" k) as [r' k'] eqn:E'. eexists. split; [done|]. simpl.
  apply unregister_law in E'. set_solver.
Qed.

End tree.

(** ** A run *)

Section example.
#[local] Existing Instance demo_strtol_ok.

Fixpoint number_from (i : Z) (l : list tree_descr) : gmap string Z :=
  match l with
  | [] => ∅
  | t :: r => match td_name t with Some n => <[n := i]> (number_from (i + 1) r) | None => number_from (i + 1) r end
  end.
Lemma number_from_spec l : ∀ b n i, NoDup (omap td_name l) →
  number_from b l !! n = Some i ↔ b <= i ∧ (td_name <$> l !! Z.to_nat (i - b)) = Some (Some n).
Proof.
  induction l as [|t l IH]; intros b n i ND; cbn [number_from].
  { rewrite lookup_empty, lookup_nil. split; [done|by intros [_ [=]]]. }
  assert (ND' : NoDup (omap td_name l)).
  { change (t :: l) with ([t] ++ l) in ND. rewrite omap_app in ND. by apply NoDup_app in ND as (_ & _ & ?). }
  assert (Tl : b + 1 <= i → (t :: l) !! Z.to_nat (i - b) = l !! Z.to_nat (i - (b + 1))).
  { intros. replace (Z.to_nat (i - b)) with (S (Z.to_nat (i - (b + 1)))) by lia. done. }
  assert (Hd : ∀ n', td_name t = Some n' → n' ∉ omap td_name l).
  { intros n' En. change (t :: l) with ([t] ++ l) in ND. rewrite omap_app in ND. simpl in ND. rewrite En in ND.
    by apply NoDup_cons in ND as [? _]. }
  destruct (decide (i = b)) as [->|N].
  - rewrite Z.sub_diag. simpl. destruct (td_name t) as [n'|] eqn:En.
    + destruct (decide (n' = n)) as [->|Nn].
      * rewrite lookup_insert_eq. split; [by split|done].
      * rewrite lookup_insert_ne, IH by done. split; [lia|]. intros [_ [= ?]]. done.
    + rewrite IH by done. split; [lia|]. by intros [_ [=]].
  - assert (Q : number_from (b + 1) l !! n = Some i ↔ b <= i ∧ (td_name <$> (t :: l) !! Z.to_nat (i - b)) = Some (Some n)).
    { rewrite IH by done. split; intros [Hi E]; (split; [lia|]); [by rewrite Tl by lia|]. by rewrite Tl in E by lia. }
    destruct (td_name t) as [n'|] eqn:En; [|exact Q].
    destruct (decide (n' = n)) as [->|Nn]; [|by rewrite lookup_insert_ne].
    rewrite lookup_insert_eq. split; [by intros [= ->]|]. intros [Hi E]. exfalso. apply (Hd n eq_refl).
    rewrite Tl in E by lia. apply fmap_Some in E as (t' & Et & Et'). apply list_elem_of_omap. exists t'.
    split; [by eapply list_elem_of_lookup_2|done].
Qed.

#[local] Program Instance demo_fs : FsKernel (gset string) := {
  fs_types k := k;
  register_filesystem n k := if bool_decide (n ∈ k) then (-16, k) else (0, {[n]} ∪ k);
  unregister_filesystem n k := if bool_decide (n ∈ k) then (0, k ∖ {[n]}) else (- EINVAL, k);
  simple_fill_super magic files k := (0, number_from 0 (before_last files))
}.
Next Obligation.
  intros n k r k' E. simpl in E. case_bool_decide; simplify_eq; [by right|by left].
Qed.
Next Obligation. intros n k r k' E. simpl in E. case_bool_decide; simplify_eq; [done|set_solver]. Qed.
Next Obligation. intros magic files k m [= <-] ND n i. rewrite number_from_spec by done. by rewrite Z.sub_0_r. Qed.

Lemma sfs_files_are_counters_witness : ∃ r s', sfs_module_init (SfsMod sfs0 ∅) = Ret (r, s') ∧
  open_by_name (simple_fill_super SFS_MAGIC root_files (∅ : gset string)).2 "counter2" = Some (inr 2).
Proof.
  eexists _, _. split; [reflexivity|].
  refine (proj2 (proj1 (sfs_files_are_counters (SfsMod sfs0 ∅) _ _ ∅ _ eq_refl eq_refl eq_refl) _ _) _).
  rewrite !elem_of_cons. tauto.
Defined.

End example.
