(* ===== verification/SfsConc.v ===== *)
(** Several readers of one file of the counter file system
    (src/m_modules/fs/sfs.c): the read of the counter and its increment are two
    atomic operations, and a read that goes on where the last one ended guesses
    what that one showed. *)
From Stdlib Require Import ZArith Lia.
From stdpp Require Import base list gmap relations.
From S2P Require Import Prelude Kernel Sfs.

(** ** The two atomic operations of a first read

    A thread in sfs_read_file at position 0: before atomic_read, between it and
    atomic_inc, and with the value whose text it copies out. *)
Inductive reader := Entered | Seen (v : Z) | Shows (v : Z).

Record counter_st := CounterSt { ctr : Z; readers : list reader }.

Definition reader_step (ctr : Z) (r : reader) : option (Z * reader) :=
  match r with
  | Entered => Some (ctr, Seen ctr)
  | Seen v => Some (s32 (ctr + 1), Shows v)
  | Shows _ => None
  end.

(** Any thread may make the next step. *)
Inductive counter_step : counter_st → counter_st → Prop :=
  | counter_step_intro c rs i r c' r' :
      rs !! i = Some r → reader_step c r = Some (c', r') →
      counter_step (CounterSt c rs) (CounterSt c' (<[i := r']> rs)).

Definition shown (r : reader) : option Z := match r with Shows v => Some v | _ => None end.
Definition has_inc (r : reader) : bool := match r with Shows _ => true | _ => false end.
Definition has_seen (r : reader) : option Z := match r with Seen v | Shows v => Some v | Entered => None end.

(** A thread alone runs the function: the counter and the value are those of the
    first read of Sfs.v. *)
Lemma reader_alone `{UserMem U} (s : sfs_st U) i buf count v : 0 <= i →
  sf_counters s !! Z.to_nat i = Some v →
  ∃ r s', sfs_read_file i buf count 0 s = Ret (r, s') ∧
    rtc counter_step (CounterSt v [Entered]) (CounterSt (s32 (v + 1)) [Shows v]) ∧
    sf_counters s' = <[Z.to_nat i := s32 (v + 1)]> (sf_counters s).
Proof.
  intros Hi Ev. unfold sfs_read_file, mbind, M_bind, get_counter. rewrite (proj2 (Z.ltb_ge i 0)), Ev by lia. simpl.
  assert (St : rtc counter_step (CounterSt v [Entered]) (CounterSt (s32 (v + 1)) [Shows v])).
  { eapply rtc_l; [by apply (counter_step_intro v [Entered] 0%nat Entered)|].
    apply rtc_once. by apply (counter_step_intro v [Seen v] 0%nat (Seen v)). }
  case_match; [by do 2 eexists|]. unfold text_to_user. simpl. destruct (copy_to_user _ _ _) as [u k].
  destruct (k =? 0)%nat; by do 2 eexists.
Qed.

(** The next of a row of threads makes its step. *)
Lemma next_of_row {A} k m (x y : A) :
  (replicate k y ++ replicate (S m) x) !! k = Some x ∧
  <[k := y]> (replicate k y ++ replicate (S m) x) = replicate (S k) y ++ replicate m x.
Proof.
  split; [by rewrite lookup_app_r, length_replicate, Nat.sub_diag by (rewrite length_replicate; lia)|].
  rewrite insert_app_r_alt, length_replicate, Nat.sub_diag by (rewrite length_replicate; lia).
  by rewrite (replicate_S_end k), <- app_assoc.
Qed.

Section readers.
Variables (c0 : Z) (n : nat).
Hypothesis c0_range : -2147483648 <= c0.
Hypothesis no_wrap : c0 + Z.of_nat n <= INT_MAX.
Definition counter_start : counter_st := CounterSt c0 (replicate n Entered).

(** The counter is what the increments made it, and nobody holds a value it did
    not have. *)
Definition counter_inv (s : counter_st) : Prop :=
  length (readers s) = n ∧ ctr s = c0 + cnt has_inc (readers s) ∧
  Forall (λ r, ∀ v, has_seen r = Some v → c0 <= v < c0 + Z.of_nat n ∧
    (has_inc r = false → v <= ctr s) ∧ (has_inc r = true → v < ctr s)) (readers s).

Lemma counter_start_inv : counter_inv counter_start.
Proof.
  split_and!; simpl.
  - by rewrite length_replicate.
  - rewrite cnt_zero; [lia|]. by apply Forall_replicate.
  - by apply Forall_replicate.
Qed.

Lemma counter_step_inv s s' : counter_step s s' → counter_inv s → counter_inv s'.
Proof.
  intros [c rs i r c' r' Ei Er] (L & Ec & F). simpl in *.
  pose proof (cnt_range has_inc rs) as Rg. pose proof (lookup_lt_Some _ _ _ Ei) as Li.
  pose proof (cnt_insert has_inc rs i r r' Ei) as Ci.
  destruct r as [|v|v]; injection Er as <- <- || discriminate Er; cbn [has_inc Z.b2z] in Ci.
  - assert (c < c0 + Z.of_nat n).
    { pose proof (cnt_range has_inc (<[i := Shows 0]> rs)) as R2. pose proof (cnt_insert has_inc rs i Entered (Shows 0) Ei) as C2.
      rewrite length_insert in R2. cbn [has_inc Z.b2z] in C2. lia. }
    split_and!; simpl; [by rewrite length_insert|lia|]. apply Forall_insert; [done|].
    intros v [= <-]. split_and!; simpl; [lia..|done].
  - pose proof (proj1 (Forall_lookup _ _) F i _ Ei) as Fi. simpl in Fi. destruct (Fi v eq_refl) as (Hv & Hle & _).
    specialize (Hle eq_refl).
    assert (Lt : cnt has_inc (<[i := Shows v]> rs) <= Z.of_nat n) by (rewrite <- L, <- (length_insert rs i (Shows v)); apply cnt_range).
    rewrite s32_id by (unfold INT_MAX in *; lia).
    split_and!; simpl; [by rewrite length_insert|lia|]. apply Forall_insert.
    + eapply Forall_impl; [exact F|]. simpl. intros r Hr w Hw. destruct (Hr w Hw) as (? & H1 & H2).
      split_and!; [lia..| |]; intros X; [specialize (H1 X)|specialize (H2 X)]; lia.
    + intros w [= <-]. split_and!; simpl; [lia..|done|lia].
Qed.

Lemma counter_reachable_inv s : rtc counter_step counter_start s → counter_inv s.
Proof.
  apply (rtc_ind_r counter_inv); [apply counter_start_inv|]. intros y z _ St. by apply counter_step_inv.
Qed.

(** The first [k] threads have read the counter, none has incremented it. *)
Lemma all_see k : (k ≤ n)%nat →
  rtc counter_step counter_start (CounterSt c0 (replicate k (Seen c0) ++ replicate (n - k) Entered)).
Proof.
  induction k as [|k IH]; intros Hk; [by rewrite Nat.sub_0_r|]. eapply rtc_r; [by apply IH; lia|].
  replace (n - k)%nat with (S (n - S k)) by lia.
  destruct (next_of_row k (n - S k) Entered (Seen c0)) as [E1 <-]. by eapply counter_step_intro.
Qed.

(** Then [k] of them go on. *)
Lemma all_show k : (k ≤ n)%nat →
  rtc counter_step counter_start (CounterSt (c0 + Z.of_nat k) (replicate k (Shows c0) ++ replicate (n - k) (Seen c0))).
Proof.
  induction k as [|k IH]; intros Hk.
  { rewrite Z.add_0_r, Nat.sub_0_r. simpl. pose proof (all_see n (le_n n)) as A.
    by rewrite Nat.sub_diag, app_nil_r in A. }
  eapply rtc_r; [by apply IH; lia|]. replace (n - k)%nat with (S (n - S k)) by lia.
  destruct (next_of_row k (n - S k) (Seen c0) (Shows c0)) as [E1 <-]. eapply counter_step_intro; [done|].
  simpl. rewrite s32_id by lia. do 2 f_equal. lia.
Qed.

End readers.

(** C34: [n] processes read a counter file from its start at the same time.  In
    every interleaving the counter is its first value plus the number of reads
    that finished, so no increment is lost, and each shows a value from the
    first up to the last minus one; but the values are not handed out one each:
    for every [n] there is a run in which all show the first. *)
Theorem sfs_readers_repeat c0 n : -2147483648 <= c0 → c0 + Z.of_nat n <= INT_MAX →
  (∀ s, rtc counter_step (counter_start c0 n) s →
     ctr s = c0 + Z.of_nat (length (omap shown (readers s))) ∧
     Forall (λ v, c0 <= v < ctr s) (omap shown (readers s)) ∧
     ((∀ s', ¬ counter_step s s') → length (omap shown (readers s)) = n)) ∧
  rtc counter_step (counter_start c0 n) (CounterSt (c0 + Z.of_nat n) (replicate n (Shows c0))).
Proof.
  intros Hlo Hw. split.
  - intros s R. destruct (counter_reachable_inv c0 n Hlo Hw s R) as (L & Ec & F).
    assert (Cs : ∀ l, Z.of_nat (length (omap shown l)) = cnt has_inc l).
    { induction l as [|r l IH]; [done|]. rewrite cnt_cons, <- IH.
      destruct r; cbn [omap list_omap shown length has_inc Z.b2z]; lia. }
    split_and!; [by rewrite Cs| |].
    + apply Forall_forall. intros v Hv. apply list_elem_of_omap in Hv as (r & Hr & Es).
      destruct r as [| |w]; simplify_eq/=. rewrite Forall_forall in F. destruct (F _ Hr v eq_refl) as (H1 & _ & H2).
      split; [lia|by apply H2].
    + intros St. rewrite <- L. assert (Al : Forall (λ r, ∃ v, r = Shows v) (readers s)).
      { apply Forall_lookup. intros i r Ei. destruct s as [c rs]. simpl in *.
        destruct r as [|v|v]; [..|by eexists]; (edestruct St; by eapply counter_step_intro). }
      clear -Al. induction Al as [|r l [v ->] _ IH]; [done|].
      cbn [omap list_omap shown length]. by f_equal.
  - pose proof (all_show c0 n Hlo Hw n (le_n n)) as A. by rewrite Nat.sub_diag, app_nil_r in A.
Qed.

(** ** A read in pieces while others read *)

Section torn.
Context {U : Type} `{UserMem U}.
Implicit Types s : sfs_st U.

(** A process reads the first [n1] characters of file [i] into [buf], [k] others
    read the file from its start, then it reads on: what it got each time. *)
Definition two_pieces (i buf n1 n2 obuf on : Z) (k : nat) : M (sfs_st U) ((Z * list cell) * (Z * list cell)) :=
  '(r1, p1) ← sfs_read_file i buf n1 0;
  s1 ← mget;
  mfor 0 k (λ _, sfs_read_file i obuf on 0 ≫= λ _, mret tt) ≫= λ _,
  '(r2, _) ← sfs_read_file i buf n2 p1;
  s2 ← mget;
  mret ((r1, user_bytes (sf_user s1) buf (Z.to_nat r1)), (r2, user_bytes (sf_user s2) buf (Z.to_nat r2))).

Lemma s32_counter v : -2147483648 <= v < INT_MAX → s32 (v + 1) = v + 1.
Proof. intros. rewrite s32_id; lia. Qed.

Lemma counter_after s s' i w v : counter_is s i w → sf_counters s' = <[Z.to_nat i := v]> (sf_counters s) →
  counter_is s' i v.
Proof. intros [Hi E] Es. split; [done|]. rewrite Es. apply list_lookup_insert_eq. by eapply lookup_lt_Some. Qed.

Lemma others_count s i v obuf on k : counter_is s i v → -2147483648 <= v → v + Z.of_nat k <= INT_MAX →
  0 < on <= LLONG_MAX →
  wp (mfor 0 k (λ _, sfs_read_file i obuf on 0 ≫= λ _, mret tt)) s (λ _ s', counter_is s' i (v + Z.of_nat k)).
Proof.
  intros C Hv Hk Ho. apply (mfor_wp (λ j s', counter_is s' i (v + Z.of_nat j))); [by rewrite Z.add_0_r|].
  intros j s1 Hj C1. wp_step. eapply wp_mono; [|apply (sfs_read_wp s1 i obuf on 0 (v + Z.of_nat j))]; try done; [|lia..].
  intros [r q] s2 [E2 _]. wp_step. rewrite s32_counter in E2 by lia.
  replace (v + Z.of_nat (S j)) with (v + Z.of_nat j + 1) by lia. by eapply counter_after.
Qed.

(** A file read in two pieces, its first [n1] characters while the counter is
    [v]: when [k] others read the file between the pieces, the rest comes
    from the text of [v + k]. *)
Theorem sfs_torn_read s i v buf n1 n2 obuf on k : counter_is s i v → -2147483648 <= v →
  v + Z.of_nat k < INT_MAX → 0 < n1 <= Z.of_nat (length (dec v)) → 0 < n2 <= LLONG_MAX → 0 < on <= LLONG_MAX →
  Z.of_nat (length (dec v)) <= Z.of_nat (length (dec (v + Z.of_nat k))) →
  wp (two_pieces i buf n1 n2 obuf on k) s (λ '((r1, b1), (r2, b2)) _, 0 <= r1 → 0 <= r2 →
    b1 = take (Z.to_nat n1) (text v) ∧
    b2 = take (Z.to_nat n2) (drop (Z.to_nat n1) (text (v + Z.of_nat k)))).
Proof.
  intros C Hv Hk H1 H2 Ho Hlen. unfold two_pieces. wp_step.
  assert (Lt : ∀ w, length (text w) = S (length (dec w))) by (intros w; unfold text; rewrite length_app; simpl; lia).
  pose proof (dec_length v ltac:(lia)) as Lv.
  eapply wp_mono; [|apply (sfs_read_wp s i buf n1 0 v)]; try done; try (unfold LLONG_MAX; lia).
  intros [r1 p1] s1 [E1 R1]. rewrite s32_counter in E1 by lia. wp_step. wp_step. wp_step.
  eapply wp_mono; [|apply (others_count s1 i (v + 1) obuf on k)]; [|by eapply counter_after|lia..|done].
  intros ? s2 C2. cbv beta in C2. wp_step. rewrite Lt in R1. cbv zeta in R1.
  rewrite (Z.min_l n1) in R1 by lia.
  destruct R1 as [(-> & -> & B1)|(-> & ->)].
  - rewrite Z.add_0_l.
    eapply wp_mono; [|apply (sfs_read_wp s2 i buf n2 n1 (v + Z.of_nat k))]; try done; try (rewrite ?Lt; lia).
    2: { rewrite (proj2 (Z.ltb_lt 0 n1)), s32_counter by lia. by replace (v + Z.of_nat k + 1) with (v + 1 + Z.of_nat k) by lia. }
    intros [r2 p2] s3 [_ R2]. wp_step. wp_step. wp_step. intros _ Hr2.
    destruct R2 as [(-> & -> & B2)|(-> & ->)]; [|done]. rewrite B1, B2. split; [done|].
    unfold slice. destruct (Z.le_gt_cases n2 (Z.of_nat (length (text (v + Z.of_nat k))) - n1)).
    + by rewrite Z.min_l by lia.
    + rewrite Z.min_r by lia. rewrite !take_ge; [done|rewrite length_drop; lia..].
  - eapply wp_mono; [|apply (sfs_read_wp s2 i buf n2 0 (v + 1 + Z.of_nat k))]; try done; try lia.
    intros [r2 p2] s3 _. wp_step. wp_step. by wp_step.
Qed.

End torn.

Lemma sfs_readers_repeat_witness :
  rtc counter_step (counter_start 7 3) (CounterSt 10 [Shows 7; Shows 7; Shows 7]).
Proof. apply (sfs_readers_repeat 7 3); unfold INT_MAX; lia. Defined.

(** The counter is 9; one other read between the pieces turns "9" into "90". *)
Definition torn_demo : sfs_st umap := SfsSt [0; 9; 0; 0] (umap_store ∅ 200 (replicate 8 (Some x00))).

Lemma sfs_torn_read_witness :
  wp (two_pieces 1 200 1 5 204 1 1) torn_demo
    (λ '((r1, b1), (r2, b2)) _, 0 <= r1 → 0 <= r2 → b1 = [Some x39] ∧ b2 = [Some x30; Some x0a]).
Proof.
  apply (sfs_torn_read torn_demo 1 9 200 1 5 204 1 1); try (vm_compute; split; congruence || lia).
  - split; [lia|done].
  - lia.
  - done.
Defined.

Example torn_demo_run :
  match two_pieces 1 200 1 5 204 1 1 torn_demo with
  | Ret (r, s) => r = ((1, [Some x39]), (2, [Some x30; Some x0a])) ∧ sf_counters s = [0; 11; 0; 0]
  | Fault _ => False
  end.
Proof. by vm_compute. Qed.
