(* ===== verification/ExProc.v ===== *)
(** The proc entry of src/m_modules/proc/ex_proc.c: a write stores a string, and
    one string makes the writer root.  With the theorems.

    prepare_creds and commit_creds are the interface [Creds]. *)
From Stdlib Require Import ZArith Lia.
From stdpp Require Import base list gmap.
From S2P Require Import Prelude Kernel CharDev CharDevThms.

(** The eight ids of struct cred that the code sets. *)
Record ids := Ids { id_uid : Z; id_gid : Z; id_suid : Z; id_sgid : Z;
                    id_euid : Z; id_egid : Z; id_fsuid : Z; id_fsgid : Z }.
Definition root_ids : ids := Ids 0 0 0 0 0 0 0 0.

(** [cr_ids] are the ids of the running task, [cr_new] those of a prepared copy. *)
Class Creds (K : Type) := {
  cr_ids : K → ids;
  cr_new : K → option ids;
  prepare_creds : K → bool * K;                (* false: no memory *)
  set_new : ids → K → K;                       (* the assignments to the copy *)
  commit_creds : K → K;
  prepare_law : ∀ k b k', prepare_creds k = (b, k') → cr_ids k' = cr_ids k ∧
    (b = true → cr_new k' = Some (cr_ids k));
  set_new_law : ∀ i k, cr_ids (set_new i k) = cr_ids k ∧ cr_new (set_new i k) = Some i;
  commit_law : ∀ i k, cr_new k = Some i → cr_ids (commit_creds k) = i
}.

Definition EX_BUF := 128.

(** [buffer], [finished], the user's memory and the credentials. *)
Record ex_st (U K : Type) := ExSt {
  ex_buffer : list cell;
  ex_finished : bool;
  ex_user : U;
  ex_creds : K
}.
Arguments ExSt {U K}.
Arguments ex_buffer {U K}.
Arguments ex_finished {U K}.
Arguments ex_user {U K}.
Arguments ex_creds {U K}.

(** "showmetheroot" *)
Definition magic : list cell :=
  Some <$> [x73; x68; x6f; x77; x6d; x65; x74; x68; x65; x72; x6f; x6f; x74].

Section ops.
Context {U K : Type} `{UserMem U} `{Creds K}.
Abbreviation st := (ex_st U K).

Definition set_finished (b : bool) (s : st) : st := ExSt (ex_buffer s) b (ex_user s) (ex_creds s).
Definition set_buffer (b : list cell) (s : st) : st := ExSt b (ex_finished s) (ex_user s) (ex_creds s).
Definition set_creds (k : K) (s : st) : st := ExSt (ex_buffer s) (ex_finished s) (ex_user s) k.

(** copy_from_user, the two stores into buf[128], and the copy to buffer: the
    string stored, or the fault. *)
Definition take_line (cs : list cell) (len : Z) : outcome (list cell) :=
  if EX_BUF <=? len then Fault OutOfBounds                        (* buf[len] *)
  else if len =? 0 then Fault OutOfBounds                         (* buf[len - 1] *)
  else
    let cs := match last cs with
              | Some (Some x0a) => <[Z.to_nat len - 1 := Some x00]> cs
              | _ => cs
              end%nat in
    match c_str (cs ++ [Some x00]) with
    | Some str => Ret str
    | None => Fault OutOfBounds
    end.

Definition become_root : M st unit := λ s,
  match prepare_creds (ex_creds s) with
  | (true, k) => Ret (tt, set_creds (commit_creds (set_new root_ids k)) s)
  | (false, _) => Fault NullDeref
  end.

(** The comparison of two strings of bytes that were written. *)
Definition proc_write (data len : Z) : M st Z :=
  s ← mget;
  if ex_finished s then mput (set_finished false s) ≫= λ _, mret 0 else
  mput (set_finished true s) ≫= λ _,
  let '(cs, uncopied) := copy_from_user (ex_user s) data (Z.to_nat len) in
  if EX_BUF <? len then mfault OutOfBounds else
  if negb (uncopied =? 0)%nat then mret (- EFAULT) else
  match take_line cs len with
  | Fault f => mfault f
  | Ret str =>
      mmodify (set_buffer (str ++ replicate (Z.to_nat EX_BUF - length str) (Some x00))) ≫= λ _,
      (if bool_decide (str = magic) then become_root else mret tt) ≫= λ _,
      mret (s64 len)
  end.

(** What a read of the entry shows between the brackets. *)
Definition proc_show (s : st) : option (list cell) := c_str (ex_buffer s).

End ops.

(** ** Theorems *)

Section thms.
Context {U K : Type} `{UserMem U} `{Creds K}.
Abbreviation st := (ex_st U K).
Implicit Types s : st.

(** The line without its newline, up to the first zero. *)
Definition line_of (cs : list cell) : list cell :=
  default [] (c_str ((if decide (last cs = Some (Some x0a)) then removelast cs else cs) ++ [Some x00])).

Lemma c_str_snoc cs : is_Some (c_str (cs ++ [Some x00])).
Proof.
  induction cs as [|c cs [s E]]; [by exists []|]. simpl. rewrite E. simpl.
  destruct c as [b|]; [destruct b|]; eauto.
Qed.
Lemma c_str_stop (cs rest str : list cell) :
  c_str (cs ++ [Some x00]) = Some str → c_str (cs ++ Some x00 :: rest) = Some str.
Proof.
  revert str. induction cs as [|c cs IH]; intros str E; [done|]. simpl in *.
  destruct (c_str_snoc cs) as [s' E']. rewrite E' in E. by rewrite (IH s' E').
Qed.

Lemma take_line_ok cs len : length cs = Z.to_nat len → 0 < len < EX_BUF →
  take_line cs len = Ret (line_of cs) ∧ (length (line_of cs) < 128)%nat.
Proof.
  unfold EX_BUF. intros L Hl. unfold take_line, line_of, EX_BUF.
  rewrite (proj2 (Z.leb_gt 128 len)), (proj2 (Z.eqb_neq len 0)) by lia.
  destruct (last cs) as [c|] eqn:El; [|apply last_None in El; subst; simpl in L; lia].
  apply last_Some in El as [l ->]. rewrite length_app in L. simpl in L.
  assert (Short : ∀ t str, (length t ≤ 127)%nat → c_str (t ++ [Some x00]) = Some str → (length str < 128)%nat).
  { intros t str Ht E. destruct (c_str_prefix _ _ E) as [_ Lt]. rewrite length_app in Lt. simpl in Lt. lia. }
  destruct (decide (Some c = Some (Some x0a))) as [[= ->]|N].
  - replace (Z.to_nat len - 1)%nat with (length l + 0)%nat by lia.
    rewrite insert_app_r, removelast_last. simpl.
    destruct (c_str_snoc l) as [str E]. rewrite <- app_assoc. cbn [app]. rewrite (c_str_stop l [Some x00] str E), E.
    split; [done|]. apply (Short l); [lia|done].
  - assert (M : match Some c with
                | Some (Some x0a) => <[(Z.to_nat len - 1)%nat := Some x00]> (l ++ [c])
                | _ => l ++ [c] end = l ++ [c]).
    { destruct c as [b|]; [destruct b|]; done. }
    destruct (c_str_snoc (l ++ [c])) as [str E]. rewrite M, E. split; [done|].
    apply (Short (l ++ [c])); [rewrite length_app; simpl; lia|done].
Qed.

(** A write to the entry: the one after a write that was looked at is
    dropped; otherwise the line, without its newline, becomes what the entry
    shows, and the ids of the writer stay as they are unless the line is
    "showmetheroot", which makes all of them 0; an empty write reads before the
    buffer and one of 128 bytes or more writes past it. *)
Theorem exproc_write_spec s data len cs k :
  0 <= len → copy_from_user (ex_user s) data (Z.to_nat len) = (cs, k) →
  if ex_finished s then proc_write data len s = Ret (0, set_finished false s)
  else if (EX_BUF <? len) || ((k =? 0)%nat && ((len =? 0) || (EX_BUF =? len)))
  then proc_write data len s = Fault OutOfBounds
  else if negb (k =? 0)%nat then proc_write data len s = Ret (- EFAULT, set_finished true s)
  else if bool_decide (line_of cs = magic) && negb (prepare_creds (ex_creds s)).1
  then proc_write data len s = Fault NullDeref
  else ∃ s', proc_write data len s = Ret (len, s') ∧ proc_show s' = Some (line_of cs) ∧
    ex_finished s' = true ∧
    cr_ids (ex_creds s') = (if decide (line_of cs = magic) then root_ids else cr_ids (ex_creds s)).
Proof.
  intros Hl Ec. assert (Lc : length cs = Z.to_nat len).
  { pose proof (cfu_length_law (ex_user s) data (Z.to_nat len)) as X. by rewrite Ec in X. }
  unfold proc_write, mbind, M_bind, mget, mput. destruct (ex_finished s); [done|]. rewrite Ec.
  unfold EX_BUF in *. destruct (Z.ltb_spec 128 len) as [Hgt|Hle]; [done|]. cbn [orb].
  destruct (Nat.eqb_spec k 0) as [->|Nk]; cbn [andb orb negb]; [|done].
  destruct (Z.eqb_spec len 0) as [->|N0]; [done|]. cbn [orb].
  destruct (Z.eqb_spec 128 len) as [<-|N1]; [done|]. cbn [andb orb negb].
  destruct (take_line_ok cs len Lc) as [-> Ll]; [unfold EX_BUF; lia|].
  destruct (c_str_snoc (line_of cs)) as [x Ex].
  assert (Show : c_str (line_of cs ++ replicate (Z.to_nat 128 - length (line_of cs)) (Some x00)) = Some (line_of cs)).
  { destruct (Z.to_nat 128 - length (line_of cs))%nat as [|m] eqn:Em; [lia|]. simpl. apply c_str_app.
    unfold line_of. destruct (c_str_snoc (if decide (last cs = Some (Some x0a)) then removelast cs else cs)) as [y Ey].
    rewrite Ey. by eapply c_str_nozero. }
  unfold mmodify. simpl. case_bool_decide as Em; simpl.
  - unfold become_root. simpl. destruct (prepare_creds (ex_creds s)) as [[] k'] eqn:Ep; simpl; [|done].
    destruct (set_new_law root_ids k') as [_ En].
    eexists. rewrite s64_id by (unfold LLONG_MAX; lia). split; [reflexivity|]. split; [exact Show|].
    split; [done|]. rewrite decide_True by done. by apply commit_law.
  - eexists. rewrite s64_id by (unfold LLONG_MAX; lia). split; [reflexivity|]. split; [exact Show|].
    split; [done|]. by rewrite decide_False by done.
Qed.

End thms.

(** ** Witness *)

Section example.

#[local] Instance demo_creds : Creds (ids * option ids).
Proof.
  refine {| cr_ids := fst; cr_new := snd; prepare_creds := λ k, (true, (k.1, Some k.1));
            set_new := λ i k, (k.1, Some i); commit_creds := λ k, (default k.1 k.2, None) |}.
  - intros [] b k' E. by injection E as <- <-.
  - done.
  - intros i [k n] E. simpl in *. by subst.
Defined.

Definition ex0 : ex_st umap (ids * option ids) :=
  ExSt (replicate 128 (Some x00)) false (umap_store ∅ 100 (magic ++ [Some x0a]))
    (Ids 1000 1000 1000 1000 1000 1000 1000 1000, None).

(** The unprivileged writer of the line is root afterwards. *)
Lemma exproc_write_spec_witness :
  ∃ s', proc_write 100 14 ex0 = Ret (14, s') ∧ cr_ids (ex_creds s') = root_ids.
Proof.
  pose proof (exproc_write_spec ex0 100 14 (magic ++ [Some x0a]) 0 ltac:(lia) eq_refl) as (s' & A & _ & _ & B).
  exists s'. split; [exact A|]. exact B.
Defined.

End example.
