(* ===== verification/ShowMem.v ===== *)
(** The memory viewer (src/m_modules/mm/show_mem.c): what it prints of a
    process and of its virtual memory areas, and what it leaves behind. *)
From Stdlib Require Import ZArith Lia.
From stdpp Require Import base list gmap.
From S2P Require Import Prelude Kernel ChrReg.

Definition BUF_SIZE := 1024.
Definition PAGE_MASK := u64 (- PAGE_SIZE).
Definition PAGE_ALIGN (x : Z) : Z := Z.land (u64 (x + (PAGE_SIZE - 1))) PAGE_MASK.
Definition VM_READ := 1.
Definition VM_WRITE := 2.
Definition VM_EXEC := 4.
Definition VM_MAYSHARE := 128.
Definition MINOR (dev : Z) : Z := Z.land dev 1048575.

Section show_mem.
(** [d_path p n] is what %s prints of the kernel's d_path of [p] in a buffer of
    [n] bytes. *)
Context {H P : Type} `{KernelHeap H} (d_path : P → Z → list byte).

Record file := File { f_dev : Z; f_ino : Z; f_path : P }.
Record vm_area := VmArea {
  vm_loc : loc; vm_start : Z; vm_end : Z; vm_flags : Z; vm_pgoff : Z;
  vm_file : option file;
  vm_mm : bool                           (* vm_mm is not NULL *)
}.
Record mm_struct := Mm {
  mmap : list vm_area;                   (* linked by vm_next *)
  map_count : Z;
  start_code : Z; end_code : Z; start_brk : Z; brk : Z; start_stack : Z;
  mm_total_vm : Z; mm_hiwater_vm : Z; mm_hiwater_rss : Z; locked_vm : Z; pinned_vm : Z;
  exec_vm : Z; data_vm : Z; stack_vm : Z; pgtables_bytes : Z;
  anonpages : Z; filepages : Z; shmempages : Z; swapents : Z;
  mm_users : Z;
  mmap_sem : Z                           (* how many hold it for reading *)
}.
Record task := Task { comm : list byte; task_mm : option Z }.

Inductive out :=
  | OHeader
  | ORange (vstart vend : Z)
  | OMode (r w x s : bool)
  | OOffset (o : Z)
  | ODev (major minor : Z)
  | OIno (i : Z)
  | OPath (p : list byte)
  | OVdso | OHeap | OStack | ONewline
  | OView (c : list byte)
  | OErr (n : nat)                       (* find_task_by_pid, get_task_mm, get vma *)
  | OStat (row : nat) (v : Z)            (* the rows VmPeak ... VmSwap, from 0 *).

(** The processes, their address spaces, the console. *)
Record mem_st := MemSt { ms_heap : H; ms_tasks : gmap Z task; ms_mms : gmap Z mm_struct; ms_out : list out }.
Abbreviation st := mem_st.
Implicit Types s : st.

Definition printk (l : list out) : M st unit :=
  mmodify (λ s, MemSt (ms_heap s) (ms_tasks s) (ms_mms s) (ms_out s ++ l)).
Definition mm_kmalloc (n : Z) : M st (option loc) := λ s,
  let '(r, h) := kmalloc n (ms_heap s) in Ret (r, MemSt h (ms_tasks s) (ms_mms s) (ms_out s)).
Definition mm_kfree (p : option loc) : M st unit := λ s,
  match p with
  | None => Ret (tt, s)
  | Some l => if decide (l ∈ live (ms_heap s)) then Ret (tt, MemSt (kfree l (ms_heap s)) (ms_tasks s) (ms_mms s) (ms_out s))
              else Fault BadFree
  end.
(** A write through the pointer [p]. *)
Definition use (p : option loc) : M st unit := λ s,
  match p with
  | None => Fault NullDeref
  | Some l => if decide (l ∈ live (ms_heap s)) then Ret (tt, s) else Fault OutOfBounds
  end.
Definition find_task_by_pid (pid : Z) : M st (option task) := λ s, Ret (ms_tasks s !! pid, s).
Definition load_mm (m : Z) : M st mm_struct := λ s,
  match ms_mms s !! m with Some x => Ret (x, s) | None => Fault OutOfBounds end.
Definition store_mm (m : Z) (x : mm_struct) : M st unit :=
  mmodify (λ s, MemSt (ms_heap s) (ms_tasks s) (<[m := x]> (ms_mms s)) (ms_out s)).

Definition with_users (u : Z) (x : mm_struct) : mm_struct :=
  Mm (mmap x) (map_count x) (start_code x) (end_code x) (start_brk x) (brk x) (start_stack x)
    (mm_total_vm x) (mm_hiwater_vm x) (mm_hiwater_rss x) (locked_vm x) (pinned_vm x) (exec_vm x) (data_vm x)
    (stack_vm x) (pgtables_bytes x) (anonpages x) (filepages x) (shmempages x) (swapents x) u (mmap_sem x).
Definition with_sem (r : Z) (x : mm_struct) : mm_struct :=
  Mm (mmap x) (map_count x) (start_code x) (end_code x) (start_brk x) (brk x) (start_stack x)
    (mm_total_vm x) (mm_hiwater_vm x) (mm_hiwater_rss x) (locked_vm x) (pinned_vm x) (exec_vm x) (data_vm x)
    (stack_vm x) (pgtables_bytes x) (anonpages x) (filepages x) (shmempages x) (swapents x) (mm_users x) r.

(** get_task_mm takes a reference on the address space, for mmput to release. *)
Definition get_task_mm (t : task) : M st (option Z) :=
  match task_mm t with
  | None => mret None
  | Some m => x ← load_mm m; store_mm m (with_users (mm_users x + 1) x) ≫= λ _, mret (Some m)
  end.
Definition down_read (m : Z) : M st unit := x ← load_mm m; store_mm m (with_sem (mmap_sem x + 1) x).
Definition up_read (m : Z) : M st unit := x ← load_mm m;
  if 0 <? mmap_sem x then store_mm m (with_sem (mmap_sem x - 1) x) else mfault BadUnlock.

(** The area at address [l] of a list linked by vm_next, and the next one. *)
Fixpoint vma_at (l : loc) (vs : list vm_area) : option (vm_area * option loc) :=
  match vs with
  | [] => None
  | v :: r => if decide (vm_loc v = l) then Some (v, vm_loc <$> head r) else vma_at l r
  end.

Definition is_stack (m : mm_struct) (v : vm_area) : M st bool :=
  if vm_mm v then mret ((vm_start v <=? start_stack m) && (vm_end v >=? start_stack m)) else mfault NullDeref.

(** The body of the loop of show_map. *)
Definition show_vma (m : mm_struct) (buf : option loc) (v : vm_area) : M st unit :=
  let flags := s32 (vm_flags v) in
  let has f := negb (Z.land flags f =? 0) in
  printk [ORange (vm_start v) (vm_end v)] ≫= λ _,
  printk [OMode (has VM_READ) (has VM_WRITE) (has VM_EXEC) (has VM_MAYSHARE)] ≫= λ _,
  printk [OOffset (u64 (Z.shiftl (vm_pgoff v) PAGE_SHIFT))] ≫= λ _,
  (match vm_file v with
   | Some f =>
       printk [ODev (MAJOR (f_dev f)) (MINOR (f_dev f))] ≫= λ _,
       printk [OIno (f_ino f)] ≫= λ _,
       use buf ≫= λ _,
       printk [OPath (d_path (f_path f) BUF_SIZE)]
   | None =>
       (if vm_mm v then mret tt else printk [OVdso]) ≫= λ _,
       if (vm_start v <=? brk m) && (vm_end v >=? start_brk m) then printk [OHeap]
       else b ← is_stack m v; if (b : bool) then printk [OStack] else mret tt
   end) ≫= λ _,
  printk [ONewline].

Fixpoint show_vmas (m : Z) (buf : option loc) (mm_count : nat) (vma : option loc) : M st unit :=
  match mm_count with
  | O => mret tt
  | S n =>
      match vma with
      | None => mfault NullDeref
      | Some l =>
          x ← load_mm m;
          match vma_at l (mmap x) with
          | None => mfault OutOfBounds
          | Some (v, next) => show_vma x buf v ≫= λ _, show_vmas m buf n next
          end
      end
  end.

(** [other] is what the rest of the system does while show_map does not hold
    the semaphore. *)
Definition show_map (other : st → st) (pid : Z) : M st unit :=
  buf ← mm_kmalloc BUF_SIZE;
  t ← find_task_by_pid pid;
  match t with
  | None => printk [OErr 0]
  | Some t =>
      m ← get_task_mm t;
      match m with
      | None => printk [OErr 1]
      | Some m =>
          down_read m ≫= λ _,
          x ← load_mm m;
          let vma := vm_loc <$> head (mmap x) in
          up_read m ≫= λ _,
          match vma with
          | None => printk [OErr 2]
          | Some _ =>
              printk [OHeader] ≫= λ _,
              mmodify other ≫= λ _,
              down_read m ≫= λ _,
              x ← load_mm m;
              show_vmas m buf (Z.to_nat (map_count x)) vma ≫= λ _,
              up_read m ≫= λ _,
              mm_kfree buf
          end
      end
  end.

Definition kb (pages : Z) : Z := u64 (Z.shiftl pages (PAGE_SHIFT - 10)).
(** The sizes the module computes. *)
Definition mm_peak (x : mm_struct) : Z := if mm_total_vm x <? mm_hiwater_vm x then mm_hiwater_vm x else mm_total_vm x.
Definition mm_rss (x : mm_struct) : Z := u64 (u64 (anonpages x + filepages x) + shmempages x).
Definition mm_hwm (x : mm_struct) : Z := if mm_rss x <? mm_hiwater_rss x then mm_hiwater_rss x else mm_rss x.
Definition mm_exec_bytes (x : mm_struct) : Z := u64 (Z.shiftl (exec_vm x) PAGE_SHIFT).
Definition mm_text (x : mm_struct) : Z :=
  Z.min (u64 (PAGE_ALIGN (end_code x) - Z.land (start_code x) PAGE_MASK)) (mm_exec_bytes x).
Definition mm_lib (x : mm_struct) : Z := u64 (mm_exec_bytes x - mm_text x).

Definition mm_stats (x : mm_struct) : list out :=
  imap OStat [kb (mm_peak x); kb (mm_total_vm x); kb (locked_vm x); kb (pinned_vm x); kb (mm_hwm x); kb (mm_rss x);
    kb (anonpages x); kb (filepages x); kb (shmempages x); kb (data_vm x); kb (stack_vm x);
    Z.shiftr (mm_text x) 10; Z.shiftr (mm_lib x) 10; Z.shiftr (pgtables_bytes x) 10; kb (swapents x)].

Definition seq_init (other : st → st) (pid : Z) : M st Z :=
  t ← find_task_by_pid pid;
  match t with
  | None => printk [OErr 0] ≫= λ _, mret (-1)
  | Some t =>
      printk [OView (comm t)] ≫= λ _,
      m ← get_task_mm t;
      match m with
      | None => printk [OErr 1] ≫= λ _, mret (-1)
      | Some m =>
          down_read m ≫= λ _,
          x ← load_mm m;
          printk (mm_stats x) ≫= λ _,
          up_read m ≫= λ _,
          show_map other pid ≫= λ _,
          mret 0
      end
  end.
Definition seq_exit : M st unit := mret tt.
End show_mem.

(** ** Theorems *)

Section thms.
Context {H P : Type} `{KernelHeap H} (d_path : P → Z → list byte).
Abbreviation st := (@mem_st H P).
Implicit Types (s : st) (x : @mm_struct P) (v : @vm_area P).

(** *** The sizes *)

(** The sizes computed for a process are consistent, whatever its
    counters: the peaks are at least the current sizes, and text and library
    share the executable mappings between them without wrapping around, since
    the text is clipped to them. *)
Theorem mm_sizes_consistent x :
  mm_total_vm x <= mm_peak x ∧ mm_rss x <= mm_hwm x ∧
  mm_text x + mm_lib x = mm_exec_bytes x ∧ 0 <= mm_text x ∧ 0 <= mm_lib x < 18446744073709551616.
Proof.
  unfold mm_peak, mm_hwm. split_and!; try (case_match; lia).
  all: unfold mm_lib, mm_text, mm_exec_bytes; set (a := u64 (PAGE_ALIGN _ - _)); set (b := u64 (Z.shiftl _ _));
    assert (0 <= a) by apply u64_range; assert (0 <= b < 18446744073709551616) by apply u64_range;
    rewrite ?u64_id; lia.
Qed.

(** *** The areas *)

Definition emit (l : list out) s : st := MemSt (ms_heap s) (ms_tasks s) (ms_mms s) (ms_out s ++ l).
Lemma emit_emit l k s : emit k (emit l s) = emit (l ++ k) s.
Proof. unfold emit. simpl. by rewrite app_assoc. Qed.
Lemma emit_nil s : emit [] s = s.
Proof. destruct s. unfold emit. simpl. by rewrite app_nil_r. Qed.
Lemma printk_run l s : printk l s = Ret (tt, emit l s).
Proof. done. Qed.

(** The lines of an area. *)
Definition area_kind x v : list out :=
  if (vm_start v <=? brk x) && (vm_end v >=? start_brk x) then [OHeap]
  else if (vm_start v <=? start_stack x) && (vm_end v >=? start_stack x) then [OStack] else [].
Definition area_lines x v : list out :=
  let has f := negb (Z.land (s32 (vm_flags v)) f =? 0) in
  [ORange (vm_start v) (vm_end v); OMode (has VM_READ) (has VM_WRITE) (has VM_EXEC) (has VM_MAYSHARE);
   OOffset (u64 (Z.shiftl (vm_pgoff v) PAGE_SHIFT))] ++
  (match vm_file v with
   | Some f => [ODev (MAJOR (f_dev f)) (MINOR (f_dev f)); OIno (f_ino f); OPath (d_path (f_path f) BUF_SIZE)]
   | None => area_kind x v
   end) ++ [ONewline].

Lemma use_run l s : l ∈ live (ms_heap s) → use (Some l) s = Ret (tt, s).
Proof. intros Hl. unfold use. by rewrite decide_True. Qed.

Lemma show_vma_wp x l v s : l ∈ live (ms_heap s) → vm_mm v = true →
  wp (show_vma d_path x (Some l) v) s (λ _ s', s' = emit (area_lines x v) s).
Proof.
  intros Hl Hm. unfold show_vma, area_lines, area_kind, is_stack. do 3 (apply wp_bind; rewrite ?emit_emit; unfold wp at 1; rewrite printk_run).
  rewrite !emit_emit. apply wp_bind. destruct (vm_file v) as [f|].
  - do 2 (apply wp_bind; unfold wp at 1; rewrite printk_run; rewrite ?emit_emit).
    apply wp_bind. unfold wp at 1. rewrite use_run by done. unfold wp at 1. rewrite printk_run, emit_emit.
    unfold wp. by rewrite printk_run, emit_emit.
  - rewrite Hm. apply wp_bind, wp_ret. case_match; simpl.
    { unfold wp at 1. rewrite printk_run, emit_emit. unfold wp. by rewrite printk_run, emit_emit. }
    apply wp_bind, wp_ret. case_match; [|apply wp_ret]; unfold wp at 1; rewrite printk_run, emit_emit; [|done].
    unfold wp. by rewrite printk_run, emit_emit.
Qed.

Lemma vma_at_found vs1 v vs2 : NoDup (vm_loc <$> (vs1 ++ v :: vs2)) →
  vma_at (vm_loc v) (vs1 ++ v :: vs2) = Some (v, vm_loc <$> head vs2).
Proof.
  induction vs1 as [|w vs1 IH]; simpl; intros ND; [by rewrite decide_True|].
  apply NoDup_cons in ND as [Hn ND]. rewrite decide_False; [by apply IH|]. intros E. apply Hn.
  rewrite E, fmap_app. set_solver.
Qed.

Lemma show_vmas_wp m l x vs1 vs2 s : l ∈ live (ms_heap s) → ms_mms s !! m = Some x → mmap x = vs1 ++ vs2 →
  NoDup (vm_loc <$> mmap x) → Forall (λ v, vm_mm v = true) vs2 →
  wp (show_vmas d_path m (Some l) (length vs2) (vm_loc <$> head vs2)) s (λ _ s', s' = emit (vs2 ≫= area_lines x) s).
Proof.
  intros Hl Em. revert vs1 s Hl Em. induction vs2 as [|v vs2 IH]; intros vs1 s Hl Em Ex ND F.
  { apply wp_ret. by rewrite emit_nil. }
  inversion_clear F as [|? ? Hv F']. cbn [show_vmas length head fmap option_fmap option_map].
  apply wp_bind. unfold load_mm, wp at 1. rewrite Em. rewrite Ex in ND |- *. rewrite vma_at_found by done.
  apply wp_bind. eapply wp_mono; [|by apply show_vma_wp]. intros [] s' ->. rewrite <- Ex in ND.
  eapply wp_mono; [|apply (IH (vs1 ++ [v]) (emit (area_lines x v) s)); [done|done|by rewrite <- app_assoc|done|done]].
  intros [] s' ->. by rewrite emit_emit.
Qed.

(** *** show_map *)

Record mm_wf x : Prop := {
  mw_count : map_count x = Z.of_nat (length (mmap x));
  mw_some : mmap x ≠ [];
  mw_nodup : NoDup (vm_loc <$> mmap x);
  mw_mm : Forall (λ v, vm_mm v = true) (mmap x);
  mw_sem : 0 <= mmap_sem x
}.
Definition process s (pid : Z) (t : task) (m : Z) x : Prop :=
  ms_tasks s !! pid = Some t ∧ task_mm t = Some m ∧ ms_mms s !! m = Some x.
(** The state with the address space [m] replaced. *)
Definition put_mm (m : Z) x s : st := MemSt (ms_heap s) (ms_tasks s) (<[m := x]> (ms_mms s)) (ms_out s).

Lemma get_task_mm_run s pid t m x : process s pid t m x →
  get_task_mm t s = Ret (Some m, put_mm m (with_users (mm_users x + 1) x) s).
Proof. intros (_ & Et & Em). unfold get_task_mm. rewrite Et. unfold load_mm, store_mm, mmodify, mbind, M_bind. by rewrite Em. Qed.
Lemma load_mm_run m x s : ms_mms s !! m = Some x → load_mm m s = Ret (x, s).
Proof. intros E. unfold load_mm. by rewrite E. Qed.
Lemma down_read_run m x s : ms_mms s !! m = Some x → down_read m s = Ret (tt, put_mm m (with_sem (mmap_sem x + 1) x) s).
Proof. intros E. unfold down_read, mbind, M_bind. by rewrite (load_mm_run _ _ _ E). Qed.
Lemma up_read_run m x s : ms_mms s !! m = Some x → 0 < mmap_sem x →
  up_read m s = Ret (tt, put_mm m (with_sem (mmap_sem x - 1) x) s).
Proof. intros E L. unfold up_read, mbind, M_bind. rewrite (load_mm_run _ _ _ E). by rewrite (proj2 (Z.ltb_lt _ _) L). Qed.
Lemma put_mm_put m x y s : put_mm m y (put_mm m x s) = put_mm m y s.
Proof. unfold put_mm. simpl. by rewrite insert_insert_eq. Qed.
Lemma emit_put m x l s : emit l (put_mm m x s) = put_mm m x (emit l s).
Proof. done. Qed.
Lemma with_sem_back x r : with_sem r (with_sem (mmap_sem x + 1) x) = with_sem r x.
Proof. done. Qed.
Lemma with_sem_id x r : r = mmap_sem x → with_sem r x = x.
Proof. intros ->. by destruct x. Qed.
Lemma put_mm_lookup m x s : ms_mms (put_mm m x s) !! m = Some x.
Proof. simpl. by rewrite lookup_insert_eq. Qed.

Definition set_ms_heap (h : H) s : st := MemSt h (ms_tasks s) (ms_mms s) (ms_out s).
Lemma mm_kmalloc_run n s l h : kmalloc n (ms_heap s) = (l, h) → mm_kmalloc n s = Ret (l, set_ms_heap h s).
Proof. intros E. unfold mm_kmalloc. by rewrite E. Qed.

(** What show_map prints of a process and does to the state: the reference it
    takes on the address space stays. *)
Definition shown_map (m : Z) x (h : H) s : st :=
  emit (OHeader :: (mmap x ≫= area_lines x)) (put_mm m (with_users (mm_users x + 1) x) (set_ms_heap h s)).

Lemma show_map_enter other s pid t m x v vs p h x2 : process s pid t m x → 0 <= mmap_sem x → mmap x = v :: vs →
  kmalloc BUF_SIZE (ms_heap s) = (p, h) →
  let s2 := other (put_mm m (with_users (mm_users x + 1) x) (emit [OHeader] (set_ms_heap h s))) in
  ms_mms s2 !! m = Some x2 →
  show_map d_path other pid s =
    (show_vmas d_path m p (Z.to_nat (map_count x2)) (Some (vm_loc v)) ≫= λ _, up_read m ≫= λ _, mm_kfree p)
    (put_mm m (with_sem (mmap_sem x2 + 1) x2) s2).
Proof.
  intros Pr Se Ex Ek s2 E2. pose proof Pr as (Et & Etm & Em). unfold show_map.
  rewrite (bind_run _ _ _ _ _ (mm_kmalloc_run _ _ _ _ Ek)). set (s0 := set_ms_heap h s).
  rewrite (bind_run (find_task_by_pid pid) _ s0 s0 (Some t)) by (unfold find_task_by_pid; simpl; by rewrite Et).
  rewrite (bind_run _ _ _ _ _ (get_task_mm_run s0 pid t m x Pr)). set (x1 := with_users _ x).
  rewrite (bind_run _ _ _ _ _ (down_read_run m x1 _ (put_mm_lookup _ _ _))), put_mm_put.
  rewrite (bind_run _ _ _ _ _ (load_mm_run m _ _ (put_mm_lookup _ _ _))). simpl mmap.
  rewrite (bind_run _ _ _ _ _ (up_read_run m (with_sem (mmap_sem x1 + 1) x1) _ (put_mm_lookup _ _ _) ltac:(simpl; lia))), put_mm_put.
  rewrite with_sem_back, with_sem_id by (simpl; lia).
  rewrite Ex. change (vm_loc <$> head (v :: vs)) with (Some (vm_loc v)). cbv iota beta.
  rewrite (bind_run _ _ _ _ _ (printk_run _ _)), emit_put.
  rewrite (bind_run (mmodify other) _ _ s2 tt) by done.
  rewrite (bind_run _ _ _ _ _ (down_read_run m x2 s2 E2)).
  by rewrite (bind_run _ _ _ _ _ (load_mm_run m _ _ (put_mm_lookup _ _ _))).
Qed.

Lemma show_map_run s pid t m x l h : process s pid t m x → mm_wf x → kmalloc BUF_SIZE (ms_heap s) = (Some l, h) →
  show_map d_path id pid s = Ret (tt, shown_map m x (kfree l h) s).
Proof.
  intros Pr [Ec Es ND F Se] Ek. destruct (mmap x) as [|v vs] eqn:Ex; [done|].
  set (x1 := with_users (mm_users x + 1) x). set (s2 := put_mm m x1 (emit [OHeader] (set_ms_heap h s))).
  rewrite (show_map_enter id s pid t m x v vs (Some l) h x1 Pr Se Ex Ek (put_mm_lookup _ _ _)). unfold id. fold x1 s2.
  assert (wp (show_vmas d_path m (Some l) (Z.to_nat (map_count x1)) (Some (vm_loc v))) (put_mm m (with_sem (mmap_sem x1 + 1) x1) s2)
    (λ _ s', s' = emit (mmap x ≫= area_lines x) (put_mm m (with_sem (mmap_sem x1 + 1) x1) s2))) as W.
  { change (map_count x1) with (map_count x). rewrite Ec, Nat2Z.id, Ex.
    apply (show_vmas_wp m l (with_sem (mmap_sem x1 + 1) x1) [] (v :: vs)); [|apply put_mm_lookup|done| |done].
    - simpl. rewrite (kmalloc_live _ _ _ _ Ek). set_solver.
    - simpl. by rewrite Ex. }
  apply wp_elim in W as ([] & s' & W & ->). rewrite (bind_run _ _ _ _ _ W), emit_put.
  rewrite (bind_run _ _ _ _ _ (up_read_run m (with_sem (mmap_sem x1 + 1) x1) _ (put_mm_lookup _ _ _) ltac:(simpl; lia))), put_mm_put.
  rewrite with_sem_back, with_sem_id by (simpl; lia).
  unfold mm_kfree. simpl. rewrite decide_True by (rewrite (kmalloc_live _ _ _ _ Ek); set_solver).
  unfold shown_map, s2, emit, put_mm, set_ms_heap. simpl. rewrite insert_insert_eq, <- app_assoc. by simpl.
Qed.

Lemma seq_init_to_map other s pid t m x : process s pid t m x → 0 <= mmap_sem x →
  seq_init d_path other pid s = (show_map d_path other pid ≫= λ _, mret 0)
    (emit (OView (comm t) :: mm_stats x) (put_mm m (with_users (mm_users x + 1) x) s)).
Proof.
  intros Pr Se. pose proof Pr as (Et & Etm & Em). unfold seq_init.
  rewrite (bind_run (find_task_by_pid pid) _ s s (Some t)) by (unfold find_task_by_pid; by rewrite Et).
  rewrite (bind_run _ _ _ _ _ (printk_run _ _)).
  rewrite (bind_run _ _ _ _ _ (get_task_mm_run (emit _ s) pid t m x Pr)). set (x1 := with_users _ x).
  rewrite (bind_run _ _ _ _ _ (down_read_run m x1 _ (put_mm_lookup _ _ _))), put_mm_put.
  rewrite (bind_run _ _ _ _ _ (load_mm_run m _ _ (put_mm_lookup _ _ _))).
  rewrite (bind_run _ _ _ _ _ (printk_run _ _)), emit_put.
  rewrite (bind_run _ _ _ _ _ (up_read_run m (with_sem (mmap_sem x1 + 1) x1) _ (put_mm_lookup _ _ _) ltac:(simpl; lia))), put_mm_put.
  rewrite with_sem_back, with_sem_id by (simpl; lia). by rewrite emit_emit.
Qed.

(** For a process with an address space the module prints its sizes and one
    line per virtual memory area in address order (range, permissions, offset,
    then the file, [ heap ] or [ stack ]); it returns 0, frees its buffer and
    releases the semaphore, but the two references it took on the address
    space stay after it is unloaded. *)
Theorem show_mem_prints_and_leaks s pid t m x l h : process s pid t m x → mm_wf x →
  kmalloc BUF_SIZE (ms_heap s) = (Some l, h) →
  ∃ s', (r ← seq_init d_path id pid; seq_exit ≫= λ _, mret r) s = Ret (0, s') ∧
    ms_out s' = ms_out s ++ OView (comm t) :: mm_stats x ++ OHeader :: (mmap x ≫= area_lines x) ∧
    live (ms_heap s') = live (ms_heap s) ∧ ms_tasks s' = ms_tasks s ∧
    ms_mms s' = <[m := with_users (mm_users x + 2) x]> (ms_mms s).
Proof.
  intros Pr W Ek. set (x1 := with_users (mm_users x + 1) x).
  set (s1 := emit (OView (comm t) :: mm_stats x) (put_mm m x1 s)).
  exists (shown_map m x1 (kfree l h) s1). split_and!; [| | |done|].
  - unfold mbind at 1, M_bind. rewrite (seq_init_to_map _ _ _ _ _ _ Pr) by apply W. fold x1 s1.
    assert (process s1 pid t m x1 ∧ mm_wf x1) as [Pr1 W1].
    { destruct Pr as (Et & Etm & Em), W. split; [split_and!; [done|done|apply put_mm_lookup]|done]. }
    by rewrite (bind_run _ _ _ _ _ (show_map_run s1 pid t m x1 l h Pr1 W1 Ek)).
  - simpl. by rewrite <- app_assoc.
  - simpl. rewrite kfree_law, (kmalloc_live _ _ _ _ Ek). pose proof (kmalloc_fresh _ _ _ _ Ek). set_solver.
  - simpl. rewrite insert_insert_eq. unfold x1, with_users. simpl. do 2 f_equal. lia.
Qed.

(** The buffer of show_map is not checked: without memory, a process whose
    first area maps a file, as every program does, makes the module write
    through a null pointer, with the semaphore held. *)
Theorem show_map_no_memory s pid t m x v vs f h : process s pid t m x → mm_wf x →
  mmap x = v :: vs → vm_file v = Some f → kmalloc BUF_SIZE (ms_heap s) = (None, h) →
  seq_init d_path id pid s = Fault NullDeref.
Proof.
  intros Pr [Ec Es ND F Se] Ex Ef Ek. rewrite (seq_init_to_map _ _ _ _ _ _ Pr) by done. apply bind_fault.
  set (x1 := with_users (mm_users x + 1) x). set (s1 := emit _ (put_mm m x1 s)).
  assert (process s1 pid t m x1) as Pr1 by (destruct Pr as (Et & Etm & Em); split_and!; [done|done|apply put_mm_lookup]).
  rewrite (show_map_enter id s1 pid t m x1 v vs None h _ Pr1 Se Ex Ek (put_mm_lookup _ _ _)).
  change (map_count _) with (map_count x). rewrite Ec, Ex, Nat2Z.id. apply bind_fault. cbn [length show_vmas].
  rewrite (bind_run _ _ _ _ _ (load_mm_run m _ _ (put_mm_lookup _ _ _))).
  change (mmap _) with (mmap x). rewrite Ex. cbn [vma_at]. rewrite decide_True by done. apply bind_fault. unfold show_vma.
  rewrite Ef. do 3 rewrite (bind_run _ _ _ _ _ (printk_run _ _)). apply bind_fault.
  by do 2 rewrite (bind_run _ _ _ _ _ (printk_run _ _)).
Qed.

(** Show_map takes the first area under the semaphore, drops it and takes
    it again before following the pointer: when another thread unmaps that
    area in between, the module follows a dangling pointer. *)
Theorem show_map_race s pid t m x x' other v vs p h : process s pid t m x → 0 <= mmap_sem x → kmalloc BUF_SIZE (ms_heap s) = (p, h) →
  mmap x = v :: vs → (∀ s', ms_mms (other s') !! m = Some x') → vma_at (vm_loc v) (mmap x') = None → 0 < map_count x' →
  show_map d_path other pid s = Fault OutOfBounds.
Proof.
  intros Pr Se Ek Ex Ho Ev Hc. rewrite (show_map_enter other s pid t m x v vs p h x' Pr Se Ex Ek (Ho _)). apply bind_fault.
  destruct (Z.to_nat (map_count x')) as [|n] eqn:En; [lia|]. cbn [show_vmas].
  rewrite (bind_run _ _ _ _ _ (load_mm_run m _ _ (put_mm_lookup _ _ _))). change (mmap (with_sem _ x')) with (mmap x').
  by rewrite Ev.
Qed.
End thms.

(** ** Runs *)

Abbreviation demo_mem := (@mem_st bump (list byte)).
Definition demo_d_path (p : list byte) (n : Z) : list byte := take (Z.to_nat n) p.
Definition text_area : @vm_area (list byte) := VmArea 1%positive 4194304 4198400 5 0 (Some (File (MKDEV 8 1) 42 [x2f; x61])) true.
Definition heap_area : @vm_area (list byte) := VmArea 2%positive 8192000 8196096 3 2000 None true.
Definition stack_area : @vm_area (list byte) := VmArea 3%positive 140000000000000 140000000004096 3 0 None true.
Definition demo_mm : @mm_struct (list byte) :=
  Mm [text_area; heap_area; stack_area] 3 4194304 4194400 8192000 8196096 140000000004000 300 310 40 0 0 100 50 33 8192 10 20 5 0 1 0.
Definition demo_mem_st (oom : list bool) : demo_mem :=
  MemSt (Bump ∅ 1%positive oom) {[1 := Task [x69] (Some 7)]} {[7 := demo_mm]} [].
Lemma demo_mm_wf : mm_wf demo_mm.
Proof. split; [done|done|by apply (bool_decide_unpack _); vm_compute|by repeat constructor|done]. Qed.

Lemma show_mem_prints_and_leaks_witness :
  let s := demo_mem_st [] in
  ∃ s', (r ← seq_init demo_d_path id 1; seq_exit ≫= λ _, mret r) s = Ret (0, s') ∧
    ms_out s' = ms_out s ++ OView [x69] :: mm_stats demo_mm ++ OHeader :: (mmap demo_mm ≫= area_lines demo_d_path demo_mm) ∧
    live (ms_heap s') = live (ms_heap s) ∧ ms_tasks s' = ms_tasks s ∧
    ms_mms s' = <[7 := with_users (1 + 2) demo_mm]> (ms_mms s).
Proof.
  apply (show_mem_prints_and_leaks demo_d_path (demo_mem_st []) 1 (Task [x69] (Some 7)) 7 demo_mm 1%positive (Bump {[1%positive]} 2%positive []));
    [by split_and!|apply demo_mm_wf|vm_compute; reflexivity].
Defined.

Lemma show_map_no_memory_witness : seq_init demo_d_path id 1 (demo_mem_st [true]) = Fault NullDeref.
Proof.
  apply (show_map_no_memory demo_d_path (demo_mem_st [true]) 1 (Task [x69] (Some 7)) 7 demo_mm text_area [heap_area; stack_area]
    (File (MKDEV 8 1) 42 [x2f; x61]) (Bump ∅ 1%positive [])); [by split_and!|apply demo_mm_wf|done..].
Defined.

Lemma show_map_race_witness :
  let unmapped := Mm [heap_area] 1 4194304 4194400 8192000 8196096 140000000004000 300 310 40 0 0 100 50 33 8192 10 20 5 0 2 0 in
  show_map demo_d_path (put_mm 7 unmapped) 1 (demo_mem_st []) = Fault OutOfBounds.
Proof.
  eapply (show_map_race demo_d_path (demo_mem_st []) 1 (Task [x69] (Some 7)) 7 demo_mm _ _ text_area [heap_area; stack_area]);
    [by split_and!|done|done|done|intros s'; apply put_mm_lookup|done|done].
Defined.

(** What is printed: the rows in kB, and the kinds of the areas. *)
Example show_mem_demo : ∃ s', seq_init demo_d_path id 1 (demo_mem_st []) = Ret (0, s') ∧
  ms_out s' = [OView [x69];
    OStat 0 1240; OStat 1 1200; OStat 2 0; OStat 3 0; OStat 4 160; OStat 5 140; OStat 6 40; OStat 7 80; OStat 8 20;
    OStat 9 200; OStat 10 132; OStat 11 4; OStat 12 396; OStat 13 8; OStat 14 0;
    OHeader;
    ORange 4194304 4198400; OMode true false true false; OOffset 0; ODev 8 1; OIno 42; OPath [x2f; x61]; ONewline;
    ORange 8192000 8196096; OMode true true false false; OOffset 8192000; OHeap; ONewline;
    ORange 140000000000000 140000000004096; OMode true true false false; OOffset 0; OStack; ONewline].
Proof. eexists. split; vm_compute; reflexivity. Qed.

(** The branch for an area without an address space prints [ vdso ] and then
    follows the null vm_mm in is_stack. *)
Example vdso_faults :
  show_vma demo_d_path demo_mm None (VmArea 4%positive 100 200 5 0 None false) (demo_mem_st []) = Fault NullDeref.
Proof. vm_compute. reflexivity. Qed.
