(* ===== verification/Lru.v ===== *)
(** The viewer of the LRU lists (src/m_modules/mm/lru.c): which page frames it
    prints, and the per-node lock it takes. *)
From Stdlib Require Import ZArith Lia.
From stdpp Require Import base list.
From S2P Require Import Prelude Kernel.

(** The lists of an lruvec, each the page frame numbers from head to tail. *)
Inductive lru_list := LRU_INACTIVE_ANON | LRU_ACTIVE_ANON | LRU_INACTIVE_FILE | LRU_ACTIVE_FILE | LRU_UNEVICTABLE.
Abbreviation lruvec := (lru_list → list Z).

Record pglist_data := Pgdat { node_present_pages : Z; node_id : nat; lru_lock : bool }.

Inductive lru_out := OPfn (pfn : Z) | OTitle (l : lru_list) | ONoPages (i : nat) | OMemcg (enabled : bool).

(** The nodes, the lruvecs of the memory cgroup the kernel gives for no
    process (none when cgroups are disabled), the console. *)
Record lru_st := LruSt { ls_nodes : list (option pglist_data); ls_memcg : option (list lruvec); ls_out : list lru_out }.
Implicit Types s : lru_st.

Definition lru_print (o : lru_out) : M lru_st unit := mmodify (λ s, LruSt (ls_nodes s) (ls_memcg s) (ls_out s ++ [o])).

(** show_pfn: [src] is not changed by the loop.  [fuel] bounds its rounds. *)
Fixpoint show_pfn_loop (fuel : nat) (page_count : Z) (src : list Z) : M lru_st unit :=
  match fuel with
  | O => mret tt
  | S f =>
      match last src with
      | None => mret tt                                       (* list_empty *)
      | Some p =>
          let page_count := page_count + 1 in
          if page_count >=? 20 then mret tt
          else lru_print (OPfn p) ≫= λ _, show_pfn_loop f page_count src
      end
  end.
Definition show_pfn (src : list Z) : M lru_st unit := show_pfn_loop 20 0 src.

Definition NODE_DATA (i : nat) : M lru_st (option pglist_data) := λ s, Ret (default None (ls_nodes s !! i), s).
Definition store_node (i : nat) (n : pglist_data) : M lru_st unit :=
  mmodify (λ s, LruSt (<[i := Some n]> (ls_nodes s)) (ls_memcg s) (ls_out s)).
Definition spin_lock_irq (i : nat) : M lru_st unit :=
  n ← NODE_DATA i;
  match n with
  | None => mfault NullDeref
  | Some n => if lru_lock n then mfault SelfDeadlock else store_node i (Pgdat (node_present_pages n) (node_id n) true)
  end.
Definition spin_unlock_irq (i : nat) : M lru_st unit :=
  n ← NODE_DATA i;
  match n with
  | None => mfault NullDeref
  | Some n => if lru_lock n then store_node i (Pgdat (node_present_pages n) (node_id n) false) else mfault BadUnlock
  end.
Definition get_mem_cgroup_from_mm : M lru_st (option (list lruvec)) := λ s, Ret (ls_memcg s, s).
Definition mem_cgroup_nodeinfo (memcg : option (list lruvec)) (nid : nat) : M lru_st lruvec :=
  match memcg with
  | None => mfault NullDeref
  | Some vs => match vs !! nid with Some v => mret v | None => mfault OutOfBounds end
  end.

Definition show_one (v : lruvec) (l : lru_list) : M lru_st unit := lru_print (OTitle l) ≫= λ _, show_pfn (v l).
Definition show_node (i : nat) : M lru_st unit :=
  n ← NODE_DATA i;
  match n with
  | None => mret tt
  | Some p =>
      if node_present_pages p =? 0 then lru_print (ONoPages i) else
      spin_lock_irq i ≫= λ _,
      memcg ← get_mem_cgroup_from_mm;
      v ← mem_cgroup_nodeinfo memcg (node_id p);
      show_one v LRU_ACTIVE_FILE ≫= λ _,
      show_one v LRU_INACTIVE_FILE ≫= λ _,
      show_one v LRU_ACTIVE_ANON ≫= λ _,
      show_one v LRU_INACTIVE_ANON ≫= λ _,
      show_one v LRU_UNEVICTABLE ≫= λ _,
      spin_unlock_irq i
  end.
(** [MAX_NUMNODES] is the number of entries of [ls_nodes]. *)
Definition show_list (MAX_NUMNODES : nat) : M lru_st unit := mfor 0 MAX_NUMNODES show_node.
Definition show_lru_init (MAX_NUMNODES : nat) : M lru_st Z :=
  s ← mget;
  lru_print (OMemcg (match ls_memcg s with Some _ => true | None => false end)) ≫= λ _,
  show_list MAX_NUMNODES ≫= λ _, mret 0.

(** ** Theorems *)

Definition lemit (l : list lru_out) s : lru_st := LruSt (ls_nodes s) (ls_memcg s) (ls_out s ++ l).
Lemma lemit_app l k s : lemit k (lemit l s) = lemit (l ++ k) s.
Proof. unfold lemit. simpl. by rewrite app_assoc. Qed.
Lemma lru_print_run o s : lru_print o s = Ret (tt, lemit [o] s).
Proof. done. Qed.

(** What is printed of a list: its last page, 19 times. *)
Definition pfn_lines (src : list Z) : list lru_out :=
  match last src with Some p => replicate 19 (OPfn p) | None => [] end.

Lemma show_pfn_loop_run p src k fuel s : last src = Some p → (k < 20 ≤ k + fuel)%nat →
  show_pfn_loop fuel (Z.of_nat k) src s = Ret (tt, lemit (replicate (19 - k) (OPfn p)) s).
Proof.
  intros El. revert k s. induction fuel as [|fuel IH]; intros k s Hk; [lia|]. cbn [show_pfn_loop]. rewrite El, Z.geb_leb.
  destruct (Z.leb_spec 20 (Z.of_nat k + 1)).
  - replace (19 - k)%nat with O by lia. unfold lemit. simpl. rewrite app_nil_r. by destruct s.
  - rewrite (bind_run _ _ _ _ _ (lru_print_run _ _)). replace (Z.of_nat k + 1) with (Z.of_nat (S k)) by lia.
    rewrite IH by lia. rewrite lemit_app. by replace (19 - k)%nat with (S (19 - S k)) by lia.
Qed.

Lemma show_pfn_fuel src fuel s : (20 ≤ fuel)%nat → show_pfn_loop fuel 0 src s = Ret (tt, lemit (pfn_lines src) s).
Proof.
  intros Hf. unfold pfn_lines. destruct (last src) as [p|] eqn:El.
  - apply (show_pfn_loop_run p src 0); done || lia.
  - destruct fuel; [lia|]. cbn [show_pfn_loop]. rewrite El. unfold lemit. rewrite app_nil_r. by destruct s.
Qed.
Lemma show_pfn_run src s : show_pfn src s = Ret (tt, lemit (pfn_lines src) s).
Proof. by apply show_pfn_fuel. Qed.

(** Show_pfn terminates on every list, after 20 rounds at most: more fuel
    changes nothing.  It prints the last page of the list 19 times, and nothing
    of the others, for prev_page(p) is thrown away at the next round. *)
Theorem show_pfn_last_page src fuel s : (20 ≤ fuel)%nat →
  show_pfn_loop fuel 0 src s = show_pfn src s ∧ show_pfn src s = Ret (tt, lemit (pfn_lines src) s).
Proof. intros Hf. by rewrite show_pfn_run, show_pfn_fuel. Qed.

Definition list_lines (v : lruvec) (l : lru_list) : list lru_out := OTitle l :: pfn_lines (v l).
Definition lruvec_lines (v : lruvec) : list lru_out :=
  [LRU_ACTIVE_FILE; LRU_INACTIVE_FILE; LRU_ACTIVE_ANON; LRU_INACTIVE_ANON; LRU_UNEVICTABLE] ≫= list_lines v.
Definition node_lines (vs : list lruvec) (i : nat) (n : option pglist_data) : list lru_out :=
  match n with
  | None => []
  | Some p => if node_present_pages p =? 0 then [ONoPages i]
              else match vs !! node_id p with Some v => lruvec_lines v | None => [] end
  end.
Lemma show_one_run v l s : show_one v l s = Ret (tt, lemit (list_lines v l) s).
Proof. unfold show_one. rewrite (bind_run _ _ _ _ _ (lru_print_run _ _)), show_pfn_run. by rewrite lemit_app. Qed.

Definition node_ready (vs : list lruvec) (n : option pglist_data) : Prop :=
  match n with Some p => lru_lock p = false ∧ (node_id p < length vs)%nat | None => True end.

Lemma show_node_run vs i n s : ls_nodes s !! i = Some n → ls_memcg s = Some vs → node_ready vs n →
  show_node i s = Ret (tt, lemit (node_lines vs i n) s).
Proof.
  intros Ei Em R. unfold show_node, NODE_DATA, mbind, M_bind. rewrite Ei. simpl.
  destruct n as [[pp nid lk]|]; simpl in *; [|unfold lemit; rewrite app_nil_r; by destruct s].
  destruct (Z.eqb_spec pp 0); [done|]. destruct R as [-> Hid].
  unfold spin_lock_irq, NODE_DATA, mbind, M_bind. rewrite Ei. simpl. rewrite Em. simpl.
  destruct (lookup_lt_is_Some_2 _ _ Hid) as [v ->]. unfold mret, M_ret. cbv beta iota.
  rewrite !show_one_run, !lemit_app. cbv beta iota. unfold spin_unlock_irq, NODE_DATA, mbind, M_bind. simpl.
  rewrite list_lookup_insert_eq by (by eapply lookup_lt_Some). simpl. unfold store_node, mmodify, lemit. simpl.
  rewrite list_insert_insert_eq, list_insert_id by done. 
  unfold lruvec_lines. simpl. by rewrite app_nil_r, Em.
Qed.

Lemma show_nodes_run vs s n i : ls_memcg s = Some vs → Forall (node_ready vs) (ls_nodes s) → (i + n = length (ls_nodes s))%nat →
  ∀ l, ∃ k, mfor i n show_node (lemit l s) = Ret (tt, lemit k s) ∧ k = l ++ concat (imap (λ j, node_lines vs (i + j)) (drop i (ls_nodes s))).
Proof.
  intros Em R. revert i. induction n as [|n IH]; intros i Hi l.
  { exists l. split; [done|]. rewrite drop_ge by lia. by rewrite app_nil_r. }
  destruct (lookup_lt_is_Some_2 (ls_nodes s) i) as [x Ex]; [lia|]. cbn [mfor].
  rewrite (bind_run _ _ _ _ _ (show_node_run vs i x (lemit l s) Ex Em (Forall_lookup_1 _ _ _ _ R Ex))), lemit_app.
  destruct (IH (S i) ltac:(lia) (l ++ node_lines vs i x)) as (k & E & ->). eexists. split; [exact E|].
  rewrite (drop_S _ x i Ex). rewrite imap_cons. simpl. rewrite Nat.add_0_r, <- app_assoc. do 3 f_equal.
  apply imap_ext. intros j y _. unfold compose. by rewrite Nat.add_succ_r.
Qed.

(** With memory cgroups, the module prints for each node with pages the
    five lists under their titles and leaves every node's lock released. *)
Theorem show_lru_prints s vs : ls_memcg s = Some vs → Forall (node_ready vs) (ls_nodes s) →
  show_lru_init (length (ls_nodes s)) s =
    Ret (0, lemit (OMemcg true :: concat (imap (node_lines vs) (ls_nodes s))) s).
Proof.
  intros Em R. unfold show_lru_init. rewrite (bind_run mget _ s s s) by done. rewrite Em.
  rewrite (bind_run _ _ _ _ _ (lru_print_run _ _)). unfold show_list.
  destruct (show_nodes_run vs s (length (ls_nodes s)) 0 Em R eq_refl [OMemcg true]) as (k & E & ->).
  by rewrite (bind_run _ _ _ _ _ E).
Qed.

(** Without memory cgroups the module says so and goes on: the first node
    with pages makes it follow a null pointer, with the node's lock held and
    interrupts off. *)
Theorem show_lru_disabled_faults s p r : ls_memcg s = None → ls_nodes s = Some p :: r →
  node_present_pages p ≠ 0 → lru_lock p = false →
  show_lru_init (length (ls_nodes s)) s = Fault NullDeref.
Proof.
  intros Em En Hp Hl. unfold show_lru_init. rewrite (bind_run mget _ s s s) by done. rewrite Em.
  rewrite (bind_run _ _ _ _ _ (lru_print_run _ _)). apply bind_fault. rewrite En. unfold show_list. simpl. apply bind_fault.
  unfold show_node, NODE_DATA, mbind, M_bind. simpl. rewrite En. simpl. rewrite (proj2 (Z.eqb_neq _ _) Hp).
  unfold spin_lock_irq, NODE_DATA, mbind, M_bind. simpl. rewrite En. simpl. rewrite Hl. simpl. by rewrite Em.
Qed.

(** ** Runs *)

Definition demo_lruvec : lruvec := λ l, match l with LRU_ACTIVE_FILE => [10; 11; 12] | LRU_ACTIVE_ANON => [20] | _ => [] end.
Definition demo_lru (memcg : bool) : lru_st :=
  LruSt [Some (Pgdat 1000 0 false); None; Some (Pgdat 0 1 false)] (if memcg then Some [demo_lruvec; demo_lruvec] else None) [].

Lemma show_pfn_last_page_witness :
  show_pfn_loop 25 0 [10; 11; 12] (demo_lru true) = show_pfn [10; 11; 12] (demo_lru true) ∧
  show_pfn [10; 11; 12] (demo_lru true) = Ret (tt, lemit (replicate 19 (OPfn 12)) (demo_lru true)).
Proof. apply (show_pfn_last_page [10; 11; 12] 25). lia. Defined.
Lemma show_lru_prints_witness :
  show_lru_init 3 (demo_lru true) =
    Ret (0, lemit (OMemcg true :: concat (imap (node_lines [demo_lruvec; demo_lruvec]) (ls_nodes (demo_lru true)))) (demo_lru true)).
Proof. apply (show_lru_prints (demo_lru true)); [done|]. repeat constructor; simpl; lia. Defined.
Lemma show_lru_disabled_faults_witness : show_lru_init 3 (demo_lru false) = Fault NullDeref.
Proof. by apply (show_lru_disabled_faults (demo_lru false) (Pgdat 1000 0 false) [None; Some (Pgdat 0 1 false)]). Defined.
