(* ===== verification/FindTable.v ===== *)
(** The search for the system call table (src/m_modules/basic/find_table.c) and
    the calls between two modules (basic/callee.c, caller.c).

    The search reads kernel memory word by word; [mem] gives the words that are
    mapped.  The number of the close system call and the address of its function
    belong to the kernel and are parameters. *)
From Stdlib Require Import ZArith Lia.
From stdpp Require Import base list gmap.
From S2P Require Import Prelude Kernel.

#[local] Arguments Z.to_nat : simpl never.
#[local] Arguments Z.mul : simpl never.

Definition START_CHECK := 0xffffffff81000000.
Definition END_CHECK := 0xffffffffa2000000.
Definition sizeof_ptr := 8.

Section search.
Variable mem : Z → option Z.
Variable __NR_close : Z.
Variable ksys_close : Z.

(** p[__NR_close] of the table that would begin at [ptr]. *)
Definition close_entry (ptr : Z) : Z := u64 (ptr + sizeof_ptr * __NR_close).

(** The loop from [ptr]; [fuel] rounds at most. *)
Fixpoint find_from (fuel : nat) (ptr stop : Z) : outcome (option Z) :=
  match fuel with
  | O => Ret None
  | S fuel' =>
      if ptr <? stop then
        match mem (close_entry ptr) with
        | None => Fault OutOfBounds
        | Some w => if w =? ksys_close then Ret (Some ptr) else find_from fuel' (u64 (ptr + sizeof_ptr)) stop
        end
      else Ret None
  end.
Definition rounds (ptr stop : Z) : nat := Z.to_nat ((stop - ptr + (sizeof_ptr - 1)) / sizeof_ptr).
Definition find_system_call_table : outcome (option Z) :=
  find_from (rounds START_CHECK END_CHECK) START_CHECK END_CHECK.

(** What the module prints. *)
Inductive sct_out := OTable (p : Z) | ONotFound.
Definition sct_init : outcome (Z * sct_out) :=
  match find_system_call_table with
  | Ret (Some p) => Ret (0, OTable p)
  | Ret None => Ret (0, ONotFound)
  | Fault f => Fault f
  end.

(** ** Theorems *)

(** A table candidate whose close entry is not the function, or is it. *)
Definition misses (p : Z) : Prop := ∃ w, mem (close_entry p) = Some w ∧ w ≠ ksys_close.
Definition candidate (ptr stop p : Z) : Prop := ptr <= p < stop ∧ (sizeof_ptr | p - ptr).

(** The first candidate that does not miss decides. *)
Definition first_at (ptr stop p : Z) : Prop :=
  candidate ptr stop p ∧ ∀ q, candidate ptr p q → misses q.

Definition search_result (ptr stop : Z) (r : outcome (option Z)) : Prop :=
  match r with
  | Ret (Some p) => first_at ptr stop p ∧ mem (close_entry p) = Some ksys_close
  | Ret None => ∀ q, candidate ptr stop q → misses q
  | Fault f => f = OutOfBounds ∧ ∃ p, first_at ptr stop p ∧ mem (close_entry p) = None
  end.

Lemma candidate_next ptr stop q : candidate ptr stop q ↔ (q = ptr ∧ ptr < stop) ∨ candidate (ptr + sizeof_ptr) stop q.
Proof.
  unfold candidate, sizeof_ptr. split.
  - intros [Hq [k Hk]]. destruct (decide (k = 0)) as [->|N]; [left; lia|right]. split; [lia|]. exists (k - 1). lia.
  - intros [[-> Hs]|[Hq [k Hk]]]; (split; [lia|]); [exists 0; lia|exists (k + 1); lia].
Qed.

Lemma first_at_next ptr stop p : misses ptr → ptr < stop → first_at (ptr + sizeof_ptr) stop p → first_at ptr stop p.
Proof.
  intros Hm Hs [Hp Hq]. split; [apply candidate_next; by right|].
  intros q [[-> _]|Hc]%candidate_next; [done|by apply Hq].
Qed.

Lemma find_from_spec fuel : ∀ ptr stop, 0 <= ptr → stop + sizeof_ptr < 2 ^ 64 → (rounds ptr stop ≤ fuel)%nat →
  search_result ptr stop (find_from fuel ptr stop).
Proof.
  unfold rounds. induction fuel as [|fuel IH]; intros ptr stop Hp Hs Hf; cbn [find_from].
  { intros q [Hq _]. unfold sizeof_ptr in *. assert ((stop - ptr + (8 - 1)) / 8 <= 0) by lia.
    Z.div_mod_to_equations. lia. }
  destruct (Z.ltb_spec ptr stop) as [Hlt|Hge]; [|intros q [Hq _]; lia].
  assert (First : first_at ptr stop ptr).
  { split; [apply candidate_next; by left|]. intros q [Hq _]. lia. }
  destruct (mem (close_entry ptr)) as [w|] eqn:Ew; [|split; [done|by exists ptr]].
  destruct (Z.eqb_spec w ksys_close) as [->|Nw]; [by split|].
  assert (Hm : misses ptr) by by exists w.
  rewrite (u64_id (ptr + sizeof_ptr)) by (unfold sizeof_ptr in *; lia).
  assert (IH' : search_result (ptr + sizeof_ptr) stop (find_from fuel (ptr + sizeof_ptr) stop)).
  { apply IH; unfold sizeof_ptr in *; [lia|lia|]. Z.div_mod_to_equations. lia. }
  clear IH. rename IH' into IH. destruct (find_from fuel _ _) as [[p|]|f]; simpl in *.
  - destruct IH as [F E]. split; [by apply first_at_next|done].
  - intros q [[-> _]|Hc]%candidate_next; [done|by apply IH].
  - destruct IH as (-> & p & F & E). split; [done|]. exists p. split; [by apply first_at_next|done].
Qed.

(** The loop needs no more rounds than there are words between the bounds. *)
Lemma find_from_fuel fuel : ∀ ptr stop, 0 <= ptr → stop + sizeof_ptr < 2 ^ 64 → (rounds ptr stop ≤ fuel)%nat →
  find_from fuel ptr stop = find_from (rounds ptr stop) ptr stop.
Proof.
  induction fuel as [|fuel IH]; intros ptr stop Hp Hs Hf.
  { by replace (rounds ptr stop) with O by lia. }
  cbn [find_from]. destruct (Z.ltb_spec ptr stop) as [Hlt|Hge].
  - assert (R : rounds ptr stop = S (rounds (ptr + sizeof_ptr) stop)).
    { unfold rounds, sizeof_ptr. replace (stop - ptr + (8 - 1)) with (stop - (ptr + 8) + (8 - 1) + 1 * 8) by lia.
      rewrite Z.div_add by lia. rewrite Z2Nat.inj_add; [lia|Z.div_mod_to_equations; lia|lia]. }
    rewrite R. cbn [find_from]. rewrite (proj2 (Z.ltb_lt _ _) Hlt).
    destruct (mem (close_entry ptr)); [|done]. destruct (_ =? _); [done|].
    rewrite (u64_id (ptr + sizeof_ptr)) by (unfold sizeof_ptr in *; lia).
    apply IH; [unfold sizeof_ptr in *; lia|done|lia].
  - destruct (rounds ptr stop); [done|]. cbn [find_from]. by rewrite (proj2 (Z.ltb_ge _ _) Hge).
Qed.

(** The search ends, after as many rounds as there are words between the
    bounds at most (more fuel changes nothing), and decides: it prints the first
    aligned address whose close entry is the function, it prints that there is
    none when all words looked at are something else, and it runs into unmapped
    memory exactly when a word before the first match is not mapped. *)
Theorem sct_init_finds_first :
  (∀ fuel, (rounds START_CHECK END_CHECK ≤ fuel)%nat →
     find_from fuel START_CHECK END_CHECK = find_system_call_table) ∧
  match sct_init with
  | Ret (r, OTable p) => r = 0 ∧ first_at START_CHECK END_CHECK p ∧ mem (close_entry p) = Some ksys_close
  | Ret (r, ONotFound) => r = 0 ∧ ∀ q, candidate START_CHECK END_CHECK q → misses q
  | Fault f => f = OutOfBounds ∧ ∃ p, first_at START_CHECK END_CHECK p ∧ mem (close_entry p) = None
  end.
Proof.
  assert (B1 : 0 <= START_CHECK) by (unfold START_CHECK; lia).
  assert (B2 : END_CHECK + sizeof_ptr < 2 ^ 64) by (unfold END_CHECK, sizeof_ptr; lia).
  split; [intros fuel Hf; by apply find_from_fuel|].
  pose proof (find_from_spec _ START_CHECK END_CHECK B1 B2 (le_n _)) as Sp.
  unfold sct_init, find_system_call_table. by destruct (find_from _ _ _) as [[p|]|f].
Qed.

End search.

(** ** callee.c and caller.c: functions of one module called from another *)

(** int arithmetic: the result where it does not overflow, [None] (no meaning
    in C) where it does. *)
Definition int_ok (z : Z) : option Z := if (-2147483648 <=? z) && (z <=? INT_MAX) then Some z else None.
Definition add (a b : Z) : option Z := int_ok (a + b).
Definition sub (a b : Z) : option Z := int_ok (a - b).
Definition init_caller : Z * list (option Z) := (0, [add 3 2; sub 3 2]).

(** Subtraction undoes addition where both are defined. *)
Lemma sub_add a b c : -2147483648 <= a <= INT_MAX → add a b = Some c → sub c b = Some a.
Proof.
  unfold add, sub, int_ok. intros Ha E. case_match; simplify_eq. replace (a + b - b) with a by lia.
  by rewrite (proj2 (Z.leb_le _ _)), (proj2 (Z.leb_le _ _)) by lia.
Qed.
Example init_caller_prints : init_caller = (0, [Some 5; Some 1]).
Proof. reflexivity. Qed.

Example finds_third : find_from (λ a, if a <? 100 then Some a else None) 1 24 4 0 64 = Ret (Some 16).
Proof. reflexivity. Qed.
Example runs_into_hole : find_from (λ a, if a <? 20 then Some a else None) 1 99 8 0 64 = Fault OutOfBounds.
Proof. reflexivity. Qed.

(** A table two words behind the start, its close entry the fourth word. *)
Definition demo_words (a : Z) : option Z := Some (if a =? START_CHECK + 40 then 7 else 0).
Lemma sct_init_finds_first_witness : sct_init demo_words 3 7 = Ret (0, OTable (START_CHECK + 16)).
Proof.
  destruct (sct_init_finds_first demo_words 3 7) as [_ T].
  destruct (sct_init demo_words 3 7) as [[r [p|]]|f].
  - destruct T as (-> & [[Hp _] _] & E). unfold demo_words in E. injection E as E.
    destruct (Z.eqb_spec (close_entry 3 p) (START_CHECK + 40)) as [Ep|]; [|done].
    unfold close_entry, sizeof_ptr in Ep. rewrite u64_id in Ep by (unfold START_CHECK, END_CHECK in *; lia).
    do 3 f_equal. lia.
  - exfalso. destruct T as [_ T]. destruct (T (START_CHECK + 16)) as (w & E & N).
    { split; [unfold START_CHECK, END_CHECK; lia|]. exists 2. unfold sizeof_ptr. lia. }
    apply N. by injection E as <-.
  - exfalso. by destruct T as (_ & p & _ & [=]).
Defined.
