(* ===== verification/KTimer.v ===== *)
(** The periodic timer of src/m_modules/time/ktime.c.

    High-resolution timers are kernel code, the interface [HrTimer]: a timer is
    queued for a time or not, and hrtimer_forward moves the time of expiry by
    whole intervals until it lies in the future.  The module runs beside the
    clock, so its life is a step relation. *)
From Stdlib Require Import ZArith Lia.
From stdpp Require Import base list gmap relations.
From S2P Require Import Prelude Kernel.

Inductive hrtimer_restart := HRTIMER_NORESTART | HRTIMER_RESTART.

Class HrTimer (T : Type) := {
  expires : T → Z;
  queued : T → bool;
  callback_set : T → bool;                          (* hr_timer.function *)
  hrtimer_init : T → T;
  set_function : T → T;
  hrtimer_start : Z → Z → T → T;                    (* now, relative time *)
  hrtimer_forward : Z → Z → T → Z * T;              (* now, interval; overruns *)
  dequeue : T → T;                                  (* the timer fires *)
  requeue : T → T;                                  (* its callback said RESTART *)
  hrtimer_cancel : T → Z * T;
  hrtimer_resolution : Z;
  init_law : ∀ t, queued (hrtimer_init t) = false;
  set_function_law : ∀ t, callback_set (set_function t) = true ∧ queued (set_function t) = queued t ∧
    expires (set_function t) = expires t;
  start_law : ∀ now rel t, queued (hrtimer_start now rel t) = true ∧
    expires (hrtimer_start now rel t) = now + rel ∧ callback_set (hrtimer_start now rel t) = callback_set t;
  (* an interval below the resolution would be rounded up to it *)
  forward_law : ∀ now interval t n t', 0 < interval → hrtimer_resolution <= interval → queued t = false →
    hrtimer_forward now interval t = (n, t') →
    queued t' = false ∧ callback_set t' = callback_set t ∧ 0 <= n ∧ expires t' = expires t + n * interval ∧
    (now < expires t → n = 0) ∧ (expires t <= now → now < expires t' <= now + interval);
  dequeue_law : ∀ t, queued (dequeue t) = false ∧ expires (dequeue t) = expires t ∧
    callback_set (dequeue t) = callback_set t;
  requeue_law : ∀ t, queued (requeue t) = true ∧ expires (requeue t) = expires t ∧
    callback_set (requeue t) = callback_set t;
  cancel_law : ∀ t r t', hrtimer_cancel t = (r, t') → queued t' = false ∧ r = if queued t then 1 else 0
}.

(** 1e6, a double that the compiler converts exactly. *)
Definition timer_interval_ns := 1000000.
Definition NSEC_PER_SEC := 1000000000.
Definition ktime_set (secs nsecs : Z) : Z := s64 (secs * NSEC_PER_SEC + nsecs).

Section module.
Context {T : Type} `{HrTimer T}.

Definition timer_callback (now : Z) (t : T) : hrtimer_restart * T :=
  let interval := ktime_set 0 timer_interval_ns in
  (HRTIMER_RESTART, (hrtimer_forward now interval t).2).

Definition timer_init (now : Z) (t : T) : Z * T :=
  let ktime := ktime_set 0 timer_interval_ns in
  (0, hrtimer_start now ktime (set_function (hrtimer_init t))).

(** Whether the message that the timer was in use is printed. *)
Definition timer_exit (t : T) : bool * T :=
  let '(ret, t) := hrtimer_cancel t in (negb (ret =? 0), t).

(** The module between init and exit: the clock runs, and a queued timer fires
    some time after it expired. *)
Record world := World { now : Z; timer : T; fired : nat }.
Inductive tick : world → world → Prop :=
  | tick_clock w n : now w <= n → tick w (World n (timer w) (fired w))
  | tick_fire w r t : queued (timer w) = true → callback_set (timer w) = true → expires (timer w) <= now w →
      timer_callback (now w) (dequeue (timer w)) = (r, t) →
      tick w (World (now w) (match r with HRTIMER_RESTART => requeue t | HRTIMER_NORESTART => t end) (S (fired w))).

Definition loaded (at_ : Z) (t : T) : world := World at_ (timer_init at_ t).2 0.

(** ** Theorems *)

Hypothesis resolution_ok : hrtimer_resolution <= timer_interval_ns.

Lemma interval_value : ktime_set 0 timer_interval_ns = timer_interval_ns.
Proof. reflexivity. Qed.

(** The timer is queued, on the grid of the module's loading, and has fired at
    most once for every interval since. *)
Definition on_grid (t0 : Z) (w : world) : Prop :=
  queued (timer w) = true ∧ callback_set (timer w) = true ∧ t0 <= now w ∧
  ∃ k, expires (timer w) = t0 + k * timer_interval_ns ∧ Z.of_nat (fired w) + 1 <= k ∧
       (k - 1) * timer_interval_ns <= now w - t0.

Lemma loaded_on_grid t0 t : on_grid t0 (loaded t0 t).
Proof.
  unfold loaded, timer_init, on_grid. rewrite interval_value. simpl.
  destruct (start_law t0 timer_interval_ns (set_function (hrtimer_init t))) as (-> & -> & ->).
  destruct (set_function_law (hrtimer_init t)) as (-> & _ & _). split_and!; [done|done|lia|].
  exists 1. lia.
Qed.

(** Each firing puts the timer between now and one interval later. *)
Lemma fire_next t0 w w' : on_grid t0 w → tick w w' → fired w' = S (fired w) →
  now w' < expires (timer w') <= now w' + timer_interval_ns.
Proof.
  intros (Hq & Hc & Hn & k & Ek & Hf & Hk) St Ef. destruct St as [w n Hle|w r t Q C E Cb]; simpl in *; [lia|].
  unfold timer_callback in Cb. rewrite interval_value in Cb.
  destruct (hrtimer_forward (now w) timer_interval_ns (dequeue (timer w))) as [m t'] eqn:F. simplify_eq/=.
  destruct (dequeue_law (timer w)) as (D1 & D2 & D3). apply forward_law in F as (_ & _ & _ & _ & _ & G); [|done|done|done].
  destruct (requeue_law t) as (_ & -> & _). apply G. lia.
Qed.

Lemma tick_on_grid t0 w w' : on_grid t0 w → tick w w' → on_grid t0 w'.
Proof.
  intros (Hq & Hc & Hn & k & Ek & Hf & Hk) St. destruct St as [w1 n Hle|w1 r t Q C E Cb]; unfold on_grid; simpl.
  - split_and!; [done|done|lia|]. exists k. split_and!; [done|done|lia].
  - unfold timer_callback in Cb. rewrite interval_value in Cb.
    destruct (hrtimer_forward (now w1) timer_interval_ns (dequeue (timer w1))) as [m t'] eqn:F. simplify_eq/=.
    destruct (dequeue_law (timer w1)) as (D1 & D2 & D3).
    apply forward_law in F as (_ & Ec & Hm & Ex & _ & G); [|done|done|done].
    rewrite D2 in *. specialize (G E). destruct (requeue_law t) as (-> & -> & ->). rewrite Ec, D3.
    assert (1 <= m) by (unfold timer_interval_ns in *; nia).
    split_and!; [done|done|done|]. exists (k + m). unfold timer_interval_ns in *. split_and!; lia.
Qed.

(** The timer does not drift: whenever the clock is read and however late
    the timer fires, it is queued for a whole number of milliseconds after the
    module was loaded; each firing leaves it due within one millisecond, and
    it never fires more often than once a millisecond.  For that reason unloading
    always finds it active and prints that it was still in use, and leaves it
    out of the queue. *)
Theorem ktime_periodic t0 t w : rtc tick (loaded t0 t) w →
  (∃ k, expires (timer w) = t0 + k * timer_interval_ns) ∧
  Z.of_nat (fired w) * timer_interval_ns <= now w - t0 ∧
  (∀ w', tick w w' → fired w' = S (fired w) → now w' < expires (timer w') <= now w' + timer_interval_ns) ∧
  (timer_exit (timer w)).1 = true ∧ queued (timer_exit (timer w)).2 = false.
Proof.
  intros R. assert (G : on_grid t0 w).
  { pose proof (loaded_on_grid t0 t) as G0. induction R as [|x y z St _ IH]; [done|]. apply IH. by eapply tick_on_grid. }
  pose proof G as (Hq & _ & _ & k & Ek & Hf & Hk). split; [by exists k|]. split.
  { unfold timer_interval_ns in *. nia. }
  split; [intros w' St Ef; by apply (fire_next t0 w)|]. unfold timer_exit.
  destruct (hrtimer_cancel (timer w)) as [r t'] eqn:E. apply cancel_law in E as [Eq ->]. simpl. by rewrite Hq.
Qed.

End module.

(** ** A run *)

Section example.

Record demo_timer := DemoTimer { dt_expires : Z; dt_queued : bool; dt_fn : bool }.
#[local] Program Instance demo_hrtimer : HrTimer demo_timer := {
  expires := dt_expires; queued := dt_queued; callback_set := dt_fn;
  hrtimer_init t := DemoTimer 0 false false;
  set_function t := DemoTimer (dt_expires t) (dt_queued t) true;
  hrtimer_start now rel t := DemoTimer (now + rel) true (dt_fn t);
  hrtimer_forward now interval t :=
    if now <? dt_expires t then (0, t) else
    let n := (now - dt_expires t) / interval + 1 in (n, DemoTimer (dt_expires t + n * interval) (dt_queued t) (dt_fn t));
  dequeue t := DemoTimer (dt_expires t) false (dt_fn t);
  requeue t := DemoTimer (dt_expires t) true (dt_fn t);
  hrtimer_resolution := 1;
  hrtimer_cancel t := (if dt_queued t then 1 else 0, DemoTimer (dt_expires t) false (dt_fn t))
}.
Next Obligation. done. Qed.
Next Obligation. done. Qed.
Next Obligation. done. Qed.
Next Obligation.
  intros now interval t n t' Hi _ Hq. simpl. destruct (Z.ltb_spec now (dt_expires t)) as [L|L]; intros [= <- <-]; simpl.
  - split_and!; [done|done|lia|lia|done|lia].
  - assert (0 <= (now - dt_expires t) / interval) by (apply Z.div_pos; lia).
    pose proof (Z.div_mod (now - dt_expires t) interval ltac:(lia)).
    pose proof (Z.mod_pos_bound (now - dt_expires t) interval Hi).
    split_and!; [done|done|lia|done|lia|nia].
Qed.
Next Obligation. done. Qed.
Next Obligation. done. Qed.
Next Obligation. intros t r t' [= <- <-]. done. Qed.

(** Loaded at 5000, the timer fires 2.7 intervals late. *)
Definition late : world := World 2705000 (DemoTimer 1005000 true true) 0.
Lemma ktime_periodic_witness : rtc tick (loaded 5000 (DemoTimer 0 false false)) late ∧
  (∃ k, expires (timer late) = 5000 + k * timer_interval_ns) ∧ (timer_exit (timer late)).1 = true.
Proof.
  assert (R : rtc tick (loaded 5000 (DemoTimer 0 false false)) late).
  { eapply rtc_l; [|apply rtc_refl]. set (w := loaded 5000 (DemoTimer 0 false false)).
    assert (late = World 2705000 (timer w) (fired w)) as -> by (by vm_compute). apply tick_clock. by vm_compute. }
  assert (Res : hrtimer_resolution (T := demo_timer) <= timer_interval_ns) by (by vm_compute).
  destruct (ktime_periodic Res 5000 (DemoTimer 0 false false) late R) as (A & _ & _ & B & _).
  split; [exact R|]. split; [exact A|exact B].
Defined.

Example late_fires : (timer_callback 2705000 (DemoTimer 1005000 false true)).2 = DemoTimer 3005000 false true.
Proof. reflexivity. Qed.

End example.
