(* ===== verification/UioApp.v ===== *)
(** The interrupt loop of src/m_modules/uio/ex_uio.c.

    The program talks to a device through two files; what the kernel answers to
    each call is its input: the opens, the read of the command byte, and for
    every round of the loop the answers to the write and to the blocking read.
    A run whose answers end without an error is cut there: the program goes on.
    The index of the loop is an int; runs are shorter than 2^31 rounds. *)
From Stdlib Require Import ZArith Lia.
From stdpp Require Import base list.
From S2P Require Import Prelude Kernel.

#[local] Arguments Z.of_nat : simpl never.

(** What a call answers: its result, and errno after it. *)
Record answer := Answer { result : Z; errno : Z }.
(** One round: the write, and the read with the number of interrupts it gives. *)
Record round := Round { r_write : answer; r_read : answer; r_icount : Z }.

Inductive uio_out :=
  | UPerror (call : nat)             (* in the order of the source *)
  | UStarted
  | UInterrupts (icount : Z)
  | UWrite (command_high : Z).       (* pwrite of one byte at offset 5 *)

(** What the program did, and its exit status once it ended. *)
Definition trace : Type := list uio_out * option Z.

(** command_high &= ~0x4 on an unsigned char. *)
Definition clear_intx (command_high : Z) : Z := Z.land command_high (wrapu 8 (Z.lnot 4)).

(** The loop at index [i]; [icount] is what the last read gave. *)
Fixpoint uio_loop (command_high : Z) (i icount : Z) (rs : list round) : trace :=
  let msg := if i =? 0 then UStarted else UInterrupts icount in
  match rs with
  | [] => ([], None)
  | r :: rs =>
      let out := [msg; UWrite command_high] in
      if negb (result (r_write r) =? 1) then (out ++ [UPerror 3], Some (errno (r_write r)))
      else if negb (result (r_read r) =? 4) then (out ++ [UPerror 4], Some (errno (r_read r)))
      else let '(o, e) := uio_loop command_high (i + 1) (r_icount r) rs in (out ++ o, e)
  end.

Definition ex_uio (open_uio open_config pread : answer) (command_high : Z) (rs : list round) : trace :=
  if result open_uio <? 0 then ([UPerror 0], Some (errno open_uio)) else
  if result open_config <? 0 then ([UPerror 1], Some (errno open_config)) else
  if negb (result pread =? 1) then ([UPerror 2], Some (errno pread)) else
  uio_loop (clear_intx command_high) 0 0 rs.

(** ** Theorems *)

(** The rounds in which both calls did what was asked. *)
Definition served (r : round) : bool := (result (r_write r) =? 1) && (result (r_read r) =? 4).

(** The messages of [n] served rounds. *)
Fixpoint served_out (cmd i icount : Z) (rs : list round) : list uio_out :=
  match rs with
  | [] => []
  | r :: rs => (if i =? 0 then UStarted else UInterrupts icount) :: UWrite cmd :: served_out cmd (i + 1) (r_icount r) rs
  end.

Lemma uio_loop_served cmd rs : ∀ i icount, forallb served rs = true →
  uio_loop cmd i icount rs = (served_out cmd i icount rs, None).
Proof.
  induction rs as [|r rs IH]; intros i icount; simpl; [done|]. intros [[Hw Hr]%andb_true_iff Hs]%andb_true_iff.
  rewrite Hw, Hr. simpl. by rewrite IH.
Qed.
Lemma uio_loop_writes cmd rs : ∀ i icount v, UWrite v ∈ (uio_loop cmd i icount rs).1 → v = cmd.
Proof.
  induction rs as [|r rs IH]; intros i icount v; simpl; [by intros ?%elem_of_nil|].
  assert (M : ∀ o, UWrite v ∈ [if i =? 0 then UStarted else UInterrupts icount; UWrite cmd] ++ o → v = cmd ∨ UWrite v ∈ o).
  { intros o. rewrite elem_of_app, !elem_of_cons, elem_of_nil. destruct (i =? 0); naive_solver. }
  destruct (negb _); [|destruct (negb _)]; [| |destruct (uio_loop _ _ _ _) as [o e] eqn:E; simpl; intros [?|Ho]%M; [done|]].
  - simpl. intros [?|Ho]%M; [done|]. apply list_elem_of_singleton in Ho. congruence.
  - simpl. intros [?|Ho]%M; [done|]. apply list_elem_of_singleton in Ho. congruence.
  - apply (IH (i + 1) (r_icount r)). by rewrite E.
Qed.
Lemma uio_loop_ends cmd rs r rest i icount : forallb served rs = true → served r = false →
  ∃ call e, uio_loop cmd i icount (rs ++ r :: rest) =
    (served_out cmd i icount (rs ++ [r]) ++ [UPerror call], Some e) ∧
    ((call = 3%nat ∧ result (r_write r) ≠ 1 ∧ e = errno (r_write r)) ∨
     (call = 4%nat ∧ result (r_write r) = 1 ∧ result (r_read r) ≠ 4 ∧ e = errno (r_read r))).
Proof.
  revert i icount. induction rs as [|x rs IH]; intros i icount; simpl.
  - intros _ Hr. unfold served in Hr. destruct (Z.eqb_spec (result (r_write r)) 1) as [Ew|Nw]; simpl in *.
    + destruct (Z.eqb_spec (result (r_read r)) 4) as [|Nr]; [done|]. simpl. exists 4%nat, (errno (r_read r)).
      split; [done|]. by right.
    + exists 3%nat, (errno (r_write r)). split; [done|]. by left.
  - intros [[Hw Hr]%andb_true_iff Hs]%andb_true_iff Hn. destruct (IH (i + 1) (r_icount x) Hs Hn) as (call & e & -> & C).
    rewrite Hw, Hr. simpl. by exists call, e.
Qed.

(** Once both files are open and the command byte [b] was read: the program
    writes that byte with bit 2, and only bit 2, cleared, once before every
    wait, and announces every interrupt with the count the wait before it gave; it
    waits as long as the calls succeed and ends with the error of the first one
    that does not. *)
Theorem ex_uio_reenables o c p b rs : 0 <= result o → 0 <= result c → result p = 1 → 0 <= b < 256 →
  (∀ v, UWrite v ∈ (ex_uio o c p b rs).1 → 0 <= v < 256 ∧ ∀ k, 0 <= k → Z.testbit v k = (Z.testbit b k && negb (k =? 2))) ∧
  (forallb served rs = true → ex_uio o c p b rs = (served_out (clear_intx b) 0 0 rs, None)) ∧
  (∀ ok r rest, rs = ok ++ r :: rest → forallb served ok = true → served r = false →
     ∃ call e, ex_uio o c p b rs = (served_out (clear_intx b) 0 0 (ok ++ [r]) ++ [UPerror call], Some e) ∧
       ((call = 3%nat ∧ e = errno (r_write r)) ∨ (call = 4%nat ∧ e = errno (r_read r)))).
Proof.
  intros Ho Hc Hp Hb. unfold ex_uio. rewrite (proj2 (Z.ltb_ge _ 0) Ho), (proj2 (Z.ltb_ge _ 0) Hc), Hp. cbn [Z.eqb Pos.eqb negb].
  split; [|split; [apply uio_loop_served|]].
  - intros v ->%uio_loop_writes. unfold clear_intx. change (wrapu 8 (Z.lnot 4)) with 251.
    assert (B : ∀ k, 0 <= k → Z.testbit (Z.land b 251) k = Z.testbit b k && negb (k =? 2)).
    { intros k Hk. rewrite Z.land_spec. destruct (Z.ltb_spec k 8) as [L|L].
      - assert (C : k = 0 ∨ k = 1 ∨ k = 2 ∨ k = 3 ∨ k = 4 ∨ k = 5 ∨ k = 6 ∨ k = 7) by lia.
        by destruct_or! C; subst.
      - assert (Z.testbit b k = false) as ->; [|done].
        destruct (decide (b = 0)) as [->|]; [apply Z.testbit_0_l|].
        apply Z.bits_above_log2; [lia|]. apply Z.log2_lt_pow2; [lia|].
        apply Z.lt_le_trans with (2 ^ 8); [simpl; lia|]. apply Z.pow_le_mono_r; lia. }
    split; [|exact B]. assert (0 <= Z.land b 251) by (apply Z.land_nonneg; lia).
    split; [done|]. destruct (decide (Z.land b 251 = 0)) as [->|]; [lia|].
    change 256 with (2 ^ 8). apply Z.log2_lt_pow2; [lia|].
    assert (Z.log2 (Z.land b 251) <= Z.min (Z.log2 b) (Z.log2 251)) by (apply Z.log2_land; lia).
    change (Z.log2 251) with 7 in *. lia.
  - intros ok r rest -> Hs Hr. destruct (uio_loop_ends (clear_intx b) ok r rest 0 0 Hs Hr) as (call & e & -> & C).
    exists call, e. split; [done|]. naive_solver.
Qed.

(** Two interrupts; the read after the second write fails. *)
Definition demo_rounds : list round := [Round (Answer 1 0) (Answer 4 0) 12; Round (Answer 1 0) (Answer (-1) 4) 0].
Lemma ex_uio_reenables_witness : ∃ call e,
  ex_uio (Answer 3 0) (Answer 4 0) (Answer 1 0) 7 demo_rounds =
    ([UStarted; UWrite 3; UInterrupts 12; UWrite 3; UPerror call], Some e).
Proof.
  assert (B : 0 <= 7 < 256) by lia. assert (B3 : 0 <= 3) by lia. assert (B4 : 0 <= 4) by lia.
  destruct (ex_uio_reenables (Answer 3 0) (Answer 4 0) (Answer 1 0) 7 demo_rounds B3 B4 eq_refl B) as (_ & _ & E).
  destruct (E [Round (Answer 1 0) (Answer 4 0) 12] (Round (Answer 1 0) (Answer (-1) 4) 0) [] eq_refl eq_refl eq_refl)
    as (call & e & Ex & _).
  exists call, e. exact Ex.
Defined.

Example demo_rounds_end : ex_uio (Answer 3 0) (Answer 4 0) (Answer 1 0) 7 demo_rounds =
  ([UStarted; UWrite 3; UInterrupts 12; UWrite 3; UPerror 4], Some 4).
Proof. reflexivity. Qed.
