(* ===== verification/SlabEx.v ===== *)
(** The slab example of src/m_modules/mm/slab_ex.c: two blocks of kmalloc, the
    pages they lie in and the caches these belong to.

    Where a block lies is the kernel's business: [virt_to_head_page], [PageSlab]
    and [slab_cache] are parameters. *)
From Stdlib Require Import ZArith Lia.
From stdpp Require Import base list gmap.
From S2P Require Import Prelude Kernel.

Inductive slab_out :=
  | SPointers (p q : option loc)
  | SPage (page : Z)
  | SCache (name : list byte) (size : Z).

Section slab.
Context {H : Type} `{KernelHeap H}.
Variable virt_to_head_page : loc → Z.
Variable PageSlab : Z → bool.
Variable slab_cache : Z → list byte * Z.          (* name and size *)

Record slab_st := SlabSt { sl_heap : H; sl_mem : gmap loc (list cell); sl_out : list slab_out }.
Implicit Types s : slab_st.

Definition sl_kmalloc (n : Z) : M slab_st (option loc) := λ s,
  let '(r, h) := kmalloc n (sl_heap s) in
  Ret (r, SlabSt h (match r with Some l => <[l := replicate (Z.to_nat n) None]> (sl_mem s) | None => sl_mem s end) (sl_out s)).
Definition sl_kfree (p : option loc) : M slab_st unit := λ s,
  match p with
  | None => Ret (tt, s)
  | Some l => if bool_decide (l ∈ live (sl_heap s))
              then Ret (tt, SlabSt (kfree l (sl_heap s)) (delete l (sl_mem s)) (sl_out s)) else Fault BadFree
  end.
Definition sl_memset (p : option loc) (c : byte) (n : nat) : M slab_st unit := λ s,
  match p with
  | None => Fault NullDeref
  | Some l =>
      match sl_mem s !! l with
      | Some m => if (n <=? length m)%nat
                  then Ret (tt, SlabSt (sl_heap s) (<[l := replicate n (Some c) ++ drop n m]> (sl_mem s)) (sl_out s))
                  else Fault OutOfBounds
      | None => Fault OutOfBounds
      end
  end.
Definition sl_print (o : slab_out) : M slab_st unit := mmodify (λ s, SlabSt (sl_heap s) (sl_mem s) (sl_out s ++ [o])).

(** The page of one block, and its cache when it is a slab page; the pointer is
    only printed and looked up, never followed. *)
Definition show_slab (p : option loc) : M slab_st unit :=
  match p with
  | None => mret tt
  | Some l =>
      let page := virt_to_head_page l in
      sl_print (SPage page) ≫= λ _,
      if PageSlab page then sl_print (SCache (slab_cache page).1 (slab_cache page).2) else mret tt
  end.

Definition show_blocks (mem_ptr1 mem_ptr2 : option loc) : M slab_st Z :=
  sl_memset mem_ptr1 x78 124 ≫= λ _,
  sl_memset mem_ptr2 x56 48 ≫= λ _,
  sl_print (SPointers mem_ptr1 mem_ptr2) ≫= λ _,
  show_slab mem_ptr1 ≫= λ _,
  show_slab mem_ptr2 ≫= λ _,
  sl_kfree mem_ptr1 ≫= λ _,
  sl_kfree mem_ptr2 ≫= λ _,
  mret 0.
Definition show_init : M slab_st Z :=
  mem_ptr1 ← sl_kmalloc 124;
  mem_ptr2 ← sl_kmalloc 48;
  show_blocks mem_ptr1 mem_ptr2.

#[local] Arguments replicate : simpl never.
#[local] Arguments Z.to_nat : simpl never.

(** ** Theorems *)

Definition slab_lines (l : loc) : list slab_out :=
  let page := virt_to_head_page l in
  SPage page :: if PageSlab page then [SCache (slab_cache page).1 (slab_cache page).2] else [].

Lemma show_slab_run l s :
  show_slab (Some l) s = Ret (tt, SlabSt (sl_heap s) (sl_mem s) (sl_out s ++ slab_lines l)).
Proof.
  unfold show_slab, slab_lines, sl_print, mmodify, mbind, M_bind. destruct (PageSlab _); simpl.
  - by rewrite <- app_assoc.
  - done.
Qed.

Definition after_kmalloc (n : Z) (r : option loc) (h : H) s : slab_st :=
  SlabSt h (match r with Some l => <[l := replicate (Z.to_nat n) None]> (sl_mem s) | None => sl_mem s end) (sl_out s).
Lemma memset_run l c n s x : sl_mem s !! l = Some (replicate n x) →
  sl_memset (Some l) c n s = Ret (tt, SlabSt (sl_heap s) (<[l := replicate n (Some c)]> (sl_mem s)) (sl_out s)).
Proof.
  intros E. unfold sl_memset. rewrite E, length_replicate, Nat.leb_refl.
  rewrite drop_ge by (by rewrite length_replicate). by rewrite app_nil_r.
Qed.
Lemma kfree_run l s : l ∈ live (sl_heap s) →
  sl_kfree (Some l) s = Ret (tt, SlabSt (kfree l (sl_heap s)) (delete l (sl_mem s)) (sl_out s)).
Proof. intros Hl. unfold sl_kfree. by rewrite bool_decide_eq_true_2. Qed.

(** The module loads with memory for both blocks: it prints the two
    pointers and then for each the page and, on a slab page, the cache, and both
    blocks are given back; without memory for either the first memset of a
    missing block follows a null pointer. *)
Theorem slab_show_init s : ∀ r1 h1 r2 h2,
  kmalloc 124 (sl_heap s) = (r1, h1) → kmalloc 48 h1 = (r2, h2) →
  match r1, r2 with
  | Some l1, Some l2 => ∃ s', show_init s = Ret (0, s') ∧ l1 ≠ l2 ∧ live (sl_heap s') = live (sl_heap s) ∧
      sl_out s' = sl_out s ++ SPointers r1 r2 :: slab_lines l1 ++ slab_lines l2
  | _, _ => show_init s = Fault NullDeref
  end.
Proof.
  intros r1 h1 r2 h2 E1 E2.
  assert (M1 : sl_kmalloc 124 s = Ret (r1, after_kmalloc 124 r1 h1 s)) by (by unfold sl_kmalloc; rewrite E1).
  assert (M2 : sl_kmalloc 48 (after_kmalloc 124 r1 h1 s) = Ret (r2, after_kmalloc 48 r2 h2 (after_kmalloc 124 r1 h1 s)))
    by (by unfold sl_kmalloc; cbn [sl_heap after_kmalloc]; rewrite E2).
  assert (Run : show_init s = show_blocks r1 r2 (after_kmalloc 48 r2 h2 (after_kmalloc 124 r1 h1 s))).
  { unfold show_init. rewrite (bind_run _ _ _ _ _ M1). cbv beta. by rewrite (bind_run _ _ _ _ _ M2). }
  rewrite Run. clear Run. destruct r1 as [l1|]; [|done]. apply kmalloc_some_law in E1 as [N1 L1].
  destruct r2 as [l2|].
  - apply kmalloc_some_law in E2 as [N2 L2]. assert (Ne : l1 ≠ l2) by set_solver.
    unfold show_blocks, after_kmalloc. cbn [sl_heap sl_mem sl_out].
    erewrite bind_run; [|apply (memset_run l1 x78 124 _ None); cbn; by rewrite lookup_insert_ne, lookup_insert_eq]. cbv beta.
    erewrite bind_run; [|apply (memset_run l2 x56 48 _ None); cbn; by rewrite lookup_insert_ne, lookup_insert_eq]. cbv beta.
    rewrite (bind_run _ _ _ _ _ (eq_refl : sl_print _ _ = Ret (tt, _))). cbv beta.
    rewrite (bind_run _ _ _ _ _ (show_slab_run l1 _)). cbv beta.
    rewrite (bind_run _ _ _ _ _ (show_slab_run l2 _)). cbv beta. cbn [sl_mem sl_heap sl_out].
    erewrite bind_run; [|apply kfree_run; cbn; set_solver]. cbv beta.
    erewrite bind_run; [|apply kfree_run; cbn; rewrite kfree_law; set_solver]. cbv beta.
    eexists. split; [reflexivity|]. split; [done|]. cbn [sl_mem sl_heap sl_out]. split.
    + rewrite !kfree_law, L2, L1. set_solver.
    + by rewrite <- !app_assoc.
  - unfold show_blocks, after_kmalloc. cbn [sl_heap sl_mem sl_out].
    erewrite bind_run; [|apply (memset_run l1 x78 124 _ None); cbn; by rewrite lookup_insert_eq]. done.
Qed.

End slab.

Example slab_run : match show_init (λ l, Z.pos l) (λ p, p =? 1) (λ p, ([x6b], 128)) (SlabSt (Bump ∅ 1%positive []) ∅ []) with
  | Ret (r, s) => r = 0 ∧ sl_out s = [SPointers (Some 1%positive) (Some 2%positive); SPage 1; SCache [x6b] 128; SPage 2]
  | Fault _ => False
  end.
Proof. by vm_compute. Qed.

Lemma slab_show_init_witness : ∃ s', show_init (λ l, Z.pos l) (λ p, p =? 1) (λ p, ([x6b], 128)) (SlabSt (Bump ∅ 1%positive []) ∅ []) =
  Ret (0, s') ∧ live (sl_heap s') = ∅.
Proof.
  set (h := Bump ∅ 1%positive []). set (k1 := kmalloc 124 h). set (k2 := kmalloc 48 k1.2).
  pose proof (slab_show_init (λ l, Z.pos l) (λ p, p =? 1) (λ p, ([x6b], 128)) (SlabSt h ∅ [])
    k1.1 k1.2 k2.1 k2.2 (surjective_pairing _) (surjective_pairing _)) as T.
  change k1.1 with (Some 1%positive) in T. change k2.1 with (Some 2%positive) in T.
  destruct T as (s' & E & _ & L & _). exists s'. split; [exact E|exact L].
Defined.
