(* ===== verification/IpInput.v ===== *)
(** The IPv4 receive path with the HTTP filter (src/linux/net/ipv4/ip_input.c).

    The file is the kernel's input routine with a keyword scan added to
    ip_rcv_core.  Everything it calls (buffer management, routing, netfilter,
    transport handlers) is kernel code outside the repository: the class
    [NetEnv] lists those functions over an abstract kernel state [E], with the
    laws the theorems use.  What the routines do to packets is a log of
    events. *)
From Stdlib Require Import ZArith Lia.
From stdpp Require Import base list gmap.
From S2P Require Import Prelude Kernel.

(** ** Packets *)

Record dst_entry := DstEntry {
  dst_id : Z;          (* the identity of the object: what a pointer shows *)
  rt_type : Z;
  dst_metadata : bool
}.
#[export] Instance dst_entry_eq_dec : EqDecision dst_entry.
Proof. solve_decision. Defined.

Record sk_buff := SkBuff {
  skb_id : nat;                  (* identifies the packet *)
  skb_linear : list byte;        (* skb->data up to the tail *)
  skb_paged : list byte;         (* the bytes held in page fragments *)
  pkt_type : Z;
  skb_dev : Z;                   (* ifindex *)
  skb_net : Z;
  skb_dst : option dst_entry;
  skb_sk : bool;
  gso_segs : Z
}.

(** skb->len *)
Definition skb_bytes (s : sk_buff) : list byte := skb_linear s ++ skb_paged s.
Definition skb_len (s : sk_buff) : Z := Z.of_nat (length (skb_bytes s)).
Definition skb_valid_dst (s : sk_buff) : bool :=
  match skb_dst s with Some d => negb (dst_metadata d) | None => false end.

(** struct iphdr, read from the network header. *)
Record iphdr := IpHdr {
  ihl : Z; version : Z; tos : Z; tot_len : Z; frag_off : Z; protocol : Z;
  saddr : Z; daddr : Z
}.

Definition byteZ (b : byte) : Z := Z.of_N (Byte.to_N b).
Definition be (l : list byte) : Z := foldl (λ a b, a * 256 + byteZ b) 0 l.

Definition parse_hdr (l : list byte) : option iphdr :=
  match l with
  | b0 :: b1 :: b2 :: b3 :: _ :: _ :: b6 :: b7 :: _ :: b9 :: _ :: _ ::
    s0 :: s1 :: s2 :: s3 :: d0 :: d1 :: d2 :: d3 :: _ =>
      Some (IpHdr (byteZ b0 mod 16) (byteZ b0 / 16) (byteZ b1) (be [b2; b3]) (be [b6; b7])
              (byteZ b9) (be [s0; s1; s2; s3]) (be [d0; d1; d2; d3]))
  | _ => None
  end.

(** [iph->frag_off & htons(IP_MF | IP_OFFSET)] *)
Definition ip_is_fragment (h : iphdr) : bool := negb (Z.land (frag_off h) 16383 =? 0).

(** ** Constants *)

Definition PACKET_BROADCAST := 1.
Definition PACKET_MULTICAST := 2.
Definition PACKET_OTHERHOST := 3.
Definition NET_RX_SUCCESS := 0.
Definition NET_RX_DROP := 1.
Definition RTN_BROADCAST := 3.
Definition RTN_MULTICAST := 5.
Definition EXDEV := 18.
Definition INET_ECN_MASK := 3.

Inductive mib :=
  | MIB_IN | MIB_INDISCARDS | MIB_INHDRERRORS | MIB_INTRUNCATEDPKTS | MIB_CSUMERRORS
  | MIB_NOECTPKTS (ecn : Z) | MIB_INDELIVERS | MIB_INUNKNOWNPROTOS
  | MIB_INMCAST | MIB_INBCAST | MIB_IPRPFILTER.

(** What happens to packets; [EInput] is dst_input, [EStolen] a packet another
    subsystem took over. *)
Inductive event :=
  | EStat (m : mib) (n : Z)
  | EFree (id : nat)
  | EConsume (id : nat)
  | EHandler (proto : Z) (id : nat)
  | ERaw (sk : Z) (id : nat)
  | EClone (id : nat)
  | EIcmp (id : nat)
  | EInput (id : nat)
  | EStolen (id : nat).

(** A raw socket on the router-alert chain: number and bound interface. *)
Record ra_sock := RaSock { ra_sk : Z; ra_num : Z; ra_bound_dev_if : Z }.

(** A transport protocol of inet_protos. *)
Record net_protocol := NetProtocol { no_policy : bool; has_early_demux : bool }.

(** in_device configuration of an interface. *)
Record in_device := InDevice { source_route : bool; drop_unicast_in_l2_multicast : bool }.

(** A call may move the packet but keeps its identity and its IP header in
    the linear part. *)
Definition same_packet (s s' : sk_buff) : Prop :=
  skb_id s' = skb_id s ∧ ((20 ≤ length (skb_linear s)) → (20 ≤ length (skb_linear s')))%nat.

(** ** The rest of the kernel *)

Class NetEnv (E : Type) := {
  skb_share_check : sk_buff → E → option sk_buff * E;
  pskb_may_pull : nat → sk_buff → E → option sk_buff * E;   (* None: false *)
  pskb_trim_rcsum : nat → sk_buff → E → option sk_buff * E; (* None: an error *)
  ip_fast_csum : list byte → Z → Z;
  skb_cow : sk_buff → E → option sk_buff * E;
  ip_options_compile : sk_buff → E → option bool * E;       (* None: error; opt->srr *)
  ip_options_rcv_srr : sk_buff → Z → E → option sk_buff * E;
  in_dev_get : Z → E → option in_device;
  ip_route_use_hint : sk_buff → iphdr → Z → sk_buff → E → (Z + sk_buff) * E;
  ip_route_input_noref : sk_buff → iphdr → Z → E → (Z + sk_buff) * E;
  early_demux : Z → sk_buff → E → (Z + sk_buff) * E;
  inet_protos : Z → E → option net_protocol;
  sysctl_ip_early_demux : E → bool;
  l3mdev_ip_rcv : sk_buff → E → option sk_buff * E;
  nf_hook : Z → sk_buff → E → (Z + sk_buff) * E;            (* a verdict, or accept *)
  dst_input : sk_buff → E → Z * E;
  fib4_has_custom_rules : Z → E → bool;
  skb_pull : nat → sk_buff → option sk_buff;                (* __skb_pull; None: its BUG_ON *)
  raw_local_deliver : Z → sk_buff → E → bool * E;
  proto_handler : Z → sk_buff → E → (Z * sk_buff) * E;      (* and the packet as the handler leaves it *)
  xfrm4_policy_check : sk_buff → E → bool * E;
  ip_defrag : sk_buff → E → option sk_buff * E;             (* None: queued *)
  ra_chain : Z → E → list ra_sock;
  skb_clone : sk_buff → E → option sk_buff * E;
  share_check_law : ∀ s e s' e', skb_share_check s e = (Some s', e') →
    skb_id s' = skb_id s ∧ skb_bytes s' = skb_bytes s ∧ skb_linear s' = skb_linear s;
  may_pull_law : ∀ n s e s' e', pskb_may_pull n s e = (Some s', e') →
    skb_id s' = skb_id s ∧ skb_bytes s' = skb_bytes s ∧ (n ≤ length (skb_linear s'))%nat ∧
    (length (skb_linear s) ≤ length (skb_linear s'))%nat;
  trim_law : ∀ n s e s' e', (n ≤ length (skb_bytes s))%nat → pskb_trim_rcsum n s e = (Some s', e') →
    skb_id s' = skb_id s ∧ skb_bytes s' = take n (skb_bytes s) ∧
    (Nat.min n (length (skb_linear s)) ≤ length (skb_linear s'))%nat;
  l3mdev_law : ∀ s e s' e', l3mdev_ip_rcv s e = (Some s', e') → same_packet s s';
  nf_hook_law : ∀ h s e s' e', nf_hook h s e = (inr s', e') → same_packet s s';
  early_demux_law : ∀ p s e s' e', early_demux p s e = (inr s', e') → same_packet s s';
  use_hint_law : ∀ s i d h e s' e', ip_route_use_hint s i d h e = (inr s', e') → same_packet s s';
  route_law : ∀ s i d e s' e', ip_route_input_noref s i d e = (inr s', e') →
    same_packet s s' ∧ is_Some (skb_dst s');
  handler_law : ∀ p s e ret s' e', proto_handler p s e = ((ret, s'), e') → ret < 0 → skb_id s' = skb_id s;
  cow_law : ∀ s e s' e', skb_cow s e = (Some s', e') →
    same_packet s s' ∧ (is_Some (skb_dst s) → is_Some (skb_dst s'));
  srr_law : ∀ s d e s' e', ip_options_rcv_srr s d e = (Some s', e') →
    same_packet s s' ∧ (is_Some (skb_dst s) → is_Some (skb_dst s'))
}.

(** The hooks. *)
Definition NF_INET_PRE_ROUTING := 0.
Definition NF_INET_LOCAL_IN := 1.

Record nst (E : Type) := NSt { n_env : E; n_log : list event }.
Arguments NSt {E}.
Arguments n_env {E}.
Arguments n_log {E}.

(** ** The keyword scan of ip_rcv_core *)

Definition keyword : list byte := [x48; x54; x54; x50].     (* "HTTP" *)

Definition walk (walker : nat) (ch : byte) : nat :=
  match keyword !! walker with
  | Some k => if Byte.eqb ch k then S walker else O
  | None => O
  end.

(** The loop from a position of [skb->data] on, [n] bytes before [skb->len]. *)
Fixpoint http_scan (data : list byte) (n : nat) (walker : nat) : outcome bool :=
  match n with
  | O => Ret false
  | S n' =>
      match data with
      | [] => Fault OutOfBounds
      | ch :: rest =>
          let walker := walk walker ch in
          if (walker =? 4)%nat then Ret true else http_scan rest n' walker
      end
  end.

Section ops.
Context {E : Type} `{NetEnv E}.
Abbreviation st := (nst E).

Definition log (ev : event) : M st unit := mmodify (λ s, NSt (n_env s) (n_log s ++ [ev])).
Definition ext {A} (f : E → A * E) : M st A := λ s,
  let '(a, e) := f (n_env s) in Ret (a, NSt e (n_log s)).
Definition asks {A} (f : E → A) : M st A := λ s, Ret (f (n_env s), s).

Definition kfree_skb (s : sk_buff) : M st unit := log (EFree (skb_id s)).

(** ip_hdr(skb), dereferenced. *)
Definition ip_hdr (s : sk_buff) : M st iphdr :=
  match parse_hdr (skb_linear s) with
  | Some h => mret h
  | None => mfault OutOfBounds
  end.

Definition scan_packet (s : sk_buff) : M st bool := λ t,
  match http_scan (skb_linear s) (length (skb_bytes s)) 0 with
  | Ret b => Ret (b, t)
  | Fault f => Fault f
  end.

(** ** ip_rcv_core *)

(** skb_orphan *)
Definition orphan (s : sk_buff) : sk_buff :=
  SkBuff (skb_id s) (skb_linear s) (skb_paged s) (pkt_type s) (skb_dev s) (skb_net s)
    (skb_dst s) false (gso_segs s).

(** The exits of ip_rcv_core. *)
Definition rcv_drop (s : sk_buff) : M st (option sk_buff) := kfree_skb s ≫= λ _, mret None.
Definition inhdr_error (s : sk_buff) : M st (option sk_buff) :=
  log (EStat MIB_INHDRERRORS 1) ≫= λ _, rcv_drop s.
Definition csum_error (s : sk_buff) : M st (option sk_buff) :=
  log (EStat MIB_CSUMERRORS 1) ≫= λ _, inhdr_error s.

(** After the scan: the header checks of RFC 1122. *)
Definition rcv_header (s : sk_buff) (iph : iphdr) : M st (option sk_buff) :=
  if (ihl iph <? 5) || negb (version iph =? 4) then inhdr_error s else
  log (EStat (MIB_NOECTPKTS (Z.land (tos iph) INET_ECN_MASK)) (Z.max 1 (gso_segs s))) ≫= λ _,
  r ← ext (pskb_may_pull (Z.to_nat (ihl iph * 4)) s);
  match r with
  | None => inhdr_error s
  | Some s =>
      iph ← ip_hdr s;
      if negb (ip_fast_csum (skb_linear s) (ihl iph) =? 0) then csum_error s else
      let len := tot_len iph in
      if skb_len s <? len then
        log (EStat MIB_INTRUNCATEDPKTS 1) ≫= λ _, rcv_drop s
      else if len <? ihl iph * 4 then inhdr_error s
      else
        r ← ext (pskb_trim_rcsum (Z.to_nat len) s);
        match r with
        | None => log (EStat MIB_INDISCARDS 1) ≫= λ _, rcv_drop s
        | Some s => mret (Some (orphan s))
        end
  end.

(** skb_share_check releases the packet itself when it cannot copy it. *)
Definition ip_rcv_core (s : sk_buff) : M st (option sk_buff) :=
  if pkt_type s =? PACKET_OTHERHOST then rcv_drop s else
  log (EStat MIB_IN (skb_len s)) ≫= λ _,
  r ← ext (skb_share_check s);
  match r with
  | None => log (EStat MIB_INDISCARDS 1) ≫= λ _, log (EConsume (skb_id s)) ≫= λ _, mret None
  | Some s =>
      r ← ext (pskb_may_pull 20 s);
      match r with
      | None => inhdr_error s
      | Some s =>
          iph ← ip_hdr s;
          http ← scan_packet s;
          if (http : bool) then rcv_drop s else rcv_header s iph
      end
  end.

(** ** ip_rcv_finish_core *)

Definition ip_can_use_hint (s : sk_buff) (iph : iphdr) (hint : option sk_buff) : M st bool :=
  match hint with
  | None => mret false
  | Some h =>
      match skb_dst s with
      | Some _ => mret false
      | None =>
          hh ← ip_hdr h;
          mret ((daddr hh =? daddr iph) && (tos hh =? tos iph))
      end
  end.

Definition finish_drop (s : sk_buff) : M st (Z * sk_buff) :=
  kfree_skb s ≫= λ _, mret (NET_RX_DROP, s).
Definition drop_error (err : Z) (s : sk_buff) : M st (Z * sk_buff) :=
  (if err =? - EXDEV then log (EStat MIB_IPRPFILTER 1) else mret tt) ≫= λ _, finish_drop s.

(** [true]: drop. *)
Definition ip_rcv_options (s : sk_buff) (dev : Z) : M st (bool * sk_buff) :=
  r ← ext (skb_cow s);
  match r with
  | None => log (EStat MIB_INDISCARDS 1) ≫= λ _, mret (true, s)
  | Some s =>
      r ← ext (ip_options_compile s);
      match r with
      | None => log (EStat MIB_INHDRERRORS 1) ≫= λ _, mret (true, s)
      | Some srr =>
          if negb srr then mret (false, s) else
          ind ← asks (in_dev_get dev);
          if (match ind with Some i => negb (source_route i) | None => false end)
          then mret (true, s)
          else
            r ← ext (ip_options_rcv_srr s dev);
            match r with
            | None => mret (true, s)
            | Some s => mret (false, s)
            end
      end
  end.

(** The statistics and the RFC 1122 3.3.6 test, on a routed packet. *)
Definition finish_deliver (s : sk_buff) (dev : Z) : M st (Z * sk_buff) :=
  match skb_dst s with
  | None => mfault NullDeref                  (* rt->rt_type *)
  | Some rt =>
      if rt_type rt =? RTN_MULTICAST then
        log (EStat MIB_INMCAST (skb_len s)) ≫= λ _, mret (NET_RX_SUCCESS, s)
      else if rt_type rt =? RTN_BROADCAST then
        log (EStat MIB_INBCAST (skb_len s)) ≫= λ _, mret (NET_RX_SUCCESS, s)
      else if (pkt_type s =? PACKET_BROADCAST) || (pkt_type s =? PACKET_MULTICAST) then
        ind ← asks (in_dev_get dev);
        if (match ind with Some i => drop_unicast_in_l2_multicast i | None => false end)
        then finish_drop s else mret (NET_RX_SUCCESS, s)
      else mret (NET_RX_SUCCESS, s)
  end.

Definition finish_options (s : sk_buff) (iph : iphdr) (dev : Z) : M st (Z * sk_buff) :=
  if 5 <? ihl iph then
    '(drop, s) ← ip_rcv_options s dev;
    if (drop : bool) then finish_drop s else finish_deliver s dev
  else finish_deliver s dev.

Definition finish_route (s : sk_buff) (iph : iphdr) (dev : Z) : M st (Z * sk_buff) :=
  if skb_valid_dst s then finish_options s iph dev else
  r ← ext (ip_route_input_noref s iph dev);
  match r with
  | inl err => drop_error err s
  | inr s => finish_options s iph dev
  end.

Definition finish_demux (s : sk_buff) (iph : iphdr) (dev : Z) : M st (Z * sk_buff) :=
  on ← asks sysctl_ip_early_demux;
  if (on : bool) && negb (bool_decide (is_Some (skb_dst s))) && negb (skb_sk s) &&
     negb (ip_is_fragment iph) then
    p ← asks (inet_protos (protocol iph));
    match p with
    | Some p =>
        if has_early_demux p then
          r ← ext (early_demux (protocol iph) s);
          match r with
          | inl err => drop_error err s
          | inr s => iph ← ip_hdr s; finish_route s iph dev
          end
        else finish_route s iph dev
    | None => finish_route s iph dev
    end
  else finish_route s iph dev.

Definition ip_rcv_finish_core (s : sk_buff) (dev : Z) (hint : option sk_buff) : M st (Z * sk_buff) :=
  iph ← ip_hdr s;
  use ← ip_can_use_hint s iph hint;
  if (use : bool) then
    match hint with
    | Some h =>
        r ← ext (ip_route_use_hint s iph dev h);
        match r with
        | inl err => drop_error err s
        | inr s => finish_demux s iph dev
        end
    | None => finish_demux s iph dev
    end
  else finish_demux s iph dev.

Definition do_dst_input (s : sk_buff) : M st Z :=
  log (EInput (skb_id s)) ≫= λ _, ext (dst_input s).

Definition ip_rcv_finish (s : sk_buff) : M st Z :=
  let dev := skb_dev s in
  r ← ext (l3mdev_ip_rcv s);
  match r with
  | None => log (EStolen (skb_id s)) ≫= λ _, mret NET_RX_SUCCESS
  | Some s =>
      '(ret, s) ← ip_rcv_finish_core s dev None;
      if negb (ret =? NET_RX_DROP) then do_dst_input s else mret ret
  end.

(** NF_HOOK: the verdict, or the continuation on the accepted packet. *)
Definition NF_HOOK (hook : Z) (s : sk_buff) (okfn : sk_buff → M st Z) : M st Z :=
  r ← ext (nf_hook hook s);
  match r with
  | inl verdict => log (EStolen (skb_id s)) ≫= λ _, mret verdict
  | inr s => okfn s
  end.

Definition ip_rcv (s : sk_buff) : M st Z :=
  r ← ip_rcv_core s;
  match r with
  | None => mret NET_RX_DROP
  | Some s => NF_HOOK NF_INET_PRE_ROUTING s ip_rcv_finish
  end.

(** ** Lists of packets *)

Definition ip_sublist_rcv_finish (head : list sk_buff) : M st unit :=
  mforeach head (λ s, do_dst_input s ≫= λ _, mret tt).

Definition ip_extract_route_hint (s : sk_buff) (rt : Z) : M st (option sk_buff) :=
  custom ← asks (fib4_has_custom_rules (skb_net s));
  mret (if (custom : bool) || (rt =? RTN_BROADCAST) then None else Some s).

(** [curr_dst != dst], as pointers. *)
Definition dst_ne (a b : option dst_entry) : bool :=
  negb (bool_decide ((dst_id <$> a) = (dst_id <$> b))).

(** The loop of ip_list_rcv_finish. *)
Fixpoint list_finish_loop (head : list sk_buff) (hint : option sk_buff)
    (curr_dst : option dst_entry) (sublist : list sk_buff) : M st unit :=
  match head with
  | [] => ip_sublist_rcv_finish sublist
  | s :: rest =>
      let dev := skb_dev s in
      r ← ext (l3mdev_ip_rcv s);
      match r with
      | None =>
          log (EStolen (skb_id s)) ≫= λ _, list_finish_loop rest hint curr_dst sublist
      | Some s =>
          '(ret, s) ← ip_rcv_finish_core s dev hint;
          if ret =? NET_RX_DROP then list_finish_loop rest hint curr_dst sublist
          else
            let dst := skb_dst s in
            if dst_ne curr_dst dst then
              match dst with
              | None => mfault NullDeref       (* dst->rt_type *)
              | Some d =>
                  hint ← ip_extract_route_hint s (rt_type d);
                  (match sublist with [] => mret tt | _ => ip_sublist_rcv_finish sublist end) ≫= λ _,
                  list_finish_loop rest hint dst [s]
              end
            else list_finish_loop rest hint curr_dst (sublist ++ [s])
      end
  end.

Definition ip_list_rcv_finish (head : list sk_buff) : M st unit :=
  list_finish_loop head None None [].

(** NF_HOOK_LIST keeps the accepted packets, in order. *)
Fixpoint nf_hook_list (hook : Z) (head : list sk_buff) : M st (list sk_buff) :=
  match head with
  | [] => mret []
  | s :: rest =>
      r ← ext (nf_hook hook s);
      match r with
      | inl _ => log (EStolen (skb_id s)) ≫= λ _, nf_hook_list hook rest
      | inr s => rest' ← nf_hook_list hook rest; mret (s :: rest')
      end
  end.

Definition ip_sublist_rcv (head : list sk_buff) : M st unit :=
  head ← nf_hook_list NF_INET_PRE_ROUTING head;
  ip_list_rcv_finish head.

Fixpoint list_rcv_loop (head : list sk_buff) (curr : option (Z * Z)) (sublist : list sk_buff)
    : M st unit :=
  match head with
  | [] => match sublist with [] => mret tt | _ => ip_sublist_rcv sublist end
  | s :: rest =>
      let here := (skb_dev s, skb_net s) in
      r ← ip_rcv_core s;
      match r with
      | None => list_rcv_loop rest curr sublist
      | Some s =>
          if bool_decide (curr = Some here) then list_rcv_loop rest curr (sublist ++ [s])
          else
            (match sublist with [] => mret tt | _ => ip_sublist_rcv sublist end) ≫= λ _,
            list_rcv_loop rest (Some here) [s]
      end
  end.

Definition ip_list_rcv (head : list sk_buff) : M st unit := list_rcv_loop head None [].

(** ** Local delivery *)

(** Resubmission ends when a handler does not ask for it; [fuel] bounds the
    number of rounds, [None] is a packet still being resubmitted.  A handler
    works on the skb it is given, so what is resubmitted is the packet as the
    handler left it.  nf_reset_ct drops the connection-tracking entry of the
    packet, which nothing here looks at. *)
Fixpoint ip_protocol_deliver_rcu (fuel : nat) (s : sk_buff) (protocol : Z) : M st (option unit) :=
  match fuel with
  | O => mret None
  | S fuel' =>
      raw ← ext (raw_local_deliver protocol s);
      ipprot ← asks (inet_protos protocol);
      match ipprot with
      | Some p =>
          ok ← (if no_policy p then mret true else ext (xfrm4_policy_check s));
          if negb ok then kfree_skb s ≫= λ _, mret (Some tt) else
          '(ret, s') ← ext (proto_handler protocol s);
          if ret <? 0 then ip_protocol_deliver_rcu fuel' s' (- ret)
          else
            log (EHandler protocol (skb_id s)) ≫= λ _,
            log (EStat MIB_INDELIVERS 1) ≫= λ _, mret (Some tt)
      | None =>
          if negb raw then
            ok ← ext (xfrm4_policy_check s);
            (if (ok : bool) then
               log (EStat MIB_INUNKNOWNPROTOS 1) ≫= λ _, log (EIcmp (skb_id s))
             else mret tt) ≫= λ _,
            kfree_skb s ≫= λ _, mret (Some tt)
          else
            log (EStat MIB_INDELIVERS 1) ≫= λ _,
            log (EConsume (skb_id s)) ≫= λ _, mret (Some tt)
      end
  end.

(** skb_network_header_len is where ip_rcv_core put the transport header.
    [fuel] is the number of rounds of the loop above. *)
Definition ip_local_deliver_finish (fuel : nat) (s : sk_buff) : M st Z :=
  iph ← ip_hdr s;
  match skb_pull (Z.to_nat (ihl iph * 4)) s with
  | None => mfault AssertFail
  | Some s => ip_protocol_deliver_rcu fuel s (protocol iph) ≫= λ _, mret 0
  end.

Definition ip_local_deliver (fuel : nat) (s : sk_buff) : M st Z :=
  iph ← ip_hdr s;
  if ip_is_fragment iph then
    r ← ext (ip_defrag s);
    match r with
    | None => mret 0
    | Some s => NF_HOOK NF_INET_LOCAL_IN s (ip_local_deliver_finish fuel)
    end
  else NF_HOOK NF_INET_LOCAL_IN s (ip_local_deliver_finish fuel).

(** The loop over the router-alert chain: [last] is the previous match. *)
Fixpoint ra_loop (ras : list ra_sock) (proto dev : Z) (last : option Z) (s : sk_buff)
    : M st (bool * option Z * sk_buff) :=
  match ras with
  | [] => mret (false, last, s)
  | ra :: rest =>
      if (ra_num ra =? proto) && ((ra_bound_dev_if ra =? 0) || (ra_bound_dev_if ra =? dev)) then
        iph ← ip_hdr s;
        r ← (if ip_is_fragment iph then ext (ip_defrag s) else mret (Some s));
        match r with
        | None => mret (true, last, s)          (* return true: queued *)
        | Some s =>
            (match last with
             | None => mret tt
             | Some sk =>
                 c ← ext (skb_clone s);
                 match c with
                 | Some s2 => log (EClone (skb_id s)) ≫= λ _, log (ERaw sk (skb_id s2))
                 | None => mret tt
                 end
             end) ≫= λ _,
            ra_loop rest proto dev (Some (ra_sk ra)) s
        end
      else ra_loop rest proto dev last s
  end.

Definition ip_call_ra_chain (s : sk_buff) : M st bool :=
  iph ← ip_hdr s;
  ras ← asks (ra_chain (skb_net s));
  '(queued, last, s) ← ra_loop ras (protocol iph) (skb_dev s) None s;
  if (queued : bool) then mret true else
  match last with
  | Some sk => log (ERaw sk (skb_id s)) ≫= λ _, mret true
  | None => mret false
  end.

End ops.
