(* ===== verification/IpInputThms.v ===== *)
(** Theorems on the IPv4 receive path: what the keyword scan finds and misses,
    what a packet that ip_rcv_core lets through satisfies, and that every
    packet of a batch meets exactly one end, in order. *)
From Stdlib Require Import ZArith Lia.
From stdpp Require Import base list gmap.
From S2P Require Import Prelude Kernel IpInput.

(** ** The keyword scan *)

(** The scan as a function of the bytes alone. *)
Fixpoint scan (w : nat) (l : list byte) : bool :=
  match l with
  | [] => false
  | ch :: r => let w := walk w ch in if (w =? 4)%nat then true else scan w r
  end.

Lemma http_scan_linear data n w : (n ≤ length data)%nat →
  http_scan data n w = Ret (scan w (take n data)).
Proof.
  revert n w. induction data as [|ch data IH]; intros [|n] w Hn; simpl in *; try done; [lia|].
  destruct (walk w ch =? 4)%nat; [done|]. apply IH. lia.
Qed.

(** Reading past the linear part is the only way the scan goes wrong. *)
Lemma http_scan_past data n w : (length data < n)%nat → scan w data = false →
  http_scan data n w = Fault OutOfBounds.
Proof.
  revert n w. induction data as [|ch data IH]; intros [|n] w Hn Hs; simpl in *; try done; try lia.
  destruct (walk w ch =? 4)%nat; [done|]. apply IH; [lia|done].
Qed.

Lemma byte_eqb_eq a b : Byte.eqb a b = true → a = b.
Proof. apply Byte.byte_dec_bl. Qed.

Lemma walk_cases w ch : walk w ch = O ∨
  (walk w ch = S w ∧ keyword !! w = Some ch).
Proof.
  unfold walk. destruct (keyword !! w) as [k|] eqn:E; [|auto].
  destruct (Byte.eqb ch k) eqn:B; [|auto]. apply byte_eqb_eq in B as ->. auto.
Qed.

(** [w] characters of the keyword were just read. *)
Lemma scan_sound w pre l : (w < 4)%nat → take w keyword `suffix_of` pre →
  scan w l = true → ∃ a b, pre ++ l = a ++ keyword ++ b.
Proof.
  revert w pre. induction l as [|ch l IH]; intros w pre Hw [p Hp] Hs; simpl in Hs; [done|].
  rewrite (cons_middle ch), (assoc_L (++)).
  destruct (walk_cases w ch) as [E|[E Hk]]; rewrite E in Hs.
  - simpl in Hs. apply (IH 0%nat); [lia| |done]. exists (pre ++ [ch]). by rewrite app_nil_r.
  - assert (Hsuf : take (S w) keyword `suffix_of` pre ++ [ch]).
    { exists p. rewrite Hp. rewrite <- (assoc_L (++)). f_equal. symmetry. by apply take_S_r. }
    destruct (Nat.eqb_spec (S w) 4) as [E4|E4].
    + destruct Hsuf as [q Hq]. rewrite E4 in Hq. exists q, l. rewrite Hq.
      by rewrite <- (assoc_L (++)).
    + apply (IH (S w)); [lia|done|done].
Qed.

(** The walker after a byte that is neither H nor T. *)
Lemma walk_reset w ch : (w < 4)%nat → ch ≠ x48 → ch ≠ x54 → walk w ch ≠ 4%nat → walk w ch = O.
Proof.
  intros Hw N1 N2 N4. destruct (walk_cases w ch) as [E|[E Hk]]; [done|].
  destruct w as [|[|[|[|w]]]]; simpl in Hk; try (injection Hk as <-; done); lia.
Qed.

Lemma walk_lt w ch : (w < 4)%nat → walk w ch ≠ 4%nat → (walk w ch < 4)%nat.
Proof. intros Hw N. destruct (walk_cases w ch) as [->|[E _]]; [lia|]. lia. Qed.

Lemma scan_app w pre l : (w < 4)%nat →
  (scan w pre = true ∧ scan w (pre ++ l) = true) ∨
  ∃ w', (w' < 4)%nat ∧ scan w (pre ++ l) = scan w' l ∧
    match last pre with
    | Some ch => ch ≠ x48 → ch ≠ x54 → w' = O
    | None => w' = w
    end.
Proof.
  revert w. induction pre as [|ch pre IH]; intros w Hw; simpl.
  { right. exists w. done. }
  destruct (Nat.eqb_spec (walk w ch) 4) as [E|E]; [by left|].
  destruct (IH (walk w ch)) as [?|(w' & Hw' & Es & Hl)]; [by apply walk_lt|by left|].
  right. exists w'. split; [done|]. split; [done|].
  destruct pre as [|c2 pre2].
  - simpl in *. intros N1 N2. rewrite Hl. by apply walk_reset.
  - rewrite last_cons. destruct (last (c2 :: pre2)) eqn:El; [exact Hl|].
    by apply last_None in El.
Qed.

(** The scan never fires without the keyword, and fires on every
    occurrence of HTTP that does not directly follow an H or a T. *)
Theorem http_scan_detects data :
  (scan 0 data = true → ∃ a b, data = a ++ keyword ++ b) ∧
  (∀ a b, data = a ++ keyword ++ b →
    match last a with Some ch => ch ≠ x48 ∧ ch ≠ x54 | None => True end →
    scan 0 data = true) ∧
  http_scan data (length data) 0 = Ret (scan 0 data).
Proof.
  split_and!.
  - intros Hs. apply (scan_sound 0 [] data); [lia|by exists []|done].
  - intros a b -> Hl. destruct (scan_app 0 a (keyword ++ b)) as [[_ ?]|(w' & _ & Es & Hw)];
      [lia|done|]. rewrite Es.
    assert (w' = O) as -> by (destruct (last a); [by destruct Hl; auto|done]). done.
  - rewrite http_scan_linear by lia. by rewrite firstn_all.
Qed.

(** An H right before the keyword hides it. *)
Example http_scan_misses : scan 0 [x48; x48; x54; x54; x50] = false.
Proof. reflexivity. Qed.

(** ** Packet accounting *)

(** The packets whose life a log ends, and those it hands to dst_input. *)
Definition ev_end (ev : event) : list nat :=
  match ev with EFree i | EConsume i | EInput i | EStolen i => [i] | _ => [] end.
Definition ev_input (ev : event) : list nat := match ev with EInput i => [i] | _ => [] end.
Definition ends (l : list event) : list nat := l ≫= ev_end.
Definition inputs (l : list event) : list nat := l ≫= ev_input.

(** [l] ends exactly [ids], handing to dst_input only packets of [ok], in order. *)
Definition handled (ids ok : list nat) (l : list event) : Prop :=
  ends l ≡ₚ ids ∧ inputs l `sublist_of` ok.

Lemma handled_app ids ids' ok ok' l l' :
  handled ids ok l → handled ids' ok' l' → handled (ids ++ ids') (ok ++ ok') (l ++ l').
Proof.
  intros [E1 I1] [E2 I2]. unfold handled, ends, inputs in *. rewrite !bind_app, E1, E2.
  split; [done|]. by apply sublist_app.
Qed.
Lemma handled_nil : handled [] [] [].
Proof. by split. Qed.

(** Events that end no packet. *)
Definition harmless (l : list event) : Prop := ends l = [] ∧ inputs l = [].
Lemma handled_harmless ids ok l l' : harmless l → handled ids ok l' → handled ids ok (l ++ l').
Proof.
  intros [E I] Hh. unfold handled, ends, inputs in *. by rewrite !bind_app, E, I.
Qed.

Lemma harmless_app l l' : harmless l → harmless l' → harmless (l ++ l').
Proof.
  intros [E I] [E' I']. unfold harmless, ends, inputs in *. by rewrite !bind_app, E, I, E', I'.
Qed.
Lemma harmless_end i (ev : event) : ev_end ev = [i] → ev_input ev = [] → handled [i] [] [ev].
Proof. intros E I. unfold handled, ends, inputs. simpl. by rewrite E, I. Qed.

Lemma handled_ok ids ok ok' l : ok `sublist_of` ok' → handled ids ok l → handled ids ok' l.
Proof. intros Hs [? ?]. split; [done|]. by etrans. Qed.
(** A packet ended between two others. *)
Lemma handled_mid a i b ok l l' :
  handled [i] [] l → handled (a ++ b) ok l' → handled (a ++ i :: b) ok (l ++ l').
Proof.
  intros [E1 I1] [E2 I2]. unfold handled, ends, inputs in *. rewrite !bind_app, E1, E2.
  split; [simpl; apply Permutation_middle|]. by apply sublist_nil_r in I1 as ->.
Qed.

Section thms.
Context {E : Type} `{NetEnv E}.
Abbreviation st := (nst E).
Implicit Types s : sk_buff.

(** [m] returns, and its result and the events it adds satisfy [Q]. *)
Definition spec {A} (m : M st A) (Q : A → list event → Prop) : Prop :=
  ∀ t : st, wp m t (λ a t', ∃ l, n_log t' = n_log t ++ l ∧ Q a l).

Lemma spec_ret {A} (a : A) (Q : A → list event → Prop) : Q a [] → spec (mret a) Q.
Proof. intros HQ t. wp_step. exists []. by rewrite app_nil_r. Qed.

Lemma spec_mono {A} (m : M st A) (P Q : A → list event → Prop) :
  (∀ a l, P a l → Q a l) → spec m P → spec m Q.
Proof. intros HPQ Hm t. eapply wp_mono; [|apply Hm]. intros a t' (l & E1 & HP). eauto. Qed.

Lemma spec_bind {A B} (m : M st A) (k : A → M st B) P (Q : B → list event → Prop) :
  spec m P → (∀ a l, P a l → spec (k a) (λ b l', Q b (l ++ l'))) → spec (m ≫= k) Q.
Proof.
  intros Hm Hk t. wp_step. eapply wp_mono; [|apply Hm].
  intros a t1 (l1 & E1 & HP). eapply wp_mono; [|apply (Hk a l1 HP)].
  intros b t2 (l2 & E2 & HQ). exists (l1 ++ l2). split; [|done]. rewrite E2, E1. by rewrite (assoc_L (++)).
Qed.

Lemma spec_log ev (Q : unit → list event → Prop) : Q tt [ev] → spec (log ev) Q.
Proof. intros HQ t. unfold log. wp_step. by exists [ev]. Qed.

Lemma spec_ext {A} (f : E → A * E) (Q : A → list event → Prop) :
  (∀ e, Q (f e).1 []) → spec (ext f) Q.
Proof.
  intros HQ t. unfold ext, wp. specialize (HQ (n_env t)). destruct (f (n_env t)) as [a e].
  exists []. simpl. by rewrite app_nil_r.
Qed.

Lemma spec_asks {A} (f : E → A) (Q : A → list event → Prop) : (∀ a, Q a []) → spec (asks f) Q.
Proof. intros HQ t. unfold asks, wp. exists []. by rewrite app_nil_r. Qed.

(** Sequencing with the events known so far folded into the goal. *)
Lemma spec_log_bind {B} ev (k : unit → M st B) (Q : B → list event → Prop) :
  spec (k tt) (λ b l, Q b (ev :: l)) → spec (log ev ≫= k) Q.
Proof.
  intros Hk. eapply (spec_bind _ _ (λ _ l, l = [ev])); [by apply spec_log|].
  by intros [] l ->.
Qed.
Lemma spec_ext_bind {A B} (f : E → A * E) (k : A → M st B) (Q : B → list event → Prop) :
  (∀ e, spec (k (f e).1) Q) → spec (ext f ≫= k) Q.
Proof.
  intros Hk. eapply (spec_bind _ _ (λ a l, l = [] ∧ ∃ e, a = (f e).1)).
  - apply spec_ext. intros e. eauto.
  - intros a l [-> [e ->]]. apply Hk.
Qed.
Lemma spec_asks_bind {A B} (f : E → A) (k : A → M st B) (Q : B → list event → Prop) :
  (∀ a, spec (k a) Q) → spec (asks f ≫= k) Q.
Proof.
  intros Hk. eapply (spec_bind _ _ (λ _ l, l = [])); [by apply spec_asks|]. intros a l ->. apply Hk.
Qed.

Lemma parse_hdr_some l : (20 ≤ length l)%nat → ∃ h, parse_hdr l = Some h.
Proof.
  intros Hl. do 20 (destruct l as [|? l]; [simpl in Hl; lia|]). by eexists.
Qed.

Lemma spec_hdr_bind {B} s (k : iphdr → M st B) (Q : B → list event → Prop) :
  (20 ≤ length (skb_linear s))%nat →
  (∀ h, parse_hdr (skb_linear s) = Some h → spec (k h) Q) → spec (ip_hdr s ≫= k) Q.
Proof.
  intros Hl Hk. destruct (parse_hdr_some _ Hl) as [h Eh]. unfold ip_hdr. rewrite Eh.
  eapply (spec_bind _ _ (λ a l, l = [] ∧ a = h)); [by apply spec_ret|].
  intros a l [-> ->]. by apply Hk.
Qed.

(** *** ip_rcv_core *)

(** What a packet let through satisfies; [bytes] are the bytes received. *)
Record accepted (bytes : list byte) s : Prop := Accepted {
  ac_hdr : ∃ h, parse_hdr bytes = Some h ∧ 5 <= ihl h ∧ version h = 4 ∧
    (∃ hd, hd `prefix_of` bytes ∧ ihl h * 4 <= Z.of_nat (length hd) ∧ ip_fast_csum hd (ihl h) = 0) ∧
    ihl h * 4 <= tot_len h <= Z.of_nat (length bytes) ∧
    skb_bytes s = take (Z.to_nat (tot_len h)) bytes;
  ac_clean : scan 0 bytes = false;
  ac_len : (20 ≤ length (skb_linear s))%nat;
  ac_orphan : skb_sk s = false
}.

Definition core_post s (r : option sk_buff) (l : list event) : Prop :=
  match r with
  | None => handled [skb_id s] [] l
  | Some s' => harmless l ∧ skb_id s' = skb_id s ∧ accepted (skb_bytes s) s'
  end.

(** The packet has no page fragments: the scan stays in its memory. *)
Definition linear s : Prop := skb_paged s = [].

(** Statistics end no packet. *)
Definition stat_closed {A} (Q : A → list event → Prop) : Prop :=
  ∀ m n a l, Q a l → Q a (EStat m n :: l).

Lemma spec_stat {B} m n (k : unit → M st B) (Q : B → list event → Prop) :
  stat_closed Q → spec (k tt) Q → spec (log (EStat m n) ≫= k) Q.
Proof.
  intros HQ Hk. apply spec_log_bind. eapply spec_mono; [|exact Hk]. intros b l. apply HQ.
Qed.

Lemma core_post_closed s : stat_closed (core_post s).
Proof. intros m n [s'|] l HQ; exact HQ. Qed.

Lemma spec_rcv_drop s s' : skb_id s' = skb_id s → spec (rcv_drop s') (core_post s).
Proof.
  intros E0. unfold rcv_drop, kfree_skb. apply spec_log_bind, spec_ret. rewrite E0. by split.
Qed.
Lemma spec_inhdr_error s s' : skb_id s' = skb_id s → spec (inhdr_error s') (core_post s).
Proof. intros E0. apply spec_stat; [apply core_post_closed|by apply spec_rcv_drop]. Qed.
Lemma spec_csum_error s s' : skb_id s' = skb_id s → spec (csum_error s') (core_post s).
Proof. intros E0. apply spec_stat; [apply core_post_closed|by apply spec_inhdr_error]. Qed.

Lemma parse_hdr_app l k h : parse_hdr l = Some h → parse_hdr (l ++ k) = Some h.
Proof.
  intros Hp. do 20 (destruct l as [|? l]; [discriminate Hp|]). exact Hp.
Qed.

Lemma parse_hdr_tot_len l h : parse_hdr l = Some h → 0 <= tot_len h ∧ 0 <= ihl h.
Proof.
  intros Hp. do 20 (destruct l as [|? l]; [discriminate Hp|]). injection Hp as <-. simpl.
  unfold be. simpl. unfold byteZ. split; [lia|]. apply Z.mod_pos_bound. lia.
Qed.

Lemma linear_prefix s : skb_linear s `prefix_of` skb_bytes s.
Proof. by exists (skb_paged s). Qed.

Lemma parse_hdr_bytes s h : parse_hdr (skb_linear s) = Some h → parse_hdr (skb_bytes s) = Some h.
Proof. intros Hp. by apply parse_hdr_app. Qed.

(** The header checks, on a packet [s] with the bytes of the received [s0]. *)
Lemma spec_rcv_header s0 s h :
  skb_id s = skb_id s0 → skb_bytes s = skb_bytes s0 → scan 0 (skb_bytes s0) = false →
  parse_hdr (skb_linear s) = Some h → (20 ≤ length (skb_linear s))%nat →
  spec (rcv_header s h) (core_post s0).
Proof.
  intros Eid Eb Hs Hp Hl. unfold rcv_header.
  destruct ((ihl h <? 5) || negb (version h =? 4)) eqn:Hv; [by apply spec_inhdr_error|].
  apply orb_false_iff in Hv as [Hi%Z.ltb_ge Hv%negb_false_iff%Z.eqb_eq].
  apply spec_stat; [apply core_post_closed|]. apply spec_ext_bind. intros e.
  destruct (pskb_may_pull _ s e) as [[s1|] e1] eqn:Ep; simpl; [|by apply spec_inhdr_error].
  apply may_pull_law in Ep as (I1 & B1 & L1 & L1').
  apply spec_hdr_bind; [lia|]. intros h1 Hp1.
  assert (h1 = h) as ->.
  { apply parse_hdr_bytes in Hp1, Hp. congruence. }
  destruct (ip_fast_csum _ _ =? 0) eqn:Hc; simpl; [|apply spec_csum_error; congruence].
  apply Z.eqb_eq in Hc.
  destruct (skb_len s1 <? tot_len h) eqn:Ht.
  { apply spec_stat; [apply core_post_closed|]. apply spec_rcv_drop. congruence. }
  destruct (tot_len h <? ihl h * 4) eqn:Hi4; [apply spec_inhdr_error; congruence|].
  unfold skb_len in Ht. apply Z.ltb_ge in Ht, Hi4.
  apply spec_ext_bind. intros e2.
  destruct (pskb_trim_rcsum _ s1 e2) as [[s2|] e3] eqn:Er; simpl.
  2: { apply spec_stat; [apply core_post_closed|]. apply spec_rcv_drop. congruence. }
  apply trim_law in Er as (I2 & B2 & L2); [|lia].
  apply spec_ret. split; [done|]. split; [simpl; congruence|].
  split; simpl; [|done|lia|done].
  exists h. split_and!; try lia; try done.
  - rewrite <- Eb. by apply parse_hdr_bytes.
  - exists (skb_linear s1). split_and!; [|lia|done].
    rewrite <- Eb, <- B1. apply linear_prefix.
  - rewrite <- Eb, <- B1. lia.
  - rewrite <- Eb, <- B1. exact B2.
Qed.

(** On a packet without fragments ip_rcv_core returns; it ends the packet or
    lets an acceptable one through. *)
Lemma spec_rcv_core s : linear s → spec (ip_rcv_core s) (core_post s).
Proof.
  intros Hlin. unfold ip_rcv_core.
  destruct (pkt_type s =? PACKET_OTHERHOST); [by apply spec_rcv_drop|].
  apply spec_stat; [apply core_post_closed|]. apply spec_ext_bind. intros e.
  destruct (skb_share_check s e) as [[s1|] e1] eqn:Es; simpl.
  2: { apply spec_stat; [apply core_post_closed|]. apply spec_log_bind, spec_ret. by split. }
  apply share_check_law in Es as (I1 & B1 & L1).
  apply spec_ext_bind. intros e2.
  destruct (pskb_may_pull 20 s1 e2) as [[s2|] e3] eqn:Ep; simpl; [|by apply spec_inhdr_error].
  apply may_pull_law in Ep as (I2 & B2 & L2 & L2').
  apply spec_hdr_bind; [done|]. intros h Hp.
  assert (Hfull : take (length (skb_bytes s2)) (skb_linear s2) = skb_bytes s).
  { rewrite <- B1, <- B2. unfold skb_bytes at 2.
    assert (skb_paged s2 = []) as ->; [|rewrite app_nil_r; apply take_ge; unfold skb_bytes; len; lia].
    apply length_zero_iff_nil. assert (length (skb_bytes s2) = length (skb_bytes s)) by congruence.
    unfold skb_bytes in *. rewrite Hlin in *. rewrite !length_app in *. simpl in *. rewrite L1 in *. lia. }
  assert (Hle : (length (skb_bytes s2) ≤ length (skb_linear s2))%nat).
  { assert (length (skb_bytes s2) = length (skb_bytes s)) as -> by congruence.
    unfold skb_bytes. rewrite Hlin, app_nil_r, <- L1. lia. }
  eapply (spec_bind _ _ (λ b l, l = [] ∧ b = scan 0 (skb_bytes s))).
  { intros t. unfold scan_packet, wp. rewrite http_scan_linear, Hfull by done.
    exists []. by rewrite app_nil_r. }
  intros b l [-> ->]. destruct (scan 0 (skb_bytes s)) eqn:Hs.
  - apply spec_rcv_drop. congruence.
  - apply spec_rcv_header; congruence || done.
Qed.

(** *** ip_rcv_finish_core *)

Abbreviation hdr_in s := (20 ≤ length (skb_linear s))%nat.

(** A dropped packet was ended; a routed one is alive, with its route. *)
Definition fin_post s (r : Z * sk_buff) (l : list event) : Prop :=
  skb_id r.2 = skb_id s ∧
  if r.1 =? NET_RX_DROP then handled [skb_id s] [] l
  else harmless l ∧ is_Some (skb_dst r.2) ∧ hdr_in r.2.

Lemma fin_post_closed s : stat_closed (fin_post s).
Proof. intros m n [z s'] l HQ. exact HQ. Qed.
Lemma fin_post_id s s' : skb_id s' = skb_id s → fin_post s' = fin_post s.
Proof. intros Ei. unfold fin_post. by rewrite Ei. Qed.

Lemma spec_finish_drop s : spec (finish_drop s) (fin_post s).
Proof. apply spec_log_bind, spec_ret. by repeat split. Qed.
Lemma spec_drop_error err s : spec (drop_error err s) (fin_post s).
Proof.
  unfold drop_error. destruct (err =? - EXDEV).
  - apply spec_stat; [apply fin_post_closed|apply spec_finish_drop].
  - eapply (spec_bind _ _ (λ _ l, l = [])); [by apply spec_ret|]. intros _ l ->. apply spec_finish_drop.
Qed.

Lemma spec_finish_deliver s dev : is_Some (skb_dst s) → hdr_in s →
  spec (finish_deliver s dev) (fin_post s).
Proof.
  intros [rt Hrt] Hl. unfold finish_deliver. rewrite Hrt.
  assert (Hok : fin_post s (NET_RX_SUCCESS, s) []) by (repeat split; [by exists rt|done]).
  destruct (_ =? RTN_MULTICAST); [apply spec_stat; [apply fin_post_closed|by apply spec_ret]|].
  destruct (_ =? RTN_BROADCAST); [apply spec_stat; [apply fin_post_closed|by apply spec_ret]|].
  destruct (_ || _); [|by apply spec_ret].
  apply spec_asks_bind. intros a. destruct a as [i|]; [|by apply spec_ret].
  destruct (drop_unicast_in_l2_multicast i); [apply spec_finish_drop|by apply spec_ret].
Qed.

(** The options leave the packet alive, with its route if they accept it. *)
Definition opt_post s (r : bool * sk_buff) (l : list event) : Prop :=
  harmless l ∧ skb_id r.2 = skb_id s ∧ (r.1 = false → is_Some (skb_dst r.2) ∧ hdr_in r.2).

Lemma spec_rcv_options s dev : is_Some (skb_dst s) → hdr_in s →
  spec (ip_rcv_options s dev) (opt_post s).
Proof.
  intros Hd Hl. unfold ip_rcv_options.
  assert (Hc : stat_closed (opt_post s)) by (intros m n r l HQ; exact HQ).
  apply spec_ext_bind. intros e. destruct (skb_cow s e) as [[s1|] e1] eqn:Ec; simpl.
  2: { apply spec_stat; [done|]. by apply spec_ret. }
  apply cow_law in Ec as [[I1 L1] D1].
  assert (Hdrop : opt_post s (true, s1) []) by by repeat split.
  apply spec_ext_bind. intros e2. destruct (ip_options_compile s1 e2) as [[[|]|] e3]; simpl.
  2: { apply spec_ret. repeat split; auto. }
  2: { apply spec_stat; [done|]. by apply spec_ret. }
  apply spec_asks_bind. intros ind.
  destruct (match ind with Some i => negb (source_route i) | None => false end);
    [by apply spec_ret|].
  apply spec_ext_bind. intros e4.
  destruct (ip_options_rcv_srr s1 dev e4) as [[s2|] e5] eqn:Er; simpl; [|by apply spec_ret].
  apply srr_law in Er as [[I2 L2] D2]. apply spec_ret.
  repeat split; simpl; auto; congruence.
Qed.

Lemma spec_finish_options s h dev : is_Some (skb_dst s) → hdr_in s →
  spec (finish_options s h dev) (fin_post s).
Proof.
  intros Hd Hl. unfold finish_options. destruct (5 <? ihl h); [|by apply spec_finish_deliver].
  eapply spec_bind; [by apply spec_rcv_options|].
  intros [drop s1] l (Hh & Ei & Hs). simpl in *.
  apply (spec_mono _ (fin_post s)).
  { intros r l'. unfold fin_post. destruct (r.1 =? NET_RX_DROP).
    - intros [? ?]. split; [done|by apply handled_harmless].
    - intros (? & ? & ?). split; [done|]. split; [|done]. by apply harmless_app. }
  rewrite <- (fin_post_id s s1 Ei).
  destruct drop; [apply spec_finish_drop|]. destruct Hs as [? ?]; [done|].
  by apply spec_finish_deliver.
Qed.

Lemma spec_finish_route s h dev : hdr_in s → spec (finish_route s h dev) (fin_post s).
Proof.
  intros Hl. unfold finish_route, skb_valid_dst.
  destruct (match skb_dst s with Some d => negb (dst_metadata d) | None => false end) eqn:Hv.
  { apply spec_finish_options; [|done]. by destruct (skb_dst s). }
  apply spec_ext_bind. intros e.
  destruct (ip_route_input_noref s h dev e) as [[err|s1] e1] eqn:Er; simpl; [apply spec_drop_error|].
  apply route_law in Er as [[I1 L1] D1]. rewrite <- (fin_post_id s s1 I1).
  apply spec_finish_options; auto.
Qed.

Lemma spec_finish_demux s h dev : hdr_in s → spec (finish_demux s h dev) (fin_post s).
Proof.
  intros Hl. unfold finish_demux. apply spec_asks_bind. intros on.
  destruct (_ && _); [|by apply spec_finish_route].
  apply spec_asks_bind. intros [p|]; [|by apply spec_finish_route].
  destruct (has_early_demux p); [|by apply spec_finish_route].
  apply spec_ext_bind. intros e.
  destruct (early_demux _ s e) as [[err|s1] e1] eqn:Er; simpl; [apply spec_drop_error|].
  apply early_demux_law in Er as [I1 L1]. rewrite <- (fin_post_id s s1 I1).
  apply spec_hdr_bind; [auto|]. intros h1 _. apply spec_finish_route; auto.
Qed.

Definition hint_ok (hint : option sk_buff) : Prop :=
  match hint with Some h => hdr_in h | None => True end.

Lemma spec_finish_core s dev hint : hdr_in s → hint_ok hint →
  spec (ip_rcv_finish_core s dev hint) (fin_post s).
Proof.
  intros Hl Hh. unfold ip_rcv_finish_core. apply spec_hdr_bind; [done|]. intros h Hp.
  eapply (spec_bind _ _ (λ _ l, l = [])).
  { unfold ip_can_use_hint. destruct hint as [hk|]; [|by apply spec_ret].
    destruct (skb_dst s); [by apply spec_ret|]. apply spec_hdr_bind; [done|]. intros ? _. by apply spec_ret. }
  intros use l ->. destruct use; [|by apply spec_finish_demux].
  destruct hint as [hk|]; [|by apply spec_finish_demux].
  apply spec_ext_bind. intros e.
  destruct (ip_route_use_hint s h dev hk e) as [[err|s1] e1] eqn:Er; simpl; [apply spec_drop_error|].
  apply use_hint_law in Er as [I1 L1]. rewrite <- (fin_post_id s s1 I1).
  apply spec_finish_demux; auto.
Qed.

(** *** Single packets *)

Abbreviation ids := (map skb_id).

Lemma spec_dst_input s : spec (do_dst_input s) (λ _ l, handled [skb_id s] [skb_id s] l).
Proof. apply spec_log_bind, spec_ext. intros e. by split. Qed.

(** Free of the keyword as the scan sees it. *)
Definition clean s : Prop := scan 0 (skb_bytes s) = false.
#[local] Instance clean_dec s : Decision (clean s).
Proof. unfold clean. apply _. Defined.

Lemma spec_rcv_finish s : hdr_in s → spec (ip_rcv_finish s) (λ _ l, handled [skb_id s] [skb_id s] l).
Proof.
  intros Hl. unfold ip_rcv_finish. apply spec_ext_bind. intros e.
  destruct (l3mdev_ip_rcv s e) as [[s1|] e1] eqn:Em; simpl.
  2: { apply spec_log_bind, spec_ret. split; [done|apply sublist_nil_l]. }
  apply l3mdev_law in Em as [I1 L1].
  eapply spec_bind; [by apply spec_finish_core; auto|].
  intros [ret s2] l [Hi Hr]. simpl in Hi. destruct (ret =? NET_RX_DROP) eqn:Er; simpl in Hr; rewrite Er in Hr.
  - apply spec_ret. rewrite app_nil_r, <- I1. eapply handled_ok; [|exact Hr]. apply sublist_nil_l.
  - simpl. eapply spec_mono; [|apply spec_dst_input]. intros b l' Hh. simpl in *.
    rewrite Hi, I1 in Hh. apply handled_harmless; [apply Hr|done].
Qed.

Lemma spec_ip_rcv s : linear s →
  spec (ip_rcv s) (λ _ l, handled [skb_id s] (ids (filter clean [s])) l).
Proof.
  intros Hlin. unfold ip_rcv. eapply spec_bind; [by apply spec_rcv_core|].
  intros [s1|] l Hc; simpl in Hc.
  2: { apply spec_ret. rewrite app_nil_r. eapply handled_ok; [apply sublist_nil_l|done]. }
  destruct Hc as (Hh & Hi & Ha). rewrite filter_cons_True by apply Ha. simpl.
  apply (spec_mono _ (λ _ l, handled [skb_id s] [skb_id s] l)).
  { intros ? l' Hl'. by apply handled_harmless. }
  unfold NF_HOOK. apply spec_ext_bind. intros e.
  destruct (nf_hook _ s1 e) as [[v|s2] e2] eqn:En; simpl.
  - apply spec_log_bind, spec_ret. rewrite Hi. split; [done|apply sublist_nil_l].
  - apply nf_hook_law in En as [I2 L2]. rewrite <- Hi, <- I2. apply spec_rcv_finish, L2, Ha.
Qed.

(** *** Lists of packets *)

Lemma spec_sublist_finish sub :
  spec (ip_sublist_rcv_finish sub) (λ _ l, handled (ids sub) (ids sub) l).
Proof.
  induction sub as [|s sub IH]; [by apply spec_ret|].
  eapply (spec_bind _ _ (λ _ l, handled [skb_id s] [skb_id s] l)).
  - eapply spec_bind; [apply spec_dst_input|]. intros z l Hl. apply spec_ret. by rewrite app_nil_r.
  - intros [] l Hl. eapply spec_mono; [|exact IH]. intros [] l' Hl'. exact (handled_app _ _ _ _ _ _ Hl Hl').
Qed.

Lemma spec_extract_hint s rt : hdr_in s →
  spec (ip_extract_route_hint s rt) (λ h l, l = [] ∧ hint_ok h).
Proof.
  intros Hl. apply spec_asks_bind. intros c. apply spec_ret. split; [done|].
  by destruct (_ || _).
Qed.

(** [match sublist with [] => mret tt | _ => f sublist end] *)
Lemma spec_flush (f : list sk_buff → M st unit) sub :
  spec (f sub) (λ _ l, handled (ids sub) (ids sub) l) →
  spec (match sub with [] => mret tt | _ => f sub end) (λ _ l, handled (ids sub) (ids sub) l).
Proof. intros Hf. destruct sub; [by apply spec_ret|exact Hf]. Qed.

Lemma spec_finish_loop head hint cd sub : Forall (λ s, hdr_in s) head → hint_ok hint →
  spec (list_finish_loop head hint cd sub)
    (λ _ l, handled (ids sub ++ ids head) (ids sub ++ ids head) l).
Proof.
  revert hint cd sub. induction head as [|s head IH]; intros hint cd sub Hf Hh.
  { simpl. rewrite app_nil_r. apply spec_sublist_finish. }
  apply Forall_cons in Hf as [Hl Hf]. cbn [list_finish_loop map].
  assert (Hsub : ids sub ++ ids head `sublist_of` ids sub ++ skb_id s :: ids head)
    by by apply sublist_app; [|constructor].
  assert (Hmid : ∀ l hint cd, handled [skb_id s] [] l → hint_ok hint →
    spec (list_finish_loop head hint cd sub) (λ _ l',
      handled (ids sub ++ skb_id s :: ids head) (ids sub ++ skb_id s :: ids head) (l ++ l'))).
  { intros l hint' cd' H1 H2. eapply spec_mono; [|by apply IH]. intros [] l' Hl'.
    apply handled_mid; [done|]. by eapply handled_ok. }
  apply spec_ext_bind. intros e. destruct (l3mdev_ip_rcv s e) as [[s1|] e1] eqn:Em; simpl.
  2: { apply spec_log_bind. apply (Hmid [EStolen (skb_id s)]); [by split|done]. }
  apply l3mdev_law in Em as [I1 L1].
  eapply spec_bind; [by apply spec_finish_core; auto|].
  intros [ret s2] l [Hi Hr]. cbn [fst snd] in *. rewrite I1 in Hi, Hr.
  destruct (ret =? NET_RX_DROP); [by apply Hmid|].
  destruct Hr as (Hl0 & [d Hd] & Hl2).
  apply (spec_mono _ (λ _ l', handled (ids sub ++ skb_id s :: ids head) (ids sub ++ skb_id s :: ids head) l')).
  { intros [] l' Hl'. by apply handled_harmless. }
  rewrite Hd. destruct (dst_ne cd (Some d)).
  - eapply spec_bind; [by apply spec_extract_hint|]. intros hk l1 [-> Hk].
    eapply spec_bind; [apply spec_flush, spec_sublist_finish|].
    intros [] l1 Hl1. eapply spec_mono; [|by apply IH]. intros [] l' Hl'. simpl in Hl'.
    rewrite Hi in Hl'. exact (handled_app _ _ _ _ _ _ Hl1 Hl').
  - eapply spec_mono; [|by apply IH]. intros [] l' Hl'.
    rewrite map_app, <- !(assoc_L (++)) in Hl'. simpl in Hl'. by rewrite Hi in Hl'.
Qed.

Lemma spec_nf_hook_list hook head : Forall (λ s, hdr_in s) head →
  spec (nf_hook_list hook head) (λ kept l, ∃ gone, handled gone [] l ∧
    Forall (λ s, hdr_in s) kept ∧ ids kept `sublist_of` ids head ∧ gone ++ ids kept ≡ₚ ids head).
Proof.
  induction head as [|s head IH]; intros Hf.
  { apply spec_ret. exists []. by split_and!; [apply handled_nil|constructor|..]. }
  apply Forall_cons in Hf as [Hl Hf]. cbn [nf_hook_list]. apply spec_ext_bind. intros e.
  destruct (nf_hook hook s e) as [[v|s1] e1] eqn:En; simpl.
  - apply spec_log_bind. eapply spec_mono; [|by apply IH].
    intros kept l (gone & G & K & Sb & P). exists (skb_id s :: gone). split_and!; [|done| |].
    + change (handled ([skb_id s] ++ gone) ([] ++ []) ([EStolen (skb_id s)] ++ l)).
      apply handled_app; [by split|done].
    + by constructor.
    + simpl. by rewrite P.
  - apply nf_hook_law in En as [I1 L1]. eapply spec_bind; [by apply IH|].
    intros kept l (gone & G & K & Sb & P). apply spec_ret. rewrite app_nil_r.
    exists gone. simpl. rewrite I1. split_and!; [done|by constructor; auto|by constructor|].
    by rewrite <- Permutation_middle, P.
Qed.

Lemma spec_sublist_rcv sub : Forall (λ s, hdr_in s) sub →
  spec (ip_sublist_rcv sub) (λ _ l, handled (ids sub) (ids sub) l).
Proof.
  intros Hf. eapply spec_bind; [by apply spec_nf_hook_list|].
  intros kept l (gone & G & K & Sb & P).
  eapply spec_mono; [|by apply (spec_finish_loop kept None None [])]. intros [] l' Hl'. simpl in Hl'.
  destruct (handled_app _ _ _ _ _ _ G Hl') as [P1 P2].
  split; [by rewrite P1|]. by etrans.
Qed.

Lemma spec_rcv_loop head curr sub : Forall linear head → Forall (λ s, hdr_in s) sub →
  spec (list_rcv_loop head curr sub)
    (λ _ l, handled (ids sub ++ ids head) (ids sub ++ ids (filter clean head)) l).
Proof.
  revert curr sub. induction head as [|s head IH]; intros curr sub Hf Hs.
  { simpl. rewrite !app_nil_r. by apply spec_flush, spec_sublist_rcv. }
  apply Forall_cons in Hf as [Hl Hf]. cbn [list_rcv_loop map].
  eapply spec_bind; [by apply spec_rcv_core|]. intros [s1|] l Hc; simpl in Hc.
  - destruct Hc as (Hh & Hi & Ha). rewrite filter_cons_True by apply Ha. simpl.
    pose proof (ac_len _ _ Ha) as Hl1.
    apply (spec_mono _ (λ _ l', handled (ids sub ++ skb_id s :: ids head)
      (ids sub ++ skb_id s :: ids (filter clean head)) l')).
    { intros [] l' Hl'. by apply handled_harmless. }
    destruct (bool_decide _).
    + eapply spec_mono; [|apply IH; [done|]; apply Forall_app; by repeat constructor].
      intros [] l' Hl'. rewrite map_app, <- !(assoc_L (++)) in Hl'. simpl in Hl'. by rewrite Hi in Hl'.
    + eapply spec_bind; [by apply spec_flush, spec_sublist_rcv|].
      intros [] l1 Hl2. eapply spec_mono; [|apply IH; [done|]; by repeat constructor].
      intros [] l' Hl'. simpl in Hl'. rewrite Hi in Hl'. exact (handled_app _ _ _ _ _ _ Hl2 Hl').
  - eapply spec_mono; [|by apply IH]. intros [] l' Hl'. apply handled_mid; [done|].
    eapply handled_ok; [|exact Hl']. apply sublist_app; [done|].
    apply (fmap_sublist skb_id). rewrite filter_cons. case_decide; [by constructor|done].
Qed.

(** *** Local delivery *)

(** What becomes of a packet handed to local delivery. *)
Definition ev_deliver (ev : event) : list nat :=
  match ev with EFree i | EConsume i | EHandler _ i => [i] | _ => [] end.
Definition deliveries (l : list event) : list nat := l ≫= ev_deliver.

(** [n] handlers in a row, each asking for the packet it left to be
    delivered again, under another protocol. *)
Inductive resubmitted : nat → sk_buff → Z → Prop :=
  | resubmitted_0 s p : resubmitted 0 s p
  | resubmitted_S n s p e ret s' e' : proto_handler p s e = ((ret, s'), e') → ret < 0 →
      resubmitted n s' (- ret) → resubmitted (S n) s p.

(** A handler that asks for another protocol has pulled its own header off
    the packet: udp_rcv for an encapsulation socket, esp, ah, ipip. *)
Definition handlers_pull : Prop := ∀ p s e ret s' e',
  proto_handler p s e = ((ret, s'), e') → ret < 0 → skb_len s' < skb_len s.

Lemma resubmitted_length n s p : handlers_pull → resubmitted n s p → Z.of_nat n <= skb_len s.
Proof.
  intros Hp. induction 1 as [s p|n s p e ret s' e' Eh Hr _ IH]; [unfold skb_len; lia|].
  specialize (Hp _ _ _ _ _ _ Eh Hr). lia.
Qed.

(** One end, or nothing but resubmissions. *)
Definition delivered fuel s p (r : option unit) (l : list event) : Prop :=
  r = Some tt ∧ deliveries l = [skb_id s] ∨ r = None ∧ deliveries l = [] ∧ resubmitted fuel s p.

Lemma spec_deliver fuel s p : spec (ip_protocol_deliver_rcu fuel s p) (delivered fuel s p).
Proof.
  assert (End : ∀ f s p l, deliveries l = [skb_id s] → delivered f s p (Some tt) l) by (by left).
  revert s p. induction fuel as [|fuel IH]; intros s p.
  { apply spec_ret. right. by repeat constructor. }
  cbn [ip_protocol_deliver_rcu]. apply spec_ext_bind. intros e.
  generalize (raw_local_deliver p s e).1 as raw. intros raw. apply spec_asks_bind. intros [pr|].
  - eapply (spec_bind _ _ (λ _ l, l = [])).
    { destruct (no_policy pr); [by apply spec_ret|]. by apply spec_ext. }
    intros ok l ->. destruct ok; simpl; [|by apply spec_log_bind, spec_ret, End].
    apply spec_ext_bind. intros e2. destruct (proto_handler p s e2) as [[ret s'] e3] eqn:Eh. simpl.
    destruct (Z.ltb_spec ret 0) as [Hr|Hr]; [|by apply spec_log_bind, spec_log_bind, spec_ret, End].
    eapply spec_mono; [|apply IH]. intros r l [[-> D]|(-> & D & R)].
    + left. by rewrite D, (handler_law _ _ _ _ _ _ Eh Hr).
    + right. split_and!; [done..|]. by econstructor.
  - destruct raw; simpl; [by apply spec_log_bind, spec_log_bind, spec_ret, End|].
    apply spec_ext_bind. intros e2. destruct (xfrm4_policy_check s e2).1.
    + eapply (spec_bind _ _ (λ _ l, deliveries l = [])).
      { by apply spec_log_bind, spec_log. }
      intros [] l Hl. apply spec_log_bind, spec_ret, End.
      unfold deliveries in *. by rewrite bind_app, Hl.
    + eapply (spec_bind _ _ (λ _ l, l = [])); [by apply spec_ret|].
      intros [] l ->. by apply spec_log_bind, spec_ret, End.
Qed.

(** C7: on a packet without page fragments ip_rcv_core never goes wrong: it
    either ends the packet exactly once, or returns it with a valid IPv4 header
    (version, header length, checksum, total length), trimmed to its total
    length, orphaned from its socket, and with no keyword the scan detects. *)
Theorem ip_rcv_core_checked s (t : st) : linear s →
  ∃ r t' l, ip_rcv_core s t = Ret (r, t') ∧ n_log t' = n_log t ++ l ∧ core_post s r l.
Proof.
  intros Hl. destruct (wp_elim _ _ _ (spec_rcv_core s Hl t)) as (r & t' & Hrun & l & E1 & E2).
  eauto 10.
Qed.

(** C6: a batch of packets without page fragments goes through ip_list_rcv
    without a fault, however it is split by device, route and verdict: every
    packet meets exactly one end, and those handed to dst_input are packets in
    which the keyword walk of ip_rcv_core finds nothing, in their order of
    arrival.  (On a packet with page fragments the walk can leave the linear
    part; and the walk misses an HTTP that follows an H or a T.) *)
Theorem ip_list_rcv_accounts head (t : st) : Forall linear head →
  ∃ t' l, ip_list_rcv head t = Ret (tt, t') ∧ n_log t' = n_log t ++ l ∧
    ends l ≡ₚ map skb_id head ∧ inputs l `sublist_of` map skb_id (filter clean head).
Proof.
  intros Hl. destruct (wp_elim _ _ _ (spec_rcv_loop head None [] Hl (Forall_nil_2 _) t))
    as ([] & t' & Hrun & l & E1 & E2 & E3).
  exists t', l. by split_and!.
Qed.

(** C35: local delivery of a packet never faults, and after any number of
    rounds either it is over, the packet consumed by exactly one handler or
    released exactly once, or every round was a resubmission, of the packet as
    the handler before left it, and nothing has been done to the packet.  When
    a handler that asks for a resubmission has taken at least one byte off the
    packet, one round more than the packet has bytes is always enough. *)
Theorem ip_deliver_terminates s p (t : st) :
  (∀ rounds, ∃ r t' l, ip_protocol_deliver_rcu rounds s p t = Ret (r, t') ∧ n_log t' = n_log t ++ l ∧
    (r = Some tt ∧ deliveries l = [skb_id s] ∨
     r = None ∧ deliveries l = [] ∧ resubmitted rounds s p)) ∧
  (handlers_pull →
    ∃ t' l, ip_protocol_deliver_rcu (S (length (skb_bytes s))) s p t = Ret (Some tt, t') ∧
      n_log t' = n_log t ++ l ∧ deliveries l = [skb_id s]).
Proof.
  assert (G : ∀ rounds, ∃ r t' l, ip_protocol_deliver_rcu rounds s p t = Ret (r, t') ∧
    n_log t' = n_log t ++ l ∧ delivered rounds s p r l).
  { intros rounds. destruct (wp_elim _ _ _ (spec_deliver rounds s p t)) as (r & t' & Hrun & l & E1 & E2).
    by exists r, t', l. }
  split; [exact G|]. intros Hp. destruct (G (S (length (skb_bytes s)))) as (r & t' & l & Hrun & El & [[-> D]|(_ & _ & R)]).
  - by exists t', l.
  - apply (resubmitted_length _ _ _ Hp) in R. unfold skb_len in R. lia.
Qed.

End thms.

(** ** A host *)

(** A concrete environment: routing by destination address, a firewall that
    blocks the listed packets, the Internet checksum, and a tunnel protocol (4)
    that resubmits its content to protocol 6. *)
Record host := Host { blocked : list nat }.

Fixpoint words (l : list byte) : Z :=
  match l with
  | a :: b :: r => byteZ a * 256 + byteZ b + words r
  | [a] => byteZ a * 256
  | [] => 0
  end.
Definition csum (l : list byte) (ihl : Z) : Z :=
  (65535 - words (take (Z.to_nat (ihl * 4)) l) mod 65535) mod 65535.
Definition set_data (s : sk_buff) (l : list byte) : sk_buff :=
  SkBuff (skb_id s) l [] (pkt_type s) (skb_dev s) (skb_net s) (skb_dst s) (skb_sk s) (gso_segs s).
Definition set_dst (s : sk_buff) (d : dst_entry) : sk_buff :=
  SkBuff (skb_id s) (skb_linear s) (skb_paged s) (pkt_type s) (skb_dev s) (skb_net s) (Some d)
    (skb_sk s) (gso_segs s).

#[local] Program Instance host_env : NetEnv host := {
  skb_share_check s e := (Some s, e);
  pskb_may_pull n s e :=
    (if (n <=? length (skb_bytes s))%nat then Some (set_data s (skb_bytes s)) else None, e);
  pskb_trim_rcsum n s e := (Some (set_data s (take n (skb_bytes s))), e);
  ip_fast_csum := csum;
  skb_cow s e := (Some s, e);
  ip_options_compile s e := (Some false, e);
  ip_options_rcv_srr s dev e := (Some s, e);
  in_dev_get dev e := Some (InDevice true true);
  ip_route_use_hint s iph dev h e := (inr (set_dst s (DstEntry (daddr iph) 1 false)), e);
  ip_route_input_noref s iph dev e := (inr (set_dst s (DstEntry (daddr iph) 1 false)), e);
  early_demux p s e := (inr s, e);
  inet_protos p e := if (p =? 4) || (p =? 6) then Some (NetProtocol true true) else None;
  sysctl_ip_early_demux e := true;
  l3mdev_ip_rcv s e := (Some s, e);
  nf_hook h s e := (if bool_decide (skb_id s ∈ blocked e) then inl (-1) else inr s, e);
  dst_input s e := (0, e);
  fib4_has_custom_rules n e := false;
  skb_pull n s :=
    if (n <=? length (skb_linear s))%nat then
      Some (SkBuff (skb_id s) (drop n (skb_linear s)) (skb_paged s) (pkt_type s) (skb_dev s) (skb_net s)
              (skb_dst s) (skb_sk s) (gso_segs s))
    else None;
  raw_local_deliver p s e := (false, e);
  proto_handler p s e :=
    (if (p =? 4) && (20 <=? length (skb_bytes s))%nat then (-6, set_data s (drop 20 (skb_bytes s))) else (0, s), e);
  xfrm4_policy_check s e := (true, e);
  ip_defrag s e := (Some s, e);
  ra_chain n e := [];
  skb_clone s e := (Some s, e)
}.
Next Obligation. by intros s e s' e' [= <- <-]. Qed.
Next Obligation.
  intros n s e s' e' [= Hs <-]. destruct (Nat.leb_spec n (length (skb_bytes s))); [|done].
  injection Hs as <-. unfold skb_bytes in *. simpl. rewrite app_nil_r. len. repeat split; lia.
Qed.
Next Obligation.
  intros n s e s' e' Hn [= <- <-]. unfold skb_bytes in *. simpl. rewrite app_nil_r.
  repeat split. len. lia.
Qed.
Next Obligation. by intros s e s' e' [= <- <-]. Qed.
Next Obligation. intros h s e s' e' [= Hs <-]. case_bool_decide; [done|]. by injection Hs as <-. Qed.
Next Obligation. by intros p s e s' e' [= <- <-]. Qed.
Next Obligation. by intros s i d h e s' e' [= <- <-]. Qed.
Next Obligation. intros s i d e s' e' [= <- <-]. split; [done|]. by eexists. Qed.
Next Obligation. intros p s e ret s' e' Eh _. simpl in Eh. destruct (_ && _); by simplify_eq. Qed.
Next Obligation. by intros s e s' e' [= <- <-]. Qed.
Next Obligation. by intros s d e s' e' [= <- <-]. Qed.

(** A 28-byte datagram padded to 30, and the same with HTTP in it. *)
Definition good_bytes (payload : list byte) : list byte :=
  [x45; x00; x00; x1c; x00; x00; x40; x00; x40; x06; x26; xda;
   x0a; x00; x00; x01; x0a; x00; x00; x02] ++ payload ++ [x00; x00; x00; x00; x00; x00].
Definition packet (i : nat) (payload : list byte) : sk_buff :=
  SkBuff i (good_bytes payload) [] 0 1 0 None true 0.
Definition batch : list sk_buff :=
  [packet 1 [x41; x42; x43; x44]; packet 2 [x48; x54; x54; x50];
   packet 3 [x45; x45; x45; x45]; packet 4 [x20; x20; x20; x20]].

Example batch_run :
  match ip_list_rcv batch (NSt (Host [3%nat]) []) with
  | Ret (_, t) => ends (n_log t) = [2; 3; 1; 4]%nat ∧ inputs (n_log t) = [1; 4]%nat
  | Fault _ => False
  end.
Proof. vm_compute. done. Qed.

Lemma ip_rcv_core_checked_witness :
  ∃ r t' l, ip_rcv_core (packet 1 [x41; x42; x43; x44]) (NSt (Host []) []) = Ret (r, t') ∧
    n_log t' = [] ++ l ∧ core_post (packet 1 [x41; x42; x43; x44]) r l.
Proof. apply (ip_rcv_core_checked (packet 1 _) (NSt (Host []) [])). reflexivity. Defined.

Lemma ip_list_rcv_accounts_witness :
  ∃ t' l, ip_list_rcv batch (NSt (Host [3%nat]) []) = Ret (tt, t') ∧ n_log t' = [] ++ l ∧
    ends l ≡ₚ [1; 2; 3; 4]%nat ∧ inputs l `sublist_of` map skb_id (filter clean batch).
Proof. apply (ip_list_rcv_accounts batch (NSt (Host [3%nat]) [])). by repeat constructor. Defined.

Lemma ip_deliver_terminates_witness :
  ∃ t' l, ip_protocol_deliver_rcu 31 (packet 1 [x41; x42; x43; x44]) 4 (NSt (Host []) []) = Ret (Some tt, t') ∧
    n_log t' = [] ++ l ∧ deliveries l = [1%nat].
Proof.
  apply (ip_deliver_terminates (packet 1 [x41; x42; x43; x44]) 4 (NSt (Host []) [])).
  intros p s e ret s' e' Eh Hr. cbv [proto_handler host_env] in Eh. destruct ((p =? 4) && _) eqn:Ep; simplify_eq; [|done].
  apply andb_true_iff in Ep as [_ Ep%Nat.leb_le]. unfold skb_len, skb_bytes in *. simpl. rewrite app_nil_r, length_drop. lia.
Defined.
