(* ===== verification/NetFilter.v ===== *)
(** The netfilter modules of src/m_modules/net: ex_netfilter.c, http_netfilter.c
    and view_netfilter.c, with their theorems.

    A packet is its linear buffer with the offsets the headers start at; what
    lies behind the linear buffer (page fragments) cannot be read through the
    pointers the hooks use.  The list of hooks is kernel code: the interface
    [NfHooks]. *)
From Stdlib Require Import ZArith Lia ZifyNat.
From stdpp Require Import base list gmap strings.
From S2P Require Import Prelude Kernel IpInput IpInputThms.

(** ** Packets *)

Definition NF_DROP := 0.
Definition NF_ACCEPT := 1.
Definition IPPROTO_TCP := 6.
Definition IPPROTO_UDP := 17.

Record nf_skb := NfSkb {
  nb_len : Z;              (* skb->len, an unsigned int *)
  nb_head : list byte;     (* the linear buffer *)
  nb_nh : nat;             (* ip_hdr *)
  nb_th : nat;             (* tcp_hdr *)
  nb_data : nat            (* skb->data *)
}.

Definition rd8 (k : nf_skb) (off : nat) : outcome Z :=
  match nb_head k !! off with
  | Some b => Ret (Z.of_N (Byte.to_N b))
  | None => Fault OutOfBounds
  end.

(** Fields of the headers. *)
Definition protocol (k : nf_skb) : outcome Z := rd8 k (nb_nh k + 9).
Definition ihl (k : nf_skb) : outcome Z :=
  match rd8 k (nb_nh k) with Ret b => Ret (Z.land b 15) | Fault f => Fault f end.
Definition doff (k : nf_skb) : outcome Z :=
  match rd8 k (nb_th k + 12) with Ret b => Ret (Z.shiftr b 4) | Fault f => Fault f end.

(** [int length = skb->len - iph->ihl * 4 - th->doff * 4] *)
Definition tcp_length (k : nf_skb) : outcome Z :=
  match ihl k, doff k with
  | Ret i, Ret d => Ret (s32 (u32 (nb_len k - i * 4 - d * 4)))
  | Fault f, _ | _, Fault f => Fault f
  end.

(** The length of a string with a terminating zero, and the string. *)
Fixpoint cstring (l : list byte) : option (list byte) :=
  match l with
  | [] => None
  | x00 :: _ => Some []
  | c :: r => cons c <$> cstring r
  end.

Fixpoint prefix_of_bytes (p l : list byte) : bool :=
  match p, l with
  | [], _ => true
  | x :: p', y :: l' => Byte.eqb x y && prefix_of_bytes p' l'
  | _ :: _, [] => false
  end.
(** strstr(l, p) != NULL *)
Fixpoint strstr (l p : list byte) : bool :=
  prefix_of_bytes p l || match l with [] => false | _ :: r => strstr r p end.

(** ** The hooks *)

Section hooks.
Context {H : Type} `{KernelHeap H}.

(** ex_netfilter.c: only looks. *)
Definition hook_simple (skb : option nf_skb) : M H Z := λ h,
  match skb with
  | None => Ret (NF_ACCEPT, h)
  | Some k => match protocol k with Ret _ => Ret (NF_ACCEPT, h) | Fault f => Fault f end
  end.

Definition lift_out {A} (o : outcome A) : M H A := λ h,
  match o with Ret a => Ret (a, h) | Fault f => Fault f end.
Definition h_kzalloc (n : Z) : M H (option loc) := λ h, Ret (kmalloc n h).
Definition h_kfree (l : loc) : M H unit := λ h,
  if bool_decide (l ∈ live h) then Ret (tt, kfree l h) else Fault BadFree.

(** The memcpy of [length] bytes from the end of the TCP header. *)
Definition payload (k : nf_skb) (d length : Z) : outcome (list byte) :=
  let off := (nb_th k + Z.to_nat (d * 4))%nat in
  if (off + Z.to_nat length <=? List.length (nb_head k))%nat
  then Ret (slice off (Z.to_nat length) (nb_head k)) else Fault OutOfBounds.

(** http_netfilter.c.  The copy has no terminating zero of its own. *)
Definition hook_http (skb : option nf_skb) : M H Z :=
  match skb with
  | None => mret NF_ACCEPT
  | Some k =>
      p ← lift_out (protocol k);
      if negb (p =? IPPROTO_TCP) then mret NF_ACCEPT else
      length ← lift_out (tcp_length k);
      if length <=? 4 then mret NF_ACCEPT else
      data ← h_kzalloc length;
      match data with
      | None => mfault NullDeref                     (* memcpy to NULL *)
      | Some l =>
          d ← lift_out (doff k);
          bytes ← lift_out (payload k d length);
          match cstring bytes with
          | None => mfault OutOfBounds               (* strstr runs past the copy *)
          | Some s =>
              if strstr s keyword then h_kfree l ≫= λ _, mret NF_DROP
              else h_kfree l ≫= λ _, mret NF_ACCEPT
          end
      end
  end.

(** view_netfilter.c.  The table print_skb writes: what each printk prints. *)
Inductive printed :=
  | PText (t : string)          (* the words, dashes and line ends *)
  | POffset (i : Z)             (* 0x%04x *)
  | PHex (v : Z)                (* %02x *)
  | PChar (b : byte)            (* %c *).

Definition byte_z (b : byte) : Z := Z.of_N (Byte.to_N b).
Definition skb_char (b : byte) : byte :=
  if (0x20 <=? byte_z b) && (byte_z b <? 0x80) then b else x2e.
Definition dash_after (i : nat) : list printed :=
  if (i mod 16 =? 7)%nat then [PText "- "] else [].
Definition table_head : list printed :=
  PText "offset " :: (seq 0 16 ≫= λ i, PHex (Z.of_nat i) :: dash_after i) ++ [PText "\n"].
(** Round [i] of the loop over [skb->len], [b] the byte at [i]. *)
Definition table_round (data : list byte) (i : nat) (b : byte) : list printed :=
  (if (i mod 16 =? 0)%nat then [POffset (Z.of_nat i)] else []) ++
  PHex (byte_z b) :: dash_after i ++
  (if (i mod 16 =? 15)%nat
   then PText "\t" :: (PChar ∘ skb_char <$> slice (i - 15) 16 data) ++ [PText "\n"] else []).
Definition print_table (data : list byte) : list printed :=
  table_head ++ concat (imap (table_round data) data) ++ [PText "\n"].
(** It reads every byte of the packet. *)
Definition print_skb (data : list byte) (len : nat) : outcome (list printed) :=
  if (len <=? List.length data)%nat then Ret (print_table (take len data)) else Fault OutOfBounds.

(** The walk over [skb->data], with the number of calls of print_skb so far;
    [rest] are the bytes from [ctr] on and [n] is [skb->len - ctr].  The literal
    has its zero; indices past it are out of bounds. *)
Definition literal : list byte := keyword ++ [x00].
Fixpoint view_scan (data : list byte) (len : nat) (rest : list byte) (n walker dumps : nat) : outcome nat :=
  match n with
  | O => Ret dumps
  | Datatypes.S n' =>
      match rest, literal !! walker with
      | ch :: rest, Some kw =>
          let walker := if Byte.eqb ch kw then Datatypes.S walker else O in
          if (walker =? 3)%nat then
            match print_skb data len with
            | Ret _ => view_scan data len rest n' walker (Datatypes.S dumps)
            | Fault f => Fault f
            end
          else view_scan data len rest n' walker dumps
      | _, _ => Fault OutOfBounds
      end
  end.

Definition view_hook_http (skb : option nf_skb) : M H (Z * nat) :=
  match skb with
  | None => mret (NF_ACCEPT, O)
  | Some k =>
      p ← lift_out (protocol k);
      let data := drop (nb_data k) (nb_head k) in
      let len := Z.to_nat (nb_len k) in
      let look := dumps ← lift_out (view_scan data len data len 0 0); mret (NF_ACCEPT, dumps) in
      if p =? IPPROTO_TCP then
        length ← lift_out (tcp_length k);
        if length <=? 0 then mret (NF_ACCEPT, O) else look
      else look
  end.

End hooks.

(** ** Loading and unloading *)

(** struct nf_hook_ops: the function, the family, the hook and the priority. *)
Inductive nf_hookfn := Hook_simple | Hook_http | Hook_view.
Record nf_hook_ops := NfHookOps {
  ops_hook : nf_hookfn; ops_pf : Z; ops_hooknum : Z; ops_priority : Z
}.
Definition PF_INET := 2.
Definition NF_IP_PRI_FIRST := -2147483648.
Definition NF_INET_FORWARD := 2.
Definition NF_INET_LOCAL_OUT := 3.
Definition NF_INET_POST_ROUTING := 4.

Class NfHooks (N : Type) := {
  nf_hooks : N → gmap loc nf_hook_ops;
  nf_register_net_hook : loc → nf_hook_ops → N → Z * N;
  nf_unregister_net_hook : loc → N → N;
  nf_register_law : ∀ l o n z n', nf_register_net_hook l o n = (z, n') →
    (z = 0 → nf_hooks n' = <[l := o]> (nf_hooks n)) ∧ (z ≠ 0 → nf_hooks n' = nf_hooks n);
  nf_unregister_law : ∀ l n, nf_hooks (nf_unregister_net_hook l n) = delete l (nf_hooks n)
}.

Record nf_st (H N : Type) := NfSt { nfs_heap : H; nfs_net : N; nf_ops : option loc }.
Arguments NfSt {H N}.
Arguments nfs_heap {H N}.
Arguments nfs_net {H N}.
Arguments nf_ops {H N}.

Section module.
Context {H N : Type} `{KernelHeap H} `{NfHooks N}.
Variable sizeof_ops : Z.

(** The body the three files share: kzalloc is not tested, nor is the result of
    the registration. *)
Definition load_ops (o : nf_hook_ops) : M (nf_st H N) Z := λ s,
  let '(p, h) := kmalloc sizeof_ops (nfs_heap s) in
  match p with
  | None => Fault NullDeref
  | Some l => let '(_, n) := nf_register_net_hook l o (nfs_net s) in Ret (0, NfSt h n (Some l))
  end.
Definition nfilter_init : M (nf_st H N) Z :=
  load_ops (NfHookOps Hook_simple PF_INET NF_INET_LOCAL_IN NF_IP_PRI_FIRST).
Definition http_nfilter_init : M (nf_st H N) Z :=
  load_ops (NfHookOps Hook_http PF_INET NF_INET_LOCAL_IN NF_IP_PRI_FIRST).
Definition hooknums : list Z :=
  [NF_INET_PRE_ROUTING; NF_INET_LOCAL_IN; NF_INET_FORWARD; NF_INET_LOCAL_OUT; NF_INET_POST_ROUTING].
Definition view_nfilter_init : M (nf_st H N) Z :=
  load_ops (NfHookOps Hook_view PF_INET (nth 0 hooknums 0) NF_IP_PRI_FIRST).

Definition nfilter_exit : M (nf_st H N) unit := λ s,
  match nf_ops s with
  | None => Fault NullDeref
  | Some l =>
      if bool_decide (l ∈ live (nfs_heap s))
      then Ret (tt, NfSt (kfree l (nfs_heap s)) (nf_unregister_net_hook l (nfs_net s)) (nf_ops s))
      else Fault BadFree
  end.

End module.

(** ** Theorems *)

(** *** The table of print_skb *)

#[local] Arguments Nat.mul : simpl never.
#[local] Arguments Nat.div : simpl never.
#[local] Arguments Nat.modulo : simpl never.
Ltac div_lia := zify; Z.div_mod_to_equations; lia.

Definition hexes (l : list printed) : list Z := omap (λ t, match t with PHex v => Some v | _ => None end) l.
Definition chars (l : list printed) : list byte := omap (λ t, match t with PChar b => Some b | _ => None end) l.
Definition offsets (l : list printed) : list Z := omap (λ t, match t with POffset i => Some i | _ => None end) l.

Lemma dash_after_nothing i : hexes (dash_after i) = [] ∧ chars (dash_after i) = [] ∧ offsets (dash_after i) = [].
Proof. unfold dash_after. by destruct (_ =? _)%nat. Qed.

Lemma char_cells l : hexes (PChar <$> l) = [] ∧ chars (PChar <$> l) = l ∧ offsets (PChar <$> l) = [].
Proof. induction l as [|b l (IH1 & IH2 & IH3)]; [done|]. simpl. split_and!; [done|by f_equal|done]. Qed.

Lemma table_round_shows data i b :
  hexes (table_round data i b) = [byte_z b] ∧
  chars (table_round data i b) = (if (i mod 16 =? 15)%nat then skb_char <$> slice (i - 15) 16 data else []) ∧
  offsets (table_round data i b) = (if (i mod 16 =? 0)%nat then [Z.of_nat i] else []).
Proof.
  destruct (dash_after_nothing i) as (D1 & D2 & D3). destruct (char_cells (skb_char <$> slice (i - 15) 16 data)) as (C1 & C2 & C3).
  unfold table_round, hexes, chars, offsets in *. rewrite list_fmap_compose, !omap_app. simpl. rewrite !omap_app, D1, D2, D3.
  split_and!.
  - destruct (_ =? 0)%nat, (_ =? 15)%nat; simpl; rewrite ?omap_app, ?C1; done.
  - destruct (_ =? 0)%nat, (_ =? 15)%nat; simpl; rewrite ?omap_app, ?C2; simpl; by rewrite ?app_nil_r.
  - destruct (_ =? 0)%nat, (_ =? 15)%nat; simpl; rewrite ?omap_app, ?C3; done.
Qed.

(** After [n] rounds. *)
Lemma table_rounds data n : (n ≤ length data)%nat →
  let out := concat (imap (table_round data) (take n data)) in
  hexes out = byte_z <$> take n data ∧
  chars out = skb_char <$> take (16 * (n / 16)) data ∧
  offsets out = (λ k, 16 * Z.of_nat k) <$> seq 0 ((n + 15) / 16).
Proof.
  induction n as [|n IH]; intros Hn; [done|]. destruct IH as (H1 & H2 & H3); [lia|].
  destruct (lookup_lt_is_Some_2 data n) as [b Eb]; [lia|].
  rewrite (take_S_r _ _ _ Eb), imap_app, concat_app. simpl. rewrite length_take, Nat.min_l, Nat.add_0_r, app_nil_r by lia.
  destruct (table_round_shows data n b) as (R1 & R2 & R3).
  unfold hexes, chars, offsets in *. rewrite !omap_app, H1, H2, H3, R1, R2, R3. split_and!.
  - by rewrite fmap_app.
  - destruct (Nat.eqb_spec (n mod 16) 15) as [E|N].
    + replace (16 * (S n / 16))%nat with (16 * (n / 16) + 16)%nat by div_lia.
      rewrite <- take_take_drop, fmap_app. unfold slice.
      replace (n - 15)%nat with (16 * (n / 16))%nat by div_lia. done.
    + rewrite app_nil_r. replace (S n / 16)%nat with (n / 16)%nat by div_lia. done.
  - destruct (Nat.eqb_spec (n mod 16) 0) as [E|N].
    + replace (S (n + 15) / 16)%nat with (S ((n + 15) / 16)) by div_lia.
      rewrite seq_S, fmap_app. simpl. do 2 f_equal. div_lia.
    + rewrite app_nil_r. replace (S (n + 15) / 16)%nat with ((n + 15) / 16)%nat by div_lia. done.
Qed.

(** Print_skb on a packet of [len] linear bytes: after the numbers of the columns
    it prints every byte in hexadecimal, in order, and the offset of every row;
    but the characters only of full rows, those of the last [len mod 16] bytes
    are not printed.  A packet that is not all linear is read past its end. *)
Theorem print_skb_spec data len :
  match print_skb data len with
  | Ret out => (len ≤ length data)%nat ∧
      hexes out = seqZ 0 16 ++ (byte_z <$> take len data) ∧
      chars out = skb_char <$> take (16 * (len / 16)) data ∧
      offsets out = (λ k, 16 * Z.of_nat k) <$> seq 0 ((len + 15) / 16)
  | Fault f => f = OutOfBounds ∧ (length data < len)%nat
  end.
Proof.
  unfold print_skb. destruct (Nat.leb_spec len (length data)) as [Hl|Hl]; [|done].
  assert (L : length (take len data) = len) by (rewrite length_take; lia).
  destruct (table_rounds (take len data) len) as (H1 & H2 & H3); [lia|].
  rewrite (take_ge (take len data) len) in H1, H2, H3 by lia. rewrite take_take, Nat.min_l in H2 by div_lia.
  unfold print_table, hexes, chars, offsets in *. rewrite !omap_app, H1, H2, H3. simpl.
  split; [done|]. rewrite app_nil_r. split_and!; [done|by rewrite app_nil_r|by rewrite app_nil_r].
Qed.

Lemma prefix_of_bytes_spec p l : prefix_of_bytes p l = true ↔ ∃ r, l = p ++ r.
Proof.
  revert l. induction p as [|x p IH]; intros l; simpl; [split; eauto|].
  destruct l as [|y l]; [split; [done|by intros (r & ?)]|].
  rewrite andb_true_iff, IH. split.
  - intros [->%byte_eqb_eq (r & ->)]. by exists r.
  - intros (r & [= -> ->]). split; [by apply Byte.byte_dec_lb|eauto].
Qed.

Lemma strstr_spec l p : strstr l p = true ↔ ∃ a b, l = a ++ p ++ b.
Proof.
  induction l as [|c l IH]; simpl; rewrite orb_true_iff, prefix_of_bytes_spec.
  - split.
    + intros [(r & E)|?]; [|done]. by exists [], r.
    + intros (a & b & E). left. destruct a; [by exists b|done].
  - rewrite IH. split.
    + intros [(r & E)|(a & b & ->)]; [by exists [], r|by exists (c :: a), b].
    + intros ([|x a] & b & E); [left; by exists b|right]. injection E as _ ->. eauto.
Qed.

Lemma cstring_prefix l s : cstring l = Some s → ∃ r, l = s ++ x00 :: r.
Proof.
  revert s. induction l as [|c l IH]; intros s E; [done|]. simpl in E.
  assert (D : (c = x00 ∧ s = []) ∨ ∃ s', s = c :: s' ∧ cstring l = Some s').
  { destruct (cstring l) as [s'|]; destruct c; simpl in E; simplify_eq; eauto. }
  destruct D as [[-> ->]|(s' & -> & E')]; [by exists l|].
  destruct (IH s' E') as [r ->]. by exists r.
Qed.

Section thms.
Context {H : Type} `{KernelHeap H}.

(** A TCP packet whose [len] bytes from the IP header on are all linear. *)
Record tcp_packet (k : nf_skb) (i d : Z) : Prop := TcpPacket {
  tp_proto : protocol k = Ret IPPROTO_TCP;
  tp_ihl : ihl k = Ret i;
  tp_doff : doff k = Ret d;
  tp_i : 0 <= i;
  tp_d : 0 <= d;
  tp_th : Z.of_nat (nb_th k) = Z.of_nat (nb_nh k) + i * 4;
  tp_len : i * 4 + d * 4 <= nb_len k <= INT_MAX;
  tp_linear : Z.of_nat (nb_nh k) + nb_len k <= Z.of_nat (length (nb_head k))
}.

(** The bytes after the TCP header. *)
Definition tcp_payload (k : nf_skb) (i d : Z) : list byte :=
  slice (nb_nh k + Z.to_nat (i * 4 + d * 4)) (Z.to_nat (nb_len k - i * 4 - d * 4)) (nb_head k).

(** The filter on such a packet, as one equation. *)
Lemma hook_http_eval k i d h : tcp_packet k i d →
  let p := tcp_payload k i d in
  hook_http (Some k) h =
    if (length p <=? 4)%nat then Ret (NF_ACCEPT, h) else
    match kmalloc (Z.of_nat (length p)) h with
    | (None, _) => Fault NullDeref
    | (Some l, h') =>
        match cstring p with
        | None => Fault OutOfBounds
        | Some s => Ret (if strstr s keyword then NF_DROP else NF_ACCEPT, kfree l h')
        end
    end.
Proof.
  intros T p. destruct T as [Tp Ti Td Hi Hd Hth Hlen Hlin]. unfold INT_MAX in *.
  assert (Lp : Z.of_nat (length p) = nb_len k - i * 4 - d * 4).
  { unfold p, tcp_payload. rewrite slice_length; lia. }
  assert (Tl : tcp_length k = Ret (Z.of_nat (length p))).
  { unfold tcp_length. rewrite Ti, Td, Lp. rewrite u32_id, s32_id by (unfold INT_MAX; lia). done. }
  assert (Pl : payload k d (Z.of_nat (length p)) = Ret p).
  { unfold payload. rewrite Nat2Z.id.
    rewrite (proj2 (Nat.leb_le _ _)) by lia. f_equal. unfold p, tcp_payload.
    rewrite slice_length by lia. f_equal; lia. }
  unfold hook_http, mbind, M_bind, lift_out. rewrite Tp. simpl. rewrite Tl, Td, Pl.
  destruct (Nat.leb_spec (length p) 4) as [Hle|Hgt].
  { by rewrite (proj2 (Z.leb_le (Z.of_nat (length p)) 4)) by lia. }
  rewrite (proj2 (Z.leb_gt (Z.of_nat (length p)) 4)) by lia. unfold h_kzalloc.
  destruct (kmalloc (Z.of_nat (length p)) h) as [[l|] h'] eqn:Ek; simpl; [|done].
  destruct (kmalloc_some_law _ _ _ _ Ek) as [Fl El]. destruct (cstring p) as [s|]; [|done].
  destruct (strstr s keyword); unfold h_kfree, mbind, M_bind; by rewrite bool_decide_eq_true_2 by (rewrite El; set_solver).
Qed.

(** The walk finds no more than strstr. *)
Lemma scan_strstr s : scan 0 s = true → strstr s keyword = true.
Proof. intros Hs. apply strstr_spec. apply (scan_sound 0 [] s); [lia|by exists []|done]. Qed.

(** Memory taken and given back. *)
Lemma kmalloc_kfree n (h h' : H) l : kmalloc n h = (Some l, h') → live (kfree l h') = live h.
Proof. intros Ek. destruct (kmalloc_some_law _ _ _ _ Ek) as [Fl El]. rewrite kfree_law, El. set_solver. Qed.

(** C31: the HTTP filter on a linear TCP packet: a payload of up to four bytes
    passes; for a longer one the verdict is to drop exactly when HTTP occurs
    before the first zero byte, the copy is freed on both paths and the heap is
    as it was; a payload without a zero byte makes strstr read past the copy,
    and without memory for the copy the null pointer is written. *)
Theorem hook_http_spec k i d h : tcp_packet k i d →
  let p := tcp_payload k i d in
  if (length p <=? 4)%nat then hook_http (Some k) h = Ret (NF_ACCEPT, h)
  else if (kmalloc (Z.of_nat (length p)) h).1 is Some _ then
    match cstring p with
    | None => hook_http (Some k) h = Fault OutOfBounds
    | Some s => ∃ v h', hook_http (Some k) h = Ret (v, h') ∧ live h' = live h ∧
        (v = NF_DROP ↔ ∃ a b, s = a ++ keyword ++ b) ∧ (v = NF_DROP ∨ v = NF_ACCEPT) ∧
        (scan 0 s = true → v = NF_DROP)
    end
  else hook_http (Some k) h = Fault NullDeref.
Proof.
  intros T p. rewrite (hook_http_eval k i d h T). fold p. destruct (Nat.leb_spec (length p) 4); [done|].
  destruct (kmalloc (Z.of_nat (length p)) h) as [[l|] h'] eqn:Ek; simpl; [|done].
  destruct (cstring p) as [s|]; [|done]. do 2 eexists. split; [done|]. split; [by eapply kmalloc_kfree|].
  pose proof (strstr_spec s keyword) as Sp. pose proof (scan_strstr s) as Sc.
  destruct (strstr s keyword); [naive_solver|]. split; [|split; [by right|by intros X; discriminate (Sc X)]].
  split; [done|]. intros X. by discriminate (proj2 Sp X).
Qed.

Lemma view_accepts skb (h : H) v : view_hook_http skb h = Ret v → v.1.1 = NF_ACCEPT ∧ v.2 = h.
Proof.
  destruct skb as [k|]; simpl; [|by intros [= <-]]. unfold mbind, M_bind, lift_out, mret, M_ret.
  destruct (protocol k) as [p|]; [|done].
  destruct (p =? IPPROTO_TCP); [destruct (tcp_length k) as [z|]; [|done]; destruct (z <=? 0)|];
    try destruct (view_scan _ _ _ _ _ _); intros E; by simplify_eq.
Qed.

(** The viewer accepts every packet; it prints the packet only when the
    three bytes HTT occur in a row; the scan of a packet that is not all in the
    linear buffer fails, and so does the scan of one in which the keyword is
    followed by a zero byte and one byte more, which reads past the literal. *)
Theorem view_scan_spec data :
  (∀ skb (h : H) v, view_hook_http skb h = Ret v → v.1.1 = NF_ACCEPT ∧ v.2 = h) ∧
  (∀ n dumps, view_scan data n data n 0 0 = Ret dumps → (n ≤ length data)%nat ∧
     ((0 < dumps)%nat → ∃ a b, data = a ++ take 3 keyword ++ b)) ∧
  (∀ ch rest n, let d := keyword ++ x00 :: ch :: rest in
     view_scan d (6 + n) d (6 + n) 0 0 = Fault OutOfBounds).
Proof.
  split; [apply view_accepts|]. split.
  2: { intros ch rest n d. unfold d. simpl. unfold print_skb. by destruct (_ <=? _)%nat. }
  assert (G : ∀ l n w dumps r pre, take w literal `suffix_of` pre → view_scan data (length pre + n) l n w dumps = Ret r →
    (n ≤ length l)%nat ∧ ((dumps < r)%nat → ∃ a b, pre ++ l = a ++ take 3 keyword ++ b)).
  { induction l as [|ch l IH]; intros n w dumps r pre [q Hq] E; destruct n as [|n]; simpl in E;
      try (simplify_eq; simpl; split; lia). destruct (literal !! w) as [kw|] eqn:Ew; [|done].
    rewrite (cons_middle ch), (assoc_L (++)).
    assert (Len : (length pre + S n = length (pre ++ [ch]) + n)%nat) by (rewrite length_app; simpl; lia).
    rewrite Len in E. destruct (Byte.eqb ch kw) eqn:Eb.
    - apply byte_eqb_eq in Eb as ->.
      assert (Suf : take (S w) literal `suffix_of` pre ++ [kw]).
      { exists q. rewrite Hq, (take_S_r _ _ _ Ew). by rewrite (assoc_L (++)). }
      destruct (Nat.eqb_spec (S w) 3) as [E3|N3].
      + destruct (print_skb _ _); [|done]. destruct (IH n (S w) (S dumps) r (pre ++ [kw])) as [Hn _]; [done..|].
        simpl. split; [lia|]. intros _.
        rewrite E3 in Suf. destruct Suf as [q' Hq']. exists q', l. rewrite Hq'. by rewrite <- (assoc_L (++)).
      + destruct (IH n (S w) dumps r (pre ++ [kw])) as [Hn Hd]; [done..|]. simpl. split; [lia|exact Hd].
    - simpl in E. destruct (IH n 0%nat dumps r (pre ++ [ch])) as [Hn Hd]; [apply suffix_nil|done|].
      simpl. split; [lia|exact Hd]. }
  intros n dumps E. destruct (G data n 0%nat 0%nat dumps []) as [Hn Hd]; [by exists []|done|]. split; [done|exact Hd].
Qed.

End thms.

Section load.
Context {H N : Type} `{KernelHeap H} `{NfHooks N}.

(** The hook is in place, or nothing is. *)
Lemma load_ops_spec size o (s : nf_st H N) : dom (nf_hooks (nfs_net s)) ⊆ live (nfs_heap s) →
  match load_ops size o s with
  | Ret (r, s') => r = 0 ∧
      (∃ l, nf_ops s' = Some l ∧ (nf_hooks (nfs_net s') = nf_hooks (nfs_net s) ∨
                                  nf_hooks (nfs_net s') = <[l := o]> (nf_hooks (nfs_net s)))) ∧
      wp nfilter_exit s' (λ _ s'', live (nfs_heap s'') = live (nfs_heap s) ∧
        nf_hooks (nfs_net s'') = nf_hooks (nfs_net s))
  | Fault f => f = NullDeref ∧ (kmalloc size (nfs_heap s)).1 = None
  end.
Proof.
  intros Sub. unfold load_ops. destruct (kmalloc size (nfs_heap s)) as [[l|] h] eqn:Ek; [|done].
  destruct (kmalloc_some_law _ _ _ _ Ek) as [Fl El].
  destruct (nf_register_net_hook l o (nfs_net s)) as [z n] eqn:En.
  destruct (nf_register_law _ _ _ _ _ En) as [Ok Er].
  assert (Nl : nf_hooks (nfs_net s) !! l = None) by (apply not_elem_of_dom; set_solver).
  assert (Z0 : nf_hooks n = nf_hooks (nfs_net s) ∨ nf_hooks n = <[l := o]> (nf_hooks (nfs_net s))).
  { destruct (decide (z = 0)); [right|left]; auto. }
  split; [done|]. split; [by exists l|].
  unfold wp, nfilter_exit. simpl. rewrite bool_decide_eq_true_2 by (rewrite El; set_solver). simpl.
  rewrite kfree_law, nf_unregister_law, El. split; [clear -Fl; set_solver|].
  destruct Z0 as [-> | ->]; [by apply delete_id|by rewrite delete_insert_id].
Qed.

(** Loading a filter puts the hook of its file in place, before all others of the
    family at local input, or for the viewer at the first hook, or fails to
    without notice; unloading restores the heap and the hooks in either case;
    without memory a null pointer is written. *)
Theorem nfilter_load_unload size f (s : nf_st H N) : dom (nf_hooks (nfs_net s)) ⊆ live (nfs_heap s) →
  match match f with Hook_simple => nfilter_init size s | Hook_http => http_nfilter_init size s
                   | Hook_view => view_nfilter_init size s end with
  | Ret (r, s') => r = 0 ∧
      (∃ l, nf_ops s' = Some l ∧
         (nf_hooks (nfs_net s') = nf_hooks (nfs_net s) ∨
          nf_hooks (nfs_net s') = <[l := NfHookOps f 2 (match f with Hook_view => 0 | _ => 1 end) (- 2147483648)]> (nf_hooks (nfs_net s)))) ∧
      wp nfilter_exit s' (λ _ s'', live (nfs_heap s'') = live (nfs_heap s) ∧
        nf_hooks (nfs_net s'') = nf_hooks (nfs_net s))
  | Fault e => e = NullDeref ∧ (kmalloc size (nfs_heap s)).1 = None
  end.
Proof. intros Sub. destruct f; exact (load_ops_spec size _ s Sub). Qed.

End load.

(** ** Witnesses *)

Section examples.

(** A packet with a 20-byte IP header, a 20-byte TCP header and a payload. *)
Definition demo_packet (data : list byte) : nf_skb :=
  NfSkb (40 + Z.of_nat (length data))
    ([x45] ++ replicate 8 x00 ++ [x06] ++ replicate 22 x00 ++ [x50] ++ replicate 7 x00 ++ data) 0 20 0.

Lemma demo_tcp : tcp_packet (demo_packet [x41; x48; x54; x54; x50; x00]) 5 5.
Proof. split; try reflexivity; simpl; unfold INT_MAX; lia. Qed.

Lemma hook_http_spec_witness :
  ∃ h', hook_http (Some (demo_packet [x41; x48; x54; x54; x50; x00])) bump_init = Ret (NF_DROP, h').
Proof.
  destruct (hook_http_spec _ 5 5 bump_init demo_tcp) as (v & h' & E & _ & D & _).
  exists h'. rewrite E. f_equal. f_equal. apply D. by exists [x41], [].
Defined.

Example http_misses_unterminated :
  hook_http (Some (demo_packet [x41; x48; x54; x54; x50])) bump_init = Fault OutOfBounds.
Proof. by vm_compute. Qed.

#[local] Instance demo_hooks : NfHooks (gmap loc nf_hook_ops).
Proof.
  refine {| nf_hooks := λ n, n; nf_register_net_hook := λ l o n, (0, <[l := o]> n);
            nf_unregister_net_hook := λ l n, delete l n |}; [|done].
  intros l o n z n' E. by injection E as <- <-.
Defined.

Lemma nfilter_load_unload_witness :
  match http_nfilter_init 64 (NfSt bump_init (∅ : gmap loc nf_hook_ops) None) with
  | Ret (r, s') => r = 0 ∧ wp nfilter_exit s' (λ _ s'', live (nfs_heap s'') = ∅ ∧ nf_hooks (nfs_net s'') = ∅)
  | Fault _ => False
  end.
Proof.
  destruct (nfilter_load_unload 64 Hook_http (NfSt bump_init (∅ : gmap loc nf_hook_ops) None)) as (E & _ & W).
  - apply (bool_decide_unpack _). by vm_compute.
  - exact (conj E W).
Defined.

End examples.
