(* ===== verification/NetPath.v ===== *)
(** The receive path of src/linux/net/ipv4/ip_input.c with the module
    src/m_modules/net/http_netfilter.c loaded: local delivery calls the hook of the
    module, on the packet as ip_input.c hands it over. *)
From Stdlib Require Import ZArith Lia.
From stdpp Require Import base list gmap.
From S2P Require Import Prelude Kernel IpInput IpInputThms NetFilter.

(** ** The packet the hook is given

    At local delivery skb->data is at the IP header and the transport header is
    where ip_rcv_core put it, [iph->ihl * 4] bytes further on. *)
Definition transport (s : sk_buff) : nat :=
  match parse_hdr (skb_linear s) with Some h => Z.to_nat (IpInput.ihl h * 4) | None => 0 end.
Definition as_nf (s : sk_buff) : nf_skb := NfSkb (skb_len s) (skb_linear s) 0 (transport s) 0.

Lemma byte_low b : Z.land (byteZ b) 15 = byteZ b mod 16.
Proof. change 15 with (Z.ones 4). by rewrite Z.land_ones by lia. Qed.

(** A TCP packet of ip_input.c, all of it linear, is one of the module. *)
Lemma as_nf_tcp s iph b : parse_hdr (skb_linear s) = Some iph → IpInput.protocol iph = IPPROTO_TCP →
  skb_paged s = [] → skb_linear s !! (transport s + 12)%nat = Some b →
  IpInput.ihl iph * 4 + byteZ b / 16 * 4 <= skb_len s <= INT_MAX →
  tcp_packet (as_nf s) (IpInput.ihl iph) (byteZ b / 16).
Proof.
  intros Ep Et Pg Eb Hl. pose proof Ep as Ep'. unfold parse_hdr in Ep.
  destruct (skb_linear s) as [|b0 [|b1 [|b2 [|b3 [|b4 [|b5 [|b6 [|b7 [|b8 [|b9 [|b10 [|b11 [|s0 [|s1 [|s2 [|s3 [|d0 [|d1 [|d2 [|d3 l]]]]]]]]]]]]]]]]]]]] eqn:El;
    try discriminate Ep. injection Ep as <-. simpl in Et.
  assert (B0 : 0 <= byteZ b0) by (unfold byteZ; lia). assert (Bb : 0 <= byteZ b) by (unfold byteZ; lia).
  split; unfold protocol, ihl, doff, rd8; cbn [nb_head nb_nh nb_th nb_len as_nf IpInput.ihl]; rewrite ?El.
  - simpl. by f_equal.
  - simpl. f_equal. apply byte_low.
  - rewrite Eb. f_equal. rewrite Z.shiftr_div_pow2 by lia. done.
  - apply Z.mod_pos_bound. lia.
  - by apply Z.div_pos.
  - unfold transport. rewrite El, Ep'. cbn [IpInput.ihl]. pose proof (Z.mod_pos_bound (byteZ b0) 16). lia.
  - done.
  - unfold skb_len, skb_bytes. rewrite Pg, app_nil_r, El. lia.
Qed.

(** ** Local delivery *)

Section path.
Context {E H : Type} (N : NetEnv E) `{KernelHeap H}.
(** The kernel heap within the state of the kernel, the network namespace the
    module registers its hook in, and what a machine does whose hook faulted. *)
Variable heap_of : E → H.
Variable set_heap : E → H → E.
Variable init_net : Z.
Variable crashed : sk_buff → E → Z * E.

(** [nfilter_init] registers hook_http for NF_INET_LOCAL_IN of init_net, with the
    first priority: at that hook it runs before every other one, which sees the
    packet only if hook_http accepts it; a packet it drops is freed by the core,
    which answers -EPERM.  The rest of the kernel is as before. *)
Definition http_nf_hook (hook : Z) (s : sk_buff) (e : E) : (Z + sk_buff) * E :=
  if (hook =? NF_INET_LOCAL_IN) && (skb_net s =? init_net) then
    match hook_http (Some (as_nf s)) (heap_of e) with
    | Ret (v, h') =>
        if v =? NF_ACCEPT then nf_hook hook s (set_heap e h') else (inl (- EPERM), set_heap e h')
    | Fault _ => let '(v, e') := crashed s e in (inl v, e')
    end
  else nf_hook hook s e.

Program Definition with_http : NetEnv E := {|
  skb_share_check := skb_share_check; pskb_may_pull := pskb_may_pull; pskb_trim_rcsum := pskb_trim_rcsum;
  ip_fast_csum := ip_fast_csum; skb_cow := skb_cow; ip_options_compile := ip_options_compile;
  ip_options_rcv_srr := ip_options_rcv_srr; in_dev_get := in_dev_get; ip_route_use_hint := ip_route_use_hint;
  ip_route_input_noref := ip_route_input_noref; early_demux := early_demux; inet_protos := inet_protos;
  sysctl_ip_early_demux := sysctl_ip_early_demux; l3mdev_ip_rcv := l3mdev_ip_rcv;
  nf_hook := http_nf_hook;
  dst_input := dst_input; fib4_has_custom_rules := fib4_has_custom_rules; skb_pull := skb_pull; raw_local_deliver := raw_local_deliver;
  proto_handler := proto_handler; xfrm4_policy_check := xfrm4_policy_check; ip_defrag := ip_defrag;
  ra_chain := ra_chain; skb_clone := skb_clone
|}.
Next Obligation. exact share_check_law. Qed.
Next Obligation. exact may_pull_law. Qed.
Next Obligation. exact trim_law. Qed.
Next Obligation. exact l3mdev_law. Qed.
Next Obligation.
  intros h s e s' e' R. unfold http_nf_hook in R. destruct (_ && _); [|by eapply nf_hook_law].
  destruct (hook_http _ _) as [[v h']|]; [|by destruct (crashed s e)].
  destruct (v =? NF_ACCEPT); [by eapply nf_hook_law|done].
Qed.
Next Obligation. exact early_demux_law. Qed.
Next Obligation. exact use_hint_law. Qed.
Next Obligation. exact route_law. Qed.
Next Obligation. exact handler_law. Qed.
Next Obligation. exact cow_law. Qed.
Next Obligation. exact srr_law. Qed.

Definition contains_http (txt : list byte) : Prop := ∃ a b, txt = a ++ keyword ++ b.

(** What comes after the hooks does not see the module. *)
Lemma deliver_finish_with_http fuel s t :
  ip_local_deliver_finish (E := E) (H := with_http) fuel s t = ip_local_deliver_finish fuel s t.
Proof. reflexivity. Qed.

(** C32: what http_netfilter does to a TCP packet for this host that is no
    fragment and has no page fragments, in the namespace the module is loaded
    in, when the payload is longer than four bytes and holds a zero byte, and
    the memory for its copy is there: when HTTP occurs before the first zero
    byte of the payload, ip_local_deliver answers -EPERM, and no other hook and
    no handler sees the packet; when it does not, ip_local_deliver does what it
    does on the same machine without the module.  In both cases the copy is
    allocated and freed again.  In another namespace the module does nothing.
    (Without a zero byte the search runs past the copy, and without memory a
    null pointer is written: both are faults of the hook.) *)
Theorem http_filter_on_delivery fuel s iph d txt t :
  parse_hdr (skb_linear s) = Some iph → ip_is_fragment iph = false →
  tcp_packet (as_nf s) (IpInput.ihl iph) d →
  let p := tcp_payload (as_nf s) (IpInput.ihl iph) d in
  (4 < length p)%nat → cstring p = Some txt →
  (kmalloc (Z.of_nat (length p)) (heap_of (n_env t))).1 ≠ None →
  let deliver (M : NetEnv E) := ip_local_deliver (H := M) fuel s in
  (skb_net s ≠ init_net → deliver with_http t = deliver N t) ∧
  (skb_net s = init_net → ∃ h', live h' = live (heap_of (n_env t)) ∧
    let e' := set_heap (n_env t) h' in
    (contains_http txt → deliver with_http t = Ret (- EPERM, NSt e' (n_log t ++ [EStolen (skb_id s)]))) ∧
    (¬ contains_http txt → deliver with_http t = deliver N (NSt e' (n_log t)))).
Proof.
  intros Ep Fr T p Lp Ec Hk deliver. pose proof (hook_http_eval _ _ _ (heap_of (n_env t)) T) as Ev. cbv zeta in Ev. fold p in Ev.
  rewrite (proj2 (Nat.leb_gt (length p) 4)), Ec in Ev by done.
  assert (Run : ∀ M t, deliver M t = NF_HOOK (H := M) NF_INET_LOCAL_IN s (ip_local_deliver_finish (H := M) fuel) t).
  { intros M u. unfold deliver, ip_local_deliver.
    rewrite (bind_run (ip_hdr s) _ u u iph) by (unfold ip_hdr; by rewrite Ep). by rewrite Fr. }
  assert (Hook : ∀ u, NF_HOOK (H := with_http) NF_INET_LOCAL_IN s (ip_local_deliver_finish (H := with_http) fuel) u =
    let '(r, e') := http_nf_hook NF_INET_LOCAL_IN s (n_env u) in
    match r with
    | inl v => Ret (v, NSt e' (n_log u ++ [EStolen (skb_id s)]))
    | inr s' => ip_local_deliver_finish fuel s' (NSt e' (n_log u))
    end).
  { intros u. unfold NF_HOOK, ext, mbind, M_bind, nf_hook, with_http.
    destruct (http_nf_hook _ s (n_env u)) as [[v|s'] e']; [done|apply deliver_finish_with_http]. }
  assert (Hook0 : ∀ u, NF_HOOK (H := N) NF_INET_LOCAL_IN s (ip_local_deliver_finish (H := N) fuel) u =
    let '(r, e') := nf_hook (NetEnv := N) NF_INET_LOCAL_IN s (n_env u) in
    match r with
    | inl v => Ret (v, NSt e' (n_log u ++ [EStolen (skb_id s)]))
    | inr s' => ip_local_deliver_finish fuel s' (NSt e' (n_log u))
    end).
  { intros u. unfold NF_HOOK, ext, mbind, M_bind. by destruct (nf_hook _ s (n_env u)) as [[v|s'] e']. }
  split.
  - intros Ne. rewrite !Run, Hook, Hook0. unfold http_nf_hook.
    by rewrite (proj2 (Z.eqb_neq _ _) Ne).
  - intros Ei. destruct (kmalloc (Z.of_nat (length p)) (heap_of (n_env t))) as [[l|] h'] eqn:Em; [|done].
    exists (kfree l h'). split; [by eapply kmalloc_kfree|]. cbv zeta.
    unfold contains_http. rewrite <- (strstr_spec txt keyword), !Run, Hook, Hook0.
    unfold http_nf_hook. rewrite (proj2 (Z.eqb_eq _ _) Ei), Ev. by destruct (strstr txt keyword).
Qed.
End path.

(** ** A host with the module *)

(** The environment of a host whose state is its heap, before the module. *)
#[local] Program Instance plain_host : NetEnv bump := {
  skb_share_check s e := (Some s, e);
  pskb_may_pull n s e := (if (n <=? length (skb_linear s))%nat then Some s else None, e);
  pskb_trim_rcsum n s e := (Some (set_data s (take n (skb_bytes s))), e);
  ip_fast_csum _ _ := 0;
  skb_cow s e := (Some s, e);
  ip_options_compile s e := (Some false, e);
  ip_options_rcv_srr s dev e := (Some s, e);
  in_dev_get dev e := None;
  ip_route_use_hint s iph dev h e := (inr (set_dst s (DstEntry (daddr iph) 1 false)), e);
  ip_route_input_noref s iph dev e := (inr (set_dst s (DstEntry (daddr iph) 1 false)), e);
  early_demux p s e := (inr s, e);
  inet_protos p e := if p =? 6 then Some (NetProtocol true true) else None;
  sysctl_ip_early_demux e := false;
  l3mdev_ip_rcv s e := (Some s, e);
  nf_hook h s e := (inr s, e);
  dst_input s e := (0, e);
  fib4_has_custom_rules n e := false;
  skb_pull n s :=
    if (n <=? length (skb_linear s))%nat then
      Some (SkBuff (skb_id s) (drop n (skb_linear s)) (skb_paged s) (pkt_type s) (skb_dev s) (skb_net s)
              (skb_dst s) (skb_sk s) (gso_segs s))
    else None;
  raw_local_deliver p s e := (false, e);
  proto_handler p s e := ((0, s), e);
  xfrm4_policy_check s e := (true, e);
  ip_defrag s e := (Some s, e);
  ra_chain n e := [];
  skb_clone s e := (Some s, e)
}.
Next Obligation. by intros s e s' e' [= <- <-]. Qed.
Next Obligation. intros n s e s' e' [= Hs <-]. destruct (Nat.leb_spec n (length (skb_linear s))); [|done]. by injection Hs as <-. Qed.
Next Obligation.
  intros n s e s' e' Hn [= <- <-]. unfold skb_bytes in *. simpl. rewrite app_nil_r. split_and!; [done..|].
  rewrite length_app in Hn. rewrite length_take, length_app. lia.
Qed.
Next Obligation. by intros s e s' e' [= <- <-]. Qed.
Next Obligation. by intros h s e s' e' [= <- <-]. Qed.
Next Obligation. by intros p s e s' e' [= <- <-]. Qed.
Next Obligation. by intros s i d h e s' e' [= <- <-]. Qed.
Next Obligation. intros s i d e s' e' [= <- <-]. split; [done|]. by eexists. Qed.
Next Obligation. by intros p s e ret s' e' [= <- <- <-]. Qed.
Next Obligation. by intros s e s' e' [= <- <-]. Qed.
Next Obligation. by intros s d e s' e' [= <- <-]. Qed.

Definition http_host : NetEnv bump := with_http plain_host (λ h, h) (λ _ h, h) 0 (λ _ h, (0, h)).

(** A TCP segment with twenty bytes of each header. *)
Definition segment (payload : list byte) : sk_buff :=
  SkBuff 7 ([x45; x00; x00; x2e; x00; x00; x40; x00; x40; x06; x00; x00; x0a; x00; x00; x01; x0a; x00; x00; x02] ++
    replicate 12 x00 ++ [x50] ++ replicate 7 x00 ++ payload) [] 0 1 0 None false 1.
Definition hhttp : list byte := [x48; x48; x54; x54; x50; x00].

Lemma segment_tcp payload : (length payload ≤ 100)%nat → tcp_packet (as_nf (segment payload)) 5 5.
Proof.
  intros L. refine (as_nf_tcp (segment payload) _ x50 eq_refl eq_refl eq_refl eq_refl _).
  assert (El : skb_len (segment payload) = 40 + Z.of_nat (length payload)).
  { unfold skb_len, skb_bytes, segment. cbn [skb_linear skb_paged]. rewrite app_nil_r, !length_app, !length_replicate. cbn [length]. lia. }
  rewrite El. change (IpInput.ihl _ * 4 + _) with 40. unfold INT_MAX. lia.
Qed.

Lemma http_filter_on_delivery_witness : ∃ h',
  ip_local_deliver (H := http_host) 1 (segment hhttp) (NSt bump_init []) = Ret (- EPERM, NSt h' [EStolen 7]) ∧ live h' = ∅.
Proof.
  destruct (http_filter_on_delivery plain_host (λ h, h) (λ _ h, h) 0 (λ _ h, (0, h)) 1 (segment hhttp) _ 5
    [x48; x48; x54; x54; x50] (NSt bump_init [])
    eq_refl eq_refl (segment_tcp hhttp ltac:(simpl; lia))) as (_ & D); [simpl; lia|done|done|].
  destruct (D eq_refl) as (h' & L & Dr & _). exists h'. split; [apply Dr|exact L]. by exists [x48], [].
Defined.

(** The filter in ip_rcv_core and the module are not the same: HHTTP passes the
    first and is dropped by the second; HTTP behind a zero byte is dropped by the
    first and accepted by the second. *)
Example filters_differ :
  http_scan (skb_linear (segment hhttp)) 46 0 = Ret false ∧
  fst <$> (match hook_http (Some (as_nf (segment hhttp))) bump_init with Ret r => Some r | _ => None end) = Some NF_DROP ∧
  let late := [x00; x48; x54; x54; x50; x00] in
  http_scan (skb_linear (segment late)) 46 0 = Ret true ∧
  fst <$> (match hook_http (Some (as_nf (segment late))) bump_init with Ret r => Some r | _ => None end) = Some NF_ACCEPT.
Proof. by vm_compute. Qed.
