(* ===== verification/Idr.v ===== *)
(** The interface of the kernel's IDR and IDA, on which the tests of
    src/linux/tools/testing/idr-test.c run, the items those tests allocate
    (item_create of the test harness), and an implementation of the interface.

    An IDR maps ids to pointers.  The laws are the documented behaviour of
    <linux/idr.h> for allocations that may sleep, which the user-space harness
    never lets fail. *)
From Stdlib Require Import ZArith Lia.
From stdpp Require Import base list gmap.
From S2P Require Import Prelude Kernel.

Definition ENOSPC := 28.

(** The pointers the tests store. *)
Inductive ptr :=
  | NULL
  | Err (e : Z)                (* ERR_PTR(-e) *)
  | DUMMY_PTR
  | MinusOne                   (* (void * )-1 *)
  | Self                       (* the address of the idr *)
  | Name (k : Z)               (* &name[k] *)
  | Item (l : loc)
  | Value (v : Z)              (* xa_mk_value(v) *).
#[export] Instance ptr_eq_dec : EqDecision ptr.
Proof. solve_decision. Defined.

(** ** Free ids *)

Section free.
Context {V : Type}.
Implicit Types m : gmap Z V.

Definition full m (lo hi : Z) : Prop := ∀ j, lo <= j <= hi → is_Some (m !! j).
Definition least_free m (lo hi i : Z) : Prop :=
  lo <= i <= hi ∧ m !! i = None ∧ full m lo (i - 1).

Lemma least_free_unique m lo hi hi' i j :
  least_free m lo hi i → least_free m lo hi' j → i = j.
Proof.
  intros (Hi & Ei & Fi) (Hj & Ej & Fj). destruct (Z.lt_trichotomy i j) as [L|[->|L]]; [|done|].
  - destruct (Fj i) as [? E]; [lia|congruence].
  - destruct (Fi j) as [? E]; [lia|congruence].
Qed.
Lemma least_free_not_full m lo hi i : least_free m lo hi i → full m lo hi → False.
Proof. intros (Hi & Ei & _) F. destruct (F i) as [? E]; [lia|congruence]. Qed.
End free.

Lemma least_free_fmap {V W} (f : V → W) (m : gmap Z V) lo hi i :
  least_free m lo hi i → least_free (f <$> m) lo hi i.
Proof.
  intros (Hi & E & F). split; [done|]. rewrite lookup_fmap, E. split; [done|].
  intros j Hj. rewrite lookup_fmap, fmap_is_Some. by apply F.
Qed.
Lemma full_fmap {V W} (f : V → W) (m : gmap Z V) lo hi : full m lo hi → full (f <$> m) lo hi.
Proof. intros F j Hj. rewrite lookup_fmap, fmap_is_Some. by apply F. Qed.

(** ** The interfaces *)

(** Where an allocation without a useful cursor stops: [end <= 0] is no limit. *)
Definition last_id (end_ : Z) : Z := if 0 <? end_ then end_ - 1 else INT_MAX.

Class Idr (I : Type) := {
  idr_map : I → gmap Z ptr;
  idr_base : I → Z;
  idr_next : I → Z;                                     (* the cursor *)
  DEFINE_IDR : I;
  idr_init_base : Z → I;
  idr_set_cursor : Z → I → I;
  idr_alloc_u32 : ptr → Z → Z → I → Z * Z * I;          (* error, *nextid *)
  idr_alloc : ptr → Z → Z → I → Z * I;
  idr_alloc_cyclic : ptr → Z → Z → I → Z * I;
  idr_find : Z → I → ptr;
  idr_remove : Z → I → ptr * I;
  idr_replace : ptr → Z → I → ptr * I;
  idr_is_empty : I → bool;
  idr_destroy : I → I;
  idr_get_next : Z → I → ptr * Z;                       (* the entry, *nextid *)
  idr_entries : I → list (Z * ptr);                     (* what idr_for_each visits *)
  define_idr_law : idr_map DEFINE_IDR = ∅ ∧ idr_base DEFINE_IDR = 0 ∧ idr_next DEFINE_IDR = 0;
  init_base_law : ∀ b, idr_map (idr_init_base b) = ∅ ∧ idr_base (idr_init_base b) = b ∧
    idr_next (idr_init_base b) = 0;
  set_cursor_law : ∀ c i, idr_map (idr_set_cursor c i) = idr_map i ∧
    idr_base (idr_set_cursor c i) = idr_base i ∧ idr_next (idr_set_cursor c i) = c;
  alloc_u32_law : ∀ p n hi i e n' i', idr_alloc_u32 p n hi i = (e, n', i') →
    idr_base i' = idr_base i ∧ idr_next i' = idr_next i ∧
    let lo := Z.max n (idr_base i) in
    (e = 0 ∧ least_free (idr_map i) lo hi n' ∧ idr_map i' = <[n' := p]> (idr_map i)) ∨
    (e = - ENOSPC ∧ n' = n ∧ full (idr_map i) lo hi ∧ idr_map i' = idr_map i);
  alloc_law : ∀ p start end_ i r i', 0 <= start → idr_alloc p start end_ i = (r, i') →
    idr_base i' = idr_base i ∧ idr_next i' = idr_next i ∧
    let lo := Z.max start (idr_base i) in
    (least_free (idr_map i) lo (last_id end_) r ∧ idr_map i' = <[r := p]> (idr_map i)) ∨
    (r = - ENOSPC ∧ full (idr_map i) lo (last_id end_) ∧ idr_map i' = idr_map i);
  alloc_cyclic_law : ∀ p start end_ i r i', 0 <= start → idr_alloc_cyclic p start end_ i = (r, i') →
    idr_base i' = idr_base i ∧
    let from := if s32 (idr_next i) <? start then start else idr_next i in
    let lo := Z.max from (idr_base i) in
    let lo' := Z.max start (idr_base i) in
    ((least_free (idr_map i) lo (last_id end_) r ∨
      (full (idr_map i) lo (last_id end_) ∧ least_free (idr_map i) lo' (last_id end_) r)) ∧
     idr_map i' = <[r := p]> (idr_map i) ∧ idr_next i' = r + 1) ∨
    (r = - ENOSPC ∧ full (idr_map i) lo' (last_id end_) ∧ idr_map i' = idr_map i ∧ idr_next i' = idr_next i);
  find_law : ∀ id i, idr_find id i = default NULL (idr_map i !! id);
  remove_law : ∀ id i p i', idr_remove id i = (p, i') → p = default NULL (idr_map i !! id) ∧
    idr_map i' = delete id (idr_map i) ∧ idr_base i' = idr_base i ∧ idr_next i' = idr_next i;
  replace_law : ∀ p id i q i', idr_replace p id i = (q, i') →
    idr_base i' = idr_base i ∧ idr_next i' = idr_next i ∧
    match idr_map i !! id with
    | Some old => q = old ∧ idr_map i' = <[id := p]> (idr_map i)
    | None => q = Err ENOENT ∧ idr_map i' = idr_map i
    end;
  is_empty_law : ∀ i, idr_is_empty i = bool_decide (idr_map i = ∅);
  destroy_law : ∀ i, idr_map (idr_destroy i) = ∅ ∧ idr_base (idr_destroy i) = idr_base i ∧
    idr_next (idr_destroy i) = idr_next i;
  (* the next three are for an idr that holds no NULL; ids past INT_MAX are
     not shown *)
  get_next_some_law : ∀ n i k p, map_Forall (λ _ q, q ≠ NULL) (idr_map i) → n <= k <= INT_MAX →
    idr_map i !! k = Some p → (∀ j, n <= j < k → idr_map i !! j = None) → idr_get_next n i = (p, k);
  get_next_none_law : ∀ n i, map_Forall (λ _ q, q ≠ NULL) (idr_map i) →
    (∀ j, n <= j <= INT_MAX → idr_map i !! j = None) → idr_get_next n i = (NULL, n);
  entries_law : ∀ i, map_Forall (λ _ q, q ≠ NULL) (idr_map i) → NoDup (idr_entries i).*1 ∧
    ∀ k p, (k, p) ∈ idr_entries i ↔ idr_map i !! k = Some p ∧ k <= INT_MAX
}.

(** Allocations that may not sleep: [idr_needs i id] says that the tree has to get
    a node for [id], [ida_needs a lo] that the ida has to get memory for an id
    from [lo] on.  An id in a leaf that is there takes none; an ida holds its
    first ids in the root and the next ones of a bitmap in what it has. *)
Class IdrMemory (I : Type) `{Idr I} (RADIX_TREE_MAP_SIZE : Z) := {
  idr_needs : I → Z → bool;
  idr_needs_law : ∀ i j k p, idr_map i !! j = Some p → j / RADIX_TREE_MAP_SIZE = k / RADIX_TREE_MAP_SIZE →
    idr_needs i k = false
}.

(** struct item of the harness: [items] gives the index of every item that is
    allocated, [item_order] the order it was created with. *)
Class Items (T : Type) := {
  items : T → gmap loc Z;
  item_order : T → loc → Z;
  item_create : Z → Z → T → loc * T;                    (* index and order *)
  item_free : loc → T → T;
  item_create_law : ∀ index order t l t', item_create index order t = (l, t') →
    items t !! l = None ∧ items t' = <[l := index]> (items t);
  item_create_order_law : ∀ index order t l t', item_create index order t = (l, t') →
    item_order t' l = order ∧ ∀ l', l' ≠ l → item_order t' l' = item_order t l';
  item_free_law : ∀ l t, items (item_free l t) = delete l (items t)
}.

Class Ida (A : Type) := {
  ida_set : A → gset Z;
  DEFINE_IDA : A;
  ida_alloc_range : Z → Z → A → Z * A;
  ida_free : Z → A → A;
  ida_destroy : A → A;
  ida_is_empty : A → bool;
  define_ida_law : ida_set DEFINE_IDA = ∅;
  ida_alloc_law : ∀ lo hi a r a', 0 <= lo → ida_alloc_range lo hi a = (r, a') →
    (lo <= r <= hi ∧ (r ∉ ida_set a) ∧ (∀ j, lo <= j < r → j ∈ ida_set a) ∧ ida_set a' = {[r]} ∪ ida_set a) ∨
    (r = - ENOSPC ∧ (∀ j, lo <= j <= hi → j ∈ ida_set a) ∧ ida_set a' = ida_set a);
  ida_free_law : ∀ z a, ida_set (ida_free z a) = ida_set a ∖ {[z]};
  ida_destroy_law : ∀ a, ida_set (ida_destroy a) = ∅;
  ida_is_empty_law : ∀ a, ida_is_empty a = bool_decide (ida_set a = ∅)
}.

Class IdaMemory (A : Type) `{Ida A} (IDA_BITMAP_BITS BITS_PER_XA_VALUE : Z) := {
  ida_needs : A → Z → bool;
  ida_needs_first_law : ∀ a lo, ida_set a = ∅ → BITS_PER_XA_VALUE <= lo → ida_needs a lo = true;
  (* the next id of an ida that holds the ids below [n]: memory only for a new
     bitmap or to turn the value of the root, or of a slot, into one *)
  ida_needs_next_law : ∀ a n, 0 <= n → (∀ z, z ∈ ida_set a ↔ 0 <= z < n) →
    (ida_needs a 0 = true → n mod IDA_BITMAP_BITS = 0 ∨ n mod IDA_BITMAP_BITS = BITS_PER_XA_VALUE) ∧
    (n mod IDA_BITMAP_BITS = BITS_PER_XA_VALUE → ida_needs a 0 = true)
}.

(** ** An implementation *)

Record simple_idr := SIdr { si_map : gmap Z ptr; si_base : Z; si_next : Z }.

(** The first id from [k] on that is free, after [n] looks at most. *)
Fixpoint first_free {V} (m : gmap Z V) (n : nat) (k : Z) : Z :=
  match n with
  | O => k
  | S n' => match m !! k with Some _ => first_free m n' (k + 1) | None => k end
  end.
Definition free_from {V} (m : gmap Z V) (k : Z) : Z := first_free m (size m) k.

Lemma first_free_spec {V} (m : gmap Z V) n k :
  k <= first_free m n k <= k + Z.of_nat n ∧ full m k (first_free m n k - 1) ∧
  (m !! first_free m n k = None ∨ first_free m n k = k + Z.of_nat n).
Proof.
  revert k. induction n as [|n IH]; intros k; simpl.
  - split; [lia|]. split; [intros j Hj; lia|right; lia].
  - destruct (m !! k) as [v|] eqn:E.
    + destruct (IH (k + 1)) as (B & F & D). split; [lia|]. split; [|destruct D; [by left|right; lia]].
      intros j Hj. destruct (decide (j = k)) as [->|]; [eauto|]. apply F. lia.
    + split; [lia|]. split; [intros j Hj; lia|by left].
Qed.

(** As many ids as the map has entries and one more cannot all be taken. *)
Lemma free_from_spec {V} (m : gmap Z V) k : k <= free_from m k ∧ m !! free_from m k = None ∧
  full m k (free_from m k - 1).
Proof.
  destruct (first_free_spec m (size m) k) as (B & F & D). unfold free_from. split; [lia|]. split; [|done].
  destruct D as [D|D]; [done|]. destruct (m !! first_free m (size m) k) as [v|] eqn:E; [|done]. exfalso.
  assert (Sub : list_to_set (seqZ k (Z.of_nat (size m) + 1)) ⊆ dom m).
  { intros j. rewrite elem_of_list_to_set, elem_of_seqZ, elem_of_dom. intros Hj.
    destruct (decide (j = first_free m (size m) k)) as [->|]; [eauto|]. apply F. lia. }
  apply subseteq_size in Sub. rewrite size_dom in Sub.
  rewrite size_list_to_set in Sub by apply NoDup_seqZ. rewrite length_seqZ in Sub. lia.
Qed.

(** The least free id in a range, if there is one. *)
Definition search {V} (m : gmap Z V) (lo hi : Z) : option Z :=
  let k := free_from m lo in if k <=? hi then Some k else None.

Lemma search_spec {V} (m : gmap Z V) lo hi :
  match search m lo hi with
  | Some k => least_free m lo hi k
  | None => full m lo hi
  end.
Proof.
  unfold search. destruct (free_from_spec m lo) as (B & N & F). destruct (Z.leb_spec (free_from m lo) hi).
  - split; [lia|done].
  - intros j Hj. apply F. lia.
Qed.

(** The entry with the least id. *)
Fixpoint least_entry (l : list (Z * ptr)) : option (Z * ptr) :=
  match l with
  | [] => None
  | x :: r => match least_entry r with
              | Some y => Some (if x.1 <=? y.1 then x else y)
              | None => Some x
              end
  end.
Lemma least_entry_spec l : match least_entry l with
  | Some x => x ∈ l ∧ ∀ y, y ∈ l → x.1 <= y.1
  | None => l = []
  end.
Proof.
  induction l as [|x l IH]; [done|]. simpl. destruct (least_entry l) as [y|].
  - destruct IH as [Hy Ly]. destruct (Z.leb_spec x.1 y.1); (split; [|intros z [->|Hz]%elem_of_cons]);
      try (apply elem_of_cons; by auto); try lia; specialize (Ly z Hz); lia.
  - subst. split; [by apply list_elem_of_singleton|]. intros y ->%list_elem_of_singleton. lia.
Qed.

Definition shown (i : simple_idr) : list (Z * ptr) :=
  filter (λ x, x.1 <= INT_MAX) (map_to_list (si_map i)).
Definition si_get_next (n : Z) (i : simple_idr) : ptr * Z :=
  match least_entry (filter (λ x, n <= x.1) (shown i)) with
  | Some x => (x.2, x.1)
  | None => (NULL, n)
  end.

Definition si_alloc (p : ptr) (start hi : Z) (i : simple_idr) : Z * simple_idr :=
  match search (si_map i) (Z.max start (si_base i)) hi with
  | Some k => (k, SIdr (<[k := p]> (si_map i)) (si_base i) (si_next i))
  | None => (- ENOSPC, i)
  end.
Definition si_cyclic (p : ptr) (start hi : Z) (i : simple_idr) : Z * simple_idr :=
  let from := if s32 (si_next i) <? start then start else si_next i in
  match search (si_map i) (Z.max from (si_base i)) hi with
  | Some k => (k, SIdr (<[k := p]> (si_map i)) (si_base i) (k + 1))
  | None =>
      match search (si_map i) (Z.max start (si_base i)) hi with
      | Some k => (k, SIdr (<[k := p]> (si_map i)) (si_base i) (k + 1))
      | None => (- ENOSPC, i)
      end
  end.

#[local] Program Instance simple_idr_ok : Idr simple_idr := {
  idr_map := si_map; idr_base := si_base; idr_next := si_next;
  DEFINE_IDR := SIdr ∅ 0 0;
  idr_init_base b := SIdr ∅ b 0;
  idr_set_cursor c i := SIdr (si_map i) (si_base i) c;
  idr_alloc_u32 p n hi i :=
    match search (si_map i) (Z.max n (si_base i)) hi with
    | Some k => (0, k, SIdr (<[k := p]> (si_map i)) (si_base i) (si_next i))
    | None => (- ENOSPC, n, i)
    end;
  idr_alloc p start end_ i := si_alloc p start (last_id end_) i;
  idr_alloc_cyclic p start end_ i := si_cyclic p start (last_id end_) i;
  idr_find id i := default NULL (si_map i !! id);
  idr_remove id i := (default NULL (si_map i !! id), SIdr (delete id (si_map i)) (si_base i) (si_next i));
  idr_replace p id i :=
    match si_map i !! id with
    | Some old => (old, SIdr (<[id := p]> (si_map i)) (si_base i) (si_next i))
    | None => (Err ENOENT, i)
    end;
  idr_is_empty i := bool_decide (si_map i = ∅);
  idr_destroy i := SIdr ∅ (si_base i) (si_next i);
  idr_get_next := si_get_next;
  idr_entries := shown
}.
Next Obligation. done. Qed.
Next Obligation. done. Qed.
Next Obligation. done. Qed.
Next Obligation.
  intros p n hi i e n' i' E. simpl in E. pose proof (search_spec (si_map i) (Z.max n (si_base i)) hi) as Hs.
  destruct (search _ _ _); simplify_eq/=; (split; [done|split; [done|]]); [left|right]; auto.
Qed.
Next Obligation.
  unfold si_alloc. intros p start end_ i r i' Hst E.
  pose proof (search_spec (si_map i) (Z.max start (si_base i)) (last_id end_)) as Hs.
  destruct (search _ _ _); simplify_eq/=; (split; [done|split; [done|]]); [left|right]; auto.
Qed.
Next Obligation.
  unfold si_cyclic. intros p start end_ i r i' Hst E.
  set (from := if s32 (si_next i) <? start then start else si_next i) in *.
  pose proof (search_spec (si_map i) (Z.max from (si_base i)) (last_id end_)) as Hs.
  pose proof (search_spec (si_map i) (Z.max start (si_base i)) (last_id end_)) as Hs'.
  destruct (search _ (Z.max from _) _); [|destruct (search _ (Z.max start _) _)]; simplify_eq/=;
    (split; [done|]); [left|left|right]; auto.
Qed.
Next Obligation. done. Qed.
Next Obligation. intros id i p i' E. by injection E as <- <-. Qed.
Next Obligation. intros p id i q i' E. simpl in E. by destruct (si_map i !! id); simplify_eq. Qed.
Next Obligation. done. Qed.
Next Obligation. done. Qed.
Next Obligation.
  intros n i k p _ Hk E L. unfold si_get_next.
  pose proof (least_entry_spec (filter (λ x, n <= x.1) (shown i))) as Hl.
  assert (In : (k, p) ∈ filter (λ x, n <= x.1) (shown i)).
  { unfold shown. rewrite !list_elem_of_filter, elem_of_map_to_list. simpl. split; [lia|]. split; [lia|done]. }
  destruct (least_entry _) as [[k' p']|]; [|rewrite Hl in In; by apply elem_of_nil in In].
  destruct Hl as [In' Le]. specialize (Le _ In). unfold shown in In'.
  rewrite !list_elem_of_filter, elem_of_map_to_list in In'. simpl in *. destruct In' as (Hn & _ & E').
  destruct (decide (k' = k)) as [->|]; [by simplify_eq|]. rewrite L in E' by lia. done.
Qed.
Next Obligation.
  intros n i _ L. unfold si_get_next.
  pose proof (least_entry_spec (filter (λ x, n <= x.1) (shown i))) as Hl.
  destruct (least_entry _) as [[k p]|]; [|done]. destruct Hl as [In _]. unfold shown in In.
  rewrite !list_elem_of_filter, elem_of_map_to_list in In. simpl in In. destruct In as (Hn & Hk & E).
  by rewrite L in E by lia.
Qed.
Next Obligation.
  intros i _. split.
  - unfold shown. pose proof (NoDup_fst_map_to_list (si_map i)) as ND.
    eapply sublist_NoDup; [exact ND|]. apply fmap_sublist, sublist_filter.
  - intros k p. unfold shown. rewrite list_elem_of_filter, elem_of_map_to_list. simpl. tauto.
Qed.

#[local] Program Instance simple_items : Items (gmap loc (Z * Z)) := {
  items t := fst <$> t;
  item_order t l := default 0 (snd <$> t !! l);
  item_create index order t := (fresh (dom t), <[fresh (dom t) := (index, order)]> t);
  item_free l t := delete l t
}.
Next Obligation.
  intros index order t l t' E. simpl in E. injection E as <- <-. rewrite fmap_insert. split; [|done].
  rewrite lookup_fmap, (proj1 (not_elem_of_dom t _)); [done|apply is_fresh].
Qed.
Next Obligation.
  intros index order t l t' E. simpl in E. injection E as <- <-. rewrite lookup_insert_eq. split; [done|].
  intros l' N. by rewrite lookup_insert_ne.
Qed.
Next Obligation. intros l t. simpl. by rewrite fmap_delete. Qed.

#[local] Program Instance simple_ida : Ida (gset Z) := {
  ida_set a := a; DEFINE_IDA := ∅;
  ida_alloc_range lo hi a := match search (gset_to_gmap () a) lo hi with
                             | Some k => (k, {[k]} ∪ a) | None => (- ENOSPC, a) end;
  ida_free z a := a ∖ {[z]}; ida_destroy a := ∅; ida_is_empty a := bool_decide (a = ∅)
}.
Next Obligation. done. Qed.
Next Obligation.
  intros lo hi a r a' _ E. pose proof (search_spec (gset_to_gmap () a) lo hi) as Hs. simpl in E.
  assert (Has : ∀ j, is_Some (gset_to_gmap () a !! j) → j ∈ a).
  { intros j. by rewrite <- elem_of_dom, dom_gset_to_gmap. }
  destruct (search _ _ _) as [k|]; injection E as <- <-; [left|right].
  - destruct Hs as (Hk & N & F). apply lookup_gset_to_gmap_None in N.
    split_and!; try done; try lia. intros j Hj. apply Has, F. lia.
  - split; [done|]. split; [|done]. intros j Hj. by apply Has, Hs.
Qed.
Next Obligation. done. Qed.
Next Obligation. done. Qed.
Next Obligation. done. Qed.
