(* ===== verification/IdrTest.v ===== *)
(** The tests of src/linux/tools/testing/idr-test.c over the interfaces of
    [Idr]: each test is a program whose assert and BUG_ON fault with
    [AssertFail].

    [ida_thread_tests] in IdaChecks runs twenty threads, each on an ida of its
    own.  [idr_find_test] is not here: its two threads change one idr without a
    lock, which the interface of the IDR does not allow, so what its calls do
    then is not for the laws to say. *)
From Stdlib Require Import ZArith Lia.
From stdpp Require Import base list gmap relations.
From S2P Require Import Prelude Kernel Idr.

(** ** IDR tests *)

Record tst (I T : Type) := Tst { t_idr : I; t_items : T }.
Arguments Tst {I T}.
Arguments t_idr {I T}.
Arguments t_items {I T}.

Section idr.
Context {I T : Type} `{Idr I} `{Items T}.
Abbreviation st := (tst I T).

Definition assert (b : bool) : M st unit := if b then mret tt else mfault AssertFail.
Definition BUG_ON (b : bool) : M st unit := assert (negb b).

(** Calls on the idr of the test. *)
Definition on_idr {A} (f : I → A * I) : M st A := λ s,
  let '(a, i) := f (t_idr s) in Ret (a, Tst i (t_items s)).
Definition ask_idr {A} (f : I → A) : M st A := λ s, Ret (f (t_idr s), s).
Definition destroy : M st unit := on_idr (λ i, (tt, idr_destroy i)).
Definition remove (id : Z) : M st ptr := on_idr (idr_remove id).
Definition alloc (p : ptr) (start end_ : Z) : M st Z := on_idr (idr_alloc p start end_).
Definition alloc_cyclic (p : ptr) (start end_ : Z) : M st Z := on_idr (idr_alloc_cyclic p start end_).
Definition replace (p : ptr) (id : Z) : M st ptr := on_idr (idr_replace p id).
(** A test that declares an idr of its own. *)
Definition with_idr {A} (i : I) (m : M st A) : M st A := λ s,
  match m (Tst i (t_items s)) with
  | Ret (a, s') => Ret (a, Tst (t_idr s) (t_items s'))
  | Fault f => Fault f
  end.

(** item_create, item->index and free. *)
Definition create (index order : Z) : M st ptr := λ s,
  let '(l, t) := item_create index order (t_items s) in Ret (Item l, Tst (t_idr s) t).
Definition item_index (p : ptr) : M st Z := λ s,
  match p with
  | Item l => match items (t_items s) !! l with
              | Some x => Ret (x, s)
              | None => Fault OutOfBounds
              end
  | NULL => Fault NullDeref
  | Err _ => Fault ErrPtr
  | _ => Fault OutOfBounds
  end.
Definition free (p : ptr) : M st unit := λ s,
  match p with
  | NULL => Ret (tt, s)
  | Item l => if bool_decide (is_Some (items (t_items s) !! l))
              then Ret (tt, Tst (t_idr s) (item_free l (t_items s))) else Fault BadFree
  | _ => Fault BadFree
  end.

Definition item_idr_free (id : Z) (p : ptr) : M st unit :=
  x ← item_index p;
  assert (x =? u64 id) ≫= λ _, free p.

(** idr_for_each with a callback that returns 0 and leaves the idr alone. *)
Definition idr_for_each (fn : Z → ptr → M st unit) : M st unit :=
  es ← ask_idr idr_entries;
  mforeach es (λ e, fn e.1 e.2).

Definition item_idr_remove (id : Z) : M st unit :=
  p ← ask_idr (idr_find id);
  x ← item_index p;
  assert (x =? u64 id) ≫= λ _,
  remove id ≫= λ _,
  free p.

Definition free_all : M st unit := idr_for_each item_idr_free ≫= λ _, destroy.

Definition idr_alloc_test : M st unit :=
  with_idr DEFINE_IDR (
    r ← alloc_cyclic DUMMY_PTR 0 0x4000; assert (r =? 0) ≫= λ _,
    r ← alloc_cyclic DUMMY_PTR 0x3ffd 0x4000; assert (r =? 0x3ffd) ≫= λ _,
    remove 0x3ffd ≫= λ _,
    remove 0 ≫= λ _,
    mfor 0 5 (λ k,
      let i := 0x3ffe + Z.of_nat k in
      item ← (if i <? 0x4000 then create i 0 else create (i - 0x3fff) 0);
      id ← alloc_cyclic item 1 0x4000;
      x ← item_index item;
      assert (u64 id =? x)) ≫= λ _,
    free_all).

Definition idr_replace_test : M st unit :=
  with_idr DEFINE_IDR (
    alloc MinusOne 10 11 ≫= λ _,
    replace Self 10 ≫= λ _,
    destroy).

Definition empty_is (b : bool) : M st unit := e ← ask_idr idr_is_empty; assert (Bool.eqb e b).
Definition alloc_is (p : ptr) (start end_ id : Z) : M st unit :=
  r ← alloc p start end_; assert (r =? id).
Definition replace_is (p : ptr) (id : Z) (old : ptr) : M st unit :=
  q ← replace p id; assert (bool_decide (q = old)).

Definition idr_null_test : M st unit :=
  with_idr DEFINE_IDR (
    empty_is true ≫= λ _,
    alloc_is NULL 0 0 0 ≫= λ _, empty_is false ≫= λ _,
    remove 0 ≫= λ _, empty_is true ≫= λ _,
    alloc_is NULL 0 0 0 ≫= λ _, empty_is false ≫= λ _,
    destroy ≫= λ _, empty_is true ≫= λ _,
    mfor 0 10 (λ i, alloc_is NULL 0 0 (Z.of_nat i)) ≫= λ _,
    replace_is DUMMY_PTR 3 NULL ≫= λ _,
    replace_is DUMMY_PTR 4 NULL ≫= λ _,
    replace_is NULL 4 DUMMY_PTR ≫= λ _,
    replace_is DUMMY_PTR 11 (Err ENOENT) ≫= λ _,
    remove 5 ≫= λ _,
    alloc_is NULL 0 0 5 ≫= λ _,
    remove 5 ≫= λ _,
    mfor 0 9 (λ i, remove (Z.of_nat i) ≫= λ _, empty_is false) ≫= λ _,
    remove 8 ≫= λ _, empty_is false ≫= λ _,
    remove 9 ≫= λ _, empty_is true ≫= λ _,
    alloc_is NULL 0 0 0 ≫= λ _,
    replace_is DUMMY_PTR 3 (Err ENOENT) ≫= λ _,
    replace_is DUMMY_PTR 0 NULL ≫= λ _,
    replace_is NULL 0 DUMMY_PTR ≫= λ _,
    destroy ≫= λ _, empty_is true ≫= λ _,
    mfor 1 9 (λ i, alloc_is NULL 1 0 (Z.of_nat i)) ≫= λ _,
    destroy ≫= λ _, empty_is true).

Definition indices : list Z := [4; 7; 9; 15; 65; 128; 1000; 99999; 0].

(** The first loop: an item at every index, up to the next index. *)
Fixpoint fill_indices (l : list Z) : M st unit :=
  match l with
  | x :: ((y :: _) as r) =>
      if x =? 0 then mret tt else
      item ← create x 0;
      alloc_is item x y x ≫= λ _, fill_indices r
  | _ => mret tt
  end.
(** The second loop, with [nextid]. *)
Fixpoint walk_indices (l : list Z) (nextid : Z) : M st unit :=
  match l with
  | x :: r =>
      if x =? 0 then mret tt else
      e ← ask_idr (idr_get_next nextid);
      assert (e.2 =? x) ≫= λ _, walk_indices r (s32 (e.2 + 1))
  | [] => mret tt
  end.

Definition idr_get_next_test (base : Z) : M st unit :=
  with_idr (idr_init_base base) (
    fill_indices indices ≫= λ _,
    walk_indices indices 0 ≫= λ _,
    free_all).

Definition idr_u32_cb (id : Z) (p : ptr) : M st unit :=
  BUG_ON (id <? 0) ≫= λ _, BUG_ON (negb (bool_decide (p = DUMMY_PTR))).

Definition idr_u32_test1 (handle : Z) : M st unit :=
  '(e, id) ← on_idr (idr_alloc_u32 DUMMY_PTR handle handle);
  BUG_ON (negb (e =? 0)) ≫= λ _,
  BUG_ON (negb (id =? handle)) ≫= λ _,
  '(e, id) ← on_idr (idr_alloc_u32 DUMMY_PTR id id);
  BUG_ON (negb (e =? - ENOSPC)) ≫= λ _,
  BUG_ON (negb (id =? handle)) ≫= λ _,
  '(p, sid) ← ask_idr (idr_get_next 0);
  (if INT_MAX <? id
   then BUG_ON (negb (bool_decide (p = NULL))) ≫= λ _, BUG_ON (negb (sid =? 0))
   else BUG_ON (negb (bool_decide (p = DUMMY_PTR))) ≫= λ _, BUG_ON (negb (u32 sid =? id))) ≫= λ _,
  idr_for_each idr_u32_cb ≫= λ _,
  q ← remove id;
  BUG_ON (negb (bool_decide (q = DUMMY_PTR))) ≫= λ _,
  e ← ask_idr idr_is_empty;
  BUG_ON (negb e).

Definition idr_u32_test (base : Z) : M st unit :=
  with_idr (idr_init_base base) (
    mforeach [10; 0x7fffffff; 0x80000000; 0x80000001; 0xffe00000; 0xffffffff] idr_u32_test1).

(** The four filling loops, from [&name[k]] on; idr_for_each_entry with an
    empty body, here and below, changes nothing. *)
Definition align_fill (k : nat) : M st unit :=
  mfor k 9 (λ i, r ← alloc (Name (Z.of_nat i)) 0 0; BUG_ON (negb (r =? Z.of_nat i - Z.of_nat k))) ≫= λ _,
  destroy.

Definition bug_unless (b : bool) : M st unit := BUG_ON (negb b).
Definition align_pair (i : nat) : M st unit :=
  r ← alloc (Name (Z.of_nat i)) 0 0; bug_unless (r =? 0) ≫= λ _,
  r ← alloc (Name (Z.of_nat i + 1)) 0 0; bug_unless (r =? 1) ≫= λ _,
  remove 1 ≫= λ _,
  remove 0 ≫= λ _,
  e ← ask_idr idr_is_empty; bug_unless e.
Definition align_null_first (i : nat) : M st unit :=
  r ← alloc NULL 0 0; bug_unless (r =? 0) ≫= λ _,
  replace (Name (Z.of_nat i)) 0 ≫= λ _,
  p ← ask_idr (idr_find 0); bug_unless (bool_decide (p = Name (Z.of_nat i))) ≫= λ _,
  remove 0 ≫= λ _, mret tt.
Definition align_null_second (i : nat) : M st unit :=
  r ← alloc (Name (Z.of_nat i)) 0 0; bug_unless (r =? 0) ≫= λ _,
  r ← alloc NULL 0 0; bug_unless (r =? 1) ≫= λ _,
  remove 1 ≫= λ _,
  replace (Name (Z.of_nat i + 1)) 0 ≫= λ _,
  remove 0 ≫= λ _, mret tt.

Definition idr_align_test : M st unit :=
  align_fill 0 ≫= λ _, align_fill 1 ≫= λ _, align_fill 2 ≫= λ _, align_fill 3 ≫= λ _,
  mfor 0 8 align_pair ≫= λ _,
  mfor 0 8 align_null_first ≫= λ _,
  mfor 0 8 align_null_second.

(** An item for every index of [i0 .. i0 + n - 1], allocated in [range i]. *)
Definition alloc_items (i0 : Z) (n : nat) (range : Z → Z * Z) : M st unit :=
  mfor 0 n (λ k,
    let i := i0 + Z.of_nat k in
    item ← create i 0;
    r ← alloc item (range i).1 (range i).2;
    assert (u64 r =? i)).

Variable RADIX_TREE_MAP_SIZE : Z.

(** The parts of idr_checks on its own idr: ten thousand items of which half are
    removed one by one; *)
Definition idr_checks_many : M st unit :=
  alloc_items 0 (Z.to_nat 10000) (λ _, (0, 20000)) ≫= λ _,
  r ← alloc DUMMY_PTR 5 30; assert (r <? 0) ≫= λ _,
  mfor 0 (Z.to_nat 5000) (λ i, item_idr_remove (Z.of_nat i)) ≫= λ _,
  remove 3 ≫= λ _,
  free_all ≫= λ _,
  empty_is true.
(** removals of ids that are not there, and a tree node full of one pointer; *)
Definition idr_checks_node : M st unit :=
  remove 3 ≫= λ _,
  remove 0 ≫= λ _,
  alloc_is DUMMY_PTR 0 0 0 ≫= λ _,
  remove 1 ≫= λ _,
  mfor 1 (Z.to_nat (RADIX_TREE_MAP_SIZE - 1)) (λ i, r ← alloc DUMMY_PTR 0 0; assert (u64 r =? Z.of_nat i)) ≫= λ _,
  remove (Z.shiftl 1 30) ≫= λ _,
  destroy.
(** the ids up to INT_MAX; *)
Definition idr_checks_top : M st unit :=
  alloc_items (INT_MAX - 3) 4 (λ i, (s32 i, s32 (i + 10))) ≫= λ _,
  let i := INT_MAX + 1 in
  alloc_is DUMMY_PTR (s32 (i - 2)) (s32 i) (- ENOSPC) ≫= λ _,
  alloc_is DUMMY_PTR (s32 (i - 2)) (s32 (i + 10)) (- ENOSPC) ≫= λ _,
  free_all ≫= λ _,
  destroy ≫= λ _,
  empty_is true.
(** the cursor that runs over INT_MAX. *)
Definition idr_checks_cursor : M st unit :=
  on_idr (λ x, (tt, idr_set_cursor (INT_MAX - 3) x)) ≫= λ _,
  mfor 0 6 (λ k,
    let i := INT_MAX - 3 + Z.of_nat k in
    item ← (if i <=? INT_MAX then create i 0 else create (i - INT_MAX - 1) 0);
    id ← alloc_cyclic item 0 0;
    x ← item_index item;
    assert (u32 id =? x)) ≫= λ _,
  free_all ≫= λ _,
  empty_is true.
Definition idr_checks_own : M st unit :=
  idr_checks_many ≫= λ _,
  idr_checks_node ≫= λ _,
  idr_checks_top ≫= λ _,
  idr_checks_cursor ≫= λ _,
  alloc_items 1 (Z.to_nat 9999) (λ _, (1, 20000)) ≫= λ _,
  free_all.

(** An allocation that may not sleep, [pre] when idr_preload has set memory for one
    insertion aside. *)
Context `{!IdrMemory I RADIX_TREE_MAP_SIZE}.
Definition alloc_nowait (pre : bool) (p : ptr) (start end_ : Z) : M st (Z * bool) :=
  s ← mget;
  if idr_needs (t_idr s) start then
    if pre then r ← alloc p start end_; mret (r, false) else mret (- ENOMEM, false)
  else r ← alloc p start end_; mret (r, pre).
Fixpoint nowait_loop (pre : bool) (i n : nat) : M st unit :=
  match n with
  | O => mret tt
  | S n' =>
      item ← create (Z.of_nat i) 0;
      '(r, pre') ← alloc_nowait pre item (Z.of_nat i) (Z.of_nat i + 1);
      assert (r =? Z.of_nat i) ≫= λ _, nowait_loop pre' (S i) n'
  end.
Definition idr_nowait_test : M st unit :=
  with_idr DEFINE_IDR (nowait_loop true 0 3 ≫= λ _, free_all).

(** idr_checks without idr_find_test. *)
Definition idr_checks : M st unit :=
  with_idr DEFINE_IDR (
    idr_checks_own ≫= λ _,
    idr_replace_test ≫= λ _,
    idr_alloc_test ≫= λ _,
    idr_null_test ≫= λ _,
    idr_nowait_test ≫= λ _,
    idr_get_next_test 0 ≫= λ _,
    idr_get_next_test 1 ≫= λ _,
    idr_get_next_test 4 ≫= λ _,
    idr_u32_test 4 ≫= λ _,
    idr_u32_test 1 ≫= λ _,
    idr_u32_test 0 ≫= λ _,
    idr_align_test).

(** The order of an item, like [item_index]. *)
Definition get_order (p : ptr) : M st Z := λ s,
  match p with
  | Item l => if bool_decide (is_Some (items (t_items s) !! l))
              then Ret (item_order (t_items s) l, s) else Fault OutOfBounds
  | NULL => Fault NullDeref
  | Err _ => Fault ErrPtr
  | _ => Fault OutOfBounds
  end.
Definition show_item (p : ptr) : M st (Z * Z) :=
  x ← item_index p; o ← get_order p; mret (x, o).
(** idr_for_each_entry with the printing of each: the id, the index, the order.
    [None] when the fuel is not enough. *)
Fixpoint for_each_entry (fuel : nat) (id : Z) : M st (option (list (Z * (Z * Z)))) :=
  match fuel with
  | O => mret None
  | S fuel' =>
      '(item, id) ← ask_idr (idr_get_next id);
      if bool_decide (item = NULL) then mret (Some []) else
      x ← show_item item;
      r ← for_each_entry fuel' (s32 (id + 1));
      mret (cons (id, x) <$> r)
  end.

(** What idr_test_simple prints: the ids of the loop, the entries, what is found
    at 5 before and after the removal, and whether the idr is empty at the end. *)
Record simple_out := SimpleOut {
  so_ids : list Z;
  so_entries : option (list (Z * (Z * Z)));
  so_before : option (Z * Z);
  so_after : option (Z * Z);
  so_empty : bool
}.
Fixpoint simple_loop (i : nat) (n : nat) : M st (list Z) :=
  match n with
  | O => mret []
  | S n' =>
      item ← create (Z.of_nat i) (Z.of_nat i * 10);
      id ← alloc item 0 0;
      rest ← simple_loop (S i) n';
      mret (id :: rest)
  end.
Definition found (id : Z) : M st (option (Z * Z)) :=
  p ← ask_idr (idr_find id);
  if bool_decide (p = NULL) then mret None else x ← show_item p; mret (Some x).
Definition idr_test_simple : M st simple_out :=
  with_idr DEFINE_IDR (
    ids ← simple_loop 0 10;
    es ← for_each_entry 11 0;
    a ← found 5;
    remove 5 ≫= λ _,
    b ← found 5;
    free_all ≫= λ _,
    e ← ask_idr idr_is_empty;
    mret (SimpleOut ids es a b e)).

End idr.

(** ** IDA tests *)

Section ida.
Context {A : Type} `{Ida A}.

Definition on_ida {B} (f : A → B * A) : M A B := λ a, Ret (f a).
(** ida_alloc, ida_alloc_min and ida_simple_get as ida_alloc_range. *)
Definition ida_alloc : M A Z := on_ida (ida_alloc_range 0 INT_MAX).
Definition ida_alloc_min (min : Z) : M A Z := on_ida (ida_alloc_range min INT_MAX).
Definition ida_simple_get (start end_ : Z) : M A Z := on_ida (ida_alloc_range start (last_id end_)).
Definition do_ida_free (id : Z) : M A unit := on_ida (λ a, (tt, ida_free id a)).
Definition IDA_BUG_ON (b : bool) : M A unit := if b then mfault AssertFail else mret tt.

(** One round with what rand() gives: the bitmap is a set of bits. *)
Definition random_draw (bitmap : gset Z) (i : Z) : M A (gset Z) :=
  let bit := Z.land i 2047 in
  if bool_decide (bit ∈ bitmap)
  then do_ida_free bit ≫= λ _, mret (bitmap ∖ {[bit]})
  else id ← ida_alloc_min bit;
       IDA_BUG_ON (negb (id =? bit)) ≫= λ _, mret ({[bit]} ∪ bitmap).
Fixpoint random_pass (bitmap : gset Z) (rands : list Z) : M A unit :=
  match rands with
  | [] => mret tt
  | i :: r => bitmap' ← random_draw bitmap i; random_pass bitmap' r
  end.
(** The label repeat, as often as the clock allows. *)
Definition ida_check_random (passes : list (list Z)) : M A unit :=
  mforeach passes (λ rands, random_pass ∅ rands ≫= λ _, on_ida (λ a, (tt, ida_destroy a))).

Definition ida_simple_get_remove_test : M A unit :=
  mfor 0 (Z.to_nat 10000) (λ i, r ← ida_simple_get 0 20000; IDA_BUG_ON (negb (u64 r =? Z.of_nat i))) ≫= λ _,
  r ← ida_simple_get 5 30;
  IDA_BUG_ON (negb (r <? 0)) ≫= λ _,
  mfor 0 (Z.to_nat 10000) (λ i, do_ida_free (Z.of_nat i)) ≫= λ _,
  e ← on_ida (λ a, (ida_is_empty a, a));
  IDA_BUG_ON (negb e) ≫= λ _,
  on_ida (λ a, (tt, ida_destroy a)).

(** Allocations that may not sleep. *)
Section nowait.
Variables IDA_BITMAP_BITS BITS_PER_XA_VALUE : Z.
Context `{!IdaMemory A IDA_BITMAP_BITS BITS_PER_XA_VALUE}.

Definition ida_alloc_nowait (min : Z) : M A Z :=
  a ← mget; if ida_needs a min then mret (- ENOMEM) else ida_alloc_min min.
Definition ida_is_empty_test : M A bool := on_ida (λ a, (ida_is_empty a, a)).
Definition ida_check_nomem : M A unit :=
  id ← ida_alloc_nowait 256;
  IDA_BUG_ON (negb (id =? - ENOMEM)) ≫= λ _,
  id ← ida_alloc_nowait (Z.shiftl 1 30);
  IDA_BUG_ON (negb (id =? - ENOMEM)) ≫= λ _,
  e ← ida_is_empty_test;
  IDA_BUG_ON (negb e).
(** One round of the loop of ida_check_conv_user. *)
Definition conv_user_round (i : Z) : M A unit :=
  id ← ida_alloc_nowait 0;
  id ← (if id =? - ENOMEM
        then IDA_BUG_ON (negb (i mod IDA_BITMAP_BITS =? BITS_PER_XA_VALUE) && negb (i mod IDA_BITMAP_BITS =? 0)) ≫= λ _,
             ida_alloc
        else IDA_BUG_ON (i mod IDA_BITMAP_BITS =? BITS_PER_XA_VALUE) ≫= λ _, mret id);
  IDA_BUG_ON (negb (u64 id =? i)).
Definition ida_check_conv_user : M A unit :=
  mfor 0 (Z.to_nat 1000000) (λ i, conv_user_round (Z.of_nat i)) ≫= λ _,
  on_ida (λ a, (tt, ida_destroy a)).

(** A test that declares an ida of its own. *)
Definition with_ida {B} (m : M A B) : M unit B := λ _,
  match m DEFINE_IDA with Ret (b, _) => Ret (b, tt) | Fault f => Fault f end.
Definition user_ida_checks (passes : list (list Z)) : M unit unit :=
  with_ida ida_check_nomem ≫= λ _,
  with_ida ida_check_conv_user ≫= λ _,
  with_ida (ida_check_random passes) ≫= λ _,
  with_ida ida_simple_get_remove_test.

End nowait.

(** The ids ida_test_simple prints. *)
Fixpoint ida_ids (n : nat) : M A (list Z) :=
  match n with
  | O => mret []
  | S n' => id ← ida_alloc; rest ← ida_ids n'; mret (id :: rest)
  end.
Definition ida_test_simple : M A (list Z * list Z) :=
  a ← ida_ids 10;
  do_ida_free 3 ≫= λ _,
  do_ida_free 5 ≫= λ _,
  b ← ida_ids 5;
  on_ida (λ a, (tt, ida_destroy a)) ≫= λ _,
  mret (a, b).

End ida.

(** ** main *)

Section main.
Context {I T A : Type} `{Idr I} `{Items T} `{Ida A}.

(** The two small tests; the return behind them makes the rest of main, with
    idr_checks and ida_tests, unreachable. *)
Definition main : M (tst I T) ((list Z * list Z) * simple_out) := λ s,
  match ida_test_simple (DEFINE_IDA : A) with
  | Ret (x, _) => (y ← idr_test_simple; mret (x, y)) s
  | Fault f => Fault f
  end.

End main.
