(* ===== verification/IdrTestThms.v ===== *)
(** What the tests of idr-test.c show of any implementation of [Idr] and [Ida]:
    no assertion fails and no item is lost.

    Two ways to the results.  The tests without items are run on the reference
    implementation [simple_idr]; the laws leave an implementation no choice, so
    a simulation carries the run over ([sim]).  The tests with items, whose
    addresses are the allocator's choice, are proved with an invariant that ties
    every id to an item with that index ([held]). *)
From Stdlib Require Import ZArith Lia.
From stdpp Require Import base list gmap relations.
From S2P Require Import Prelude Kernel Idr IdrTest.

#[local] Existing Instance simple_idr_ok.
#[local] Existing Instance simple_items.
#[local] Existing Instance simple_ida.
#[local] Arguments Z.to_nat : simpl never.
#[local] Arguments Z.of_nat : simpl never.

(** ** Simulation by the reference implementation *)

Section sim.
Context {I T : Type} `{Idr I} `{Items T}.
Abbreviation st := (tst I T).
Abbreviation st0 := (tst simple_idr (gmap loc Z)).

(** Equal contents; the items of the program are [t], those of the reference
    [t0]. *)
Definition same_idr (i : I) (i0 : simple_idr) : Prop :=
  idr_map i = si_map i0 ∧ idr_base i = si_base i0 ∧ idr_next i = si_next i0.
Definition same (t : T) (t0 : gmap loc Z) (s : st) (s0 : st0) : Prop :=
  same_idr (t_idr s) (t_idr s0) ∧ t_items s = t ∧ t_items s0 = t0.

Definition sim {A} (m : M st A) (m0 : M st0 A) : Prop := ∀ t t0 s s0, same t t0 s s0 →
  match m s, m0 s0 with
  | Ret (a, s'), Ret (a0, s0') => a = a0 ∧ same t t0 s' s0'
  | Fault f, Fault f0 => f = f0
  | _, _ => False
  end.

Lemma sim_ret {A} (a : A) : sim (mret a) (mret a).
Proof. by intros t t0 s s0 R. Qed.
Lemma sim_bind {A B} (m : M st A) m0 (k : A → M st B) k0 :
  sim m m0 → (∀ a, sim (k a) (k0 a)) → sim (m ≫= k) (m0 ≫= k0).
Proof.
  intros Hm Hk t t0 s s0 R. specialize (Hm t t0 s s0 R). unfold mbind, M_bind.
  destruct (m s) as [[a s']|f], (m0 s0) as [[a0 s0']|f0]; try done. destruct Hm as [-> R']. by apply Hk.
Qed.
Lemma sim_mfor i n (b : nat → M st unit) b0 : (∀ k, sim (b k) (b0 k)) → sim (mfor i n b) (mfor i n b0).
Proof.
  intros Hb. revert i. induction n as [|n IH]; intros i; cbn [mfor]; [apply sim_ret|].
  apply sim_bind; [apply Hb|]. intros _. apply IH.
Qed.
Lemma sim_assert b : sim (assert b) (assert b).
Proof. intros t t0 s s0 R. by destruct b. Qed.
Lemma sim_ask {A} (f : I → A) f0 : (∀ i i0, same_idr i i0 → f i = f0 i0) → sim (ask_idr f) (ask_idr f0).
Proof. intros Hf t t0 s s0 R. simpl. split; [apply Hf, R|done]. Qed.
Lemma sim_on {A} (f : I → A * I) f0 :
  (∀ i i0, same_idr i i0 → (f i).1 = (f0 i0).1 ∧ same_idr (f i).2 (f0 i0).2) → sim (on_idr f) (on_idr f0).
Proof.
  intros Hf t t0 [i x] [i0 x0] [R [E E0]]. unfold on_idr. simpl in *. destruct (Hf i i0 R) as [E1 R1].
  destruct (f i), (f0 i0). by subst.
Qed.

Lemma sim_destroy : sim destroy destroy.
Proof.
  apply sim_on. intros i i0 (E1 & E2 & E3). split; [done|]. destruct (destroy_law i) as (A1 & A2 & A3).
  split_and!; simpl; congruence.
Qed.
Lemma sim_remove id : sim (remove id) (remove id).
Proof.
  apply sim_on. intros i i0 (E1 & E2 & E3). destruct (idr_remove id i) as [p i'] eqn:E.
  apply remove_law in E as (-> & A1 & A2 & A3). simpl. rewrite E1.
  split; [done|]. split_and!; simpl; congruence.
Qed.
Lemma sim_replace p id : sim (replace p id) (replace p id).
Proof.
  apply sim_on. intros i i0 (E1 & E2 & E3). destruct (idr_replace p id i) as [q i'] eqn:E.
  apply replace_law in E as (A1 & A2 & A3). rewrite E1 in A3. simpl.
  destruct (si_map i0 !! id); destruct A3 as [-> A3]; (split; [done|]; split_and!; simpl; congruence).
Qed.
Lemma sim_find id : sim (ask_idr (idr_find id)) (ask_idr (idr_find id)).
Proof. apply sim_ask. intros i i0 (E1 & _). by rewrite find_law, E1. Qed.
Lemma sim_is_empty : sim (ask_idr idr_is_empty) (ask_idr idr_is_empty).
Proof. apply sim_ask. intros i i0 (E1 & _). by rewrite is_empty_law, E1. Qed.

Lemma sim_alloc p start end_ : 0 <= start → sim (alloc p start end_) (alloc p start end_).
Proof.
  intros Hst. apply sim_on. intros i i0 (E1 & E2 & E3). destruct (idr_alloc p start end_ i) as [r i'] eqn:E.
  apply alloc_law in E as (A2 & A3 & A1); [|done]. simpl. unfold si_alloc. rewrite <- E1, <- E2.
  pose proof (search_spec (idr_map i) (Z.max start (idr_base i)) (last_id end_)) as Hs.
  destruct (search _ _ _) as [k|] eqn:Es; destruct A1 as [[L A1]|(-> & F & A1)].
  - rewrite (least_free_unique _ _ _ _ _ _ L Hs) in *. split; [done|]. split_and!; simpl; congruence.
  - by destruct (least_free_not_full _ _ _ _ Hs F).
  - by destruct (least_free_not_full _ _ _ _ L Hs).
  - split; [done|]. split_and!; simpl; congruence.
Qed.

Lemma same_init b : same_idr (idr_init_base b) (SIdr ∅ b 0).
Proof. exact (init_base_law b). Qed.
Lemma same_define : same_idr DEFINE_IDR (SIdr ∅ 0 0).
Proof. exact define_idr_law. Qed.

Lemma sim_with {A} i i0 (m : M st A) m0 : same_idr i i0 → sim m m0 → sim (with_idr i m) (with_idr i0 m0).
Proof.
  intros R Hm t t0 s s0 (Rs & E & E0). unfold with_idr.
  assert (R1 : same t t0 (Tst i (t_items s)) (Tst i0 (t_items s0))) by done. specialize (Hm _ _ _ _ R1).
  destruct (m (Tst i (t_items s))) as [[a s']|f], (m0 (Tst i0 (t_items s0))) as [[a0 s0']|f0]; try done.
  by destruct Hm as [? (? & ? & ?)].
Qed.

(** A program that uses the idr only runs as it does on the reference. *)
Definition ref_idr (i : I) : simple_idr := SIdr (idr_map i) (idr_base i) (idr_next i).
Lemma sim_run (m : M st unit) (m0 : M st0 unit) s : sim m m0 →
  (∃ s0', m0 (Tst (ref_idr (t_idr s)) ∅) = Ret (tt, s0')) → wp m s (λ _ s', t_items s' = t_items s).
Proof.
  intros Hm [s0' E]. specialize (Hm (t_items s) ∅ s (Tst (ref_idr (t_idr s)) ∅)).
  rewrite E in Hm. unfold wp. destruct (m s) as [[a s']|f]; [|by apply Hm].
  by destruct Hm as [_ (_ & -> & _)].
Qed.

(** The outer idr comes back. *)
Lemma with_idr_wp {A} i (m : M st A) s (Q : A → T → Prop) :
  wp m (Tst i (t_items s)) (λ a s', Q a (t_items s')) →
  wp (with_idr i m) s (λ a s', t_idr s' = t_idr s ∧ Q a (t_items s')).
Proof. unfold wp, with_idr. by destruct (m (Tst i (t_items s))) as [[a s']|f]. Qed.

End sim.

Create HintDb sim.
#[local] Hint Resolve sim_ret sim_bind sim_mfor sim_assert sim_destroy sim_remove sim_replace sim_find
  sim_is_empty : sim.
#[local] Hint Extern 1 (sim (alloc _ _ _) _) => apply sim_alloc; lia : sim.
Ltac sim_solve := repeat match goal with
  | |- sim (_ ≫= _) _ => apply sim_bind; [|intros ?]
  | |- sim (with_idr _ _) _ => apply sim_with; [apply same_define || apply same_init|]
  | |- sim (mfor _ _ _) _ => apply sim_mfor; intros ?
  | |- sim _ _ => solve [eauto with sim]
  end.

Section idr_only.
Context {I T : Type} `{Idr I} `{Items T}.
Abbreviation st := (tst I T).
Implicit Types s : st.



Lemma idr_replace_test_wp s : wp idr_replace_test s (λ _ s', t_items s' = t_items s).
Proof. apply (sim_run _ idr_replace_test); [unfold idr_replace_test; sim_solve|eexists; by vm_compute]. Qed.

Lemma idr_null_test_wp s : wp idr_null_test s (λ _ s', t_items s' = t_items s).
Proof.
  apply (sim_run _ idr_null_test); [|eexists; by vm_compute].
  unfold idr_null_test, empty_is, alloc_is, replace_is. sim_solve.
Qed.

Lemma idr_align_test_wp s : idr_map (t_idr s) = ∅ → idr_base (t_idr s) = 0 →
  wp idr_align_test s (λ _ s', t_items s' = t_items s).
Proof.
  intros E Eb. apply (sim_run _ idr_align_test).
  - unfold idr_align_test, align_fill, align_pair, align_null_first, align_null_second, bug_unless, BUG_ON. sim_solve.
  - unfold ref_idr. rewrite E, Eb. eexists. by vm_compute.
Qed.

Lemma on_idr_wp {A} (f : I → A * I) s (Q : A → st → Prop) :
  (∀ a i, f (t_idr s) = (a, i) → Q a (Tst i (t_items s))) → wp (on_idr f) s Q.
Proof. unfold wp, on_idr. destruct (f (t_idr s)) as [a i]. auto. Qed.
Lemma assert_wp b s (Q : unit → st → Prop) : b = true → Q tt s → wp (assert b) s Q.
Proof. by intros ->. Qed.
Lemma BUG_ON_wp b s (Q : unit → st → Prop) : b = false → Q tt s → wp (BUG_ON b) s Q.
Proof. by intros ->. Qed.
Lemma mforeach_wp {A} (P : st → Prop) (l : list A) (b : A → M st unit) s : P s →
  (∀ x s', x ∈ l → P s' → wp (b x) s' (λ _, P)) → wp (mforeach l b) s (λ _, P).
Proof.
  revert s. induction l as [|x l IH]; intros s HP Hb; simpl; [by apply wp_ret|]. apply wp_bind.
  eapply wp_mono; [|apply Hb; [apply list_elem_of_here|done]]. intros ? s' HP'. apply IH; [done|].
  intros y s'' Hy. by apply Hb, list_elem_of_further.
Qed.

(** What one call of idr_u32_test1 leaves. *)
Definition unused (b : Z) (t : T) s : Prop :=
  idr_map (t_idr s) = ∅ ∧ idr_base (t_idr s) = b ∧ t_items s = t.

Lemma idr_u32_test1_wp s b t h : unused b t s → 0 <= b <= h → h < 4294967296 →
  wp (idr_u32_test1 h) s (λ _, unused b t).
Proof.
  intros (E & Eb & Et) Hb Hh. unfold idr_u32_test1. wp_step. apply on_idr_wp. intros [e id] i1 Ea.
  apply alloc_u32_law in Ea as (B1 & _ & D). rewrite Eb, Z.max_l, E in D by lia.
  destruct D as [(-> & (Hid & _) & M1)|(_ & _ & F & _)].
  2: { destruct (F h) as [? Ex]; [lia|]. by rewrite lookup_empty in Ex. }
  assert (id = h) as -> by lia. rewrite insert_empty in M1.
  wp_step. apply BUG_ON_wp; [done|]. wp_step. apply BUG_ON_wp; [by rewrite Z.eqb_refl|].
  wp_step. apply on_idr_wp. simpl t_idr. intros [e id] i2 Ea.
  apply alloc_u32_law in Ea as (B2 & _ & D). rewrite B1, Eb, Z.max_l, M1 in D by lia.
  destruct D as [(_ & (Hi2 & N & _) & _)|(-> & -> & _ & M2)].
  { assert (id = h) as -> by lia. by rewrite lookup_singleton_eq in N. }
  wp_step. apply BUG_ON_wp; [done|]. wp_step. apply BUG_ON_wp; [by rewrite Z.eqb_refl|].
  assert (NN : map_Forall (λ _ q, q ≠ NULL) (idr_map i2)) by (rewrite M2; by apply map_Forall_singleton).
  wp_step. unfold wp at 1, ask_idr. simpl t_idr.
  destruct (idr_get_next 0 i2) as [p sid] eqn:Eg.
  wp_step. apply (wp_mono _ _ (λ _ s', s' = Tst i2 (t_items s))).
  2: { destruct (Z.ltb_spec INT_MAX h) as [L|L].
       - rewrite get_next_none_law in Eg; [|done|]. 2: { intros j Hj. rewrite M2, lookup_singleton_ne; [done|lia]. }
         injection Eg as <- <-. wp_step. by do 2 (apply BUG_ON_wp; [done|]).
       - rewrite (get_next_some_law 0 i2 h DUMMY_PTR) in Eg; [|done|lia|by rewrite M2, lookup_singleton_eq|].
         2: { intros j Hj. rewrite M2, lookup_singleton_ne; [done|lia]. }
         injection Eg as <- <-. wp_step. apply BUG_ON_wp; [done|]. apply BUG_ON_wp; [|done].
         rewrite u32_id by lia. by rewrite Z.eqb_refl. }
  intros ? s2 ->. wp_step. eapply wp_mono; [|apply (mforeach_wp (λ s', s' = Tst i2 (t_items s)) (idr_entries i2)); [done|]]; simpl.
  2: { intros [k q] ? Hq ->. apply (proj2 (entries_law i2 NN)) in Hq as [Hq _].
       rewrite M2 in Hq. apply lookup_singleton_Some in Hq as [<- <-]. simpl. unfold idr_u32_cb. wp_step.
       apply BUG_ON_wp; [apply Z.ltb_ge; lia|]. by apply BUG_ON_wp. }
  intros ? s3 ->. wp_step. apply on_idr_wp. simpl t_idr. intros q i3 Er.
  apply remove_law in Er as (-> & M3 & B3 & _). rewrite M2 in M3. rewrite delete_singleton_eq in M3.
  rewrite M2, lookup_singleton_eq. wp_step. apply BUG_ON_wp; [done|]. wp_step.
  unfold wp at 1, ask_idr. simpl. rewrite is_empty_law, M3. simpl. apply BUG_ON_wp; [done|].
  split_and!; simpl; congruence.
Qed.

Lemma idr_u32_test_wp b s : 0 <= b <= 10 → wp (idr_u32_test b) s (λ _ s', t_items s' = t_items s).
Proof.
  intros Hb. eapply wp_mono; [|apply (with_idr_wp _ _ s (λ _ t, t = t_items s))]; [by intros ? s' [_ ?]|].
  destruct (init_base_law b) as (E1 & E2 & _). eapply wp_mono; [|apply (mforeach_wp (unused b (t_items s)))].
  - by intros ? s' (_ & _ & ->).
  - by split_and!.
  - intros h s' Hh Hs. apply idr_u32_test1_wp; [done|..]; clear -Hb Hh; set_unfold; destruct_or?; simplify_eq; lia.
Qed.

End idr_only.

(** ** Items *)

Section held.
Context {I T : Type} `{Idr I} `{Items T}.
Abbreviation st := (tst I T).
Implicit Types s : st.

(** The idr holds the items of [m], every item under its index, and beside the
    items of [t0] no other is allocated; base and cursor are [b] and [c]. *)
Record held (t0 : gmap loc Z) (m : gmap Z loc) (b c : Z) s : Prop := Held {
  h_map : idr_map (t_idr s) = Item <$> m;
  h_items : ∀ l z, items (t_items s) !! l = Some z ↔ t0 !! l = Some z ∨ m !! z = Some l;
  h_fresh : ∀ z l, m !! z = Some l → t0 !! l = None;
  h_base : idr_base (t_idr s) = b;
  h_next : idr_next (t_idr s) = c
}.

(** An item that was created and has no id yet. *)
Record held_new (t0 : gmap loc Z) (m : gmap Z loc) (b c : Z) (l : loc) (x : Z) s : Prop := HeldNew {
  n_map : idr_map (t_idr s) = Item <$> m;
  n_items : ∀ l' z, items (t_items s) !! l' = Some z ↔ (t0 !! l' = Some z ∨ m !! z = Some l') ∨ (l' = l ∧ z = x);
  n_fresh : ∀ z l', m !! z = Some l' → t0 !! l' = None;
  n_new : t0 !! l = None;
  n_base : idr_base (t_idr s) = b;
  n_next : idr_next (t_idr s) = c
}.

Lemma held_start t0 s : items (t_items s) = t0 → idr_map (t_idr s) = ∅ →
  held t0 ∅ (idr_base (t_idr s)) (idr_next (t_idr s)) s.
Proof.
  intros E M1. split; try done. intros l z. rewrite lookup_empty, E. naive_solver.
Qed.

Lemma held_nonnull t0 m b c s : held t0 m b c s → map_Forall (λ _ q, q ≠ NULL) (idr_map (t_idr s)).
Proof.
  intros Hh z p. rewrite (h_map _ _ _ _ _ Hh), lookup_fmap. by intros (l & _ & ->)%fmap_Some.
Qed.

Lemma create_wp t0 m b c x o s : held t0 m b c s →
  wp (create x o) s (λ p s', ∃ l, p = Item l ∧ held_new t0 m b c l x s').
Proof.
  intros Hh. unfold wp, create. destruct (item_create x o (t_items s)) as [l t] eqn:E.
  apply item_create_law in E as [N E]. exists l. split; [done|]. destruct Hh as [Hm Hi Hf Hb Hc].
  split; try done; simpl.
  - intros l' z. rewrite E. destruct (decide (l' = l)) as [->|Nl].
    + rewrite lookup_insert_eq. split; [intros [= ->]; by right|].
      intros [Ho|[_ ->]]; [|done]. apply Hi in Ho. congruence.
    + rewrite lookup_insert_ne by done. rewrite Hi. naive_solver.
  - destruct (t0 !! l) as [z|] eqn:E0; [|done]. assert (items (t_items s) !! l = Some z) by (apply Hi; by left). congruence.
Qed.

(** The new item gets the id that is its index. *)
Lemma held_add t0 m b c c' l x s i : held_new t0 m b c l x s → m !! x = None →
  idr_map i = <[x := Item l]> (idr_map (t_idr s)) → idr_base i = b → idr_next i = c' →
  held t0 (<[x := l]> m) b c' (Tst i (t_items s)).
Proof.
  intros [Hm Hi Hf Hn Hb Hc] Nx Ei Eb Ec. split; try done; simpl.
  - by rewrite Ei, Hm, fmap_insert.
  - intros l' z. rewrite Hi. destruct (decide (z = x)) as [->|Nz].
    + rewrite lookup_insert_eq, Nx. naive_solver.
    + rewrite lookup_insert_ne by done. naive_solver.
  - intros z l' Hz. apply lookup_insert_Some in Hz as [[<- <-]|[_ Hz]]; eauto.
Qed.

Lemma item_index_new t0 m b c l x s : held_new t0 m b c l x s →
  wp (item_index (Item l)) s (λ v s', v = x ∧ s' = s).
Proof.
  intros Hh. unfold wp, item_index.
  assert (E : items (t_items s) !! l = Some x) by (apply (n_items _ _ _ _ _ _ _ Hh); by right). by rewrite E.
Qed.
Lemma item_index_wp l x s : items (t_items s) !! l = Some x → wp (item_index (Item l)) s (λ v s', v = x ∧ s' = s).
Proof. intros E. unfold wp, item_index. by rewrite E. Qed.

Lemma alloc_new_wp t0 m b c l x s start end_ : held_new t0 m b c l x s → 0 <= start →
  least_free m (Z.max start b) (last_id end_) x →
  wp (alloc (Item l) start end_) s (λ r, λ s', r = x ∧ held t0 (<[x := l]> m) b c s').
Proof.
  intros Hh Hs L. apply on_idr_wp. intros r i E. apply alloc_law in E as (Eb & Ec & D); [|done].
  pose proof Hh as [Hm _ _ _ Hb Hc]. rewrite Hb, Hm in D.
  destruct D as [[L' M1]|(_ & F & _)]; [|by destruct (least_free_not_full _ _ _ _ (least_free_fmap Item _ _ _ _ L) F)].
  pose proof (least_free_unique _ _ _ _ _ _ L' (least_free_fmap Item _ _ _ _ L)) as ->. split; [done|].
  apply (held_add t0 m b c); try congruence. by destruct L as (_ & ? & _).
Qed.

Lemma cyclic_new_wp t0 m b c l x s start end_ : held_new t0 m b c l x s → 0 <= start →
  let from := if s32 c <? start then start else c in start <= from →
  (least_free m (Z.max from b) (last_id end_) x ∨
   (full m (Z.max from b) (last_id end_) ∧ least_free m (Z.max start b) (last_id end_) x)) →
  wp (alloc_cyclic (Item l) start end_) s (λ r, λ s', r = x ∧ held t0 (<[x := l]> m) b (x + 1) s').
Proof.
  intros Hh Hs from Hfrom L. apply on_idr_wp. intros r i E. apply alloc_cyclic_law in E as (Eb & D); [|done].
  pose proof Hh as [Hm _ _ _ Hb Hc]. rewrite Hb, Hm, Hc in D. fold from in D.
  assert (Nx : m !! x = None) by (destruct L as [(_ & ? & _)|(_ & _ & ? & _)]; done).
  assert (LF := least_free_fmap Item m). assert (FF := full_fmap Item m).
  destruct D as [(D & M1 & Ec)|(_ & F & _)].
  - assert (r = x) as ->.
    { destruct L as [L|[F L]], D as [D|[F' D]].
      - by eapply least_free_unique; [exact D|apply LF].
      - by destruct (least_free_not_full _ _ _ _ (LF _ _ _ L) F').
      - by destruct (least_free_not_full _ _ _ _ D (FF _ _ F)).
      - by eapply least_free_unique; [exact D|apply LF]. }
    split; [done|]. apply (held_add t0 m b c); try congruence.
  - exfalso. destruct L as [L|[_ L]]; [|by destruct (least_free_not_full _ _ _ _ (LF _ _ _ L) F)].
    apply (least_free_not_full _ _ _ _ (LF _ _ _ L)). intros j Hj. apply F.
    lia.
Qed.

(** The freeing callback over all entries, then idr_destroy. *)
Lemma item_idr_free_wp z l s : items (t_items s) !! l = Some z → 0 <= z <= INT_MAX →
  wp (item_idr_free z (Item l)) s (λ _ s', t_idr s' = t_idr s ∧ items (t_items s') = delete l (items (t_items s))).
Proof.
  intros E Hz. unfold item_idr_free. wp_step. eapply wp_mono; [|by apply item_index_wp].
  intros ? ? [-> ->]. wp_step. rewrite u64_id by (unfold INT_MAX in *; lia).
  apply assert_wp; [apply Z.eqb_refl|]. unfold wp, free. rewrite bool_decide_eq_true_2 by (rewrite E; eauto).
  simpl. by rewrite item_free_law.
Qed.

Lemma free_entries_wp t0 (m : gmap Z loc) es s : NoDup es.*1 →
  (∀ z p, (z, p) ∈ es → 0 <= z <= INT_MAX ∧ ∃ l, p = Item l ∧ m !! z = Some l) →
  (∀ z l, m !! z = Some l → t0 !! l = None) →
  (∀ l z, items (t_items s) !! l = Some z ↔ t0 !! l = Some z ∨ (m !! z = Some l ∧ z ∈ es.*1)) →
  wp (mforeach es (λ e, item_idr_free e.1 e.2)) s (λ _ s', t_idr s' = t_idr s ∧ items (t_items s') = t0).
Proof.
  intros ND Hes Hf. revert s. induction es as [|[z p] es IH]; intros s Hi; simpl.
  { wp_step. split; [done|]. apply map_eq. intros l. apply option_eq. intros z. rewrite Hi.
    split; [intros [?|[_ Hx]]; [done|by apply elem_of_nil in Hx]|by left]. }
  simpl in ND. apply NoDup_cons in ND as [Nz ND].
  destruct (Hes z p) as (Hz & l & -> & Hl); [apply list_elem_of_here|].
  assert (E : items (t_items s) !! l = Some z).
  { apply Hi. right. split; [done|]. apply list_elem_of_here. }
  wp_step. eapply wp_mono; [|by apply item_idr_free_wp]. intros ? s1 [E1 E2].
  eapply wp_mono; [|apply IH]; [|done|by intros z' p' Hzp; apply Hes, list_elem_of_further|].
  { intros ? s2 [-> ?]. done. }
  intros l' z'. rewrite E2. destruct (decide (l' = l)) as [->|Nl].
  - rewrite lookup_delete_eq. split; [done|]. intros [Ho|[Hm Hz']].
    + by rewrite (Hf z l Hl) in Ho.
    + assert (items (t_items s) !! l = Some z') by (apply Hi; right; split; [done|by apply list_elem_of_further]).
      assert (z' = z) as -> by congruence. done.
  - rewrite lookup_delete_ne by done. rewrite Hi. simpl. rewrite elem_of_cons. split; [|naive_solver].
    intros [?|[Hm [->|?]]]; [by left|congruence|by right].
Qed.

Lemma free_all_wp t0 m b c s : held t0 m b c s → (∀ z, is_Some (m !! z) → 0 <= z <= INT_MAX) →
  wp free_all s (λ _, held t0 ∅ b c).
Proof.
  intros Hh Hz. unfold free_all, idr_for_each. wp_step. wp_step.
  unfold wp at 1, ask_idr. destruct (entries_law (t_idr s) (held_nonnull _ _ _ _ _ Hh)) as [ND Hes].
  pose proof Hh as [Hm Hi Hf Hb Hc]. rewrite Hm in Hes.
  assert (Hes' : ∀ z p, (z, p) ∈ idr_entries (t_idr s) ↔ ∃ l, p = Item l ∧ m !! z = Some l).
  { intros z p. rewrite Hes, lookup_fmap, fmap_Some. split.
    - intros [(l & ? & ->) _]. eauto.
    - intros (l & -> & El). split; [eauto|]. by apply Hz. }
  eapply wp_mono; [|apply (free_entries_wp t0 m)]; [|done|..|done|].
  - intros ? s1 [E1 E2]. apply on_idr_wp. intros ? i [= _ <-]. rewrite E1.
    destruct (destroy_law (t_idr s)) as (D1 & D2 & D3). rewrite <- Hb, <- Hc, <- D2, <- D3.
    by apply (held_start t0 (Tst (idr_destroy (t_idr s)) (t_items s1))).
  - intros z p Hzp. apply Hes' in Hzp as (l & -> & El). split; [apply Hz; eauto|eauto].
  - intros l z. rewrite Hi. split; [|naive_solver]. intros [?|El]; [by left|right]. split; [done|].
    apply list_elem_of_fmap. exists (z, Item l). split; [done|]. apply Hes'. eauto.
Qed.

(** item_idr_remove of an id that is there. *)
Lemma item_idr_remove_wp t0 m b c z l s : held t0 m b c s → m !! z = Some l → 0 <= z <= INT_MAX →
  wp (item_idr_remove z) s (λ _, held t0 (delete z m) b c).
Proof.
  intros Hh El Hz. pose proof Hh as [Hm Hi Hf Hb Hc]. unfold item_idr_remove. wp_step.
  unfold wp at 1, ask_idr. rewrite find_law, Hm, lookup_fmap, El. simpl. wp_step.
  assert (E : items (t_items s) !! l = Some z) by (apply Hi; by right).
  eapply wp_mono; [|by apply item_index_wp]. intros ? ? [-> ->]. wp_step.
  rewrite u64_id by (unfold INT_MAX in *; lia). apply assert_wp; [apply Z.eqb_refl|].
  wp_step. apply on_idr_wp. intros p i Er. apply remove_law in Er as (_ & M1 & B1 & C1).
  unfold wp, free. simpl. rewrite bool_decide_eq_true_2 by (rewrite E; eauto). split; simpl; try congruence.
  - by rewrite M1, Hm, fmap_delete.
  - intros l' z'. rewrite item_free_law. destruct (decide (l' = l)) as [->|Nl].
    + rewrite lookup_delete_eq. split; [done|]. intros [Ho|Ho]; [by rewrite (Hf z l El) in Ho|].
      apply lookup_delete_Some in Ho as [Nz Ho].
      assert (items (t_items s) !! l = Some z') by (apply Hi; by right). congruence.
    + rewrite lookup_delete_ne by done. rewrite Hi, lookup_delete_Some. split; [|naive_solver].
      intros [?|Ho]; [by left|right]. split; [|done]. intros <-. congruence.
  - intros z' l' Ho. apply lookup_delete_Some in Ho as [_ Ho]. eauto.
Qed.

Definition range_dom (m : gmap Z loc) (lo hi : Z) : Prop := ∀ z, is_Some (m !! z) ↔ lo <= z < hi.

Lemma not_is_Some {V} (m : gmap Z V) z : ¬ is_Some (m !! z) → m !! z = None.
Proof. by rewrite <- eq_None_not_Some. Qed.

(** Items under [i0 .. i0 + n - 1], when the range of every allocation begins in
    the part that is taken. *)
Lemma alloc_items_wp t0 c i0 n range s : held t0 ∅ 0 c s → 0 <= i0 →
  (∀ k, 0 <= k < Z.of_nat n → let i := i0 + k in
     i0 <= (range i).1 <= i ∧ i <= last_id (range i).2) → i0 + Z.of_nat n <= 2147483648 →
  wp (alloc_items i0 n range) s (λ _ s', ∃ m, held t0 m 0 c s' ∧ range_dom m i0 (i0 + Z.of_nat n)).
Proof.
  intros Hh H0' Hr Hn. unfold alloc_items.
  apply (mfor_wp (λ k s', ∃ m, held t0 m 0 c s' ∧ range_dom m i0 (i0 + Z.of_nat k)) 0 n).
  - exists ∅. split; [done|]. intros z. rewrite lookup_empty. split; [by intros [? [=]]|lia].
  - intros k s' Hk (m & Hm & D). cbv zeta. destruct (Hr (Z.of_nat k)) as [R1 R2]; [lia|]. set (i := i0 + Z.of_nat k) in *.
    wp_step. eapply wp_mono; [|by apply create_wp]. intros ? s1 (l & -> & Hl).
    wp_step. eapply wp_mono; [|apply (alloc_new_wp t0 m 0 c l i s1)]; [|done|lia|].
    2: { split; [lia|]. split; [apply not_is_Some; rewrite (D i); lia|]. intros j Hj. apply D. lia. }
    intros ? s2 [-> Hs2]. apply assert_wp; [rewrite u64_id by lia; apply Z.eqb_refl|].
    exists (<[i := l]> m). split; [done|]. intros z. destruct (decide (z = i)) as [->|Nz].
    + rewrite lookup_insert_eq. split; [lia|eauto].
    + rewrite lookup_insert_ne by done. rewrite (D z). lia.
Qed.

(** The cyclic loops: from [base0] up to [top], then from [start] on. *)
Section cyclic.
Variables (t0 : gmap loc Z) (base0 top start end_ : Z).
Definition cyc_index (k : Z) : Z := if base0 + k <=? top then base0 + k else start + (base0 + k - top - 1).
Definition cyc_cursor (k : Z) : Z := if base0 + k <=? top + 1 then base0 + k else start + (base0 + k - top - 1).
Definition cyc_dom (m : gmap Z loc) (k : Z) : Prop := ∀ z, is_Some (m !! z) ↔
  base0 <= z <= top ∧ z < base0 + k ∨ start <= z < start + (base0 + k - top - 1).
Definition cyc_inv (k : nat) s : Prop := ∃ m, held t0 m 0 (cyc_cursor (Z.of_nat k)) s ∧ cyc_dom m (Z.of_nat k).

Lemma cyc_step k s f : 0 <= start → start < base0 <= top → top <= INT_MAX → last_id end_ = top →
  start + (base0 + Z.of_nat k - top - 1) < base0 → f (cyc_index (Z.of_nat k)) = cyc_index (Z.of_nat k) →
  cyc_inv k s →
  wp (item ← create (cyc_index (Z.of_nat k)) 0; id ← alloc_cyclic item start end_;
      x ← item_index item; assert (f id =? x)) s (λ _, cyc_inv (S k)).
Proof.
  intros Hs Hb Ht He Hk Hf (m & Hm & D). set (kz := Z.of_nat k) in *. set (x := cyc_index kz) in *.
  wp_step. eapply wp_mono; [|by apply create_wp]. intros ? s1 (l & -> & Hl). wp_step.
  assert (Nx : m !! x = None).
  { apply not_is_Some. rewrite (D x). unfold x, cyc_index. destruct (Z.leb_spec (base0 + kz) top); lia. }
  set (from := if s32 (cyc_cursor kz) <? start then start else cyc_cursor kz).
  assert (Hfrom : if base0 + kz <=? top then from = base0 + kz else
            if base0 + kz =? top + 1 then from = start ∨ from = top + 1 else from = x).
  { unfold from, x, cyc_index, cyc_cursor, INT_MAX in *. destruct (Z.leb_spec (base0 + kz) top).
    - rewrite (proj2 (Z.leb_le (base0 + kz) (top + 1))) by lia. rewrite s32_id by (unfold INT_MAX; lia).
      by rewrite (proj2 (Z.ltb_ge (base0 + kz) start)) by lia.
    - destruct (Z.eqb_spec (base0 + kz) (top + 1)) as [E|N].
      + rewrite (proj2 (Z.leb_le (base0 + kz) (top + 1))) by lia. destruct (s32 (base0 + kz) <? start); [left; reflexivity|right; lia].
      + rewrite (proj2 (Z.leb_gt (base0 + kz) (top + 1))) by lia. rewrite s32_id by (unfold INT_MAX; lia).
        by rewrite (proj2 (Z.ltb_ge _ start)) by lia. }
  eapply wp_mono; [|apply (cyclic_new_wp t0 m 0 _ l x s1 start end_ Hl Hs); fold from; rewrite ?He].
  - intros r s2 [-> Hs2]. wp_step.
    assert (Ei : items (t_items s2) !! l = Some x).
    { apply (h_items _ _ _ _ _ Hs2). right. by rewrite lookup_insert_eq. }
    eapply wp_mono; [|by apply item_index_wp]. intros ? ? [-> ->]. apply assert_wp; [rewrite Hf; apply Z.eqb_refl|].
    exists (<[x := l]> m). split.
    + replace (cyc_cursor (Z.of_nat (S k))) with (x + 1); [done|]. unfold x, cyc_index, cyc_cursor.
      replace (Z.of_nat (S k)) with (kz + 1) by lia. destruct (Z.leb_spec (base0 + kz) top), (Z.leb_spec (base0 + (kz + 1)) (top + 1)); lia.
    + replace (Z.of_nat (S k)) with (kz + 1) by lia. intros z. destruct (decide (z = x)) as [->|Nz].
      * rewrite lookup_insert_eq. split; [intros _|eauto]. unfold x, cyc_index. destruct (Z.leb_spec (base0 + kz) top); lia.
      * rewrite lookup_insert_ne by done. rewrite (D z). unfold x, cyc_index in Nz.
        destruct (Z.leb_spec (base0 + kz) top); lia.
  - unfold x, cyc_index in Hfrom. destruct (Z.leb_spec (base0 + kz) top); [lia|].
    destruct (Z.eqb_spec (base0 + kz) (top + 1)); lia.
  - unfold x, cyc_index in Hfrom |- *. destruct (Z.leb_spec (base0 + kz) top).
    + left. rewrite Hfrom. split; [lia|]. split; [unfold x, cyc_index in Nx; by rewrite (proj2 (Z.leb_le _ _)) in Nx by lia|].
      intros j Hj. apply D. lia.
    + assert (LF : least_free m (Z.max start 0) top (start + (base0 + kz - top - 1))).
      { split; [lia|]. split; [unfold x, cyc_index in Nx; by rewrite (proj2 (Z.leb_gt _ _)) in Nx by lia|].
        intros j Hj. apply D. lia. }
      destruct (Z.eqb_spec (base0 + kz) (top + 1)) as [E|N].
      * destruct Hfrom as [-> | ->]; [by left|]. right. split; [|done]. intros j Hj. lia.
      * left. rewrite Hfrom. split; [lia|]. split; [apply LF|]. intros j Hj. lia.
Qed.
End cyclic.


(** *** Contents other than items *)

(** The ids in use are those of [D]; no item beside [t0]. *)
Definition plain (t0 : gmap loc Z) (c : Z) (D : Z → Prop) s : Prop :=
  items (t_items s) = t0 ∧ idr_base (t_idr s) = 0 ∧ idr_next (t_idr s) = c ∧
  ∀ z, is_Some (idr_map (t_idr s) !! z) ↔ D z.

Lemma held_plain t0 c s : held t0 ∅ 0 c s ↔ plain t0 c (λ _, False) s.
Proof.
  split.
  - intros [Hm Hi Hf Hb Hc]. split_and!; try done.
    + apply map_eq. intros l. apply option_eq. intros z. rewrite Hi, lookup_empty. naive_solver.
    + intros z. rewrite Hm, lookup_fmap, lookup_empty. split; [by intros [? [=]]|done].
  - intros (E & Eb & Ec & D). rewrite <- Eb, <- Ec. apply held_start; [done|]. apply map_empty. intros z.
    apply not_is_Some. rewrite D. tauto.
Qed.

Lemma plain_alloc_wp t0 c (D : Z → Prop) p start end_ k s : plain t0 c D s → 0 <= start → start <= k <= last_id end_ →
  ¬ D k → (∀ j, start <= j < k → D j) →
  wp (alloc p start end_) s (λ r s', r = k ∧ plain t0 c (λ z, z = k ∨ D z) s').
Proof.
  intros (Et & Eb & Ec & Hd) Hs Hk Nk Fk. apply on_idr_wp. intros r i E.
  apply alloc_law in E as (Eb' & Ec' & Dr); [|done]. rewrite Eb, Z.max_l in Dr by lia.
  assert (L : least_free (idr_map (t_idr s)) start (last_id end_) k).
  { split; [lia|]. split; [apply not_is_Some; by rewrite Hd|]. intros j Hj. apply Hd, Fk. lia. }
  destruct Dr as [[L' M1]|(_ & F & _)]; [|by destruct (least_free_not_full _ _ _ _ L F)].
  rewrite (least_free_unique _ _ _ _ _ _ L' L) in *. split; [done|]. split_and!; simpl; try congruence.
  intros z. rewrite M1. destruct (decide (z = k)) as [->|Nz].
  - rewrite lookup_insert_eq. split; [by left|eauto].
  - rewrite lookup_insert_ne by done. rewrite Hd. naive_solver.
Qed.

Lemma plain_remove_wp t0 c (D : Z → Prop) k s : plain t0 c D s →
  wp (remove k) s (λ _, plain t0 c (λ z, z ≠ k ∧ D z)).
Proof.
  intros (Et & Eb & Ec & Hd). apply on_idr_wp. intros r i E. apply remove_law in E as (_ & M1 & B1 & C1).
  split_and!; simpl; try congruence. intros z. rewrite M1. destruct (decide (z = k)) as [->|Nz].
  - rewrite lookup_delete_eq. split; [by intros [? [=]]|naive_solver].
  - rewrite lookup_delete_ne by done. rewrite Hd. naive_solver.
Qed.

Lemma plain_destroy_wp t0 c D s : plain t0 c D s → wp destroy s (λ _, held t0 ∅ 0 c).
Proof.
  intros (Et & Eb & Ec & Hd). apply on_idr_wp. intros ? i [= _ <-]. destruct (destroy_law (t_idr s)) as (D1 & D2 & D3).
  apply held_plain. split_and!; simpl; try congruence. intros z. rewrite D1, lookup_empty. split; [by intros [? [=]]|done].
Qed.

Lemma plain_ext t0 c (D D' : Z → Prop) s : (∀ z, D z ↔ D' z) → plain t0 c D s → plain t0 c D' s.
Proof. intros E (Et & Eb & Ec & Hd). split_and!; try done. intros z. by rewrite Hd. Qed.

Lemma empty_is_wp b t0 c s : held t0 ∅ b c s → wp (empty_is true) s (λ _, held t0 ∅ b c).
Proof.
  intros Hh. unfold empty_is. wp_step. unfold wp at 1, ask_idr. rewrite is_empty_law, (h_map _ _ _ _ _ Hh), fmap_empty.
  rewrite bool_decide_eq_true_2 by done. by apply assert_wp.
Qed.

(** Calls that do not find what they look for. *)
Lemma remove_absent_wp t0 m b c z s : held t0 m b c s → m !! z = None → wp (remove z) s (λ _, held t0 m b c).
Proof.
  intros Hh N. apply on_idr_wp. intros r i E. apply remove_law in E as (_ & M1 & B1 & C1).
  destruct Hh as [Hm Hi Hf Hb Hc]. split; simpl; try congruence; try done.
  rewrite M1, Hm. rewrite delete_id; [done|]. by rewrite lookup_fmap, N.
Qed.
Lemma alloc_full_wp t0 m c p start end_ s : held t0 m 0 c s → 0 <= start → full m start (last_id end_) →
  wp (alloc p start end_) s (λ r s', r = - ENOSPC ∧ held t0 m 0 c s').
Proof.
  intros Hh Hs F. apply on_idr_wp. intros r i E. apply alloc_law in E as (Eb & Ec & D); [|done].
  destruct Hh as [Hm Hi Hf Hb Hc]. rewrite Hb, Z.max_l, Hm in D by lia.
  destruct D as [[L _]|(-> & _ & M1)]; [by destruct (least_free_not_full _ _ _ _ L (full_fmap Item _ _ _ F))|].
  split; [done|]. split; simpl; try congruence; done.
Qed.

(** *** The tests *)

Lemma idr_alloc_test_wp s : wp idr_alloc_test s (λ _ s', items (t_items s') = items (t_items s)).
Proof.
  eapply wp_mono; [|apply (with_idr_wp _ _ s (λ _ t, items t = items (t_items s)))]; [by intros ? s' [_ ?]|].
  set (t0 := items (t_items s)). destruct define_idr_law as (D1 & D2 & D3).
  wp_step. apply on_idr_wp. simpl t_idr. intros r i1 E. apply alloc_cyclic_law in E as (B1 & D); [|lia].
  rewrite D1, D2, D3 in *. change (s32 0 <? 0) with false in D. cbv iota zeta in D. change (Z.max 0 0) with 0 in D.
  change (last_id 16384) with 16383 in D.
  assert (L0 : least_free (∅ : gmap Z ptr) 0 16383 0) by (split; [lia|]; split; [done|]; intros j Hj; lia).
  destruct D as [(D & M1 & C1)|(_ & F & _)]; [|by destruct (least_free_not_full _ _ _ _ L0 F)].
  assert (r = 0) as -> by (destruct D as [D|[_ D]]; by eapply least_free_unique). clear D.
  wp_step. apply assert_wp; [done|]. wp_step. apply on_idr_wp. simpl t_idr. intros r i2 E.
  apply alloc_cyclic_law in E as (B2 & D); [|lia]. rewrite M1, B1, C1 in D.
  change (s32 (0 + 1) <? 16381) with true in D. cbv iota zeta in D. change (Z.max 16381 0) with 16381 in D.
  change (last_id 16384) with 16383 in D.
  assert (L1 : least_free (<[0:=DUMMY_PTR]> (∅ : gmap Z ptr)) 16381 16383 16381).
  { split; [lia|]. split; [done|]. intros j Hj. lia. }
  destruct D as [(D & M2 & C2)|(_ & F & _)]; [|by destruct (least_free_not_full _ _ _ _ L1 F)].
  assert (r = 16381) as -> by (destruct D as [D|[_ D]]; by eapply least_free_unique).
  wp_step. apply assert_wp; [done|].
  assert (P : plain t0 16382 (λ z, z = 16381 ∨ z = 0) (Tst i2 (t_items s))).
  { split; [done|]. split; [simpl; congruence|]. split; [by simpl; rewrite C2|]. intros z. simpl. rewrite M2.
    destruct (decide (z = 16381)) as [->|N1]; [rewrite lookup_insert_eq; split; eauto|rewrite lookup_insert_ne by done].
    destruct (decide (z = 0)) as [->|N2]; [rewrite lookup_insert_eq; split; eauto|rewrite lookup_insert_ne by done].
    rewrite lookup_empty. split; [by intros [? [=]]|lia]. }
  wp_step. eapply wp_mono; [|apply (plain_remove_wp _ _ _ _ _ P)]. intros ? s3 P3.
  wp_step. eapply wp_mono; [|apply (plain_remove_wp _ _ _ _ _ P3)]. intros ? s4 P4.
  wp_step. eapply wp_mono; [|apply (mfor_wp (cyc_inv t0 16382 16383 1) 0 5)].
  - intros ? s5 (m & Hm & D5). eapply wp_mono; [|apply (free_all_wp _ _ _ _ _ Hm)].
    + intros ? s6 Hs6. by apply held_plain in Hs6 as [-> _].
    + intros z Hz. apply D5 in Hz. unfold INT_MAX. lia.
  - exists ∅. split.
    + apply held_plain. eapply plain_ext; [|exact P4]. intros z. simpl. naive_solver.
    + intros z. rewrite lookup_empty. split; [by intros [? [=]]|lia].
  - intros k s' Hk Hs'. pose proof (cyc_step t0 16382 16383 1 16384 k s' u64) as W. unfold cyc_index in W.
    cbv zeta. replace (if 16382 + Z.of_nat k <? 16384 then create (16382 + Z.of_nat k) 0 else create (16382 + Z.of_nat k - 16383) 0)
      with (create (if 16382 + Z.of_nat k <=? 16383 then 16382 + Z.of_nat k else 1 + (16382 + Z.of_nat k - 16383 - 1)) 0 : M st ptr).
    2: { destruct (Z.leb_spec (16382 + Z.of_nat k) 16383), (Z.ltb_spec (16382 + Z.of_nat k) 16384); try lia; [done|]. f_equal. lia. }
    apply W; try done; try (unfold INT_MAX; lia). apply u64_id. destruct (Z.leb_spec (16382 + Z.of_nat k) 16383); lia.
Qed.

End held.
