(* ===== verification/IdrChecks.v ===== *)
(** The theorems on the test programs of idr-test.c: idr_checks, the short test
    that main runs, and the IDA tests. *)
From Stdlib Require Import ZArith Lia.
From stdpp Require Import base list gmap relations sorting.
From S2P Require Import Prelude Kernel Idr IdrTest IdrTestThms.

#[local] Arguments Z.to_nat : simpl never.
#[local] Arguments Z.of_nat : simpl never.

(** ** idr_get_next_test *)

Section get_next.
Context {I T : Type} `{Idr I} `{Items T}.
Abbreviation st := (tst I T).
Implicit Types s : st.

Definition dom_is (m : gmap Z loc) (l : list Z) : Prop := ∀ z, is_Some (m !! z) ↔ z ∈ l.

Lemma alloc_is_wp t0 m b c l x s start end_ : held_new t0 m b c l x s → 0 <= start →
  least_free m (Z.max start b) (last_id end_) x →
  wp (alloc_is (Item l) start end_ x) s (λ _, held t0 (<[x := l]> m) b c).
Proof.
  intros Hh Hs L. unfold alloc_is. wp_step. eapply wp_mono; [|by apply (alloc_new_wp t0 m b c l x)].
  intros ? s' [-> Hs']. by apply assert_wp; [apply Z.eqb_refl|].
Qed.

(** Indices in ascending order, with the zero that ends the array. *)
Lemma fill_indices_wp t0 b c xs : ∀ pre m s, held t0 m b c s → dom_is m pre →
  StronglySorted Z.lt (pre ++ xs) → Forall (λ x, 0 < x <= INT_MAX ∧ b <= x) xs →
  wp (fill_indices (xs ++ [0])) s (λ _ s', ∃ m', held t0 m' b c s' ∧ dom_is m' (pre ++ xs)).
Proof.
  induction xs as [|x xs IH]; intros pre m s Hh D SS F.
  { apply wp_ret. exists m. by rewrite app_nil_r. }
  apply Forall_cons in F as [[Hx Hb] F].
  assert (Step : ∀ y, y = 0 ∨ x < y →
    wp (item ← create x 0; alloc_is item x y x) s (λ _ s', ∃ m', held t0 m' b c s' ∧ dom_is m' (pre ++ [x]))).
  { intros y Hy. wp_step. eapply wp_mono; [|by apply create_wp]. intros ? s1 (l & -> & Hl).
    eapply wp_mono; [|apply (alloc_is_wp t0 m b c l x s1)]; [|done|lia|].
    - intros ? s2 Hs2. eexists. split; [exact Hs2|]. intros z. rewrite elem_of_app, list_elem_of_singleton, <- (D z).
      destruct (decide (z = x)) as [->|N]; [rewrite lookup_insert_eq; split; eauto|].
      rewrite lookup_insert_ne by done. naive_solver.
    - assert (Nx : x ∉ pre).
      { intros Hp.
        pose proof (StronglySorted_app_1_elem_of _ _ _ x x SS Hp ltac:(apply list_elem_of_here)). lia. }
      split; [|split; [apply not_is_Some; by rewrite (D x)|intros j Hj; lia]].
      unfold last_id. destruct (Z.ltb_spec 0 y); unfold INT_MAX in *; lia. }
  destruct xs as [|y xs].
  - simpl. rewrite (proj2 (Z.eqb_neq x 0)) by lia. specialize (Step 0 (or_introl eq_refl)).
    unfold wp, mbind, M_bind in Step |- *. destruct (create x 0 s) as [[item s1]|]; [|done].
    destruct (alloc_is item x 0 x s1) as [[? s2]|]; done.
  - change (fill_indices ((x :: y :: xs) ++ [0])) with (if x =? 0 then mret tt else
      item ← create x 0; alloc_is item x y x ≫= λ _, fill_indices ((y :: xs) ++ [0]) : M st unit).
    rewrite (proj2 (Z.eqb_neq x 0)) by lia.
    assert (Hxy : x < y).
    { apply (StronglySorted_app_1_elem_of _ (pre ++ [x]) (y :: xs));
        [by rewrite <- app_assoc|apply elem_of_app; right; by apply list_elem_of_singleton|apply list_elem_of_here]. }
    specialize (Step y (or_intror Hxy)). unfold wp, mbind, M_bind in Step |- *.
    destruct (create x 0 s) as [[item s1]|]; [|done].
    destruct (alloc_is item x y x s1) as [[? s2]|]; [|done]. destruct Step as (m' & Hm' & D').
    specialize (IH (pre ++ [x]) m' s2 Hm' D'). rewrite <- app_assoc in IH. by apply IH.
Qed.

Lemma walk_indices_wp t0 m b c xs s : held t0 m b c s → ∀ pre nextid, dom_is m (pre ++ xs) →
  StronglySorted Z.lt (pre ++ xs) → Forall (λ x, 0 < x < INT_MAX) xs →
  0 <= nextid → (∀ z, z ∈ pre → z < nextid) → (∀ z, z ∈ xs → nextid <= z) →
  wp (walk_indices (xs ++ [0]) nextid) s (λ _ s', s' = s).
Proof.
  intros Hh. induction xs as [|x xs IH]; intros pre nextid D SS F Hn Hpre Hxs; simpl; [by apply wp_ret|].
  apply Forall_cons in F as [Hx F]. rewrite (proj2 (Z.eqb_neq x 0)) by lia. wp_step. unfold wp at 1, ask_idr.
  destruct (proj2 (D x)) as [l El]; [apply elem_of_app; right; apply list_elem_of_here|].
  rewrite (get_next_some_law nextid (t_idr s) x (Item l)).
  - simpl. wp_step. apply assert_wp; [apply Z.eqb_refl|]. rewrite s32_id by (unfold INT_MAX in *; lia).
    apply (IH (pre ++ [x])); rewrite <- ?app_assoc; try done; [lia|..].
    + intros z [Hz|Hz]%elem_of_app; [specialize (Hpre z Hz); specialize (Hxs x (list_elem_of_here _ _)); lia|].
      apply list_elem_of_singleton in Hz. lia.
    + intros z Hz. enough (x < z) by lia. apply (StronglySorted_app_1_elem_of _ (pre ++ [x]) xs);
        [by rewrite <- app_assoc|apply elem_of_app; right; by apply list_elem_of_singleton|done].
  - by eapply held_nonnull.
  - specialize (Hxs x (list_elem_of_here _ _)). lia.
  - by rewrite (h_map _ _ _ _ _ Hh), lookup_fmap, El.
  - intros j Hj. rewrite (h_map _ _ _ _ _ Hh), lookup_fmap. destruct (m !! j) as [l'|] eqn:E; [|done]. exfalso.
    assert (Hin : j ∈ pre ++ x :: xs) by (apply D; eauto). apply elem_of_app in Hin as [Hin|Hin].
    + specialize (Hpre j Hin). lia.
    + apply elem_of_cons in Hin as [->|Hin]; [lia|].
      enough (x < j) by lia. apply (StronglySorted_app_1_elem_of _ (pre ++ [x]) xs);
        [by rewrite <- app_assoc|apply elem_of_app; right; by apply list_elem_of_singleton|done].
Qed.

Definition index_list : list Z := [4; 7; 9; 15; 65; 128; 1000; 99999].
Lemma index_sorted : StronglySorted Z.lt index_list.
Proof. repeat constructor. Qed.

Lemma idr_get_next_test_wp b s : 0 <= b <= 4 →
  wp (idr_get_next_test b) s (λ _ s', items (t_items s') = items (t_items s)).
Proof.
  intros Hb. eapply wp_mono; [|apply (with_idr_wp _ _ s (λ _ t, items t = items (t_items s)))]; [by intros ? s' [_ ?]|].
  destruct (init_base_law b) as (D1 & D2 & D3). set (t0 := items (t_items s)).
  assert (H0' : held t0 ∅ b 0 (Tst (idr_init_base b) (t_items s))).
  { pose proof (held_start t0 (Tst (idr_init_base b) (t_items s)) eq_refl D1) as Hs. simpl in Hs.
    by rewrite D2, D3 in Hs. }
  assert (F : Forall (λ x, 4 <= x < INT_MAX) index_list) by (unfold INT_MAX; repeat constructor; lia).
  wp_step. change indices with (index_list ++ [0]).
  eapply wp_mono; [|apply (fill_indices_wp t0 b 0 index_list [] ∅ _ H0')]; [| |apply index_sorted|].
  - intros ? s1 (m & Hm & D). wp_step.
    eapply wp_mono; [|apply (walk_indices_wp t0 m b 0 index_list s1 Hm [] 0 D index_sorted)].
    + intros ? ? ->. eapply wp_mono; [|apply (free_all_wp _ _ _ _ _ Hm)].
      * intros ? s2 [_ Hi _ _ _]. apply map_eq. intros l. apply option_eq. intros z. rewrite Hi, lookup_empty. naive_solver.
      * intros z Hz. apply D in Hz. rewrite Forall_forall in F. specialize (F z Hz). lia.
    + eapply Forall_impl; [exact F|]. simpl. lia.
    + lia.
    + by intros z Hz%elem_of_nil.
    + intros z Hz. rewrite Forall_forall in F. specialize (F z Hz). lia.
  - intros z. rewrite lookup_empty. split; [by intros [? [=]]|by intros Hz%elem_of_nil].
  - eapply Forall_impl; [exact F|]. simpl. lia.
Qed.

End get_next.

(** ** idr_checks *)

Section checks.
Context {I T : Type} `{Idr I} `{Items T}.
Abbreviation st := (tst I T).
Implicit Types s : st.

Lemma range_dom_bound m lo hi : range_dom m lo hi → 0 <= lo → hi <= 2147483648 →
  ∀ z, is_Some (m !! z) → 0 <= z <= INT_MAX.
Proof. unfold INT_MAX. intros D L L' z Hz%D. lia. Qed.

(** The first 5000 of 10000 items are removed again. *)
Lemma remove_upto_wp t0 m c n hi s : held t0 m 0 c s → range_dom m 0 hi → Z.of_nat n <= hi <= 2147483648 →
  wp (mfor 0 n (λ i, item_idr_remove (Z.of_nat i))) s (λ _ s', ∃ m', held t0 m' 0 c s' ∧ range_dom m' (Z.of_nat n) hi).
Proof.
  intros Hh D Hn. apply (mfor_wp (λ k s', ∃ m', held t0 m' 0 c s' ∧ range_dom m' (Z.of_nat k) hi) 0 n).
  - by exists m.
  - intros k s' Hk (m' & Hm' & D'). destruct (proj2 (D' (Z.of_nat k))) as [l El]; [lia|].
    eapply wp_mono; [|apply (item_idr_remove_wp t0 m' 0 c (Z.of_nat k) l s' Hm' El)].
    2: { unfold INT_MAX. lia. }
    intros ? s2 Hs2. exists (delete (Z.of_nat k) m'). split; [done|]. intros z.
    destruct (decide (z = Z.of_nat k)) as [->|N].
    + rewrite lookup_delete_eq. split; [by intros [? [=]]|lia].
    + rewrite lookup_delete_ne by done. rewrite (D' z). lia.
Qed.

(** The part that fills a whole node of the tree with one pointer. *)
Lemma idr_checks_node_wp t0 c size s : held t0 ∅ 0 c s → 1 <= size <= 2147483648 →
  wp (idr_checks_node size) s (λ _, held t0 ∅ 0 c).
Proof.
  intros Hh Hs. unfold idr_checks_node. wp_step.
  eapply wp_mono; [|by apply (remove_absent_wp t0 ∅)]. intros ? s1 H1.
  wp_step. eapply wp_mono; [|by apply (remove_absent_wp t0 ∅ 0 c 0 s1 H1)]. intros ? s2 H2. apply held_plain in H2.
  wp_step. unfold alloc_is. wp_step.
  eapply wp_mono; [|apply (plain_alloc_wp t0 c _ DUMMY_PTR 0 0 0 s2 H2)]; [|lia|unfold last_id, INT_MAX; simpl; lia|tauto|intros j ?; lia].
  intros r s3 [-> H3]. apply assert_wp; [done|]. wp_step.
  eapply wp_mono; [|apply (plain_remove_wp _ _ _ _ _ H3)]. intros ? s4 H4. wp_step.
  eapply wp_mono; [|apply (mfor_wp (λ k, plain t0 c (λ z, 0 <= z < Z.of_nat k)) 1)].
  - intros ? s5 H5. wp_step. eapply wp_mono; [|apply (plain_remove_wp _ _ _ _ _ H5)]. intros ? s6 H6.
    exact (plain_destroy_wp _ _ _ _ H6).
  - eapply plain_ext; [|exact H4]. intros z. simpl. lia.
  - intros k s5 Hk H5. wp_step.
    eapply wp_mono; [|apply (plain_alloc_wp t0 c _ DUMMY_PTR 0 0 (Z.of_nat k) s5 H5)]; [|lia|unfold last_id, INT_MAX; simpl; lia|lia|intros j ?; lia].
    intros r s6 [-> H6]. apply assert_wp; [rewrite u64_id by lia; apply Z.eqb_refl|].
    eapply plain_ext; [|exact H6]. intros z. simpl. lia.
Qed.

(** The ids at the upper end: after INT_MAX there is no room. *)
Lemma idr_checks_top_wp t0 c s : held t0 ∅ 0 c s → wp idr_checks_top s (λ _, held t0 ∅ 0 c).
Proof.
  intros Hh. unfold idr_checks_top. wp_step. eapply wp_mono; [|apply (alloc_items_wp t0 c (INT_MAX - 3) 4 _ s Hh)].
  - intros ? s1 (m & Hm & D). cbv zeta.
    assert (Full : ∀ e, last_id e = INT_MAX → full m (INT_MAX - 1) (last_id e)).
    { intros e -> j Hj. apply D. unfold INT_MAX in *. lia. }
    wp_step. unfold alloc_is at 1. wp_step.
    eapply wp_mono; [|apply (alloc_full_wp t0 m c DUMMY_PTR _ _ s1 Hm)]; [|by vm_compute|by apply (Full (s32 (INT_MAX + 1)))].
    intros r s2 [-> H2]. apply assert_wp; [done|]. wp_step. unfold alloc_is at 1. wp_step.
    eapply wp_mono; [|apply (alloc_full_wp t0 m c DUMMY_PTR _ _ s2 H2)]; [|by vm_compute|by apply (Full (s32 (INT_MAX + 1 + 10)))].
    intros r s3 [-> H3]. apply assert_wp; [done|]. wp_step.
    eapply wp_mono; [|apply (free_all_wp _ m _ _ s3 H3)].
    2: { eapply range_dom_bound; [exact D|unfold INT_MAX; lia..]. }
    intros ? s4 H4. apply held_plain in H4. wp_step. eapply wp_mono; [|exact (plain_destroy_wp _ _ _ _ H4)].
    intros ? s5 H5. exact (empty_is_wp _ _ _ _ H5).
  - unfold INT_MAX. lia.
  - intros k Hk. cbv zeta. simpl fst. simpl snd. unfold INT_MAX in *. rewrite s32_id by (unfold INT_MAX; lia).
    assert (E : s32 (2147483647 - 3 + k + 10) <= 0).
    { unfold s32, wraps. change (2 ^ (32 - 1)) with 2147483648. change (2 ^ 32) with 4294967296.
      Z.div_mod_to_equations. lia. }
    unfold last_id. rewrite (proj2 (Z.ltb_ge 0 _)) by done. unfold INT_MAX. lia.
  - unfold INT_MAX. lia.
Qed.

(** The cursor runs over INT_MAX and starts again at 0. *)
Lemma idr_checks_cursor_wp t0 c s : held t0 ∅ 0 c s →
  wp idr_checks_cursor s (λ _ s', ∃ c', held t0 ∅ 0 c' s').
Proof.
  intros Hh. unfold idr_checks_cursor. wp_step. apply on_idr_wp. intros ? i [= _ <-].
  destruct (set_cursor_law (INT_MAX - 3) (t_idr s)) as (E1 & E2 & E3).
  wp_step. eapply wp_mono; [|apply (mfor_wp (cyc_inv t0 (INT_MAX - 3) INT_MAX 0) 0 6)].
  - intros ? s1 (m & Hm & D). wp_step. eapply wp_mono; [|apply (free_all_wp _ _ _ _ _ Hm)].
    + intros ? s2 Hs2. eapply wp_mono; [|exact (empty_is_wp _ _ _ _ Hs2)]. intros ? s3 Hs3. eexists; exact Hs3.
    + intros z Hz%D. unfold INT_MAX in *. lia.
  - exists ∅. destruct Hh as [Hm Hi Hf Hb Hc]. split; [split; simpl; try done; congruence|].
    intros z. rewrite lookup_empty. unfold INT_MAX. split; [by intros [? [=]]|lia].
  - intros k s' Hk Hs'. pose proof (cyc_step t0 (INT_MAX - 3) INT_MAX 0 0 k s' u32) as W. unfold cyc_index in W.
    cbv zeta. replace (if INT_MAX - 3 + Z.of_nat k <=? INT_MAX then create (INT_MAX - 3 + Z.of_nat k) 0
        else create (INT_MAX - 3 + Z.of_nat k - INT_MAX - 1) 0)
      with (create (if INT_MAX - 3 + Z.of_nat k <=? INT_MAX then INT_MAX - 3 + Z.of_nat k
                    else 0 + (INT_MAX - 3 + Z.of_nat k - INT_MAX - 1)) 0 : M st ptr).
    2: { destruct (Z.leb_spec (INT_MAX - 3 + Z.of_nat k) INT_MAX); [done|]. by rewrite Z.add_0_l. }
    apply W; try done; try (unfold INT_MAX; lia). apply u32_id.
    destruct (Z.leb_spec (INT_MAX - 3 + Z.of_nat k) INT_MAX); unfold INT_MAX in *; lia.
Qed.

Lemma idr_checks_many_wp t0 c s : held t0 ∅ 0 c s → wp idr_checks_many s (λ _, held t0 ∅ 0 c).
Proof.
  intros Hh. unfold idr_checks_many. wp_step.
  eapply wp_mono; [|apply (alloc_items_wp t0 c 0 (Z.to_nat 10000) _ s Hh)];
    [|lia|intros k Hk; unfold last_id; simpl; lia|lia].
  intros ? s1 (m & Hm & D). wp_step.
  eapply wp_mono; [|apply (alloc_full_wp t0 m c DUMMY_PTR 5 30 s1 Hm)]; [|lia|].
  2: { intros j Hj. apply D. unfold last_id in Hj. simpl in Hj. lia. }
  intros r s2 [-> H2]. wp_step. apply assert_wp; [done|]. wp_step.
  eapply wp_mono; [|apply (remove_upto_wp t0 m c (Z.to_nat 5000) _ s2 H2 D)]; [|lia].
  intros ? s3 (m' & Hm' & D'). wp_step.
  eapply wp_mono; [|apply (remove_absent_wp t0 m' 0 c 3 s3 Hm')]; [|apply not_is_Some; rewrite (D' 3); lia].
  intros ? s4 H4. wp_step. eapply wp_mono; [|apply (free_all_wp _ _ _ _ _ H4)].
  - intros ? s5 H5. exact (empty_is_wp _ _ _ _ H5).
  - eapply range_dom_bound; [exact D'|lia..].
Qed.

Variable RADIX_TREE_MAP_SIZE : Z.
Hypothesis map_size : 3 <= RADIX_TREE_MAP_SIZE <= 2147483648.
Context `{!IdrMemory I RADIX_TREE_MAP_SIZE}.

Lemma idr_checks_own_wp t0 c s : held t0 ∅ 0 c s →
  wp (idr_checks_own RADIX_TREE_MAP_SIZE) s (λ _ s', ∃ c', held t0 ∅ 0 c' s').
Proof.
  intros Hh. unfold idr_checks_own. wp_step. eapply wp_mono; [|apply (idr_checks_many_wp t0 c s Hh)].
  intros ? s1 H1. wp_step. eapply wp_mono; [|apply (idr_checks_node_wp t0 c _ s1 H1); lia].
  intros ? s2 H2. wp_step. eapply wp_mono; [|apply (idr_checks_top_wp t0 c s2 H2)].
  intros ? s3 H3. wp_step. eapply wp_mono; [|apply (idr_checks_cursor_wp t0 c s3 H3)].
  intros ? s4 [c' H4]. wp_step. eapply wp_mono; [|apply (alloc_items_wp t0 c' 1 (Z.to_nat 9999) _ s4 H4)];
    [|lia|intros k Hk; unfold last_id; simpl; lia|lia].
  intros ? s5 (m & Hm & D). eapply wp_mono; [|apply (free_all_wp _ _ _ _ _ Hm)].
  - intros ? s6 H6. eexists. exact H6.
  - eapply range_dom_bound; [exact D|lia..].
Qed.

(** Only the first of the ids of one leaf takes memory. *)
Lemma alloc_nowait_wp t0 m c l (i : nat) pre s : held_new t0 m 0 c l (Z.of_nat i) s → range_dom m 0 (Z.of_nat i) →
  (i = 0%nat → pre = true) → Z.of_nat i < RADIX_TREE_MAP_SIZE →
  wp (alloc_nowait RADIX_TREE_MAP_SIZE pre (Item l) (Z.of_nat i) (Z.of_nat i + 1)) s
    (λ '(r, _) s', r = Z.of_nat i ∧ held t0 (<[Z.of_nat i := l]> m) 0 c s').
Proof.
  intros Hn D Hp Hi. unfold alloc_nowait. wp_step. wp_step.
  assert (W : ∀ q, wp (r ← alloc (Item l) (Z.of_nat i) (Z.of_nat i + 1); (mret (r, q) : M st (Z * bool))) s
    (λ '(r, _) s', r = Z.of_nat i ∧ held t0 (<[Z.of_nat i := l]> m) 0 c s')).
  { intros q. wp_step. eapply wp_mono; [|apply (alloc_new_wp t0 m 0 c l _ s _ _ Hn); [lia|]].
    - intros r s' ?. by wp_step.
    - unfold last_id. rewrite (proj2 (Z.ltb_lt 0 _)) by lia.
      split; [lia|]. split; [apply not_is_Some; rewrite (D (Z.of_nat i)); lia|intros j Hj; lia]. }
  destruct (idr_needs (t_idr s) (Z.of_nat i)) eqn:En; [|apply W].
  destruct pre; [apply W|]. exfalso. destruct i as [|i]; [by specialize (Hp eq_refl)|].
  destruct (proj2 (D 0)) as [l0 E0]; [lia|].
  rewrite (idr_needs_law (t_idr s) 0 (Z.of_nat (S i)) (Item l0)) in En; [done| |].
  - by rewrite (n_map _ _ _ _ _ _ _ Hn), lookup_fmap, E0.
  - by rewrite !Z.div_small by lia.
Qed.

Lemma nowait_loop_wp t0 c n : ∀ (i : nat) pre m s, held t0 m 0 c s → range_dom m 0 (Z.of_nat i) →
  (i = 0%nat → pre = true) → Z.of_nat (i + n) <= RADIX_TREE_MAP_SIZE →
  wp (nowait_loop RADIX_TREE_MAP_SIZE pre i n) s (λ _ s', ∃ m', held t0 m' 0 c s' ∧ range_dom m' 0 (Z.of_nat (i + n))).
Proof.
  induction n as [|n IH]; intros i pre m s Hh D Hp Hn; cbn [nowait_loop].
  { wp_step. exists m. by rewrite Nat.add_0_r. }
  wp_step. eapply wp_mono; [|apply (create_wp t0 m 0 c _ _ _ Hh)]. intros ? s1 (l & -> & Hl).
  wp_step. eapply wp_mono; [|apply (alloc_nowait_wp t0 m c l i pre s1 Hl D Hp); lia].
  intros [r pre'] s2 [-> H2]. wp_step. apply assert_wp; [apply Z.eqb_refl|].
  rewrite <- Nat.add_succ_comm. apply (IH (S i) pre' _ s2 H2); [|done|lia].
  intros z. destruct (decide (z = Z.of_nat i)) as [->|N].
  - rewrite lookup_insert_eq. split; [lia|eauto].
  - rewrite lookup_insert_ne by done. rewrite (D z). lia.
Qed.

Lemma idr_nowait_test_wp s :
  wp (idr_nowait_test RADIX_TREE_MAP_SIZE) s (λ _ s', items (t_items s') = items (t_items s)).
Proof.
  eapply wp_mono; [|apply (with_idr_wp _ _ s (λ _ t, items t = items (t_items s)))]; [by intros ? s' [_ ?]|].
  destruct define_idr_law as (D1 & D2 & D3). set (t0 := items (t_items s)).
  assert (H0' : held t0 ∅ 0 0 (Tst DEFINE_IDR (t_items s))).
  { pose proof (held_start t0 (Tst DEFINE_IDR (t_items s)) eq_refl D1) as Hs. simpl in Hs. by rewrite D2, D3 in Hs. }
  wp_step. eapply wp_mono; [|apply (nowait_loop_wp t0 0 3 0 true ∅ _ H0'); [|done|lia]].
  - intros ? s1 (m & Hm & D). eapply wp_mono; [|apply (free_all_wp _ _ _ _ _ Hm)].
    + intros ? s2 H2. apply held_plain in H2 as (E & _). exact E.
    + eapply range_dom_bound; [exact D|lia..].
  - intros z. rewrite lookup_empty. split; [by intros [? [=]]|lia].
Qed.

(** A test on an idr of its own, followed by others. *)
Definition clean (t0 : gmap loc Z) s : Prop :=
  idr_map (t_idr s) = ∅ ∧ idr_base (t_idr s) = 0 ∧ items (t_items s) = t0.
Lemma sub_test t0 i (m : M st unit) s : clean t0 s →
  wp (with_idr i m) s (λ _ s', items (t_items s') = items (t_items s)) → wp (with_idr i m) s (λ _, clean t0).
Proof.
  unfold wp, with_idr. intros (A & B & C). destruct (m (Tst i (t_items s))) as [[a s']|f]; [|done].
  simpl. intros E. split_and!; simpl; congruence.
Qed.
Lemma same_items (m : M st unit) s : wp m s (λ _ s', t_items s' = t_items s) →
  wp m s (λ _ s', items (t_items s') = items (t_items s)).
Proof. apply wp_mono. by intros ? s' ->. Qed.

(** C37: idr_checks (without idr_find_test):
    on every IDR that satisfies the laws, none of its assertions fails, those on
    allocations that may not sleep included, and at
    the end every item it created has been freed and the caller's idr is as
    before. *)
Theorem idr_checks_pass s :
  wp (idr_checks RADIX_TREE_MAP_SIZE) s (λ _ s', t_idr s' = t_idr s ∧ items (t_items s') = items (t_items s)).
Proof.
  apply (with_idr_wp _ _ s (λ _ t, items t = items (t_items s))). destruct define_idr_law as (D1 & D2 & D3).
  set (t0 := items (t_items s)).
  assert (H0' : held t0 ∅ 0 0 (Tst DEFINE_IDR (t_items s))).
  { pose proof (held_start t0 (Tst DEFINE_IDR (t_items s)) eq_refl D1) as Hs. simpl in Hs. by rewrite D2, D3 in Hs. }
  wp_step. eapply wp_mono; [|apply (idr_checks_own_wp t0 0 _ H0')]. intros ? s1 [c H1].
  apply held_plain in H1 as (Et & Eb & _ & Dm).
  assert (C1 : clean t0 s1).
  { split_and!; try done. apply map_empty. intros z. apply not_is_Some. rewrite (Dm z). tauto. }
  wp_step. eapply wp_mono; [|apply (sub_test t0 _ _ _ C1), same_items, idr_replace_test_wp]. intros ? s2 C2.
  wp_step. eapply wp_mono; [|apply (sub_test t0 _ _ _ C2), idr_alloc_test_wp]. intros ? s3 C3.
  wp_step. eapply wp_mono; [|apply (sub_test t0 _ _ _ C3), same_items, idr_null_test_wp]. intros ? s4' C4'.
  wp_step. eapply wp_mono; [|apply (sub_test t0 _ _ _ C4'), idr_nowait_test_wp]. intros ? s4 C4.
  wp_step. eapply wp_mono; [|apply (sub_test t0 _ _ _ C4), idr_get_next_test_wp; lia]. intros ? s5 C5.
  wp_step. eapply wp_mono; [|apply (sub_test t0 _ _ _ C5), idr_get_next_test_wp; lia]. intros ? s6 C6.
  wp_step. eapply wp_mono; [|apply (sub_test t0 _ _ _ C6), idr_get_next_test_wp; lia]. intros ? s7 C7.
  wp_step. eapply wp_mono; [|apply (sub_test t0 _ _ _ C7), same_items, idr_u32_test_wp; lia]. intros ? s8 C8.
  wp_step. eapply wp_mono; [|apply (sub_test t0 _ _ _ C8), same_items, idr_u32_test_wp; lia]. intros ? s9 C9.
  wp_step. eapply wp_mono; [|apply (sub_test t0 _ _ _ C9), same_items, idr_u32_test_wp; lia].
  intros ? s10 (A & B & C). rewrite <- C.
  eapply wp_mono; [|apply (idr_align_test_wp s10 A B)]. by intros ? s11 ->.
Qed.

End checks.

(** ** The test that main runs *)

Section simple.
Context {I T : Type} `{Idr I} `{Items T}.
Abbreviation st := (tst I T).
Implicit Types s : st.

(** An item keeps the order it was created with: here ten times its index. *)
Definition ordered (m : gmap Z loc) s : Prop := ∀ z l, m !! z = Some l → item_order (t_items s) l = z * 10.

Lemma create_order_wp x o s : wp (create x o) s (λ p s', ∀ l, p = Item l →
  item_order (t_items s') l = o ∧ ∀ l', l' ≠ l → item_order (t_items s') l' = item_order (t_items s) l').
Proof.
  unfold wp, create. destruct (item_create x o (t_items s)) as [l t] eqn:E. intros l' [= <-].
  by apply item_create_order_law in E.
Qed.
Lemma alloc_items_same p start end_ s : wp (alloc p start end_) s (λ _ s', t_items s' = t_items s).
Proof. by apply on_idr_wp. Qed.

Lemma simple_loop_wp t0 c n : ∀ k m s, held t0 m 0 c s → range_dom m 0 (Z.of_nat k) → ordered m s →
  Z.of_nat (k + n) <= INT_MAX →
  wp (simple_loop k n) s (λ ids s', ids = Z.of_nat <$> seq k n ∧
    ∃ m', held t0 m' 0 c s' ∧ range_dom m' 0 (Z.of_nat (k + n)) ∧ ordered m' s').
Proof.
  induction n as [|n IH]; intros k m s Hh D O Hn; cbn [simple_loop].
  { wp_step. split; [done|]. exists m. by rewrite Nat.add_0_r. }
  wp_step. eapply wp_mono; [|apply wp_and; [apply (create_wp t0 m 0 c _ _ _ Hh)|apply create_order_wp]].
  intros ? s1 [(l & -> & Hl) Ho]. destruct (Ho l eq_refl) as [Ol Oo]. clear Ho.
  wp_step. eapply wp_mono; [|apply wp_and; [apply (alloc_new_wp t0 m 0 c l (Z.of_nat k) s1 0 0 Hl)|apply alloc_items_same]].
  2: { lia. }
  2: { split; [unfold last_id, INT_MAX in *; simpl; lia|]. split; [apply not_is_Some; rewrite (D (Z.of_nat k)); lia|].
       intros j Hj. apply D. lia. }
  intros r s2 [[-> H2] Es]. wp_step. eapply wp_mono; [|apply (IH (S k) _ s2 H2)].
  - intros ids s3 [-> (m' & Hm' & D' & O')]. wp_step. split; [done|]. exists m'.
    split; [done|]. by replace (k + S n)%nat with (S k + n)%nat by lia.
  - intros z. destruct (decide (z = Z.of_nat k)) as [->|N].
    + rewrite lookup_insert_eq. split; [lia|eauto].
    + rewrite lookup_insert_ne by done. rewrite (D z). lia.
  - intros z l' [[<- <-]|[N Hz]]%lookup_insert_Some; rewrite Es; [done|]. rewrite Oo; [by apply O|].
    intros ->. assert (E1 : items (t_items s1) !! l = Some z) by (apply (n_items _ _ _ _ _ _ _ Hl); left; by right).
    assert (E2 : items (t_items s1) !! l = Some (Z.of_nat k)) by (apply (n_items _ _ _ _ _ _ _ Hl); by right). congruence.
  - lia.
Qed.

Lemma show_item_wp l x s : items (t_items s) !! l = Some x →
  wp (show_item (Item l)) s (λ r s', s' = s ∧ r = (x, item_order (t_items s) l)).
Proof.
  intros E. unfold show_item. wp_step. eapply wp_mono; [|by apply item_index_wp]. intros ? ? [-> ->].
  wp_step. unfold wp at 1, get_order. rewrite bool_decide_eq_true_2 by eauto. by wp_step.
Qed.

Lemma found_wp t0 m b c id s : held t0 m b c s →
  wp (found id) s (λ r s', s' = s ∧ r = (λ l, (id, item_order (t_items s) l)) <$> m !! id).
Proof.
  intros [Hm Hi _ _ _]. unfold found. wp_step. unfold wp at 1, ask_idr. rewrite find_law, Hm, lookup_fmap.
  destruct (m !! id) as [l|] eqn:E; simpl.
  - wp_step. eapply wp_mono; [|apply (show_item_wp l id)]; [|apply Hi; by right].
    intros ? ? [-> ->]. by wp_step.
  - by wp_step.
Qed.

(** The ids are visited in order, each with its index and order. *)
Lemma for_each_entry_wp t0 m c hi s : held t0 m 0 c s → range_dom m 0 hi → ordered m s → hi <= INT_MAX → ∀ n k,
  0 <= k → k + Z.of_nat n = hi →
  wp (for_each_entry (S n) k) s (λ r s', s' = s ∧ r = Some ((λ i, (i, (i, i * 10))) <$> seqZ k (Z.of_nat n))).
Proof.
  intros Hh D O Hhi. pose proof (held_nonnull _ _ _ _ _ Hh) as NN. induction n as [|n IH]; intros k Hk Hn.
  - cbn [for_each_entry]. wp_step. unfold wp at 1, ask_idr. rewrite get_next_none_law; [cbn; rewrite bool_decide_eq_true_2 by done; by wp_step|done|].
    intros j Hj. rewrite (h_map _ _ _ _ _ Hh), lookup_fmap. apply fmap_None, not_is_Some. rewrite (D j). lia.
  - destruct (proj2 (D k)) as [l El]; [lia|]. remember (S n) as n' eqn:En. cbn [for_each_entry]. subst n'.
    wp_step. unfold wp at 1, ask_idr. rewrite (get_next_some_law k (t_idr s) k (Item l)).
    + cbn. rewrite bool_decide_eq_false_2 by done. wp_step. eapply wp_mono; [|apply (show_item_wp l k); apply (h_items _ _ _ _ _ Hh); by right].
      intros ? ? [-> ->]. wp_step. rewrite s32_id by (unfold INT_MAX in *; lia).
      eapply wp_mono; [|apply IH; lia]. intros ? ? [-> ->]. wp_step. split; [done|].
      rewrite (seqZ_cons k) by lia. simpl. rewrite (O _ _ El).
      by replace (Z.pred (Z.of_nat (S n))) with (Z.of_nat n) by lia.
    + done.
    + lia.
    + by rewrite (h_map _ _ _ _ _ Hh), lookup_fmap, El.
    + lia.
Qed.

(** What idr_test_simple prints: the ids 0 to 9, each with its index and its
    order, the item at 5 and nothing there after idr_remove, an empty idr. *)
Definition simple_prints : simple_out :=
  SimpleOut (seqZ 0 10) (Some ((λ i, (i, (i, i * 10))) <$> seqZ 0 10)) (Some (5, 50)) None true.

(** The item at [id] is removed and not freed: it now counts among those of
    others. *)
Lemma held_removed t0 m c l id s i : held t0 m 0 c s → m !! id = Some l →
  idr_map i = delete id (idr_map (t_idr s)) → idr_base i = idr_base (t_idr s) → idr_next i = idr_next (t_idr s) →
  held (<[l := id]> t0) (delete id m) 0 c (Tst i (t_items s)).
Proof.
  intros [Hm Hi Hf Hb Hc] El M1 B1 C1. pose proof (Hf _ _ El) as N0.
  assert (E5 : items (t_items s) !! l = Some id) by (apply Hi; by right).
  split; simpl; try congruence.
  - by rewrite M1, Hm, fmap_delete.
  - intros l' z. rewrite Hi, lookup_delete_Some. destruct (decide (l' = l)) as [->|N].
    + rewrite lookup_insert_eq, N0. split.
      * intros [?|Hz]; [done|]. left. f_equal.
        assert (Ez : items (t_items s) !! l = Some z) by (apply Hi; by right). congruence.
      * intros [[= <-]|[_ ?]]; by right.
    + rewrite lookup_insert_ne by done. split; [|naive_solver]. intros [?|Hz]; [by left|right].
      split; [|done]. intros <-. congruence.
  - intros z l' [Nz Hz]%lookup_delete_Some. rewrite lookup_insert_ne; [by eapply Hf|].
    intros <-. assert (Ez : items (t_items s) !! l = Some z) by (apply Hi; by right). congruence.
Qed.

Lemma idr_test_simple_wp s :
  wp idr_test_simple s (λ o s', o = simple_prints ∧
    t_idr s' = t_idr s ∧ ∃ l, items (t_items s) !! l = None ∧ items (t_items s') = <[l := 5]> (items (t_items s))).
Proof.
  eapply (wp_mono _ _ (λ x s', t_idr s' = t_idr s ∧ x = simple_prints ∧
    ∃ l, items (t_items s) !! l = None ∧ items (t_items s') = <[l := 5]> (items (t_items s)))).
  { by intros o s' (E & -> & L). }
  apply (with_idr_wp _ _ s (λ x t, x = simple_prints ∧
    ∃ l, items (t_items s) !! l = None ∧ items t = <[l := 5]> (items (t_items s)))).
  destruct define_idr_law as (D1 & D2 & D3). set (t0 := items (t_items s)).
  assert (H0' : held t0 ∅ 0 0 (Tst DEFINE_IDR (t_items s))).
  { pose proof (held_start t0 (Tst DEFINE_IDR (t_items s)) eq_refl D1) as Hs. simpl in Hs. by rewrite D2, D3 in Hs. }
  wp_step. eapply wp_mono; [|apply (simple_loop_wp t0 0 10 0 ∅ _ H0')].
  2: { intros z. rewrite lookup_empty. split; [by intros [? [=]]|lia]. }
  2: { by intros z l [=]. }
  2: { by vm_compute. }
  intros ids s1 [-> (m & H1 & D & O)]. destruct (proj2 (D 5)) as [l El]; [lia|].
  wp_step. eapply wp_mono; [|apply (for_each_entry_wp t0 m 0 10 s1 H1 D O) with (n := 10%nat); [by vm_compute|lia|lia]].
  intros es ? [-> ->].
  wp_step. eapply wp_mono; [|apply (found_wp t0 m 0 0 5 s1 H1)]. intros a ? [-> ->]. rewrite El. simpl. rewrite (O _ _ El).
  wp_step. apply on_idr_wp. intros p i Er. apply remove_law in Er as (_ & M1 & B1 & C1).
  pose proof (held_removed _ _ _ _ _ _ _ H1 El M1 B1 C1) as H2.
  wp_step. eapply wp_mono; [|apply (found_wp _ _ _ _ 5 _ H2)]. intros b ? [-> ->]. rewrite lookup_delete_eq. simpl.
  wp_step. eapply wp_mono; [|apply (free_all_wp _ _ _ _ _ H2)].
  2: { intros z [l' [_ Hz]%lookup_delete_Some]. apply (range_dom_bound m 0 10); [exact D|lia|lia|eauto]. }
  intros ? s4 H4. apply held_plain in H4 as (Et & _ & _ & Dm). wp_step. unfold wp at 1, ask_idr. wp_step.
  split; [|exists l; by split; [eapply (h_fresh _ _ _ _ _ H1)|]]. unfold simple_prints.
  rewrite is_empty_law, bool_decide_eq_true_2; [done|].
  apply map_empty. intros z. apply not_is_Some. rewrite (Dm z). tauto.
Qed.

End simple.

(** ** IDA *)

Section ida.
Context {A : Type} `{Ida A}.

Lemma on_ida_wp {B} (f : A → B * A) a (Q : B → A → Prop) : (∀ b a', f a = (b, a') → Q b a') → wp (on_ida f) a Q.
Proof. unfold wp, on_ida. destruct (f a) as [b a']. auto. Qed.
Lemma IDA_BUG_ON_wp b a (Q : unit → A → Prop) : b = false → Q tt a → wp (IDA_BUG_ON b) a Q.
Proof. by intros ->. Qed.

Lemma ida_alloc_wp lo hi k a : 0 <= lo → lo <= k <= hi → k ∉ ida_set a → (∀ j, lo <= j < k → j ∈ ida_set a) →
  wp (on_ida (ida_alloc_range lo hi)) a (λ r a', r = k ∧ ida_set a' = {[k]} ∪ ida_set a).
Proof.
  intros Hlo Hk Nk Fk. apply on_ida_wp. intros r a' E. apply ida_alloc_law in E; [|done].
  destruct E as [(Hr & Nr & Fr & Ea)|(-> & F & _)].
  - destruct (Z.lt_trichotomy r k) as [L|[->|L]]; [|done|]; exfalso.
    + apply Nr, Fk. lia.
    + apply Nk, Fr. lia.
  - exfalso. apply Nk, F. lia.
Qed.

(** The ida holds the ids of the bits that are set. *)
Lemma random_draw_wp i bitmap a : ida_set a = bitmap →
  wp (random_draw bitmap i) a (λ bitmap' a', ida_set a' = bitmap').
Proof.
  intros E. unfold random_draw. set (bit := Z.land i 2047). assert (Hb : 0 <= bit <= 2047).
  { unfold bit. change 2047 with (Z.ones 11). rewrite Z.land_ones by lia.
    pose proof (Z.mod_pos_bound i (2 ^ 11)). change (2 ^ 11) with 2048 in *. change (Z.ones 11) with 2047. lia. }
  case_bool_decide as Hin.
  - wp_step. apply on_ida_wp. intros ? a' [= _ <-]. wp_step. by rewrite ida_free_law, E.
  - wp_step. eapply wp_mono; [|apply (ida_alloc_wp bit INT_MAX bit a)];
      [|lia|unfold INT_MAX; lia|by rewrite E|intros j Hj; lia].
    intros r a' [-> Ea]. wp_step. apply IDA_BUG_ON_wp; [by rewrite Z.eqb_refl|]. wp_step. by rewrite Ea, E.
Qed.
Lemma random_pass_wp rands : ∀ bitmap a, ida_set a = bitmap → wp (random_pass bitmap rands) a (λ _ _, True).
Proof.
  induction rands as [|i rands IH]; intros bitmap a E; cbn [random_pass]; [by wp_step|].
  wp_step. eapply wp_mono; [|by apply random_draw_wp]. intros bitmap' a' E'. by apply IH.
Qed.

(** Ida_check_random: whatever rand() gives, in any number of passes of any
    length, no assertion fails: the ida holds the ids whose bits are set in the
    bitmap all along; and the ida is empty at the end. *)
Theorem ida_check_random_passes passes a : ida_set a = ∅ →
  wp (ida_check_random passes) a (λ _ a', ida_set a' = ∅).
Proof.
  revert a. induction passes as [|rands passes IH]; intros a E; unfold ida_check_random; cbn [mforeach]; [by wp_step|].
  wp_step. wp_step. eapply wp_mono; [|by apply random_pass_wp]. intros ? a1 _.
  apply on_ida_wp. intros ? a2 [= _ <-]. apply IH, ida_destroy_law.
Qed.

(** The first [n] ids. *)
Definition first_ids (n : Z) : gset Z := list_to_set (seqZ 0 n).
Lemma elem_first_ids n z : z ∈ first_ids n ↔ 0 <= z < n.
Proof. unfold first_ids. rewrite elem_of_list_to_set, elem_of_seqZ. lia. Qed.
Lemma first_ids_succ n : 0 <= n → {[n]} ∪ first_ids n = first_ids (n + 1).
Proof. intros. apply set_eq. intros z. rewrite elem_of_union, elem_of_singleton, !elem_first_ids. lia. Qed.

(** Ida_simple_get_remove_test passes on an empty ida: ten thousand ids in
    order, no room between 5 and 30, and an empty ida after they were freed. *)
Theorem ida_simple_get_remove_passes a : ida_set a = ∅ →
  wp ida_simple_get_remove_test a (λ _ a', ida_set a' = ∅).
Proof.
  intros E. unfold ida_simple_get_remove_test. wp_step.
  eapply wp_mono; [|apply (mfor_wp (λ k a', ida_set a' = first_ids (Z.of_nat k)) 0)].
  2: { by rewrite E. }
  2: { intros k a' Hk Ea. wp_step. change (ida_simple_get 0 20000) with (on_ida (ida_alloc_range (A := A) 0 19999)).
       eapply wp_mono; [|apply (ida_alloc_wp 0 19999 (Z.of_nat k) a')];
         [|lia|lia|rewrite Ea, elem_first_ids; lia|intros j Hj; rewrite Ea, elem_first_ids; lia].
       intros r a2 [-> E2]. apply IDA_BUG_ON_wp; [rewrite u64_id by lia; by rewrite Z.eqb_refl|].
       rewrite E2, Ea, first_ids_succ by lia. f_equal. lia. }
  intros ? a1 E1. rewrite Nat.add_0_l, Z2Nat.id in E1 by lia. wp_step. change (ida_simple_get 5 30) with (on_ida (ida_alloc_range (A := A) 5 29)).
  apply on_ida_wp. intros r a2 Er. apply ida_alloc_law in Er; [|lia].
  destruct Er as [(Hr & Nr & _)|(-> & _ & E2)].
  { rewrite E1, elem_first_ids in Nr. lia. }
  wp_step. apply IDA_BUG_ON_wp; [done|]. wp_step.
  eapply wp_mono; [|apply (mfor_wp (λ k a', ∀ z, z ∈ ida_set a' ↔ Z.of_nat k <= z < 10000) 0)].
  2: { intros z. rewrite E2, E1, elem_first_ids. lia. }
  2: { intros k a3 Hk E3. apply on_ida_wp. intros ? a4 [= _ <-] z.
       rewrite ida_free_law, elem_of_difference, elem_of_singleton, E3. lia. }
  intros ? a3 E3. cbv beta in E3. assert (Em : ida_set a3 = ∅).
  { apply set_eq. intros z. rewrite E3, elem_of_empty. lia. }
  wp_step. apply on_ida_wp. intros e a6 [= <- <-]. rewrite ida_is_empty_law, bool_decide_eq_true_2 by done.
  wp_step. apply IDA_BUG_ON_wp; [done|]. apply on_ida_wp. intros ? a7 [= _ <-]. apply ida_destroy_law.
Qed.

End ida.

(** ** main *)

Section main.
Context {I T A : Type} `{Idr I} `{Items T} `{Ida A}.

(** The ids below [hi] are taken, but for [holes]. *)
Definition used (hi : nat) (holes : list Z) (a : A) : Prop :=
  ∀ z, z ∈ ida_set a ↔ 0 <= z < Z.of_nat hi ∧ z ∉ holes.

Lemma ida_ids_cons n k (a : A) (Q : list Z → A → Prop) : 0 <= k <= INT_MAX → k ∉ ida_set a →
  (∀ j, 0 <= j < k → j ∈ ida_set a) →
  (∀ a', ida_set a' = {[k]} ∪ ida_set a → wp (ida_ids n) a' (λ r, Q (k :: r))) → wp (ida_ids (S n)) a Q.
Proof.
  intros Hk Nk Fk HQ. cbn [ida_ids]. wp_step. eapply wp_mono; [|apply (ida_alloc_wp 0 INT_MAX k a); (done || lia)].
  intros r a1 [-> E1]. wp_step. eapply wp_mono; [|by apply HQ]. intros r a2 Hr. by wp_step.
Qed.

(** The holes come back first, lowest first, and then new ids. *)
Lemma ida_ids_wp hs n : ∀ hi (a : A), used hi hs a → StronglySorted Z.lt hs →
  Forall (λ h, 0 <= h < Z.of_nat hi) hs → Z.of_nat (hi + n) <= INT_MAX →
  wp (ida_ids (length hs + n)) a (λ r a', r = hs ++ (Z.of_nat <$> seq hi n) ∧ used (hi + n) [] a').
Proof.
  induction hs as [|h hs IH].
  - simpl. induction n as [|n IH]; intros hi a E _ _ Hn.
    { cbn [ida_ids]. wp_step. split; [done|]. by rewrite Nat.add_0_r. }
    apply (ida_ids_cons n (Z.of_nat hi)); [unfold INT_MAX in *; lia|intros [? _]%E; lia|intros j Hj; apply E; split; [lia|by apply not_elem_of_nil]|].
    intros a1 E1. eapply wp_mono; [|apply (IH (S hi)); [|constructor|constructor|lia]].
    + intros r a2 [-> E2]. split; [done|]. by replace (hi + S n)%nat with (S hi + n)%nat by lia.
    + intros z. rewrite E1, elem_of_union, elem_of_singleton, (E z). pose proof (not_elem_of_nil z) as Nz.
      split; [intros [->|[? _]]; (split; [lia|done])|]. intros [? _].
      destruct (decide (z = Z.of_nat hi)) as [->|]; [by left|right; split; [lia|done]].
  - intros hi a E SS F Hn. apply StronglySorted_inv in SS as [SS Hlt]. apply Forall_cons in F as [Hh F].
    rewrite Forall_forall in Hlt. simpl. apply (ida_ids_cons _ h).
    + unfold INT_MAX in *. lia.
    + intros [_ N]%E. by destruct N; left.
    + intros j Hj. apply E. split; [lia|]. intros [->|Hin]%elem_of_cons; [lia|]. specialize (Hlt j Hin). lia.
    + intros a1 E1. eapply wp_mono; [|apply (IH hi a1); [|done|done|lia]]; [intros r a2 [-> E2]; by split|].
      intros z. rewrite E1, elem_of_union, elem_of_singleton, (E z), not_elem_of_cons. split.
      * intros [->|(? & ? & ?)]; [|done]. split; [lia|]. intros Hin. specialize (Hlt h Hin). lia.
      * intros [? N]. destruct (decide (z = h)) as [->|]; [by left|by right].
Qed.

(** ida_test_simple: the ids 0 to 9, and after 3 and 5 were freed these and the
    next three. *)
Lemma ida_test_simple_wp (a : A) : ida_set a = ∅ →
  wp ida_test_simple a (λ r a', r = (seqZ 0 10, [3; 5; 10; 11; 12]) ∧ ida_set a' = ∅).
Proof.
  intros E. unfold ida_test_simple. wp_step.
  eapply wp_mono; [|apply (ida_ids_wp [] 10 0 a); [|constructor|constructor|by vm_compute]].
  2: { intros z. rewrite E, elem_of_empty. lia. }
  intros ? a1 [-> E1]. wp_step. apply on_ida_wp. intros ? a2 [= _ <-]. wp_step. apply on_ida_wp. intros ? a3 [= _ <-].
  wp_step. eapply wp_mono; [|apply (ida_ids_wp [3; 5] 3 10); [|repeat constructor|repeat constructor; lia|by vm_compute]].
  - intros ? a4 [-> E4]. wp_step. apply on_ida_wp. intros ? a5 [= _ <-]. wp_step. split; [done|]. apply ida_destroy_law.
  - intros z. rewrite !ida_free_law, !elem_of_difference, !elem_of_singleton, (E1 z), !not_elem_of_cons.
    pose proof (not_elem_of_nil z). split; intros; destruct_and?; split_and!; try done; lia.
Qed.

(** What main does, on every kernel whose IDR and IDA meet their laws: it
    prints the ids 0 to 9, after 3 and 5 were freed these and 10 to 12; then the
    ids 0 to 9 of ten items, each with its index and its order in the order of
    the ids, the item found at 5 and nothing there after idr_remove, and an
    empty idr; and the item removed at 5 is never freed. *)
Theorem idr_main_prints (s : tst I T) :
  wp (main (A := A)) s (λ o s', o = (seqZ 0 10, [3; 5; 10; 11; 12], simple_prints) ∧ t_idr s' = t_idr s ∧
    ∃ l, items (t_items s) !! l = None ∧ items (t_items s') = <[l := 5]> (items (t_items s))).
Proof.
  unfold main, wp at 1.
  destruct (wp_elim _ _ _ (ida_test_simple_wp (DEFINE_IDA : A) define_ida_law)) as (x & a' & -> & -> & _).
  destruct (wp_elim _ _ _ (idr_test_simple_wp s)) as (y & s' & E & -> & P). rewrite (bind_run _ _ _ _ _ E). done.
Qed.

End main.

(** ** Witnesses *)

Section examples.
#[local] Existing Instance simple_idr_ok.
#[local] Existing Instance simple_items.
#[local] Existing Instance simple_ida.

Definition tst0 : tst simple_idr (gmap loc (Z * Z)) := Tst (SIdr ∅ 0 0) ∅.

(** A tree in which every leaf that holds no id is missing. *)
#[local] Program Instance simple_memory : IdrMemory simple_idr 64 := {
  idr_needs i k := forallb (λ p, negb (p.1 / 64 =? k / 64)) (map_to_list (si_map i))
}.
Next Obligation.
  intros i j k p E Ek. simpl in *. apply not_true_is_false. rewrite forallb_forall. intros F.
  specialize (F (j, p)). rewrite <- list_elem_of_In, elem_of_map_to_list in F. simpl in F.
  rewrite Ek, Z.eqb_refl in F. by specialize (F E).
Qed.

Lemma idr_checks_pass_witness :
  wp (idr_checks 64) tst0 (λ _ s', t_idr s' = t_idr tst0 ∧ items (t_items s') = items (t_items tst0)).
Proof. refine (idr_checks_pass 64 _ tst0). lia. Defined.

Lemma ida_check_random_passes_witness :
  wp (ida_check_random [[5; 2053; 5]; [7]]) (∅ : gset Z) (λ _ a', ida_set a' = ∅).
Proof. by apply (ida_check_random_passes [[5; 2053; 5]; [7]] (∅ : gset Z)). Defined.

Lemma ida_simple_get_remove_passes_witness :
  wp ida_simple_get_remove_test (∅ : gset Z) (λ _ a', ida_set a' = ∅).
Proof. by apply (ida_simple_get_remove_passes (∅ : gset Z)). Defined.

(** The first run to its end, with the other thread between its calls when the
    main thread looks, and on to the second. *)

Example idr_main_run : ∃ s', main (A := gset Z) tst0 = Ret ((seqZ 0 10, [3; 5; 10; 11; 12], simple_prints), s').
Proof. eexists. by vm_compute. Qed.

End examples.
