(* ===== verification/IdaChecks.v ===== *)
(** The IDA half of src/linux/tools/testing/idr-test.c: user_ida_checks, with its
    two tests of allocations that may not sleep, and the twenty threads of
    ida_thread_tests.

    [ida_tests] of the source runs these two and ida_checks, which is in
    lib/test_ida.c of the kernel. *)
From Stdlib Require Import ZArith Lia.
From stdpp Require Import base list gmap relations.
From S2P Require Import Prelude Kernel Idr IdrTest IdrTestThms IdrChecks.

#[local] Arguments Z.to_nat : simpl never.
#[local] Arguments Z.of_nat : simpl never.

(** ** ida_thread_tests *)

(** A thread in ida_check_random: its ida, its bitmap and the rounds done of this
    pass; or back from it; or stopped by IDA_BUG_ON. *)
Inductive ida_thread (A : Type) :=
  | TRun (a : A) (bitmap : gset Z) (n : nat)
  | TBack (a : A)
  | TBug.
Arguments TRun {A}.
Arguments TBack {A}.
Arguments TBug {A}.

Inductive tests_pc := PCreate (i : nat) | PJoin (i : nat) | PJoined | PExit.
Record tests_st (A : Type) := TestsSt { t_pc : tests_pc; t_threads : list (ida_thread A) }.
Arguments TestsSt {A}.
Arguments t_pc {A}.
Arguments t_threads {A}.

Definition NTHREADS : nat := 20.
Definition ROUNDS : nat := Z.to_nat 100000.

Section threads.
Context {A : Type} `{Ida A}.

(** rand() gives any number; the clock decides whether there is another pass. *)
Inductive random_step : ida_thread A → ida_thread A → Prop :=
  | random_round a bitmap n i a' bitmap' : (n < ROUNDS)%nat →
      random_draw bitmap i a = Ret (bitmap', a') → random_step (TRun a bitmap n) (TRun a' bitmap' (S n))
  | random_bug a bitmap n i f : (n < ROUNDS)%nat →
      random_draw bitmap i a = Fault f → random_step (TRun a bitmap n) TBug
  | random_repeat a bitmap : random_step (TRun a bitmap ROUNDS) (TRun (ida_destroy a) ∅ 0)
  | random_end a bitmap : random_step (TRun a bitmap ROUNDS) (TBack (ida_destroy a)).

(** The main thread creates the threads and joins them, last first; any thread
    that was created may run in between. *)
Inductive thread_tests_step : tests_st A → tests_st A → Prop :=
  | tests_create i ths : (i < NTHREADS)%nat →
      thread_tests_step (TestsSt (PCreate i) ths) (TestsSt (PCreate (S i)) (ths ++ [TRun DEFINE_IDA ∅ 0]))
  | tests_exit i ths : (i < NTHREADS)%nat → thread_tests_step (TestsSt (PCreate i) ths) (TestsSt PExit ths)
  | tests_created ths : thread_tests_step (TestsSt (PCreate NTHREADS) ths) (TestsSt (PJoin NTHREADS) ths)
  | tests_join i ths a : ths !! i = Some (TBack a) →
      thread_tests_step (TestsSt (PJoin (S i)) ths) (TestsSt (PJoin i) ths)
  | tests_joined ths : thread_tests_step (TestsSt (PJoin 0) ths) (TestsSt PJoined ths)
  | tests_thread pc ths k t t' : pc ≠ PExit → ths !! k = Some t → random_step t t' →
      thread_tests_step (TestsSt pc ths) (TestsSt pc (<[k := t']> ths)).

Definition tests_start : tests_st A := TestsSt (PCreate 0) [].

(** *** The invariant *)

Definition thread_ok (t : ida_thread A) : Prop :=
  match t with
  | TRun a bitmap n => ida_set a = bitmap ∧ (n ≤ ROUNDS)%nat
  | TBack a => ida_set a = ∅
  | TBug => False
  end.
Definition is_back (t : ida_thread A) : Prop := match t with TBack _ => True | _ => False end.
Definition pc_ok (pc : tests_pc) (ths : list (ida_thread A)) : Prop :=
  match pc with
  | PCreate i => length ths = i ∧ (i ≤ NTHREADS)%nat
  | PJoin i => length ths = NTHREADS ∧ (i ≤ NTHREADS)%nat ∧ ∀ k t, (i ≤ k)%nat → ths !! k = Some t → is_back t
  | PJoined => length ths = NTHREADS ∧ Forall is_back ths
  | PExit => True
  end.
Definition tests_inv (s : tests_st A) : Prop := pc_ok (t_pc s) (t_threads s) ∧ Forall thread_ok (t_threads s).

Lemma random_step_ok t t' : random_step t t' → thread_ok t → thread_ok t' ∧ ¬ is_back t.
Proof.
  intros [a bm n i a' bm' Hn E|a bm n i f Hn E|a bm|a bm] T; simpl in *.
  - pose proof (wp_run _ _ _ _ _ (random_draw_wp i bm a (proj1 T)) E) as E'. split; [split; [done|lia]|tauto].
  - pose proof (random_draw_wp i bm a (proj1 T)) as W. unfold wp in W. by rewrite E in W.
  - split; [|tauto]. split; [apply ida_destroy_law|lia].
  - split; [apply ida_destroy_law|tauto].
Qed.

Lemma tests_step_inv s s' : thread_tests_step s s' → tests_inv s → tests_inv s'.
Proof.
  intros [i ths Hi|i ths Hi|ths|i ths a E|ths|pc ths k t t' Hpc Ek St] [P F]; unfold tests_inv in *; simpl in *.
  - split; [rewrite length_app; simpl; lia|]. apply Forall_app. split; [done|]. constructor; [|constructor].
    split; [apply define_ida_law|lia].
  - done.
  - destruct P as [L _]. split; [|done]. split_and!; [done|lia|]. intros k t Hk Ek. apply lookup_lt_Some in Ek. lia.
  - destruct P as (L & Hi & B). split; [|done]. split_and!; [done|lia|]. intros k t Hk Ek.
    destruct (decide (k = i)) as [->|]; [by simplify_eq|]. apply (B k t); [lia|done].
  - destruct P as (L & _ & B). split; [|done]. split; [done|]. apply Forall_lookup. intros k t. apply B. lia.
  - destruct (random_step_ok t t' St) as [Ok Nb]; [by eapply Forall_lookup_1|].
    split; [|by apply Forall_insert]. destruct pc as [i|i| |]; simpl in *; rewrite ?length_insert; [done| | |done].
    + destruct P as (L & Hi & B). split_and!; [done|done|]. intros j u Hj Ej. destruct (decide (j = k)) as [->|N].
      * destruct Nb. by apply (B k t).
      * rewrite list_lookup_insert_ne in Ej by done. by apply (B j u).
    + destruct P as [L B]. destruct Nb. by eapply Forall_lookup_1.
Qed.

Lemma tests_reachable_inv s : rtc thread_tests_step tests_start s → tests_inv s.
Proof.
  apply (rtc_ind_r tests_inv).
  - split; [split; [done|unfold NTHREADS; simpl; lia]|constructor].
  - intros y z _ St. by apply tests_step_inv.
Qed.

(** A thread that is not back can go on. *)
Lemma random_progress t : thread_ok t → ¬ is_back t → ∃ t', random_step t t'.
Proof.
  destruct t as [a bm n|a|]; simpl; [|tauto..]. intros [E Hn] _.
  destruct (decide (n = ROUNDS)) as [->|]; [eexists; apply random_end|].
  destruct (wp_elim _ _ _ (random_draw_wp 0 bm a E)) as (bm' & a' & R & _).
  eexists. eapply random_round; [lia|exact R].
Qed.

(** Ida_thread_tests: under every interleaving of the twenty threads and
    whatever rand() gives each, no IDA_BUG_ON fires; the main thread is never
    stuck, and when it has joined the threads all of them are back with an empty
    ida. *)
Theorem ida_thread_tests_safe s : rtc thread_tests_step tests_start s →
  (TBug ∉ t_threads s) ∧
  (t_pc s = PJoined → length (t_threads s) = NTHREADS ∧
     Forall (λ t, ∃ a, t = TBack a ∧ ida_set a = ∅) (t_threads s)) ∧
  (t_pc s ≠ PJoined → t_pc s ≠ PExit → ∃ s', thread_tests_step s s').
Proof.
  intros R. apply tests_reachable_inv in R as [P F]. destruct s as [pc ths]. simpl in *. split_and!.
  - intros B. rewrite Forall_forall in F. by apply (F _ B).
  - intros ->. destruct P as [L B]. split; [done|]. rewrite Forall_forall in B, F |- *.
    intros t Ht. specialize (B t Ht). specialize (F t Ht). destruct t as [a bm n|a|]; [done|by exists a|done].
  - intros N1 N2. destruct pc as [i|i| |]; [..|done|done].
    + destruct P as [L Hi]. destruct (decide (i = NTHREADS)) as [->|]; [eexists; apply tests_created|].
      eexists. apply tests_create. lia.
    + destruct P as (L & Hi & B). destruct i as [|i]; [eexists; apply tests_joined|].
      destruct (lookup_lt_is_Some_2 ths i) as [t E]; [lia|].
      destruct t as [a bm n|a|] eqn:Et; [|by eexists; eapply tests_join|].
      * destruct (random_progress t) as [t' St]; subst t; [by eapply Forall_lookup_1|tauto|].
        eexists. by eapply (tests_thread _ _ i).
      * exfalso. by apply (Forall_lookup_1 _ _ _ _ F E).
Qed.

End threads.

(** ** user_ida_checks *)

Section user.
Context {A : Type} `{Ida A}.
Variables IDA_BITMAP_BITS BITS_PER_XA_VALUE : Z.
Hypothesis value_bits : 0 < BITS_PER_XA_VALUE <= 256.
Context `{!IdaMemory A IDA_BITMAP_BITS BITS_PER_XA_VALUE}.
Implicit Types a : A.

Lemma nowait_nomem min a : ida_needs a min = true →
  wp (ida_alloc_nowait IDA_BITMAP_BITS BITS_PER_XA_VALUE min) a (λ r a', r = - ENOMEM ∧ a' = a).
Proof. intros E. unfold ida_alloc_nowait. wp_step. wp_step. rewrite E. by wp_step. Qed.

Lemma ida_check_nomem_wp a : ida_set a = ∅ →
  wp (ida_check_nomem IDA_BITMAP_BITS BITS_PER_XA_VALUE) a (λ _ a', a' = a).
Proof.
  intros E. unfold ida_check_nomem. wp_step.
  eapply wp_mono; [|apply nowait_nomem, ida_needs_first_law; [done|lia]]. intros r ? [-> ->].
  wp_step. apply IDA_BUG_ON_wp; [done|]. wp_step.
  eapply wp_mono; [|apply nowait_nomem, ida_needs_first_law; [done|by change (Z.shiftl 1 30) with 1073741824; lia]]. intros r ? [-> ->].
  wp_step. apply IDA_BUG_ON_wp; [done|]. wp_step. apply on_ida_wp. intros e ? [= <- <-].
  apply IDA_BUG_ON_wp; [|done]. by rewrite ida_is_empty_law, bool_decide_eq_true_2.
Qed.

(** The next id, whether or not its memory was there. *)
Lemma conv_user_round_wp n a : 0 <= n < 1000000 → ida_set a = first_ids n →
  wp (conv_user_round IDA_BITMAP_BITS BITS_PER_XA_VALUE n) a (λ _ a', ida_set a' = first_ids (n + 1)).
Proof.
  intros Hn E. assert (Al : wp (ida_alloc : M A Z) a (λ r a', r = n ∧ ida_set a' = first_ids (n + 1))).
  { eapply wp_mono; [|apply (ida_alloc_wp 0 INT_MAX n a)]; [|lia|unfold INT_MAX; lia| |].
    - intros r a' [-> ->]. by rewrite E, first_ids_succ by lia.
    - rewrite E, elem_first_ids. lia.
    - intros j Hj. rewrite E, elem_first_ids. lia. }
  destruct (ida_needs_next_law a n) as [L1 L2]; [lia|intros z; rewrite E; apply elem_first_ids|].
  unfold conv_user_round. wp_step. unfold ida_alloc_nowait. wp_step. wp_step.
  destruct (ida_needs a 0) eqn:En.
  - wp_step. rewrite Z.eqb_refl. wp_step. wp_step. apply IDA_BUG_ON_wp.
    { destruct (L1 eq_refl) as [->| ->]; [by rewrite andb_comm|]. by rewrite Z.eqb_refl. }
    eapply wp_mono; [|exact Al]. intros r a' [-> E']. apply IDA_BUG_ON_wp; [|done].
    by rewrite u64_id, Z.eqb_refl by lia.
  - change (ida_alloc_min 0) with (ida_alloc : M A Z). eapply wp_mono; [|exact Al]. intros r a' [-> E'].
    rewrite (proj2 (Z.eqb_neq n (- ENOMEM))) by (unfold ENOMEM; lia). wp_step. wp_step. apply IDA_BUG_ON_wp.
    { apply Z.eqb_neq. intros Ev. by specialize (L2 Ev). }
    wp_step. apply IDA_BUG_ON_wp; [|done]. by rewrite u64_id, Z.eqb_refl by lia.
Qed.

Lemma ida_check_conv_user_wp a : ida_set a = ∅ →
  wp (ida_check_conv_user IDA_BITMAP_BITS BITS_PER_XA_VALUE) a (λ _ a', ida_set a' = ∅).
Proof.
  intros E. unfold ida_check_conv_user. wp_step.
  eapply wp_mono; [|apply (mfor_wp (λ k a', ida_set a' = first_ids (Z.of_nat k)) 0)].
  - intros ? a1 _. apply on_ida_wp. intros ? a2 [= _ <-]. apply ida_destroy_law.
  - by rewrite E.
  - intros k a1 Hk E1. eapply wp_mono; [|apply (conv_user_round_wp (Z.of_nat k) a1); [lia|done]].
    intros ? a2 ->. f_equal. lia.
Qed.

Lemma with_ida_wp {B} (m : M A B) (Q : B → A → Prop) : wp m DEFINE_IDA Q → wp (with_ida m) tt (λ _ _, True).
Proof. unfold wp, with_ida. by destruct (m DEFINE_IDA) as [[b a]|f]. Qed.

(** User_ida_checks: on every IDA whose allocations that may not sleep fail only
    where the tests expect it, none of the assertions fails, whatever rand()
    gives: in particular every id of ida_check_conv_user is the one of its
    round, whether it took one attempt or two. *)
Theorem user_ida_checks_pass passes :
  wp (user_ida_checks IDA_BITMAP_BITS BITS_PER_XA_VALUE passes) tt (λ _ _, True).
Proof.
  pose proof define_ida_law as E. unfold user_ida_checks.
  wp_step. eapply wp_mono; [|eapply with_ida_wp, ida_check_nomem_wp, E]. intros ? [] _.
  wp_step. eapply wp_mono; [|eapply with_ida_wp, ida_check_conv_user_wp, E]. intros ? [] _.
  wp_step. eapply wp_mono; [|eapply with_ida_wp, ida_check_random_passes, E]. intros ? [] _.
  eapply with_ida_wp, ida_simple_get_remove_passes, E.
Qed.

End user.

(** ** Witnesses *)

Section examples.
#[local] Existing Instance simple_ida.

(** Memory for a new bitmap, and for the bit after those of a value. *)
Definition demo_needs (a : gset Z) (lo : Z) : bool :=
  let k := free_from (gset_to_gmap () a) lo in
  (bool_decide (a = ∅) && (63 <=? lo)) || (k mod 1024 =? 0) || (k mod 1024 =? 63).

Lemma free_from_first (a : gset Z) n : 0 <= n → (∀ z, z ∈ a ↔ 0 <= z < n) → free_from (gset_to_gmap () a) 0 = n.
Proof.
  intros Hn E. destruct (free_from_spec (gset_to_gmap () a) 0) as (L & N & F).
  set (k := free_from (gset_to_gmap () a) 0) in *. rewrite lookup_gset_to_gmap_None in N.
  destruct (Z.lt_trichotomy k n) as [Lt|[|Gt]]; [|done|]; exfalso.
  - apply N, E. lia.
  - destruct (F n) as [v Ev]; [lia|]. apply lookup_gset_to_gmap_Some in Ev as [Ev _]. apply E in Ev. lia.
Qed.

#[local] Program Instance demo_memory : IdaMemory (gset Z) 1024 63 := { ida_needs := demo_needs }.
Next Obligation.
  intros a lo E Hlo. simpl in E. unfold demo_needs. rewrite bool_decide_eq_true_2 by done. by rewrite (proj2 (Z.leb_le 63 lo)).
Qed.
Next Obligation.
  intros a n Hn E. simpl in E. unfold demo_needs. rewrite (free_from_first a n Hn E), andb_false_r. simpl. split.
  - intros [?%Z.eqb_eq|?%Z.eqb_eq]%orb_prop; auto.
  - intros ->. apply orb_true_r.
Qed.

Lemma user_ida_checks_pass_witness : wp (user_ida_checks 1024 63 [[5; 2053]; [7]]) tt (λ _ _, True).
Proof. refine (user_ida_checks_pass 1024 63 _ [[5; 2053]; [7]]). lia. Defined.

(** A thread in its second round while the main thread creates the next one. *)
Lemma ida_thread_tests_safe_witness : ∃ s : tests_st (gset Z),
  rtc thread_tests_step tests_start s ∧ t_threads s = [TRun {[5]} {[5]} 1; TRun ∅ ∅ 0] ∧ TBug ∉ t_threads s.
Proof.
  eexists. match goal with |- ?R ∧ _ => assert (Run : R) end.
  { eapply rtc_l; [apply tests_create; unfold NTHREADS; lia|].
    eapply rtc_l; [eapply (tests_thread _ _ 0); [done|reflexivity|]|].
    { eapply (random_round _ _ _ 5); [unfold ROUNDS; lia|]. by vm_compute. }
    eapply rtc_l; [apply tests_create; unfold NTHREADS; lia|]. apply rtc_refl. }
  split; [exact Run|]. split; [reflexivity|]. exact (proj1 (ida_thread_tests_safe _ Run)).
Defined.

End examples.
